(** * SOF pipeline execution engine: component state machine, ring buffer
      transfer primitive, graph walks and XRUN handling.

    A shallow embedding of
      - [src/audio/component.c]   (comp_set_state and the pipeline_* walks),
      - [src/include/sof/audio/component.h] (states, commands, inline helpers),
      - [src/audio/src/src.c]     (comp_update_buffer_produce / _consume,
                                   buffer_set_size and the sample rate
                                   converter),
      - [src/ipc/ipc.c]           (ipc_get_ppl_comp),
    followed by the properties of the specification stated over it. *)

From Stdlib Require Import ZArith Lia List.
From stdpp Require Import base option list gmap.

Local Open Scope Z_scope.

(** ** Constants of component.h *)

Definition COMP_STATE_INIT    : Z := 0.
Definition COMP_STATE_READY   : Z := 1.
Definition COMP_STATE_SUSPEND : Z := 2.
Definition COMP_STATE_PREPARE : Z := 3.
Definition COMP_STATE_PAUSED  : Z := 4.
Definition COMP_STATE_ACTIVE  : Z := 5.

Definition COMP_TRIGGER_STOP    : Z := 0.
Definition COMP_TRIGGER_START   : Z := 1.
Definition COMP_TRIGGER_PAUSE   : Z := 2.
Definition COMP_TRIGGER_RELEASE : Z := 3.
Definition COMP_TRIGGER_SUSPEND : Z := 4.
Definition COMP_TRIGGER_RESUME  : Z := 5.
Definition COMP_TRIGGER_RESET   : Z := 6.
Definition COMP_TRIGGER_PREPARE : Z := 7.
Definition COMP_TRIGGER_XRUN    : Z := 8.

Definition COMP_STATUS_STATE_ALREADY_SET : Z := 1.

(** [enum comp_endpoint_type] *)
Definition COMP_ENDPOINT_HOST : Z := 0.
Definition COMP_ENDPOINT_DAI  : Z := 1.
Definition COMP_ENDPOINT_NODE : Z := 2.

(** errno.h values used by the engine. *)
Definition EINVAL : Z := 22.
Definition EBUSY  : Z := 16.
Definition ENOMEM : Z := 12.

(** Modelled from the spec: the constants of [sof/audio/pipeline.h],
    [ipc/stream.h] and [ipc/topology.h], which are not part of the sources at
    hand.  The walk direction DOWNSTREAM follows sink-buffer links and UPSTREAM
    follows source-buffer links; the "stop walk" status is the value 1 that
    component.h documents for every component operation ("1 to stop the
    pipeline walk operation"). *)
Definition SOF_IPC_STREAM_PLAYBACK : Z := 0.
Definition SOF_IPC_STREAM_CAPTURE  : Z := 1.
Definition PPL_DIR_DOWNSTREAM : Z := SOF_IPC_STREAM_PLAYBACK.
Definition PPL_DIR_UPSTREAM   : Z := SOF_IPC_STREAM_CAPTURE.
Definition PPL_STATUS_PATH_STOP : Z := 1.
Definition SOF_COMP_HOST    : Z := 1.
Definition SOF_COMP_DAI     : Z := 2.
Definition SOF_COMP_SG_HOST : Z := 3.
Definition SOF_COMP_SG_DAI  : Z := 4.
Definition SOF_COMP_VOLUME  : Z := 5.
Definition SOF_COMP_MIXER   : Z := 6.
Definition SOF_COMP_SRC     : Z := 9.

(** Unsigned 32-bit wrap-around ([uint32_t] arithmetic). *)
Definition u32 (x : Z) : Z := x mod 2 ^ 32.

(** ** Data model *)

(** [struct comp_dev]: the fields the engine reads or writes.  Components,
    buffers and pipelines live in an arena and refer to each other by
    identifier; a nullable C pointer is an [option]. *)
Record comp_dev : Type := mk_comp_dev {
  state : Z;                       (* uint16_t state, COMP_STATE_ *)
  direction : Z;                   (* stream direction *)
  dev_pipeline : option nat;       (* struct pipeline *pipeline *)
  comp_id : nat;                   (* comp.id *)
  comp_type : Z;                   (* comp.type, SOF_COMP_ *)
  comp_pipeline_id : Z;            (* comp.pipeline_id *)
  bsource_list : list nat;         (* list of source buffers *)
  bsink_list : list nat            (* list of sink buffers *)
}.

Definition set_state (dev : comp_dev) (st : Z) : comp_dev :=
  {| state := st; direction := direction dev;
     dev_pipeline := dev_pipeline dev; comp_id := comp_id dev;
     comp_type := comp_type dev; comp_pipeline_id := comp_pipeline_id dev;
     bsource_list := bsource_list dev; bsink_list := bsink_list dev |}.

(** [struct comp_buffer]: ring buffer cursors and counters, and the two
    components it connects.  Pointers into the data area are byte addresses. *)
Record comp_buffer : Type := mk_comp_buffer {
  buf_id : nat;
  size : Z;                        (* uint32_t size *)
  avail : Z;                       (* uint32_t avail *)
  free : Z;                        (* uint32_t free *)
  w_ptr : Z;
  r_ptr : Z;
  addr : Z;
  end_addr : Z;
  source : option nat;             (* producing component *)
  sink : option nat                (* consuming component *)
}.

(** ** Component state machine (component.h, component.c) *)

Definition comp_get_requested_state (cmd : Z) : Z :=
  if (cmd =? COMP_TRIGGER_START) || (cmd =? COMP_TRIGGER_RELEASE) then
    COMP_STATE_ACTIVE
  else if (cmd =? COMP_TRIGGER_PREPARE) || (cmd =? COMP_TRIGGER_STOP) then
    COMP_STATE_PREPARE
  else if cmd =? COMP_TRIGGER_PAUSE then
    COMP_STATE_PAUSED
  else if (cmd =? COMP_TRIGGER_XRUN) || (cmd =? COMP_TRIGGER_RESET) then
    COMP_STATE_READY
  else
    COMP_STATE_INIT.

(** [comp_set_state]: the return value and the updated device. *)
Definition comp_set_state (dev : comp_dev) (cmd : Z) : Z * comp_dev :=
  let requested_state := comp_get_requested_state cmd in
  if state dev =? requested_state then
    (COMP_STATUS_STATE_ALREADY_SET, dev)
  else if cmd =? COMP_TRIGGER_START then
    if state dev =? COMP_STATE_PREPARE
    then (0, set_state dev COMP_STATE_ACTIVE)
    else (- EINVAL, dev)
  else if cmd =? COMP_TRIGGER_RELEASE then
    if state dev =? COMP_STATE_PAUSED
    then (0, set_state dev COMP_STATE_ACTIVE)
    else (- EINVAL, dev)
  else if cmd =? COMP_TRIGGER_STOP then
    if (state dev =? COMP_STATE_ACTIVE) || (state dev =? COMP_STATE_PAUSED)
    then (0, set_state dev COMP_STATE_PREPARE)
    else (- EINVAL, dev)
  else if cmd =? COMP_TRIGGER_XRUN then
    (0, set_state dev COMP_STATE_READY)
  else if cmd =? COMP_TRIGGER_PAUSE then
    if state dev =? COMP_STATE_ACTIVE
    then (0, set_state dev COMP_STATE_PAUSED)
    else (- EINVAL, dev)
  else if cmd =? COMP_TRIGGER_RESET then
    (0, set_state dev COMP_STATE_READY)
  else if cmd =? COMP_TRIGGER_PREPARE then
    if state dev =? COMP_STATE_READY
    then (0, set_state dev COMP_STATE_PREPARE)
    else (- EINVAL, dev)
  else
    (0, dev).

Definition comp_is_single_pipeline (current previous : comp_dev) : bool :=
  comp_pipeline_id current =? comp_pipeline_id previous.

Definition comp_is_active (current : comp_dev) : bool :=
  state current =? COMP_STATE_ACTIVE.

Definition comp_get_endpoint_type (dev : comp_dev) : Z :=
  if comp_type dev =? SOF_COMP_HOST then COMP_ENDPOINT_HOST
  else if comp_type dev =? SOF_COMP_DAI then COMP_ENDPOINT_DAI
  else COMP_ENDPOINT_NODE.

(** The transition table of the specification, section 4.1, written from its
    words: command, required prior state, new state. *)
Definition spec_transition (cmd s : Z) : option Z :=
  if cmd =? COMP_TRIGGER_PREPARE then
    if s =? COMP_STATE_READY then Some COMP_STATE_PREPARE else None
  else if cmd =? COMP_TRIGGER_START then
    if s =? COMP_STATE_PREPARE then Some COMP_STATE_ACTIVE else None
  else if cmd =? COMP_TRIGGER_RELEASE then
    if s =? COMP_STATE_PAUSED then Some COMP_STATE_ACTIVE else None
  else if cmd =? COMP_TRIGGER_PAUSE then
    if s =? COMP_STATE_ACTIVE then Some COMP_STATE_PAUSED else None
  else if cmd =? COMP_TRIGGER_STOP then
    if (s =? COMP_STATE_ACTIVE) || (s =? COMP_STATE_PAUSED)
    then Some COMP_STATE_PREPARE else None
  else if (cmd =? COMP_TRIGGER_RESET) || (cmd =? COMP_TRIGGER_XRUN) then
    Some COMP_STATE_READY
  else None.

Definition fsm_states : list Z :=
  [COMP_STATE_INIT; COMP_STATE_READY; COMP_STATE_PREPARE;
   COMP_STATE_ACTIVE; COMP_STATE_PAUSED].

Definition fsm_commands : list Z :=
  [COMP_TRIGGER_PREPARE; COMP_TRIGGER_START; COMP_TRIGGER_RELEASE;
   COMP_TRIGGER_PAUSE; COMP_TRIGGER_STOP; COMP_TRIGGER_RESET;
   COMP_TRIGGER_XRUN].

(** The three outcomes a caller of [comp_set_state] can observe. *)
Inductive set_state_outcome : Type :=
  | Moved (s' : Z)      (* success, the state changed to s' *)
  | AlreadySet          (* the distinct success sentinel, state untouched *)
  | InvalidState.       (* -EINVAL, state untouched *)

(** Classification of a call by its return value and its effect on the
    device; [None] stands for a result outside the three modelled outcomes. *)
Definition classify_set_state (dev : comp_dev) (cmd : Z)
  : option set_state_outcome :=
  let '(ret, dev') := comp_set_state dev cmd in
  if ret =? 0 then
    if state dev' =? state dev then None else Some (Moved (state dev'))
  else if ret =? COMP_STATUS_STATE_ALREADY_SET then
    if state dev' =? state dev then Some AlreadySet else None
  else if ret =? - EINVAL then
    if state dev' =? state dev then Some InvalidState else None
  else None.

(** The "New state" column of the section 4.1 table, written from its words:
    the state a command asks for. *)
Definition spec_new_state (cmd : Z) : option Z :=
  if cmd =? COMP_TRIGGER_PREPARE then Some COMP_STATE_PREPARE
  else if cmd =? COMP_TRIGGER_START then Some COMP_STATE_ACTIVE
  else if cmd =? COMP_TRIGGER_RELEASE then Some COMP_STATE_ACTIVE
  else if cmd =? COMP_TRIGGER_PAUSE then Some COMP_STATE_PAUSED
  else if cmd =? COMP_TRIGGER_STOP then Some COMP_STATE_PREPARE
  else if cmd =? COMP_TRIGGER_RESET then Some COMP_STATE_READY
  else if cmd =? COMP_TRIGGER_XRUN then Some COMP_STATE_READY
  else None.

(** What the specification prescribes for a pair (state, command), from the
    words of section 4.1 alone: "already set" when the new state the table
    gives for the command is the current one, else the row of the table, else
    [InvalidState]. *)
Definition spec_set_state (s cmd : Z) : set_state_outcome :=
  match spec_new_state cmd with
  | Some s' =>
      if s =? s' then AlreadySet
      else match spec_transition cmd s with
           | Some s'' => Moved s''
           | None => InvalidState
           end
  | None => InvalidState
  end.

(** ** Ring buffer transfer primitive (buffer part of src.c) *)

(** [struct buffer_cb_transact], handed to the notifier. *)
Record buffer_cb_transact : Type := mk_cb {
  cb_buffer : nat;
  transaction_amount : Z;
  transaction_begin_address : Z
}.

Inductive notifier_id : Type :=
  | NOTIFIER_ID_BUFFER_PRODUCE
  | NOTIFIER_ID_BUFFER_CONSUME.

Definition set_cursors (b : comp_buffer) (w r av fr : Z) : comp_buffer :=
  {| buf_id := buf_id b; size := size b; avail := av; free := fr;
     w_ptr := w; r_ptr := r; addr := addr b; end_addr := end_addr b;
     source := source b; sink := sink b |}.

(** The "calculate available bytes" block shared by both operations; [eqv] is
    the value taken when the cursors coincide. *)
Definition calc_avail (b : comp_buffer) (w r eqv : Z) : Z :=
  if r <? w then u32 (w - r)
  else if r =? w then eqv
  else u32 (size b - (r - w)).

Definition comp_update_buffer_produce (buffer : comp_buffer) (bytes : Z)
  : comp_buffer * list (notifier_id * buffer_cb_transact) :=
  let cb_data := {| cb_buffer := buf_id buffer;
                    transaction_amount := bytes;
                    transaction_begin_address := w_ptr buffer |} in
  if bytes =? 0 then (buffer, [])
  else
    let w1 := w_ptr buffer + bytes in
    (* check for pointer wrap *)
    let w2 := if w1 >=? end_addr buffer
              then addr buffer + (w1 - end_addr buffer) else w1 in
    (* "overwrite" old data in circular wrap case *)
    let r2 := if bytes >? free buffer then w2 else r_ptr buffer in
    let av := calc_avail buffer w2 r2 (size buffer) in
    let fr := u32 (size buffer - av) in
    (set_cursors buffer w2 r2 av fr, [(NOTIFIER_ID_BUFFER_PRODUCE, cb_data)]).

Definition comp_update_buffer_consume (buffer : comp_buffer) (bytes : Z)
  : comp_buffer * list (notifier_id * buffer_cb_transact) :=
  let cb_data := {| cb_buffer := buf_id buffer;
                    transaction_amount := bytes;
                    transaction_begin_address := r_ptr buffer |} in
  if bytes =? 0 then (buffer, [])
  else
    let r1 := r_ptr buffer + bytes in
    (* check for pointer wrap *)
    let r2 := if r1 >=? end_addr buffer
              then addr buffer + (r1 - end_addr buffer) else r1 in
    let av := calc_avail buffer (w_ptr buffer) r2 0 in
    let fr := u32 (size buffer - av) in
    (set_cursors buffer (w_ptr buffer) r2 av fr,
     [(NOTIFIER_ID_BUFFER_CONSUME, cb_data)]).

(** The buffer after the call, without the notification. *)
Definition produce (b : comp_buffer) (n : Z) : comp_buffer :=
  fst (comp_update_buffer_produce b n).
Definition consume (b : comp_buffer) (n : Z) : comp_buffer :=
  fst (comp_update_buffer_consume b n).

(** Data-model invariants of section 3. *)

(** The data area is [addr, end_addr) and holds [size] bytes. *)
Definition geometry_ok (b : comp_buffer) : Prop :=
  0 < size b < 2 ^ 32 /\ 0 <= addr b /\ end_addr b = addr b + size b.

Definition cursors_in_range (b : comp_buffer) : Prop :=
  addr b <= r_ptr b < end_addr b /\ addr b <= w_ptr b < end_addr b.

Definition counters_ok (b : comp_buffer) : Prop :=
  0 <= avail b /\ 0 <= free b /\ avail b + free b = size b.

(** The counters describe the distance between the cursors. *)
Definition counters_match_cursors (b : comp_buffer) : Prop :=
  ((r_ptr b - addr b) + avail b) mod size b = w_ptr b - addr b.

Definition ring_buffer_ok (b : comp_buffer) : Prop :=
  geometry_ok b /\ cursors_in_range b /\ counters_ok b /\
  counters_match_cursors b.

(** A transfer size is a [uint32_t]. *)
Definition is_u32 (n : Z) : Prop := 0 <= n < 2 ^ 32.

(** ** The arena, the trace of external calls and the execution monad *)

(** [struct pipeline] *)
Record pipeline : Type := mk_pipeline {
  sched_comp : nat;                (* scheduling component *)
  source_comp : option nat;
  sink_comp : option nat;
  status : Z;                      (* COMP_STATE_ *)
  xrun_bytes : Z;                  (* int32_t, 0 = healthy *)
  pipe_task : bool;                (* is the periodic task allocated *)
  period : Z                       (* ipc_pipe.period *)
}.

(** [struct sof_ipc_stream_posn], the two fields the XRUN path fills in. *)
Record sof_ipc_stream_posn : Type := mk_posn {
  xrun_comp_id : nat;
  xrun_size : Z
}.

(** [struct pipeline_data]: the context threaded through a walk. *)
Record pipeline_data : Type := mk_pipeline_data {
  start : nat;
  posn : sof_ipc_stream_posn;
  data_p : nat;
  cmd : Z
}.

(** Calls that leave the engine: driver hooks (with the status they returned),
    the scheduler, the host notification channel and the error trace. *)
Inductive event : Type :=
  | EvTrigger (c : nat) (command ret : Z)
  | EvPrepare (c : nat) (ret : Z)
  | EvReset (c : nat) (ret : Z)
  | EvCopy (c : nat) (ret : Z)
  | EvBufferResetPos (b : nat)
  | EvScheduleTask (p : nat) (start_time period_us : Z)
  | EvScheduleCancel (p : nat)
  | EvTaskFree (p : nat)
  | EvHostTimestamp (c : nat)
  | EvSendXrun (host : nat) (posn : sof_ipc_stream_posn)
  | EvTraceError (ret : Z).

(** The driver operations the walks call ([struct comp_ops]).  The walks look
    at nothing of a hook but the status it returns and the state it leaves
    its component in, and this is what a hook is here: a function from the
    device to a status and a new state; [None] is a hook the driver leaves
    unset.  What a hook does besides is not part of a run of the engine: the
    movement of the cursors of its buffers is [comp_update_buffer_produce]
    and [comp_update_buffer_consume] on the buffer, and the report of an XRUN
    is a call of [pipeline_xrun] on the arena. *)
Record comp_ops : Type := mk_comp_ops {
  op_trigger : comp_dev -> Z -> Z * Z;
  op_prepare : option (comp_dev -> Z * Z);
  op_reset : option (comp_dev -> Z * Z);
  op_copy : comp_dev -> Z * Z
}.

Record sys : Type := mk_sys {
  comps : gmap nat comp_dev;
  bufs : gmap nat comp_buffer;
  ppls : gmap nat pipeline
}.

(** A run ends with a value, a new arena and the calls it made, or
    dereferences a null or dangling pointer ([Fault]), or exhausts the
    recursion budget of the model ([OutOfFuel]). *)
Inductive outcome (A : Type) : Type :=
  | Ok (a : A) (s : sys) (tr : list event)
  | Fault
  | OutOfFuel.
Arguments Ok {A} a s tr.
Arguments Fault {A}.
Arguments OutOfFuel {A}.

Definition M (A : Type) : Type := sys -> outcome A.

Definition ret {A} (a : A) : M A := fun s => Ok a s [].

(** [with_prefix t o]: the run [o], preceded by the calls [t]. *)
Definition with_prefix {A} (t : list event) (o : outcome A) : outcome A :=
  match o with
  | Ok a s t' => Ok a s (t ++ t')
  | Fault => Fault
  | OutOfFuel => OutOfFuel
  end.

Definition bind {A B} (m : M A) (k : A -> M B) : M B :=
  fun s =>
    match m s with
    | Ok a s1 t1 => with_prefix t1 (k a s1)
    | Fault => Fault
    | OutOfFuel => OutOfFuel
    end.

Notation "x <- m ;; k" := (bind m (fun x => k))
  (at level 20, m at level 99, k at level 200, only parsing).
Notation "m ;;; k" := (bind m (fun _ => k))
  (at level 100, k at level 200, right associativity, only parsing).

Definition emit (e : event) : M unit := fun s => Ok tt s [e].

Definition deref {A} (o : option A) : M A :=
  fun s => match o with Some a => Ok a s [] | None => Fault end.

Definition get_comp (c : nat) : M comp_dev := fun s => deref (comps s !! c) s.
Definition get_buf (b : nat) : M comp_buffer := fun s => deref (bufs s !! b) s.
Definition get_ppl (p : nat) : M pipeline := fun s => deref (ppls s !! p) s.

Definition upd_comp (s : sys) (c : nat) (d : comp_dev) : sys :=
  {| comps := <[c := d]> (comps s); bufs := bufs s; ppls := ppls s |}.
Definition upd_buf (s : sys) (b : nat) (bd : comp_buffer) : sys :=
  {| comps := comps s; bufs := <[b := bd]> (bufs s); ppls := ppls s |}.
Definition upd_ppl (s : sys) (p : nat) (pl : pipeline) : sys :=
  {| comps := comps s; bufs := bufs s; ppls := <[p := pl]> (ppls s) |}.
Definition del_ppl (s : sys) (p : nat) : sys :=
  {| comps := comps s; bufs := bufs s; ppls := delete p (ppls s) |}.

Definition put_comp (c : nat) (d : comp_dev) : M unit :=
  fun s => Ok tt (upd_comp s c d) [].
Definition put_buf (b : nat) (bd : comp_buffer) : M unit :=
  fun s => Ok tt (upd_buf s b bd) [].
Definition put_ppl (p : nat) (pl : pipeline) : M unit :=
  fun s => Ok tt (upd_ppl s p pl) [].
Definition free_ppl (p : nat) : M unit :=
  fun s => Ok tt (del_ppl s p) [].

Definition set_status (pl : pipeline) (st : Z) : pipeline :=
  {| sched_comp := sched_comp pl; source_comp := source_comp pl;
     sink_comp := sink_comp pl; status := st; xrun_bytes := xrun_bytes pl;
     pipe_task := pipe_task pl; period := period pl |}.
Definition set_xrun_bytes (pl : pipeline) (x : Z) : pipeline :=
  {| sched_comp := sched_comp pl; source_comp := source_comp pl;
     sink_comp := sink_comp pl; status := status pl; xrun_bytes := x;
     pipe_task := pipe_task pl; period := period pl |}.
Definition set_pipe_task (pl : pipeline) (t : bool) : pipeline :=
  {| sched_comp := sched_comp pl; source_comp := source_comp pl;
     sink_comp := sink_comp pl; status := status pl;
     xrun_bytes := xrun_bytes pl; pipe_task := t; period := period pl |}.
Definition set_dev_pipeline (d : comp_dev) (p : option nat) : comp_dev :=
  {| state := state d; direction := direction d; dev_pipeline := p;
     comp_id := comp_id d; comp_type := comp_type d;
     comp_pipeline_id := comp_pipeline_id d;
     bsource_list := bsource_list d; bsink_list := bsink_list d |}.

(** [comp_buffer_list(comp, dir)] *)
Definition comp_buffer_list (comp : comp_dev) (dir : Z) : list nat :=
  if dir =? PPL_DIR_DOWNSTREAM then bsink_list comp else bsource_list comp.

(** [list_item_del(comp_buffer_list(comp, dir))]: the list head is unlinked
    and re-initialised, the device no longer reaches the buffers. *)
Definition list_item_del_buffer_list (comp : comp_dev) (dir : Z) : comp_dev :=
  {| state := state comp; direction := direction comp;
     dev_pipeline := dev_pipeline comp; comp_id := comp_id comp;
     comp_type := comp_type comp; comp_pipeline_id := comp_pipeline_id comp;
     bsource_list := if dir =? PPL_DIR_DOWNSTREAM then bsource_list comp
                     else [];
     bsink_list := if dir =? PPL_DIR_DOWNSTREAM then [] else bsink_list comp |}.

(** Modelled from the spec: [buffer_get_comp] of [sof/audio/buffer.h], which is
    not part of the sources at hand.  Walking DOWNSTREAM a buffer leads to the
    component that consumes it, walking UPSTREAM to the one that produces
    it. *)
Definition buffer_get_comp (buffer : comp_buffer) (dir : Z) : option nat :=
  if dir =? PPL_DIR_DOWNSTREAM then sink buffer else source buffer.

(** Modelled from the spec: [pipeline_is_same_sched_comp] of
    [sof/audio/pipeline.h], which is not part of the sources at hand: two
    pipelines scheduled by the same component form one domain. *)
Definition pipeline_is_same_sched_comp (p1 p2 : pipeline) : bool :=
  Nat.eqb (sched_comp p1) (sched_comp p2).

Definition opt_nat_eqb (a b : option nat) : bool :=
  match a, b with
  | Some x, Some y => Nat.eqb x y
  | None, None => true
  | _, _ => false
  end.

(** [err < 0 || err == PPL_STATUS_PATH_STOP] *)
Definition walk_ends (err : Z) : bool :=
  (err <? 0) || (err =? PPL_STATUS_PATH_STOP).

Section Engine.

(** The driver of every component, and whether the allocation and
    registration of a pipeline task succeed. *)
Variable drv : nat -> comp_ops.
Variable task_init_ok : nat -> bool.

(** Running a hook: the device takes the state the hook left it in, the call
    and its status are recorded. *)
Definition run_hook (c : nat) (d : comp_dev) (r : Z * Z) (ev : Z -> event)
  : M Z :=
  put_comp c (set_state d (snd r)) ;;;
  emit (ev (fst r)) ;;;
  ret (fst r).

Definition comp_trigger (c : nat) (command : Z) : M Z :=
  d <- get_comp c ;;
  run_hook c d (op_trigger (drv c) d command) (EvTrigger c command).

Definition comp_prepare (c : nat) : M Z :=
  d <- get_comp c ;;
  match op_prepare (drv c) with
  | Some f => run_hook c d (f d) (EvPrepare c)
  | None => ret 0
  end.

Definition comp_reset (c : nat) : M Z :=
  d <- get_comp c ;;
  match op_reset (drv c) with
  | Some f => run_hook c d (f d) (EvReset c)
  | None => ret 0
  end.

Definition comp_copy (c : nat) : M Z :=
  d <- get_comp c ;;
  run_hook c d (op_copy (drv c) d) (EvCopy c).

(** Modelled from the spec: [buffer_reset_pos] of [sof/audio/buffer.h], which
    is not part of the sources at hand.  The position of the buffer is reset:
    read and write cursor back at the base address, nothing available, the
    whole size free.  The call is recorded. *)
Definition buffer_reset_pos (b : nat) : M unit :=
  buffer <- get_buf b ;;
  put_buf b (set_cursors buffer (addr buffer) (addr buffer) 0 (size buffer)) ;;;
  emit (EvBufferResetPos b).

(** The body of the [list_for_item] loop of [pipeline_for_each_comp]; [err]
    is the status of the last call of [func]. *)
Fixpoint for_each_buffer (func : option (nat -> Z -> M Z))
    (buff_func : option (nat -> M unit)) (dir : Z)
    (buffer_list : list nat) (err : Z) : M Z :=
  match buffer_list with
  | [] => ret err
  | b :: rest =>
      (match buff_func with Some bf => bf b | None => ret tt end) ;;;
      buffer <- get_buf b ;;
      match buffer_get_comp buffer dir with
      | None => for_each_buffer func buff_func dir rest err
      | Some buffer_comp =>
          match func with
          | Some f =>
              err' <- f buffer_comp dir ;;
              if err' <? 0 then ret err'
              else for_each_buffer func buff_func dir rest err'
          | None => for_each_buffer func buff_func dir rest err
          end
      end
  end.

Definition pipeline_for_each_comp (current : nat)
    (func : option (nat -> Z -> M Z))
    (buff_func : option (nat -> M unit)) (dir : Z) : M Z :=
  cur <- get_comp current ;;
  for_each_buffer func buff_func dir (comp_buffer_list cur dir) 0.

Definition pipeline_schedule_copy (p : nat) (start_time : Z) : M unit :=
  pl <- get_ppl p ;;
  emit (EvScheduleTask p start_time (period pl)).

Definition pipeline_schedule_cancel (p : nat) : M unit :=
  emit (EvScheduleCancel p).

Definition pipeline_comp_trigger_sched_comp (p comp : nat) (command : Z)
  : M unit :=
  pl <- get_ppl p ;;
  skip <- (if Nat.eqb (sched_comp pl) comp then ret false
           else sc <- get_comp (sched_comp pl) ;;
                ret (opt_nat_eqb (Some p) (dev_pipeline sc) ||
                     negb (opt_nat_eqb (sink_comp pl) (Some comp)))) ;;
  if skip : bool then ret tt
  else if (command =? COMP_TRIGGER_PAUSE) || (command =? COMP_TRIGGER_STOP) ||
          (command =? COMP_TRIGGER_XRUN) then
    pipeline_schedule_cancel p ;;;
    put_ppl p (set_status pl COMP_STATE_PAUSED)
  else if (command =? COMP_TRIGGER_RELEASE) ||
          (command =? COMP_TRIGGER_START) then
    pipeline_schedule_copy p 0 ;;;
    put_ppl p (set_status (set_xrun_bytes pl 0) COMP_STATE_ACTIVE)
  else ret tt.

Fixpoint pipeline_comp_trigger (fuel : nat) (data : pipeline_data)
    (current : nat) (dir : Z) {struct fuel} : M Z :=
  match fuel with
  | O => fun _ => OutOfFuel
  | S fuel' =>
      cur <- get_comp current ;;
      st <- get_comp (start data) ;;
      let is_single_ppl := comp_is_single_pipeline cur st in
      cur_p <- deref (dev_pipeline cur) ;;
      cur_pl <- get_ppl cur_p ;;
      st_p <- deref (dev_pipeline st) ;;
      st_pl <- get_ppl st_p ;;
      let is_same_sched := pipeline_is_same_sched_comp cur_pl st_pl in
      if negb is_single_ppl && negb is_same_sched then ret 0
      else
        err <- comp_trigger current (cmd data) ;;
        if walk_ends err then ret err
        else
          pipeline_comp_trigger_sched_comp cur_p current (cmd data) ;;;
          pipeline_for_each_comp current
            (Some (pipeline_comp_trigger fuel' data)) None dir
  end.

Definition pipeline_task_init (p : nat) : M bool :=
  pl <- get_ppl p ;;
  if task_init_ok p then
    sc <- get_comp (sched_comp pl) ;;
    ret true
  else ret false.

Definition pipeline_comp_task_init (p : nat) : M Z :=
  pl <- get_ppl p ;;
  if pipe_task pl then ret 0
  else
    t <- pipeline_task_init p ;;
    if t : bool then put_ppl p (set_pipe_task pl true) ;;; ret 0
    else emit (EvTraceError (- ENOMEM)) ;;; ret (- ENOMEM).

(** The check shared by prepare and reset when the walk enters another
    pipeline: propagation ends at an endpoint of the improper direction. *)
Definition improper_endpoint (cur : comp_dev) (stream_direction : Z)
  : M bool :=
  cur_p <- deref (dev_pipeline cur) ;;
  cur_pl <- get_ppl cur_p ;;
  snk_id <- deref (sink_comp cur_pl) ;;
  snk <- get_comp snk_id ;;
  let end_type := comp_get_endpoint_type snk in
  ret (((stream_direction =? SOF_IPC_STREAM_PLAYBACK) &&
        ((end_type =? COMP_ENDPOINT_HOST) ||
         (end_type =? COMP_ENDPOINT_NODE))) ||
       ((stream_direction =? SOF_IPC_STREAM_CAPTURE) &&
        ((end_type =? COMP_ENDPOINT_DAI) ||
         (end_type =? COMP_ENDPOINT_NODE)))).

Fixpoint pipeline_comp_prepare (fuel : nat) (data : pipeline_data)
    (current : nat) (dir : Z) {struct fuel} : M Z :=
  match fuel with
  | O => fun _ => OutOfFuel
  | S fuel' =>
      cur <- get_comp current ;;
      st <- get_comp (start data) ;;
      stop <- (if comp_is_single_pipeline cur st then ret false
               else improper_endpoint cur dir) ;;
      if stop : bool then ret 0
      else
        cur_p <- deref (dev_pipeline cur) ;;
        err <- pipeline_comp_task_init cur_p ;;
        if err <? 0 then ret err
        else
          err <- comp_prepare current ;;
          if walk_ends err then ret err
          else
            pipeline_for_each_comp current
              (Some (pipeline_comp_prepare fuel' data))
              (Some buffer_reset_pos) dir
  end.

Definition dummy_posn : sof_ipc_stream_posn :=
  {| xrun_comp_id := 0%nat; xrun_size := 0 |}.

Definition pipeline_prepare (fuel : nat) (p dev : nat) : M Z :=
  d <- get_comp dev ;;
  let ppl_data := {| start := dev; posn := dummy_posn; data_p := p;
                     cmd := 0 |} in
  r <- pipeline_comp_prepare fuel ppl_data dev (direction d) ;;
  if r <? 0 then emit (EvTraceError r) ;;; ret r
  else
    pl <- get_ppl p ;;
    put_ppl p (set_status pl COMP_STATE_PREPARE) ;;;
    ret r.

Definition pipeline_xrun_handle_trigger (fuel : nat) (p : nat) (command : Z)
  : M Z :=
  pl <- get_ppl p ;;
  if (xrun_bytes pl =? 0) || negb (status pl =? COMP_STATE_PAUSED) then ret 0
  else if command =? COMP_TRIGGER_START then
    src <- deref (source_comp pl) ;;
    r <- pipeline_prepare fuel p src ;;
    if r <? 0 then emit (EvTraceError r) ;;; ret r
    else
      pl' <- get_ppl p ;;
      put_ppl p (set_xrun_bytes pl' 0) ;;;
      ret r
  else if command =? COMP_TRIGGER_STOP then
    ret PPL_STATUS_PATH_STOP
  else ret 0.

Definition pipeline_trigger (fuel : nat) (p host : nat) (command : Z)
  : M Z :=
  pl <- get_ppl p ;;
  handled <- (if xrun_bytes pl =? 0 then ret None
              else
                r <- pipeline_xrun_handle_trigger fuel p command ;;
                if r <? 0 then emit (EvTraceError r) ;;; ret (Some r)
                else if r =? PPL_STATUS_PATH_STOP then ret (Some 0)
                else ret None) ;;
  match handled with
  | Some r => ret r
  | None =>
      h <- get_comp host ;;
      let data := {| start := host; posn := dummy_posn; data_p := p;
                     cmd := command |} in
      r <- pipeline_comp_trigger fuel data host (direction h) ;;
      (if r <? 0 then emit (EvTraceError r) else ret tt) ;;;
      ret r
  end.

Fixpoint pipeline_comp_reset (fuel : nat) (p : nat) (current : nat)
    (dir : Z) {struct fuel} : M Z :=
  match fuel with
  | O => fun _ => OutOfFuel
  | S fuel' =>
      cur <- get_comp current ;;
      pl <- get_ppl p ;;
      src_id <- deref (source_comp pl) ;;
      src <- get_comp src_id ;;
      stop <- (if comp_is_single_pipeline cur src then ret false
               else improper_endpoint cur dir) ;;
      if stop : bool then ret 0
      else
        err <- comp_reset current ;;
        if walk_ends err then ret err
        else
          pipeline_for_each_comp current
            (Some (pipeline_comp_reset fuel' p)) None dir
  end.

Definition pipeline_reset (fuel : nat) (p host : nat) : M Z :=
  h <- get_comp host ;;
  r <- pipeline_comp_reset fuel p host (direction h) ;;
  (if r <? 0 then emit (EvTraceError r) else ret tt) ;;;
  ret r.

Fixpoint pipeline_comp_copy (fuel : nat) (data : pipeline_data)
    (current : nat) (dir : Z) {struct fuel} : M Z :=
  match fuel with
  | O => fun _ => OutOfFuel
  | S fuel' =>
      cur <- get_comp current ;;
      st <- get_comp (start data) ;;
      if negb (comp_is_single_pipeline cur st) then ret 0
      else if negb (comp_is_active cur) then ret 0
      else
        (* copy to downstream immediately *)
        err <- (if dir =? PPL_DIR_DOWNSTREAM then comp_copy current
                else ret 0) ;;
        if (dir =? PPL_DIR_DOWNSTREAM) && walk_ends err then ret err
        else
          err <- pipeline_for_each_comp current
                   (Some (pipeline_comp_copy fuel' data)) None dir ;;
          if walk_ends err then ret err
          else if dir =? PPL_DIR_UPSTREAM then comp_copy current
          else ret err
  end.

Definition pipeline_copy (fuel : nat) (p : nat) : M Z :=
  pl <- get_ppl p ;;
  src_id <- deref (source_comp pl) ;;
  src <- get_comp src_id ;;
  let playback := direction src =? SOF_IPC_STREAM_PLAYBACK in
  let dir := if playback then PPL_DIR_UPSTREAM else PPL_DIR_DOWNSTREAM in
  first <- deref (if playback then sink_comp pl else source_comp pl) ;;
  let data := {| start := first; posn := dummy_posn; data_p := p;
                 cmd := 0 |} in
  r <- pipeline_comp_copy fuel data first dir ;;
  (if r <? 0 then emit (EvTraceError r) else ret tt) ;;;
  ret r.

Fixpoint pipeline_comp_free (fuel : nat) (data : pipeline_data)
    (current : nat) (dir : Z) {struct fuel} : M Z :=
  match fuel with
  | O => fun _ => OutOfFuel
  | S fuel' =>
      cur <- get_comp current ;;
      st <- get_comp (start data) ;;
      if negb (comp_is_single_pipeline cur st) then ret 0
      else
        (* complete component free *)
        put_comp current (set_dev_pipeline cur None) ;;;
        pipeline_for_each_comp current
          (Some (pipeline_comp_free fuel' data)) None dir ;;;
        (* disconnect source from buffer *)
        cur' <- get_comp current ;;
        put_comp current (list_item_del_buffer_list cur' dir) ;;;
        ret 0
  end.

(** pipelines must be inactive *)
Definition pipeline_free (fuel : nat) (p : nat) : M Z :=
  pl <- get_ppl p ;;
  busy <- (match source_comp pl with
           | Some src_id =>
               src <- get_comp src_id ;;
               if state src >? COMP_STATE_READY then
                 emit (EvTraceError (- EBUSY)) ;;; ret true
               else
                 let data := {| start := src_id; posn := dummy_posn;
                                data_p := p; cmd := 0 |} in
                 pipeline_comp_free fuel data src_id PPL_DIR_DOWNSTREAM ;;;
                 ret false
           | None => ret false
           end) ;;
  if busy : bool then ret (- EBUSY)
  else
    (* remove from any scheduling *)
    (if pipe_task pl then emit (EvTaskFree p) else ret tt) ;;;
    (* now free the pipeline *)
    free_ppl p ;;;
    ret 0.

Fixpoint pipeline_comp_xrun (fuel : nat) (data : pipeline_data)
    (current : nat) (dir : Z) {struct fuel} : M Z :=
  match fuel with
  | O => fun _ => OutOfFuel
  | S fuel' =>
      cur <- get_comp current ;;
      (if comp_type cur =? SOF_COMP_HOST then
         emit (EvHostTimestamp current) ;;;
         emit (EvSendXrun current (posn data))
       else ret tt) ;;;
      pipeline_for_each_comp current
        (Some (pipeline_comp_xrun fuel' data)) None dir
  end.

(** Send an XRUN to each host for this component. *)
Definition pipeline_xrun (fuel : nat) (p dev : nat) (bytes : Z) : M unit :=
  pl <- get_ppl p ;;
  (* don't flood host *)
  if negb (xrun_bytes pl =? 0) then ret tt
  else
    d <- get_comp dev ;;
    (* only send when we are running *)
    if negb (state d =? COMP_STATE_ACTIVE) then ret tt
    else
      src <- deref (source_comp pl) ;;
      r <- pipeline_trigger fuel p src COMP_TRIGGER_XRUN ;;
      (if r <? 0 then emit (EvTraceError r) else ret tt) ;;;
      pl' <- get_ppl p ;;
      put_ppl p (set_xrun_bytes pl' bytes) ;;;
      d' <- get_comp dev ;;
      let data := {| start := 0%nat;
                     posn := {| xrun_comp_id := comp_id d';
                                xrun_size := bytes |};
                     data_p := p; cmd := 0 |} in
      pipeline_comp_xrun fuel data dev (direction d') ;;;
      ret tt.

(** recover the pipeline from a XRUN condition *)
Definition pipeline_xrun_recover (fuel : nat) (p : nat) : M Z :=
  emit (EvTraceError 0) ;;;
  pl <- get_ppl p ;;
  src <- deref (source_comp pl) ;;
  r <- pipeline_prepare fuel p src ;;
  if r <? 0 then emit (EvTraceError r) ;;; ret r
  else
    pl' <- get_ppl p ;;
    put_ppl p (set_xrun_bytes pl' 0) ;;;
    r <- pipeline_trigger fuel p src COMP_TRIGGER_START ;;
    if r <? 0 then emit (EvTraceError r) ;;; ret r
    else ret 0.

End Engine.

(** ** An example driver *)

(** Hooks that do nothing but run the component state machine, the part of a
    driver's hooks the walks depend on.  They do with the state what the
    hooks of the SRC in src.c do when its own checks pass: the trigger hook
    returns [comp_set_state(dev, cmd)]; the prepare hook returns a failure
    of [comp_set_state(dev, COMP_TRIGGER_PREPARE)] as it is and turns
    "already set" into the stop-walk status; the reset hook resets the state
    and returns 0.  The checks of the SRC on its formats, buffers and filter
    are no part of them: this is a driver for the examples, not the SRC.
    [copy_status] is what the copy hook returns. *)
Definition hook_of_set_state (d : comp_dev) (command : Z) : Z * Z :=
  let r := comp_set_state d command in (fst r, state (snd r)).

Definition fsm_trigger (d : comp_dev) (command : Z) : Z * Z :=
  hook_of_set_state d command.

Definition fsm_prepare (d : comp_dev) : Z * Z :=
  let r := hook_of_set_state d COMP_TRIGGER_PREPARE in
  if fst r <? 0 then r
  else if fst r =? COMP_STATUS_STATE_ALREADY_SET
       then (PPL_STATUS_PATH_STOP, snd r)
       else r.

Definition fsm_reset (d : comp_dev) : Z * Z :=
  let r := hook_of_set_state d COMP_TRIGGER_RESET in (0, snd r).

Definition fsm_driver (copy_status : Z) : comp_ops :=
  {| op_trigger := fsm_trigger;
     op_prepare := Some fsm_prepare;
     op_reset := Some fsm_reset;
     op_copy := fun d => (copy_status, state d) |}.

(** ** Observations on a run *)

Definition result {A} (o : outcome A) : option A :=
  match o with Ok a _ _ => Some a | _ => None end.

Definition final {A} (o : outcome A) : option sys :=
  match o with Ok _ s _ => Some s | _ => None end.

Definition trace_of {A} (o : outcome A) : list event :=
  match o with Ok _ _ tr => tr | _ => [] end.

Definition comp_state (s : sys) (c : nat) : option Z :=
  state <$> comps s !! c.

Definition final_comp_state {A} (o : outcome A) (c : nat) : option Z :=
  match final o with Some s => comp_state s c | None => None end.

(** The components whose hook of a given kind was called, in call order. *)
Definition triggered (tr : list event) : list nat :=
  omap (fun e => match e with EvTrigger c _ _ => Some c | _ => None end) tr.

Definition prepared (tr : list event) : list nat :=
  omap (fun e => match e with EvPrepare c _ => Some c | _ => None end) tr.

Definition copied (tr : list event) : list nat :=
  omap (fun e => match e with EvCopy c _ => Some c | _ => None end) tr.

Definition was_reset (tr : list event) : list nat :=
  omap (fun e => match e with EvReset c _ => Some c | _ => None end) tr.

(** The statuses returned by the reset hooks, in call order. *)
Definition reset_statuses (tr : list event) : list Z :=
  omap (fun e => match e with EvReset _ r => Some r | _ => None end) tr.

(** ** The component/buffer graph *)

(** The links of the arena: the buffer lists of every component. *)
Definition links (s : sys) : gmap nat (list nat * list nat) :=
  (fun d => (bsource_list d, bsink_list d)) <$> comps s.

(** The components every buffer connects. *)
Definition buf_ends (s : sys) : gmap nat (option nat * option nat) :=
  (fun b => (source b, sink b)) <$> bufs s.

Definition link_list (l : list nat * list nat) (dir : Z) : list nat :=
  if dir =? PPL_DIR_DOWNSTREAM then snd l else fst l.

(** [edge s dir c c']: walking in direction [dir], a buffer of [c] leads to
    [c']. *)
Definition edge (s : sys) (dir : Z) (c c' : nat) : Prop :=
  exists l b bd,
    links s !! c = Some l /\ b ∈ link_list l dir /\
    bufs s !! b = Some bd /\ buffer_get_comp bd dir = Some c'.

(** A graph is acyclic in a direction when its components can be ranked so
    that every link leads to a lower rank. *)
Definition acyclic_by (s : sys) (dir : Z) (rank : nat -> nat) : Prop :=
  forall c c', edge s dir c c' -> (rank c' < rank c)%nat.

(** The components at the end of every path of at most [depth] links that
    starts at [c], in walk order; a component reached along two paths is
    listed twice. *)
Fixpoint routes (depth : nat) (lk : gmap nat (list nat * list nat))
    (bf : gmap nat comp_buffer) (dir : Z) (c : nat) : list nat :=
  match depth with
  | O => []
  | S depth' =>
      c :: match lk !! c with
           | None => []
           | Some l =>
               flat_map
                 (fun b =>
                    match bf !! b with
                    | None => []
                    | Some bd =>
                        match buffer_get_comp bd dir with
                        | None => []
                        | Some c' => routes depth' lk bf dir c'
                        end
                    end)
                 (link_list l dir)
           end
  end.

(** ** Example systems *)

Definition example_buffer (b : nat) (src snk : option nat) : comp_buffer :=
  {| buf_id := b; size := 384; avail := 0; free := 384;
     w_ptr := 4096; r_ptr := 4096; addr := 4096; end_addr := 4480;
     source := src; sink := snk |}.

Definition buffer_example (w r av fr : Z) : comp_buffer :=
  {| buf_id := 7%nat; size := 10; avail := av; free := fr;
     w_ptr := w; r_ptr := r; addr := 100; end_addr := 110;
     source := Some 1%nat; sink := Some 2%nat |}.

(** The playback chain Host (1) -> buffer 10 -> Volume (2) -> buffer 11 ->
    DAI (3), all in pipeline 0, which the DAI schedules. *)
Definition chain_host (st : Z) : comp_dev :=
  {| state := st; direction := SOF_IPC_STREAM_PLAYBACK;
     dev_pipeline := Some 0%nat; comp_id := 1%nat; comp_type := SOF_COMP_HOST;
     comp_pipeline_id := 0; bsource_list := []; bsink_list := [10%nat] |}.
Definition chain_volume (st : Z) : comp_dev :=
  {| state := st; direction := SOF_IPC_STREAM_PLAYBACK;
     dev_pipeline := Some 0%nat; comp_id := 2%nat;
     comp_type := SOF_COMP_VOLUME; comp_pipeline_id := 0;
     bsource_list := [10%nat]; bsink_list := [11%nat] |}.
Definition chain_dai (st : Z) : comp_dev :=
  {| state := st; direction := SOF_IPC_STREAM_PLAYBACK;
     dev_pipeline := Some 0%nat; comp_id := 3%nat; comp_type := SOF_COMP_DAI;
     comp_pipeline_id := 0; bsource_list := [11%nat]; bsink_list := [] |}.

Definition chain_sys (st_host st_volume st_dai : Z) (pst xr : Z) : sys :=
  {| comps := {[ 1%nat := chain_host st_host;
                 2%nat := chain_volume st_volume;
                 3%nat := chain_dai st_dai ]};
     bufs := {[ 10%nat := example_buffer 10 (Some 1%nat) (Some 2%nat);
                11%nat := example_buffer 11 (Some 2%nat) (Some 3%nat) ]};
     ppls := {[ 0%nat := {| sched_comp := 3%nat;
                            source_comp := Some 1%nat;
                            sink_comp := Some 3%nat;
                            status := pst; xrun_bytes := xr;
                            pipe_task := true; period := 1000 |} ]} |}.

(** A driver table whose Volume (2) fails its reset with -EINVAL; the other
    components use the hooks of [fsm_driver]. *)
Definition failing_reset_drv (c : nat) : comp_ops :=
  if Nat.eqb c 2 then
    {| op_trigger := fsm_trigger; op_prepare := Some fsm_prepare;
       op_reset := Some (fun d => (- EINVAL, state d));
       op_copy := fun d => (0, state d) |}
  else fsm_driver 0.

(** A diamond: component 1 feeds 2 and 3 (buffers 10 and 11), which both feed
    the mixer 4 (buffers 12 and 13); one pipeline, scheduled by 1. *)
Definition diamond_dev (c : nat) (st : Z) (srcs snks : list nat) : comp_dev :=
  {| state := st; direction := SOF_IPC_STREAM_PLAYBACK;
     dev_pipeline := Some 0%nat; comp_id := c; comp_type := SOF_COMP_MIXER;
     comp_pipeline_id := 0; bsource_list := srcs; bsink_list := snks |}.

Definition diamond_sys (st : Z) : sys :=
  {| comps := {[ 1%nat := diamond_dev 1 st [] [10%nat; 11%nat];
                 2%nat := diamond_dev 2 st [10%nat] [12%nat];
                 3%nat := diamond_dev 3 st [11%nat] [13%nat];
                 4%nat := diamond_dev 4 st [12%nat; 13%nat] [] ]};
     bufs := {[ 10%nat := example_buffer 10 (Some 1%nat) (Some 2%nat);
                11%nat := example_buffer 11 (Some 1%nat) (Some 3%nat);
                12%nat := example_buffer 12 (Some 2%nat) (Some 4%nat);
                13%nat := example_buffer 13 (Some 3%nat) (Some 4%nat) ]};
     ppls := {[ 0%nat := {| sched_comp := 1%nat;
                            source_comp := Some 1%nat;
                            sink_comp := Some 4%nat;
                            status := st; xrun_bytes := 0;
                            pipe_task := true; period := 1000 |} ]} |}.

Definition diamond_rank (c : nat) : nat :=
  match c with
  | 1%nat => 2%nat
  | 2%nat => 1%nat
  | 3%nat => 1%nat
  | _ => 0%nat
  end.

(** Two pipelines joined at buffer 10: the host-side component 1 is all of
    pipeline 1 and schedules it; components 2 and 3 (a DAI) form pipeline 2,
    scheduled by the DAI. *)
Definition joined_dev (c : nat) (ty st : Z) (p : nat)
    (srcs snks : list nat) : comp_dev :=
  {| state := st; direction := SOF_IPC_STREAM_PLAYBACK;
     dev_pipeline := Some p; comp_id := c; comp_type := ty;
     comp_pipeline_id := Z.of_nat p; bsource_list := srcs;
     bsink_list := snks |}.

Definition joined_ppl (sched src snk : nat) (pst xr : Z) : pipeline :=
  {| sched_comp := sched; source_comp := Some src; sink_comp := Some snk;
     status := pst; xrun_bytes := xr; pipe_task := true; period := 1000 |}.

Definition joined_sys (st1 st2 st3 : Z) (pst1 xr1 pst2 : Z) : sys :=
  {| comps := {[ 1%nat := joined_dev 1 SOF_COMP_HOST st1 1 [] [10%nat];
                 2%nat := joined_dev 2 SOF_COMP_SRC st2 2 [10%nat] [11%nat];
                 3%nat := joined_dev 3 SOF_COMP_DAI st3 2 [11%nat] [] ]};
     bufs := {[ 10%nat := example_buffer 10 (Some 1%nat) (Some 2%nat);
                11%nat := example_buffer 11 (Some 2%nat) (Some 3%nat) ]};
     ppls := {[ 1%nat := joined_ppl 1 1 1 pst1 xr1;
                2%nat := joined_ppl 3 2 3 pst2 0 ]} |}.

(** Running one call after another, from the arena the previous one left. *)
Definition and_then {A B} (o : outcome A) (m : M B) : outcome B :=
  match o with
  | Ok _ s tr => with_prefix tr (m s)
  | Fault => Fault
  | OutOfFuel => OutOfFuel
  end.

(** ** Predicates used by the properties *)

(** A pipeline with a pending XRUN: recovery outstanding and status PAUSED. *)
Definition xrun_pending (pl : pipeline) : Prop :=
  xrun_bytes pl <> 0 /\ status pl = COMP_STATE_PAUSED.

(** The chain Host -> Volume -> DAI, every component ACTIVE. *)
Definition active_chain : sys :=
  chain_sys COMP_STATE_ACTIVE COMP_STATE_ACTIVE COMP_STATE_ACTIVE
    COMP_STATE_ACTIVE 0.

(** The chain after a prepare, and its pipeline. *)
Definition prepared_chain : sys :=
  chain_sys COMP_STATE_PREPARE COMP_STATE_PREPARE COMP_STATE_PREPARE
    COMP_STATE_PREPARE 0.

Definition chain_ppl (pst xr : Z) : pipeline :=
  {| sched_comp := 3%nat; source_comp := Some 1%nat;
     sink_comp := Some 3%nat; status := pst; xrun_bytes := xr;
     pipe_task := true; period := 1000 |}.

(** A device in PREPARE, on its own. *)
Definition lone_dev : comp_dev :=
  {| state := COMP_STATE_PREPARE; direction := 0; dev_pipeline := None;
     comp_id := 1%nat; comp_type := SOF_COMP_SRC; comp_pipeline_id := 0;
     bsource_list := []; bsink_list := [] |}.

(** The walk context of a START issued at component 1. *)
Definition start_at_1 : pipeline_data :=
  {| start := 1%nat; posn := dummy_posn; data_p := 0%nat;
     cmd := COMP_TRIGGER_START |}.

(** What the statuses of the reset hooks called during a walk look like when
    the walk returns [r]: none is negative if [r] is not, and if [r] is
    negative it is the status of the last hook called, the only negative
    one. *)
Definition stops_at_failure (r : Z) (tr : list event) : Prop :=
  (0 <= r -> Forall (fun x => 0 <= x) (reset_statuses tr)) /\
  (r < 0 -> exists pre,
              reset_statuses tr = pre ++ [r] /\ Forall (fun x => 0 <= x) pre).

(** A walk changes states, pipelines and buffer positions, never the links
    of a component or the components a buffer connects. *)
Definition same_graph (s0 s : sys) : Prop :=
  links s = links s0 /\ buf_ends s = buf_ends s0.

(** The part of [routes] below a buffer. *)
Definition routes_via (depth : nat) (s0 : sys) (dir : Z) (b : nat)
  : list nat :=
  match bufs s0 !! b with
  | None => []
  | Some bd =>
      match buffer_get_comp bd dir with
      | None => []
      | Some c' => routes depth (links s0) (bufs s0) dir c'
      end
  end.

(** What is known of a call on a component, [depth] links of budget left:
    the graph is as in [s0] afterwards and the hooks listed by [called] were
    called along the routes from that component: in their order when [R] is
    [sublist], in some order when [R] is [submseteq]. *)
Definition visits_within (R : list nat -> list nat -> Prop)
    (called : list event -> list nat) (s0 : sys) (dir : Z) (depth : nat)
    (func : nat -> Z -> M Z) : Prop :=
  forall c s r s' t,
    same_graph s0 s -> func c dir s = Ok r s' t ->
    same_graph s0 s' /\
    R (called t) (routes depth (links s0) (bufs s0) dir c).

(** A call on a component that leaves the graph as in [s0]. *)
Definition keeps_graph (s0 : sys) (dir : Z) (func : nat -> Z -> M Z) : Prop :=
  forall c s r s' t,
    same_graph s0 s -> func c dir s = Ok r s' t -> same_graph s0 s'.

(** ** Further code of the same files *)

(** Conversion of a 32-bit pattern to [int32_t] / [int]. *)
Definition to_int32 (x : Z) : Z := (x + 2 ^ 31) mod 2 ^ 32 - 2 ^ 31.

(** The device after a sequence of [comp_set_state] calls, statuses
    dropped. *)
Definition comp_set_states (dev : comp_dev) (cmds : list Z) : comp_dev :=
  fold_left (fun d c => snd (comp_set_state d c)) cmds dev.

(** *** buffer_set_size (buffer part of src.c) *)

Definition set_addr (b : comp_buffer) (p : Z) : comp_buffer :=
  {| buf_id := buf_id b; size := size b; avail := avail b; free := free b;
     w_ptr := w_ptr b; r_ptr := r_ptr b; addr := p; end_addr := end_addr b;
     source := source b; sink := sink b |}.

Section BufferResize.

(** [HEAP_BUFFER_SIZE] is a platform constant and [buffer_init] an inline of
    buffer.h; neither is part of the sources at hand. *)
Variable HEAP_BUFFER_SIZE : Z.
Variable buffer_init : comp_buffer -> Z -> comp_buffer.

(** [rbrealloc] is the outcome of the reallocation: the new data area, or
    [None] for NULL. *)
Definition buffer_set_size (rbrealloc : option Z) (buffer : comp_buffer)
    (new_size : Z) : Z * comp_buffer :=
  (* validate request *)
  if (new_size =? 0) || (new_size >? HEAP_BUFFER_SIZE) then (- EINVAL, buffer)
  else if new_size =? size buffer then (0, buffer)
  else
    match rbrealloc with
    | None =>
        (* we couldn't allocate bigger chunk *)
        if new_size >? size buffer then (- ENOMEM, buffer)
        else (0, buffer_init buffer new_size)
    | Some new_ptr =>
        (* use bigger chunk, else just use the old chunk but set smaller *)
        (0, buffer_init (set_addr buffer new_ptr) new_size)
    end.

End BufferResize.

(** *** Sample rate converter set-up (src.c) *)

Definition EIO : Z := 5.

(** [struct src_stage] (src.h), the fields src.c reads. *)
Record src_stage : Type := mk_src_stage {
  idm : Z;
  odm : Z;
  num_of_subfilters : Z;
  subfilter_length : Z;
  filter_length : Z;
  blk_in : Z;
  blk_out : Z
}.

(** [struct src_param] *)
Record src_param : Type := mk_src_param {
  p_fir_s1 : Z;
  p_fir_s2 : Z;
  p_out_s1 : Z;
  p_out_s2 : Z;
  p_sbuf_length : Z;
  p_src_multich : Z;
  p_total : Z;
  p_blk_in : Z;
  p_blk_out : Z;
  p_stage1_times : Z;
  p_stage2_times : Z;
  p_idx_in : Z;
  p_idx_out : Z;
  p_nch : Z
}.

(** [struct src_state]: sizes in samples, pointers as sample addresses,
    [None] for NULL. *)
Record src_state : Type := mk_src_state {
  fir_delay_size : Z;
  out_delay_size : Z;
  fir_delay : option Z;
  out_delay : option Z;
  fir_wp : option Z;
  out_rp : option Z
}.

(** [struct polyphase_src] *)
Record polyphase_src : Type := mk_polyphase_src {
  number_of_stages : Z;
  stage1 : option src_stage;
  stage2 : option src_stage;
  state1 : src_state;
  state2 : src_state
}.

(** The processing function [cd->src_func] points to. *)
Inductive src_func_id : Type :=
  | ptr_src_fallback
  | ptr_src_copy_s32
  | ptr_src_1s
  | ptr_src_2s.

(** [struct comp_data], the private data of a SRC component.  Pointers into
    the delay-line block count in samples; the sample data and the formats
    are left out, and [polyphase_func], which filters the samples, is a
    variable of the section on the copy path. *)
Record comp_data : Type := mk_comp_data {
  cd_src : polyphase_src;
  cd_param : src_param;
  delay_lines : option Z;
  cd_sink_rate : Z;
  cd_source_rate : Z;
  sbuf_w_ptr : option Z;
  sbuf_r_ptr : option Z;
  sbuf_avail : Z;
  cd_source_frames : Z;
  cd_sink_frames : Z;
  sample_container_bytes : Z;
  data_shift : Z;
  src_func : src_func_id
}.

Definition set_src (cd : comp_data) (x : polyphase_src) : comp_data :=
  mk_comp_data x (cd_param cd) (delay_lines cd) (cd_sink_rate cd)
    (cd_source_rate cd) (sbuf_w_ptr cd) (sbuf_r_ptr cd) (sbuf_avail cd)
    (cd_source_frames cd) (cd_sink_frames cd) (sample_container_bytes cd)
    (data_shift cd) (src_func cd).

Definition set_param (cd : comp_data) (x : src_param) : comp_data :=
  mk_comp_data (cd_src cd) x (delay_lines cd) (cd_sink_rate cd)
    (cd_source_rate cd) (sbuf_w_ptr cd) (sbuf_r_ptr cd) (sbuf_avail cd)
    (cd_source_frames cd) (cd_sink_frames cd) (sample_container_bytes cd)
    (data_shift cd) (src_func cd).

Definition set_delay_lines (cd : comp_data) (x : option Z) : comp_data :=
  mk_comp_data (cd_src cd) (cd_param cd) x (cd_sink_rate cd)
    (cd_source_rate cd) (sbuf_w_ptr cd) (sbuf_r_ptr cd) (sbuf_avail cd)
    (cd_source_frames cd) (cd_sink_frames cd) (sample_container_bytes cd)
    (data_shift cd) (src_func cd).

Definition set_rates (cd : comp_data) (source_rate sink_rate : Z)
  : comp_data :=
  mk_comp_data (cd_src cd) (cd_param cd) (delay_lines cd) sink_rate
    source_rate (sbuf_w_ptr cd) (sbuf_r_ptr cd) (sbuf_avail cd)
    (cd_source_frames cd) (cd_sink_frames cd) (sample_container_bytes cd)
    (data_shift cd) (src_func cd).

Definition set_sbuf (cd : comp_data) (w r : option Z) (av : Z) : comp_data :=
  mk_comp_data (cd_src cd) (cd_param cd) (delay_lines cd) (cd_sink_rate cd)
    (cd_source_rate cd) w r av
    (cd_source_frames cd) (cd_sink_frames cd) (sample_container_bytes cd)
    (data_shift cd) (src_func cd).

Definition set_frames (cd : comp_data) (source_frames sink_frames : Z)
  : comp_data :=
  mk_comp_data (cd_src cd) (cd_param cd) (delay_lines cd) (cd_sink_rate cd)
    (cd_source_rate cd) (sbuf_w_ptr cd) (sbuf_r_ptr cd) (sbuf_avail cd)
    source_frames sink_frames (sample_container_bytes cd) (data_shift cd)
    (src_func cd).

Definition set_sample_container_bytes (cd : comp_data) (x : Z) : comp_data :=
  mk_comp_data (cd_src cd) (cd_param cd) (delay_lines cd) (cd_sink_rate cd)
    (cd_source_rate cd) (sbuf_w_ptr cd) (sbuf_r_ptr cd) (sbuf_avail cd)
    (cd_source_frames cd) (cd_sink_frames cd) x (data_shift cd)
    (src_func cd).

Definition set_src_func (cd : comp_data) (x : src_func_id) : comp_data :=
  mk_comp_data (cd_src cd) (cd_param cd) (delay_lines cd) (cd_sink_rate cd)
    (cd_source_rate cd) (sbuf_w_ptr cd) (sbuf_r_ptr cd) (sbuf_avail cd)
    (cd_source_frames cd) (cd_sink_frames cd) (sample_container_bytes cd)
    (data_shift cd) x.

Definition src_fir_delay_length (s : src_stage) : Z :=
  subfilter_length s + (num_of_subfilters s - 1) * idm s + blk_in s.

Definition src_out_delay_length (s : src_stage) : Z :=
  1 + (num_of_subfilters s - 1) * odm s.

(** The [for] loop of [src_find_fs], at index [i] with [n] entries left. *)
Fixpoint src_find_fs_loop (fs_list : list Z) (n : nat) (i : Z) (fs : Z) : Z :=
  match n, fs_list with
  | S n', x :: rest =>
      if x =? fs then i else src_find_fs_loop rest n' (i + 1) fs
  | _, _ => - EINVAL
  end.

(** Returns index of a matching sample rate.  [fs_list] holds at least
    [list_length] entries. *)
Definition src_find_fs (fs_list : list Z) (list_length : Z) (fs : Z) : Z :=
  src_find_fs_loop fs_list (Z.to_nat list_length) 0 fs.

Section SrcTables.

(** The rate lists and conversion tables of the generated coefficient headers
    and the platform channel limit, none of them part of the sources at
    hand.  A table is indexed by output rate index, then input rate index. *)
Variable src_in_fs src_out_fs : list Z.
Variable src_table1 src_table2 : Z -> Z -> src_stage.
Variable PLATFORM_MAX_CHANNELS : Z.
Variable MAX_FIR_DELAY_SIZE_XNCH MAX_OUT_DELAY_SIZE_XNCH : Z.

Definition NUM_IN_FS : Z := Z.of_nat (length src_in_fs).
Definition NUM_OUT_FS : Z := Z.of_nat (length src_out_fs).

(** Calculates buffers to allocate for a SRC mode. *)
Definition src_buffer_lengths (a : src_param) (fs_in fs_out nch_
    source_frames : Z) : Z * src_param :=
  if nch_ >? PLATFORM_MAX_CHANNELS then (- EINVAL, a)
  else
    let idx_in := src_find_fs src_in_fs NUM_IN_FS fs_in in
    let idx_out := src_find_fs src_out_fs NUM_OUT_FS fs_out in
    let a1 := {| p_fir_s1 := p_fir_s1 a; p_fir_s2 := p_fir_s2 a;
                 p_out_s1 := p_out_s1 a; p_out_s2 := p_out_s2 a;
                 p_sbuf_length := p_sbuf_length a;
                 p_src_multich := p_src_multich a; p_total := p_total a;
                 p_blk_in := p_blk_in a; p_blk_out := p_blk_out a;
                 p_stage1_times := p_stage1_times a;
                 p_stage2_times := p_stage2_times a;
                 p_idx_in := idx_in; p_idx_out := idx_out;
                 p_nch := nch_ |} in
    (* Check that both in and out rates are supported *)
    if (idx_in <? 0) || (idx_out <? 0) then (- EINVAL, a1)
    else
      let s1 := src_table1 idx_out idx_in in
      let s2 := src_table2 idx_out idx_in in
      (* Check from stage1 parameter for a deleted in/out rate combination *)
      if filter_length s1 <? 1 then (- EINVAL, a1)
      else
        let fir_s1 := nch_ * src_fir_delay_length s1 in
        let out_s1 := nch_ * src_out_delay_length s1 in
        let two := negb (filter_length s2 =? 1) in
        let fir_s2 := if two then nch_ * src_fir_delay_length s2 else 0 in
        let out_s2 := if two then nch_ * src_out_delay_length s2 else 0 in
        let r1 := Z.quot source_frames (blk_in s1) + 1 in
        let sbuf := if two then 2 * nch_ * blk_out s1 * r1 else 0 in
        let multich := fir_s1 + fir_s2 + out_s1 + out_s2 in
        (0, {| p_fir_s1 := fir_s1; p_fir_s2 := fir_s2;
               p_out_s1 := out_s1; p_out_s2 := out_s2;
               p_sbuf_length := sbuf; p_src_multich := multich;
               p_total := sbuf + multich;
               p_blk_in := 0; p_blk_out := 0;
               p_stage1_times := 0; p_stage2_times := 0;
               p_idx_in := idx_in; p_idx_out := idx_out; p_nch := nch_ |}).

Definition src_state_reset (st : src_state) : src_state :=
  {| fir_delay_size := 0; out_delay_size := 0;
     fir_delay := fir_delay st; out_delay := out_delay st;
     fir_wp := fir_wp st; out_rp := out_rp st |}.

Definition null_delay_lines (st : src_state) : src_state :=
  {| fir_delay_size := fir_delay_size st;
     out_delay_size := out_delay_size st;
     fir_delay := None; out_delay := None;
     fir_wp := fir_wp st; out_rp := out_rp st |}.

Definition init_stages (s1 s2 : src_stage) (src : polyphase_src)
    (p : src_param) (n : Z) (delay_lines_start : Z) : Z * polyphase_src :=
  (* Clear FIR state *)
  let st1 := src_state_reset (state1 src) in
  let st2 := src_state_reset (state2 src) in
  let src0 := {| number_of_stages := n; stage1 := Some s1;
                 stage2 := Some s2; state1 := st1; state2 := st2 |} in
  if (n =? 1) && (blk_out s1 =? 0) then (- EINVAL, src0)
  (* Optimized SRC requires subfilter length multiple of 4 *)
  else if (filter_length s1 >? 1) && (Z.land (subfilter_length s1) 3 >? 0)
  then (- EINVAL, src0)
  else if (filter_length s2 >? 1) && (Z.land (subfilter_length s2) 3 >? 0)
  then (- EINVAL, src0)
  else
    (* Delay line sizes *)
    let out1 := delay_lines_start + p_fir_s1 p in
    let st1' := {| fir_delay_size := p_fir_s1 p;
                   out_delay_size := p_out_s1 p;
                   fir_delay := Some delay_lines_start;
                   out_delay := Some out1;
                   fir_wp := Some (delay_lines_start + (p_fir_s1 p - 1));
                   out_rp := Some out1 |} in
    let st2' :=
      if n >? 1 then
        let fir2 := out1 + p_out_s1 p in
        let out2 := fir2 + p_fir_s2 p in
        {| fir_delay_size := p_fir_s2 p; out_delay_size := p_out_s2 p;
           fir_delay := Some fir2; out_delay := Some out2;
           fir_wp := Some (fir2 + (p_fir_s2 p - 1));
           out_rp := Some out2 |}
      else
        {| fir_delay_size := 0; out_delay_size := 0;
           fir_delay := None; out_delay := None;
           fir_wp := fir_wp st2; out_rp := out_rp st2 |} in
    (* Check the sizes are less than MAX *)
    if (fir_delay_size st1' >? MAX_FIR_DELAY_SIZE_XNCH) ||
       (out_delay_size st1' >? MAX_OUT_DELAY_SIZE_XNCH) ||
       (fir_delay_size st2' >? MAX_FIR_DELAY_SIZE_XNCH) ||
       (out_delay_size st2' >? MAX_OUT_DELAY_SIZE_XNCH)
    then (- EINVAL,
          {| number_of_stages := n; stage1 := Some s1; stage2 := Some s2;
             state1 := null_delay_lines st1';
             state2 := null_delay_lines st2' |})
    else (0, {| number_of_stages := n; stage1 := Some s1; stage2 := Some s2;
                state1 := st1'; state2 := st2' |}).

Definition src_polyphase_init (src : polyphase_src) (p : src_param)
    (delay_lines_start : Z) : Z * polyphase_src :=
  if (p_idx_in p <? 0) || (p_idx_out p <? 0) then (- EINVAL, src)
  else
    (* Get setup for 2 stage conversion *)
    let s1 := src_table1 (p_idx_out p) (p_idx_in p) in
    let s2 := src_table2 (p_idx_out p) (p_idx_in p) in
    let r := init_stages s1 s2 src p 2 delay_lines_start in
    if fst r <? 0 then (- EINVAL, snd r)
    else
      let n_stages := if p_idx_in p =? p_idx_out p then 0
                      else if filter_length s2 =? 1 then 1 else 2 in
      if filter_length s1 =? 0 then (- EINVAL, snd r)
      else (n_stages, snd r).


(** [src_params]: [ipc_source_rate] and [ipc_sink_rate] are the rates of the
    component's IPC configuration, [sourceb_rate], [sinkb_rate] and [channels]
    the stream parameters held by the source and sink buffers, [frames] is
    [dev->frames], and [rballoc] answers an allocation request of the given
    number of bytes with the first sample of the block or NULL.  Returns
    the status, the component data and the rates written back to the two
    buffers.  Releasing an old block with [rfree] leaves no trace here. *)
Definition src_params (cd : comp_data) (ipc_source_rate ipc_sink_rate : Z)
    (params_sample_container_bytes : Z)
    (sourceb_rate sinkb_rate channels frames : Z)
    (rballoc : Z -> option Z) : Z * comp_data * (Z * Z) :=
  let cd := set_sample_container_bytes cd params_sample_container_bytes in
  (* Calculate source and sink rates, one rate will come from IPC new and
     the other from params. *)
  let '(source_rate, sink_rate, rates) :=
    if ipc_source_rate =? 0
    then (sourceb_rate, ipc_sink_rate, (sourceb_rate, ipc_sink_rate))
    else (ipc_source_rate, sinkb_rate, (ipc_source_rate, sinkb_rate)) in
  let cd := set_rates cd source_rate sink_rate in
  let cd := set_frames cd (to_int32 (u32 (frames * source_rate) / sink_rate))
              (to_int32 frames) in
  let r := src_buffer_lengths (cd_param cd) (to_int32 source_rate)
             (to_int32 sink_rate) channels (cd_source_frames cd) in
  let cd := set_param cd (snd r) in
  if fst r <? 0 then (fst r, cd, rates)
  else
    let delay_lines_size := u32 (4 * p_total (cd_param cd)) in
    if delay_lines_size =? 0 then (- EINVAL, cd, rates)
    else
      match rballoc delay_lines_size with
      | None => (- EINVAL, set_delay_lines cd None, rates)
      | Some dl =>
          let cd := set_delay_lines cd (Some dl) in
          let buffer_start := dl + p_sbuf_length (cd_param cd) in
          (* Initialize SRC for actual sample rate *)
          let i := src_polyphase_init (cd_src cd) (cd_param cd)
                     buffer_start in
          let n := fst i in
          (* Reset stage buffer *)
          let cd := set_sbuf (set_src cd (snd i)) (Some dl) (Some dl) 0 in
          if n =? 0 then (0, set_src_func cd ptr_src_copy_s32, rates)
          else if n =? 1 then (0, set_src_func cd ptr_src_1s, rates)
          else if n =? 2 then (0, set_src_func cd ptr_src_2s, rates)
          else (- EINVAL, set_src_func cd ptr_src_fallback, rates)
      end.

End SrcTables.

(** [MIN] of sof/common.h. *)
Definition MIN (a b : Z) : Z := if a <? b then a else b.

(** [src_get_copy_limits]: [avail_src] and [free_snk] are [source->avail] and
    [sink->free], [fb_src] and [fb_snk] the frame sizes [buffer_frame_bytes]
    gives for the two buffers (an inline of buffer.h that is not part of the
    sources at hand), [source_frames] and [sink_frames] the fields of the
    component data.  Returns the status and the updated parameters. *)
Definition src_get_copy_limits (sp : src_param) (s1 s2 : src_stage)
    (source_frames sink_frames : Z) (avail_src fb_src free_snk fb_snk : Z)
  : Z * src_param :=
  let upd (t1 t2 bi bo : Z) :=
    {| p_fir_s1 := p_fir_s1 sp; p_fir_s2 := p_fir_s2 sp;
       p_out_s1 := p_out_s1 sp; p_out_s2 := p_out_s2 sp;
       p_sbuf_length := p_sbuf_length sp;
       p_src_multich := p_src_multich sp; p_total := p_total sp;
       p_blk_in := bi; p_blk_out := bo;
       p_stage1_times := t1; p_stage2_times := t2;
       p_idx_in := p_idx_in sp; p_idx_out := p_idx_out sp;
       p_nch := p_nch sp |} in
  let sp' :=
    if filter_length s2 >? 1 then
      (* Two polyphase filters case *)
      let frames_snk := to_int32 (u32 (free_snk / fb_snk)) in
      let frames_snk := MIN frames_snk (sink_frames + blk_out s2) in
      let stage2_times := Z.quot frames_snk (blk_out s2) in
      let frames_src := to_int32 (u32 (avail_src / fb_src)) in
      let frames_src := MIN frames_src (source_frames + blk_in s1) in
      let stage1_times := Z.quot frames_src (blk_in s1) in
      upd stage1_times stage2_times
        (stage1_times * blk_in s1) (stage2_times * blk_out s2)
    else
      (* Single polyphase filter case *)
      let frames_snk := to_int32 (u32 (free_snk / fb_snk)) in
      let frames_snk := MIN frames_snk (sink_frames + blk_out s1) in
      let stage1_times := Z.quot frames_snk (blk_out s1) in
      let frames_src := to_int32 (u32 (avail_src / fb_src)) in
      let stage1_times := MIN stage1_times (Z.quot frames_src (blk_in s1)) in
      upd stage1_times (p_stage2_times sp)
        (stage1_times * blk_in s1) (stage1_times * blk_out s1) in
  if (p_blk_in sp' =? 0) || (p_blk_out sp' =? 0) then (- EIO, sp')
  else (0, sp').

(** [comp_avail_frames] of component.h, with the frame sizes of the source
    buffer's producer and the sink buffer's consumer ([comp_frame_bytes], from
    format.h, is not part of the sources at hand). *)
Definition comp_avail_frames (avail_src fb_src free_snk fb_snk : Z) : Z :=
  let src_frames := avail_src / fb_src in
  let sink_frames := free_snk / fb_snk in
  MIN src_frames sink_frames.

(** The byte count [comp_underrun] and [comp_overrun] hand to
    [pipeline_xrun]: unsigned arithmetic, converted to [int32_t]. *)
Definition underrun_bytes (avail_src copy_bytes : Z) : Z :=
  to_int32 (u32 (to_int32 avail_src - copy_bytes)).

Definition overrun_bytes (free_snk copy_bytes : Z) : Z :=
  to_int32 (u32 (to_int32 copy_bytes - free_snk)).

(** A run of transfers on one buffer, as its two neighbours issue them. *)
Inductive transfer : Type :=
  | Produce (bytes : Z)
  | Consume (bytes : Z).

Definition transfer_bytes (t : transfer) : Z :=
  match t with Produce n => n | Consume n => n end.

Definition apply_transfer (b : comp_buffer) (t : transfer) : comp_buffer :=
  match t with
  | Produce n => produce b n
  | Consume n => consume b n
  end.

Definition run_transfers (b : comp_buffer) (ts : list transfer) : comp_buffer :=
  fold_left apply_transfer ts b.

(** What the generated coefficient headers provide for a usable stage:
    positive block sizes and non-negative strides and lengths. *)
Definition stage_sane (s : src_stage) : Prop :=
  1 <= num_of_subfilters s /\ 0 <= idm s /\ 0 <= odm s /\
  0 <= subfilter_length s /\ 1 <= blk_in s /\ 1 <= blk_out s.

(** *** SRC copy path (src.c) *)

Definition set_state1 (src : polyphase_src) (st : src_state) : polyphase_src :=
  {| number_of_stages := number_of_stages src; stage1 := stage1 src;
     stage2 := stage2 src; state1 := st; state2 := state2 src |}.

Definition set_state2 (src : polyphase_src) (st : src_state) : polyphase_src :=
  {| number_of_stages := number_of_stages src; stage1 := stage1 src;
     stage2 := stage2 src; state1 := state1 src; state2 := st |}.

(** [struct src_stage_prm], as src.c fills it in.  Pointers into a component
    buffer are byte addresses, pointers into the delay-line block count in
    samples; [prm_state] stands for the state the [state] pointer refers
    to. *)
Record src_stage_prm : Type := mk_src_stage_prm {
  prm_nch : Z;
  prm_shift : Z;
  prm_times : Z;
  x_rptr : option Z;
  x_end_addr : option Z;
  x_size : Z;
  y_wptr : option Z;
  y_addr : option Z;
  y_end_addr : option Z;
  y_size : Z;
  prm_state : src_state;
  prm_stage : src_stage
}.

Section SrcCopy.

(** The stage filter [cd->polyphase_func]: it reads and writes samples, moves
    [x_rptr] and [y_wptr] and updates the state it is handed. *)
Variable polyphase_func : src_stage_prm -> src_stage_prm.

(** The result of a processing function: the component data and the frames
    read and written. *)
Definition src_result : Type := comp_data * (Z * Z).

(** Fallback function *)
Definition src_fallback (cd : comp_data) (source sink : comp_buffer)
    (channels : Z) : option src_result :=
  Some (cd, (0, 0)).

(** Normal 2 stage SRC.  [channels] is [source->channels]. *)
Definition src_2s (cd : comp_data) (source sink : comp_buffer)
    (channels : Z) : option src_result :=
  match stage1 (cd_src cd), stage2 (cd_src cd) with
  | Some stg1, Some stg2 =>
      let sbuf_addr := delay_lines cd in
      let sbuf_end_addr :=
        option_map (fun a => a + p_sbuf_length (cd_param cd))
                   (delay_lines cd) in
      let sbuf_size := 4 * p_sbuf_length (cd_param cd) in
      let nch := channels in
      let sbuf_free := p_sbuf_length (cd_param cd) - sbuf_avail cd in
      let avail_b := to_int32 (avail source) in
      let free_b := to_int32 (free sink) in
      let sz := sample_container_bytes cd in
      (* Test if 1st stage can be run with default block length to reach
         the period length or just under it. *)
      let times1 := p_stage1_times (cd_param cd) in
      let s1_blk_in := times1 * blk_in stg1 * nch in
      let s1_blk_out := times1 * blk_out stg1 * nch in
      (* The sbuf may limit how many times s1 can be looped. *)
      let adjust1 := s1_blk_out >? sbuf_free in
      let times1 := if adjust1 then Z.quot sbuf_free (blk_out stg1 * nch)
                    else times1 in
      let s1_blk_in := if adjust1 then times1 * blk_in stg1 * nch
                       else s1_blk_in in
      let s1_blk_out := if adjust1 then times1 * blk_out stg1 * nch
                        else s1_blk_out in
      let s1 := {| prm_nch := nch; prm_shift := data_shift cd;
                   prm_times := times1;
                   x_rptr := Some (r_ptr source);
                   x_end_addr := Some (end_addr source);
                   x_size := size source;
                   y_wptr := sbuf_w_ptr cd; y_addr := sbuf_addr;
                   y_end_addr := sbuf_end_addr; y_size := sbuf_size;
                   prm_state := state1 (cd_src cd); prm_stage := stg1 |} in
      let run1 := (avail_b >=? s1_blk_in * sz) && (sbuf_free >=? s1_blk_out) in
      let cd1 :=
        if run1 then
          let s1' := polyphase_func s1 in
          set_sbuf (set_src cd (set_state1 (cd_src cd) (prm_state s1')))
                   (y_wptr s1') (sbuf_r_ptr cd) (sbuf_avail cd + s1_blk_out)
        else cd in
      let n_read := if run1 then times1 * blk_in stg1 else 0 in
      let times2 := p_stage2_times (cd_param cd) in
      let s2_blk_in := times2 * blk_in stg2 * nch in
      let s2_blk_out := times2 * blk_out stg2 * nch in
      let adjust2 := s2_blk_in >? sbuf_avail cd1 in
      let times2 := if adjust2 then Z.quot (sbuf_avail cd1) (blk_in stg2 * nch)
                    else times2 in
      let s2_blk_in := if adjust2 then times2 * blk_in stg2 * nch
                       else s2_blk_in in
      let s2_blk_out := if adjust2 then times2 * blk_out stg2 * nch
                        else s2_blk_out in
      let s2 := {| prm_nch := nch; prm_shift := data_shift cd;
                   prm_times := times2;
                   x_rptr := sbuf_r_ptr cd;
                   x_end_addr := sbuf_end_addr; x_size := sbuf_size;
                   y_wptr := Some (w_ptr sink); y_addr := Some (addr sink);
                   y_end_addr := Some (end_addr sink); y_size := size sink;
                   prm_state := state2 (cd_src cd1); prm_stage := stg2 |} in
      (* Test if second stage can be run with default block length. *)
      let run2 := (sbuf_avail cd1 >=? s2_blk_in) &&
                  (free_b >=? s2_blk_out * sz) in
      let cd2 :=
        if run2 then
          let s2' := polyphase_func s2 in
          set_sbuf (set_src cd1 (set_state2 (cd_src cd1) (prm_state s2')))
                   (sbuf_w_ptr cd1) (x_rptr s2') (sbuf_avail cd1 - s2_blk_in)
        else cd1 in
      let n_written := if run2 then times2 * blk_out stg2 else 0 in
      Some (cd2, (n_read, n_written))
  | _, _ => None
  end.

(** 1 stage SRC for simple conversions.  The fields [src_1s] leaves unset
    are NULL here. *)
Definition src_1s (cd : comp_data) (source sink : comp_buffer)
    (channels : Z) : option src_result :=
  match stage1 (cd_src cd) with
  | Some stg1 =>
      let s1 := {| prm_nch := channels; prm_shift := data_shift cd;
                   prm_times := p_stage1_times (cd_param cd);
                   x_rptr := Some (r_ptr source);
                   x_end_addr := Some (end_addr source);
                   x_size := size source;
                   y_wptr := Some (w_ptr sink); y_addr := None;
                   y_end_addr := Some (end_addr sink); y_size := size sink;
                   prm_state := state1 (cd_src cd); prm_stage := stg1 |} in
      let s1' := polyphase_func s1 in
      Some (set_src cd (set_state1 (cd_src cd) (prm_state s1')),
            (p_blk_in (cd_param cd), p_blk_out (cd_param cd)))
  | None => None
  end.

(** A fast copy function for same in and out rate *)
Definition src_copy_s32 (cd : comp_data) (source sink : comp_buffer)
    (channels : Z) : option src_result :=
  let frames := p_blk_in (cd_param cd) in
  Some (cd, (frames, frames)).

Definition call_src_func (f : src_func_id)
  : comp_data -> comp_buffer -> comp_buffer -> Z -> option src_result :=
  match f with
  | ptr_src_fallback => src_fallback
  | ptr_src_copy_s32 => src_copy_s32
  | ptr_src_1s => src_1s
  | ptr_src_2s => src_2s
  end.

(** copy and process stream data from source to sink buffers.  [fb_src] and
    [fb_snk] are [buffer_frame_bytes] of the two buffers and [channels] is
    [source->channels].  [None] stands for the dereference of a NULL stage.
    Returns the status, the component data and the two buffers. *)
Definition src_copy (cd : comp_data) (source sink : comp_buffer)
    (fb_src fb_snk channels : Z)
  : option (Z * comp_data * comp_buffer * comp_buffer) :=
  match stage1 (cd_src cd), stage2 (cd_src cd) with
  | Some s1, Some s2 =>
      let l := src_get_copy_limits (cd_param cd) s1 s2
                 (cd_source_frames cd) (cd_sink_frames cd)
                 (avail source) fb_src (free sink) fb_snk in
      let cd := set_param cd (snd l) in
      if negb (fst l =? 0) then Some (PPL_STATUS_PATH_STOP, cd, source, sink)
      else
        match call_src_func (src_func cd) cd source sink channels with
        | Some (cd', (consumed, produced)) =>
            (* Calc new free and available if data was processed. *)
            let source' := if consumed >? 0
                           then consume source (u32 (consumed * fb_src))
                           else source in
            let sink' := if produced >? 0
                         then produce sink (u32 (produced * fb_snk))
                         else sink in
            Some (0, cd', source', sink')
        | None => None
        end
  | _, _ => None
  end.

End SrcCopy.

(** *** Example set-ups of the sample rate converter *)

Definition stage_example (bi bo fl : Z) : src_stage :=
  {| idm := 1; odm := 1; num_of_subfilters := 2; subfilter_length := 4;
     filter_length := fl; blk_in := bi; blk_out := bo |}.

Definition param_example : src_param :=
  {| p_fir_s1 := 0; p_fir_s2 := 0; p_out_s1 := 0; p_out_s2 := 0;
     p_sbuf_length := 64; p_src_multich := 0; p_total := 0;
     p_blk_in := 0; p_blk_out := 0; p_stage1_times := 0;
     p_stage2_times := 0; p_idx_in := 0; p_idx_out := 1; p_nch := 2 |}.

Definition state_example : src_state :=
  {| fir_delay_size := 0; out_delay_size := 0; fir_delay := None;
     out_delay := None; fir_wp := None; out_rp := None |}.

(** A converter after [src_new]: no stages, no delay lines, the fallback
    function. *)
Definition cd_new : comp_data :=
  {| cd_src := {| number_of_stages := 0; stage1 := None; stage2 := None;
                  state1 := state_example; state2 := state_example |};
     cd_param := param_example; delay_lines := None;
     cd_sink_rate := 0; cd_source_rate := 0;
     sbuf_w_ptr := None; sbuf_r_ptr := None; sbuf_avail := 0;
     cd_source_frames := 0; cd_sink_frames := 0;
     sample_container_bytes := 0; data_shift := 0;
     src_func := ptr_src_fallback |}.

(** Rate lists and tables of a converter that knows 8 kHz, 16 kHz and 48 kHz:
    one stage 1:2 between the first two, two stages 1:2 then 1:3 to 48 kHz,
    a one-tap copy for equal rates. *)
Definition example_fs : list Z := [8000; 16000; 48000].

Definition example_table1 (idx_out idx_in : Z) : src_stage :=
  if idx_out =? idx_in then stage_example 1 1 1
  else stage_example 1 2 8.

Definition example_table2 (idx_out idx_in : Z) : src_stage :=
  if (idx_in =? 0) && (idx_out =? 2) then stage_example 1 3 12
  else stage_example 1 1 1.

(** An allocator whose blocks start at sample 1000. *)
Definition example_rballoc (bytes : Z) : option Z := Some 1000.

(** A converter set up by [src_params] for 8 kHz to 48 kHz, two channels of
    32-bit samples, 8 frames per period at the source. *)
Definition cd_example : comp_data :=
  snd (fst (src_params example_fs example_fs example_table1 example_table2
              8 8000 8000 cd_new 0 48000 4 8000 0 2 48 example_rballoc)).

(** A source buffer holding 64 bytes and an empty sink buffer, 256 bytes
    each. *)
Definition src_source_example : comp_buffer :=
  {| buf_id := 20%nat; size := 256; avail := 64; free := 192;
     w_ptr := 1064; r_ptr := 1000; addr := 1000; end_addr := 1256;
     source := Some 1%nat; sink := Some 2%nat |}.

Definition src_sink_example : comp_buffer :=
  {| buf_id := 21%nat; size := 256; avail := 0; free := 256;
     w_ptr := 5000; r_ptr := 5000; addr := 5000; end_addr := 5256;
     source := Some 2%nat; sink := Some 3%nat |}.

(** *** Pipeline completion, the periodic task and XRUN reports *)

Definition set_endpoints (pl : pipeline) (src snk : nat) (st : Z) : pipeline :=
  {| sched_comp := sched_comp pl; source_comp := Some src;
     sink_comp := Some snk; status := st; xrun_bytes := xrun_bytes pl;
     pipe_task := pipe_task pl; period := period pl |}.

Fixpoint pipeline_comp_complete (fuel : nat) (data : pipeline_data)
    (current : nat) (dir : Z) {struct fuel} : M Z :=
  match fuel with
  | O => fun _ => OutOfFuel
  | S fuel' =>
      cur <- get_comp current ;;
      st <- get_comp (start data) ;;
      if negb (comp_is_single_pipeline cur st) then ret 0
      else
        (* complete component init *)
        put_comp current (set_dev_pipeline cur (Some (data_p data))) ;;;
        pipeline_for_each_comp current
          (Some (pipeline_comp_complete fuel' data)) None dir ;;;
        ret 0
  end.

Definition pipeline_complete (fuel : nat) (p source sink : nat) : M Z :=
  pl <- get_ppl p ;;
  (* check whether pipeline is already completed *)
  if negb (status pl =? COMP_STATE_INIT) then
    emit (EvTraceError (- EINVAL)) ;;; ret (- EINVAL)
  else
    let data := {| start := source; posn := dummy_posn; data_p := p;
                   cmd := 0 |} in
    (* now walk downstream from source component and complete component
       task and pipeline initialization *)
    pipeline_comp_complete fuel data source PPL_DIR_DOWNSTREAM ;;;
    pl' <- get_ppl p ;;
    put_ppl p (set_endpoints pl' source sink COMP_STATE_READY) ;;;
    ret 0.

(** [enum task_state], the two values [pipeline_task] returns. *)
Inductive task_state : Type :=
  | SOF_TASK_STATE_COMPLETED
  | SOF_TASK_STATE_RESCHEDULE.

Section Task.

Variable drv : nat -> comp_ops.
Variable task_init_ok : nat -> bool.

(** The periodic task of a pipeline.  An error trace that carries no status
    is recorded with the status at hand. *)
Definition pipeline_task (fuel : nat) (p : nat) : M task_state :=
  pl <- get_ppl p ;;
  (* are we in xrun ? *)
  skip <- (if negb (xrun_bytes pl =? 0) then
             (* try to recover *)
             err <- pipeline_xrun_recover drv task_init_ok fuel p ;;
             ret (err <? 0)
           else ret false) ;;
  if skip : bool then
    (* skip copy if still in xrun *)
    ret SOF_TASK_STATE_COMPLETED
  else
    err <- pipeline_copy drv fuel p ;;
    if err <? 0 then
      (* try to recover *)
      err' <- pipeline_xrun_recover drv task_init_ok fuel p ;;
      if err' <? 0 then
        (* failed - host will stop this pipeline *)
        emit (EvTraceError err') ;;; ret SOF_TASK_STATE_COMPLETED
      else ret SOF_TASK_STATE_RESCHEDULE
    else ret SOF_TASK_STATE_RESCHEDULE.

(** [comp_underrun] and [comp_overrun] of component.h: the error trace, then
    the report to the pipeline of the component. *)
Definition comp_underrun (fuel : nat) (dev : nat) (source_avail copy_bytes : Z)
  : M unit :=
  d <- get_comp dev ;;
  emit (EvTraceError 0) ;;;
  p <- deref (dev_pipeline d) ;;
  pipeline_xrun drv task_init_ok fuel p dev
    (underrun_bytes source_avail copy_bytes).

Definition comp_overrun (fuel : nat) (dev : nat) (sink_free copy_bytes : Z)
  : M unit :=
  d <- get_comp dev ;;
  emit (EvTraceError 0) ;;;
  p <- deref (dev_pipeline d) ;;
  pipeline_xrun drv task_init_ok fuel p dev
    (overrun_bytes sink_free copy_bytes).

(** The calls the host and the scheduler make on a built graph. *)
Inductive lifecycle_op : Type :=
  | OpPrepare (p dev : nat)
  | OpTrigger (p host : nat) (command : Z)
  | OpReset (p host : nat)
  | OpCopy (p : nat)
  | OpXrun (p dev : nat) (bytes : Z)
  | OpTask (p : nat).

Definition run_op (fuel : nat) (o : lifecycle_op) : M unit :=
  match o with
  | OpPrepare p dev => pipeline_prepare drv task_init_ok fuel p dev ;;; ret tt
  | OpTrigger p host command =>
      pipeline_trigger drv task_init_ok fuel p host command ;;; ret tt
  | OpReset p host => pipeline_reset drv fuel p host ;;; ret tt
  | OpCopy p => pipeline_copy drv fuel p ;;; ret tt
  | OpXrun p dev bytes => pipeline_xrun drv task_init_ok fuel p dev bytes
  | OpTask p => pipeline_task fuel p ;;; ret tt
  end.

Fixpoint run_ops (fuel : nat) (ops : list lifecycle_op) : M unit :=
  match ops with
  | [] => ret tt
  | o :: rest => run_op fuel o ;;; run_ops fuel rest
  end.

End Task.

(** *** What a walk may change and call *)

(** Two devices that differ at most in their state. *)
Definition same_but_state (d d' : comp_dev) : Prop :=
  d' = set_state d (state d').

(** Two pipelines with the same scheduling component, endpoints and
    period. *)
Definition same_wiring (pl pl' : pipeline) : Prop :=
  sched_comp pl' = sched_comp pl /\ source_comp pl' = source_comp pl /\
  sink_comp pl' = sink_comp pl /\ period pl' = period pl.

(** Two pipelines that differ at most in whether the task is allocated. *)
Definition same_but_task (pl pl' : pipeline) : Prop :=
  pl' = set_pipe_task pl (pipe_task pl').

(** Two pipelines that differ at most in status and in a pending XRUN that
    was cleared. *)
Definition same_but_health (pl pl' : pipeline) : Prop :=
  same_wiring pl pl' /\ pipe_task pl' = pipe_task pl /\
  (xrun_bytes pl' = xrun_bytes pl \/ xrun_bytes pl' = 0).

(** Two buffers that differ at most in their position: cursors and
    counters. *)
Definition same_but_position (b b' : comp_buffer) : Prop :=
  b' = set_cursors b (w_ptr b') (r_ptr b') (avail b') (free b').

(** The arena after a call: the same buffers up to [Rb], the same components
    up to their state, the same pipelines up to [Rp]. *)
Definition only_states (Rb : comp_buffer -> comp_buffer -> Prop)
    (Rp : pipeline -> pipeline -> Prop) (s s' : sys) : Prop :=
  (forall b, option_Forall2 Rb (bufs s !! b) (bufs s' !! b)) /\
  (forall c, option_Forall2 same_but_state (comps s !! c) (comps s' !! c)) /\
  (forall p, option_Forall2 Rp (ppls s !! p) (ppls s' !! p)).

(** The calls of a trigger walk with a given command: trigger hooks with that
    command, the task scheduled only on START and RELEASE, cancelled only on
    PAUSE, STOP and XRUN, and error traces. *)
Definition trigger_call (command : Z) (e : event) : Prop :=
  match e with
  | EvTrigger _ c _ => c = command
  | EvScheduleTask _ _ _ =>
      command = COMP_TRIGGER_START \/ command = COMP_TRIGGER_RELEASE
  | EvScheduleCancel _ =>
      command = COMP_TRIGGER_PAUSE \/ command = COMP_TRIGGER_STOP \/
      command = COMP_TRIGGER_XRUN
  | EvTraceError _ => True
  | _ => False
  end.

Definition prepare_call (e : event) : Prop :=
  match e with
  | EvPrepare _ _ | EvBufferResetPos _ | EvTraceError _ => True
  | _ => False
  end.

(** A trigger on a pipeline with a pending XRUN prepares it first. *)
Definition trigger_or_prepare_call (command : Z) (e : event) : Prop :=
  trigger_call command e \/ prepare_call e.

Definition any_call (e : event) : Prop := True.

Definition reset_call (e : event) : Prop :=
  match e with
  | EvReset _ _ | EvTraceError _ => True
  | _ => False
  end.

Definition copy_call (e : event) : Prop :=
  match e with
  | EvCopy _ _ | EvTraceError _ => True
  | _ => False
  end.

Definition xrun_call (p : sof_ipc_stream_posn) (e : event) : Prop :=
  match e with
  | EvHostTimestamp _ => True
  | EvSendXrun _ p' => p' = p
  | _ => False
  end.

(** A property of runs (arena before, arena after, calls made) that holds
    of the empty run and of the sequence of two runs that have it. *)
Definition run_property (Q : sys -> sys -> list event -> Prop) : Prop :=
  (forall s, Q s s []) /\
  (forall s s1 s2 t1 t2, Q s s1 t1 -> Q s1 s2 t2 -> Q s s2 (t1 ++ t2)).

(** Every successful run of [m] has the property [Q]. *)
Definition run_has {A} (Q : sys -> sys -> list event -> Prop) (m : M A)
  : Prop :=
  forall s a s' t, m s = Ok a s' t -> Q s s' t.

(** A run that changes states at most, buffers up to [Rb], pipelines up to
    [Rp], and makes calls of the kind [P] only. *)
Definition walk_frame (Rb : comp_buffer -> comp_buffer -> Prop)
    (Rp : pipeline -> pipeline -> Prop) (P : event -> Prop)
  : sys -> sys -> list event -> Prop :=
  fun s s' t => only_states Rb Rp s s' /\ Forall P t.

(** A run that changes nothing and makes calls of the kind [P] only. *)
Definition reads_only (P : event -> Prop)
  : sys -> sys -> list event -> Prop :=
  fun s s' t => s' = s /\ Forall P t.

(** A driver table whose Volume (2) fails its prepare with -EINVAL. *)
Definition failing_prepare_drv (c : nat) : comp_ops :=
  if Nat.eqb c 2 then
    {| op_trigger := fsm_trigger;
       op_prepare := Some (fun d => (- EINVAL, state d));
       op_reset := Some fsm_reset;
       op_copy := fun d => (0, state d) |}
  else fsm_driver 0.

(** The chain with a pending XRUN, as [pipeline_xrun] leaves it. *)
Definition xrun_chain : sys :=
  chain_sys COMP_STATE_READY COMP_STATE_READY COMP_STATE_READY
    COMP_STATE_PAUSED (-64).

(** A run that returns: no dangling pointer met, budget not exhausted. *)
Definition returns {A} (m : M A) (s : sys) : Prop :=
  exists a s' t, m s = Ok a s' t.

(** Every buffer a component lists exists, and so does the component a
    buffer leads to in direction [dir]. *)
Definition well_linked (s : sys) (dir : Z) : Prop :=
  (forall c l b, links s !! c = Some l -> b ∈ link_list l dir ->
                 is_Some (bufs s !! b)) /\
  (forall b bd c', bufs s !! b = Some bd ->
                   buffer_get_comp bd dir = Some c' ->
                   is_Some (links s !! c')).

(** The graph of [s] is the graph of [s0], possibly without some of the
    links its components had in direction [dir]. *)
Definition sub_graph (s0 s : sys) (dir : Z) : Prop :=
  buf_ends s = buf_ends s0 /\
  forall c, option_Forall2
              (fun l0 l => link_list l dir ⊆ link_list l0 dir)
              (links s0 !! c) (links s !! c).

(** An arena whose pipelines are complete: every component belongs to a
    pipeline of the arena, and the scheduling, source and sink component of
    every pipeline are components of the arena. *)
Definition sound (s : sys) : Prop :=
  (forall c d, comps s !! c = Some d ->
     exists p, dev_pipeline d = Some p /\ is_Some (ppls s !! p)) /\
  (forall p pl, ppls s !! p = Some pl ->
     is_Some (comps s !! sched_comp pl) /\
     (exists src, source_comp pl = Some src /\ is_Some (comps s !! src)) /\
     (exists snk, sink_comp pl = Some snk /\ is_Some (comps s !! snk))).

(** A check that a graph can be walked in direction [dir]: the buffers a
    component lists exist and lead to components of lower rank, and every
    buffer leads to a component of the arena. *)
Definition graph_ok (s : sys) (dir : Z) (rank : nat -> nat) : bool :=
  forallb
    (fun cd : nat * comp_dev =>
       forallb
         (fun b =>
            match bufs s !! b with
            | Some bd =>
                match buffer_get_comp bd dir with
                | Some c' => Nat.ltb (rank c') (rank (fst cd))
                | None => true
                end
            | None => false
            end)
         (comp_buffer_list (snd cd) dir))
    (map_to_list (comps s)) &&
  forallb
    (fun bb : nat * comp_buffer =>
       match buffer_get_comp (snd bb) dir with
       | Some c' => bool_decide (is_Some (comps s !! c'))
       | None => true
       end)
    (map_to_list (bufs s)).

(** A check that an arena is [sound]. *)
Definition sound_ok (s : sys) : bool :=
  forallb
    (fun cd : nat * comp_dev =>
       match dev_pipeline (snd cd) with
       | Some p => bool_decide (is_Some (ppls s !! p))
       | None => false
       end)
    (map_to_list (comps s)) &&
  forallb
    (fun pp : nat * pipeline =>
       bool_decide (is_Some (comps s !! sched_comp (snd pp))) &&
       match source_comp (snd pp), sink_comp (snd pp) with
       | Some src, Some snk =>
           bool_decide (is_Some (comps s !! src)) &&
           bool_decide (is_Some (comps s !! snk))
       | _, _ => false
       end)
    (map_to_list (ppls s)).

(** A device as [pipeline_complete] may leave it: untouched, or claimed by
    pipeline [p], which happens only to devices of pipeline id [k]. *)
Definition claimed_by (p : nat) (k : Z) (d d' : comp_dev) : Prop :=
  d' = d \/ (d' = set_dev_pipeline d (Some p) /\ comp_pipeline_id d = k).

(** The chain before [pipeline_complete]: no component has a pipeline yet,
    the pipeline is in INIT and knows only its scheduling component. *)
Definition unclaimed (d : comp_dev) : comp_dev := set_dev_pipeline d None.

Definition new_chain : sys :=
  {| comps := {[ 1%nat := unclaimed (chain_host COMP_STATE_READY);
                 2%nat := unclaimed (chain_volume COMP_STATE_READY);
                 3%nat := unclaimed (chain_dai COMP_STATE_READY) ]};
     bufs := bufs active_chain;
     ppls := {[ 0%nat := {| sched_comp := 3%nat; source_comp := None;
                            sink_comp := None; status := COMP_STATE_INIT;
                            xrun_bytes := 0; pipe_task := false;
                            period := 1000 |} ]} |}.

Definition chain_rank (c : nat) : nat :=
  match c with
  | 1%nat => 2%nat
  | 2%nat => 1%nat
  | _ => 0%nat
  end.

(** A device after [pipeline_comp_free] walking DOWNSTREAM: no pipeline, no
    sink buffers; state and source buffers as before. *)
Definition freed (d : comp_dev) : comp_dev :=
  list_item_del_buffer_list (set_dev_pipeline d None) PPL_DIR_DOWNSTREAM.

(** A device as [pipeline_free] may leave it: untouched, or freed, which
    happens only to devices of pipeline id [k]. *)
Definition released (k : Z) (d d' : comp_dev) : Prop :=
  d' = d \/ (d' = freed d /\ comp_pipeline_id d = k).

(** A call that, if it is a copy hook, is made on a component of the arena
    [s] with pipeline id [k]. *)
Definition copies_within (s : sys) (k : Z) (e : event) : Prop :=
  match e with
  | EvCopy c _ =>
      exists d, comps s !! c = Some d /\ comp_pipeline_id d = k
  | _ => True
  end.

(** *** Registry look-ups of ipc.c *)

Definition COMP_TYPE_COMPONENT : Z := 1.
Definition COMP_TYPE_BUFFER    : Z := 2.
Definition COMP_TYPE_PIPELINE  : Z := 3.

(** [struct ipc_comp_dev]: [icd_ref] is the component, buffer or pipeline of
    the arena the entry points to. *)
Record ipc_comp_dev : Type := mk_ipc_comp_dev {
  icd_type : Z;
  icd_core : Z;
  icd_id : Z;
  icd_ref : nat
}.

Fixpoint ipc_get_comp_by_id (comp_list : list ipc_comp_dev) (id : Z)
  : option ipc_comp_dev :=
  match comp_list with
  | [] => None
  | icd :: rest =>
      if icd_id icd =? id then Some icd else ipc_get_comp_by_id rest id
  end.

Section Registry.

(** [cpu_get_id()], the core the code runs on. *)
Variable cpu_get_id : Z.

Definition cpu_is_me (id : Z) : bool := id =? cpu_get_id.

(** The first loop of [ipc_get_ppl_comp]: first try to find the module in
    the pipeline. *)
Fixpoint ipc_get_ppl_comp_module (comp_list : list ipc_comp_dev)
    (pipeline_id dir : Z) : M (option ipc_comp_dev) :=
  match comp_list with
  | [] => ret None
  | icd :: rest =>
      if negb (icd_type icd =? COMP_TYPE_COMPONENT) then
        ipc_get_ppl_comp_module rest pipeline_id dir
      else if negb (cpu_is_me (icd_core icd)) then
        ipc_get_ppl_comp_module rest pipeline_id dir
      else
        cd <- get_comp (icd_ref icd) ;;
        if (comp_pipeline_id cd =? pipeline_id) &&
           match comp_buffer_list cd dir with [] => true | _ => false end
        then ret (Some icd)
        else ipc_get_ppl_comp_module rest pipeline_id dir
  end.

(** The second loop: it's connected pipeline, so find the connected module.
    The first element of an empty list is no buffer: [deref None]. *)
Fixpoint ipc_get_ppl_comp_connected (comp_list : list ipc_comp_dev)
    (pipeline_id dir : Z) : M (option ipc_comp_dev) :=
  match comp_list with
  | [] => ret None
  | icd :: rest =>
      if negb (icd_type icd =? COMP_TYPE_COMPONENT) then
        ipc_get_ppl_comp_connected rest pipeline_id dir
      else if negb (cpu_is_me (icd_core icd)) then
        ipc_get_ppl_comp_connected rest pipeline_id dir
      else
        cd <- get_comp (icd_ref icd) ;;
        if comp_pipeline_id cd =? pipeline_id then
          b <- deref (head (comp_buffer_list cd dir)) ;;
          buffer <- get_buf b ;;
          match buffer_get_comp buffer dir with
          | Some c' =>
              buff_comp <- get_comp c' ;;
              if negb (comp_pipeline_id buff_comp =? pipeline_id)
              then ret (Some icd)
              else ipc_get_ppl_comp_connected rest pipeline_id dir
          | None => ipc_get_ppl_comp_connected rest pipeline_id dir
          end
        else ipc_get_ppl_comp_connected rest pipeline_id dir
  end.

Definition ipc_get_ppl_comp (comp_list : list ipc_comp_dev)
    (pipeline_id dir : Z) : M (option ipc_comp_dev) :=
  r <- ipc_get_ppl_comp_module comp_list pipeline_id dir ;;
  match r with
  | Some icd => ret (Some icd)
  | None => ipc_get_ppl_comp_connected comp_list pipeline_id dir
  end.

(** Returns pipeline source component / pipeline sink component. *)
Definition ipc_get_ppl_src_comp (comp_list : list ipc_comp_dev)
    (ppl_id : Z) : M (option ipc_comp_dev) :=
  ipc_get_ppl_comp comp_list ppl_id PPL_DIR_UPSTREAM.

Definition ipc_get_ppl_sink_comp (comp_list : list ipc_comp_dev)
    (ppl_id : Z) : M (option ipc_comp_dev) :=
  ipc_get_ppl_comp comp_list ppl_id PPL_DIR_DOWNSTREAM.

(** An entry for a component on this core. *)
Definition local_component (icd : ipc_comp_dev) : Prop :=
  icd_type icd = COMP_TYPE_COMPONENT /\ icd_core icd = cpu_get_id.

(** The entries of components on this core point into the arena, and so do
    the first buffer of such a component in direction [dir] and the component
    that buffer leads to. *)
Definition registry_ok (comp_list : list ipc_comp_dev) (s : sys) (dir : Z)
  : Prop :=
  forall icd, icd ∈ comp_list -> local_component icd ->
    exists cd, comps s !! icd_ref icd = Some cd /\
      forall b, head (comp_buffer_list cd dir) = Some b ->
        exists bd, bufs s !! b = Some bd /\
          forall c', buffer_get_comp bd dir = Some c' ->
                     is_Some (comps s !! c').

(** An end of pipeline [pipeline_id] in direction [dir]: a component of the
    pipeline with no buffer in that direction, or whose first buffer there
    leads to a component of another pipeline. *)
Definition pipeline_end (s : sys) (pipeline_id dir : Z) (cd : comp_dev)
  : Prop :=
  comp_pipeline_id cd = pipeline_id /\
  (comp_buffer_list cd dir = [] \/
   exists b bd c' d',
     head (comp_buffer_list cd dir) = Some b /\ bufs s !! b = Some bd /\
     buffer_get_comp bd dir = Some c' /\ comps s !! c' = Some d' /\
     comp_pipeline_id d' <> pipeline_id).

End Registry.

(** The registry of the joined pipelines: the three components, the two
    buffers and the two pipelines, all on core 0. *)
Definition joined_registry : list ipc_comp_dev :=
  [ mk_ipc_comp_dev COMP_TYPE_PIPELINE 0 101 1;
    mk_ipc_comp_dev COMP_TYPE_COMPONENT 0 1 1;
    mk_ipc_comp_dev COMP_TYPE_BUFFER 0 10 10;
    mk_ipc_comp_dev COMP_TYPE_PIPELINE 0 102 2;
    mk_ipc_comp_dev COMP_TYPE_COMPONENT 0 2 2;
    mk_ipc_comp_dev COMP_TYPE_BUFFER 0 11 11;
    mk_ipc_comp_dev COMP_TYPE_COMPONENT 0 3 3 ].

(** * Properties *)

(** ** Arithmetic helpers *)

Lemma two_p32 : 2 ^ 32 = 4294967296.
Proof. reflexivity. Qed.

Lemma u32_small (x : Z) : 0 <= x < 4294967296 -> u32 x = x.
Proof. intros H. unfold u32. apply Z.mod_small. rewrite two_p32. exact H. Qed.

Lemma u32_zero : u32 0 = 0.
Proof. reflexivity. Qed.

(** A value below twice the modulus is reduced by at most one subtraction;
    this is the single "pointer wrap" check of the transfer primitive. *)
Lemma mod_one_wrap (x m : Z) :
  0 <= x < 2 * m -> x mod m = if x <? m then x else x - m.
Proof.
  intros H. destruct (Z.ltb_spec x m) as [Hlt | Hge].
  - apply Z.mod_small. lia.
  - replace x with ((x - m) + 1 * m) at 1 by lia.
    rewrite Z.mod_add by lia. apply Z.mod_small. lia.
Qed.

Ltac zbool :=
  rewrite ?Z.geb_leb, ?Z.gtb_ltb in *;
  repeat match goal with
  | |- context [Z.eqb ?a ?b] => destruct (Z.eqb_spec a b)
  | |- context [Z.ltb ?a ?b] => destruct (Z.ltb_spec a b)
  | |- context [Z.leb ?a ?b] => destruct (Z.leb_spec a b)
  end.

Ltac unfold_transfer :=
  unfold produce, consume, comp_update_buffer_produce,
    comp_update_buffer_consume, calc_avail, set_cursors in *;
  cbn [fst snd] in *.

Ltac proj_buffer :=
  cbn [fst snd avail free size w_ptr r_ptr addr end_addr].

(** ** Component state machine *)

(** C1. State machine law: for each of the five states and seven commands,
    [comp_set_state] ends in exactly one of three outcomes, the one the
    section 4.1 table prescribes: the documented new state with status 0 (only
    the state field changes), the "already set" sentinel with the device
    untouched when the new state of the table is the current one, or -EINVAL
    with the device untouched.  The state [comp_get_requested_state] computes
    is the "New state" column of the table. *)
Theorem comp_set_state_total (dev : comp_dev) (command : Z) :
  In (state dev) fsm_states ->
  In command fsm_commands ->
  classify_set_state dev command
    = Some (spec_set_state (state dev) command) /\
  spec_new_state command = Some (comp_get_requested_state command) /\
  match spec_set_state (state dev) command with
  | Moved s' =>
      comp_set_state dev command = (0, set_state dev s') /\
      spec_transition command (state dev) = Some s' /\
      spec_new_state command = Some s' /\ s' <> state dev
  | AlreadySet =>
      comp_set_state dev command = (COMP_STATUS_STATE_ALREADY_SET, dev) /\
      spec_new_state command = Some (state dev)
  | InvalidState =>
      comp_set_state dev command = (- EINVAL, dev) /\
      spec_transition command (state dev) = None /\
      spec_new_state command <> Some (state dev)
  end.
Proof.
  intros Hs Hc. destruct dev as [st di pp ci ct cp bso bsi].
  cbn [state] in *.
  unfold fsm_states, fsm_commands in *. cbn [In] in *.
  repeat match goal with H : _ \/ _ |- _ => destruct H as [H | H] end;
    try contradiction; subst st command;
    (split; [ reflexivity
            | split; [ reflexivity
                     | vm_compute; repeat split; congruence ] ]).
Qed.

Lemma comp_set_state_total_witness :
  classify_set_state lone_dev COMP_TRIGGER_START
  = Some (Moved COMP_STATE_ACTIVE).
Proof.
  exact (proj1 (comp_set_state_total lone_dev COMP_TRIGGER_START
                  ltac:(vm_compute; tauto) ltac:(vm_compute; tauto))).
Defined.

(** ** Ring buffer *)

(** The cursor of a well-formed buffer, as an offset, and what the counters
    say about it. *)
Lemma ring_buffer_offsets (b : comp_buffer) :
  ring_buffer_ok b ->
  0 <= avail b <= size b /\ 0 <= free b <= size b /\
  (if (r_ptr b - addr b) + avail b <? size b
   then (r_ptr b - addr b) + avail b
   else (r_ptr b - addr b) + avail b - size b) = w_ptr b - addr b.
Proof.
  intros (Hg & Hc & Hn & Hm).
  destruct Hg as (Hsz & Ha & He), Hc as (Hr & Hw), Hn as (Hav & Hfr & Hsum).
  unfold counters_match_cursors in Hm.
  rewrite mod_one_wrap in Hm by lia.
  split; [lia | split; [lia | exact Hm]].
Qed.

(** Produce keeps the counters consistent whatever the size of the
    transfer. *)
Lemma produce_counters_ok (b : comp_buffer) (n : Z) :
  geometry_ok b -> cursors_in_range b -> counters_ok b -> is_u32 n ->
  counters_ok (produce b n).
Proof.
  intros (Hsz & Ha & He) (Hr & Hw) (Hav & Hfr & Hsum) Hn.
  unfold is_u32 in Hn. rewrite two_p32 in *. unfold counters_ok.
  unfold_transfer.
  destruct (Z.eqb_spec n 0) as [-> | Hn0]; proj_buffer.
  { lia. }
  rewrite ?Z.geb_leb, ?Z.gtb_ltb.
  destruct (Z.ltb_spec (free b) n) as [Hover | Hfit].
  - (* overrun: the read cursor joins the write cursor *)
    rewrite Z.ltb_irrefl, Z.eqb_refl.
    rewrite Z.sub_diag, u32_zero. lia.
  - destruct (Z.leb_spec (end_addr b) (w_ptr b + n)) as [Hwrap | Hno];
      zbool; proj_buffer; rewrite ?u32_small by lia;
      rewrite ?u32_small by lia; lia.
Qed.

(** Consume keeps them consistent as long as the request does not exceed the
    capacity, hence for every request within [avail]. *)
Lemma consume_counters_ok (b : comp_buffer) (n : Z) :
  geometry_ok b -> cursors_in_range b -> counters_ok b -> is_u32 n ->
  n <= size b ->
  counters_ok (consume b n).
Proof.
  intros (Hsz & Ha & He) (Hr & Hw) (Hav & Hfr & Hsum) Hn Hle.
  unfold is_u32 in Hn. rewrite two_p32 in *. unfold counters_ok.
  unfold_transfer.
  destruct (Z.eqb_spec n 0) as [-> | Hn0]; proj_buffer.
  { lia. }
  rewrite ?Z.geb_leb, ?Z.gtb_ltb.
  destruct (Z.leb_spec (end_addr b) (r_ptr b + n)) as [Hwrap | Hno];
    zbool; proj_buffer; rewrite ?u32_small by lia;
      rewrite ?u32_small by lia; lia.
Qed.

(** The data-model invariant is an invariant of the primitive: it holds again
    after any transfer that fits the buffer. *)
Lemma ring_buffer_ok_preserved (b : comp_buffer) (n : Z) :
  ring_buffer_ok b -> is_u32 n -> n <= size b ->
  ring_buffer_ok (produce b n) /\ ring_buffer_ok (consume b n).
Proof.
  intros Hok Hn Hle.
  destruct (ring_buffer_offsets b Hok) as (Hav & Hfr & Hoff).
  pose proof Hok as ((Hsz & Ha & He) & (Hr & Hw) & (_ & _ & Hsum) & _).
  unfold is_u32 in Hn. rewrite two_p32 in *.
  unfold ring_buffer_ok, geometry_ok, cursors_in_range, counters_ok,
    counters_match_cursors.
  rewrite two_p32. unfold_transfer.
  destruct (Z.eqb_spec n 0) as [-> | Hn0]; proj_buffer.
  { destruct Hok as (Hg & Hc & Hcn & Hm). split; repeat split; try lia;
      try apply Hc; try apply Hcn; exact Hm. }
  rewrite ?Z.geb_leb, ?Z.gtb_ltb. split.
  - destruct (Z.leb_spec (end_addr b) (w_ptr b + n));
      destruct (Z.ltb_spec (free b) n);
      zbool; proj_buffer; rewrite ?u32_small by lia;
      rewrite ?u32_small by lia;
      (repeat split; try lia);
      rewrite mod_one_wrap by lia; zbool; lia.
  - destruct (Z.leb_spec (end_addr b) (r_ptr b + n));
      zbool; proj_buffer; rewrite ?u32_small by lia;
      rewrite ?u32_small by lia;
      (repeat split; try lia);
      rewrite mod_one_wrap by lia; zbool; lia.
Qed.

(** C2. Overrun law: a produce of more bytes than are free leaves the read
    cursor on the write cursor and reports the buffer full; [n - free] bytes
    of unread data are given up (unread before, plus written, minus unread
    after), and the read cursor has moved forward by that amount around the
    ring whenever the transfer fits the buffer. *)
Theorem produce_overrun (b : comp_buffer) (n : Z) :
  ring_buffer_ok b -> is_u32 n -> 0 < n -> n > free b ->
  r_ptr (produce b n) = w_ptr (produce b n) /\
  avail (produce b n) = size b /\
  free (produce b n) = 0 /\
  avail b + n - avail (produce b n) = n - free b /\
  (n <= size b ->
   r_ptr (produce b n)
   = addr b + ((r_ptr b - addr b) + (n - free b)) mod size b).
Proof.
  intros Hok Hn Hpos Hover.
  destruct (ring_buffer_offsets b Hok) as (Hav & Hfr & Hoff).
  destruct Hok as ((Hsz & Ha & He) & (Hr & Hw) & (_ & _ & Hsum) & _).
  unfold is_u32 in Hn. rewrite two_p32 in *. unfold_transfer.
  destruct (Z.eqb_spec n 0) as [-> | _]; [lia |].
  rewrite ?Z.geb_leb, ?Z.gtb_ltb.
  destruct (Z.ltb_spec (free b) n) as [_ | Hfit]; [| lia].
  proj_buffer.
  rewrite Z.ltb_irrefl, Z.eqb_refl, Z.sub_diag.
  rewrite u32_zero.
  repeat split; try lia.
  intros Hle. rewrite mod_one_wrap by lia.
  revert Hoff. zbool; lia.
Qed.

Lemma buffer_example_ok_6 : ring_buffer_ok (buffer_example 106 100 6 4).
Proof. vm_compute. repeat split; congruence. Qed.

Lemma produce_overrun_witness :
  r_ptr (produce (buffer_example 106 100 6 4) 7) = 103 /\
  avail (produce (buffer_example 106 100 6 4) 7) = 10.
Proof.
  pose proof (produce_overrun (buffer_example 106 100 6 4) 7
                buffer_example_ok_6
                ltac:(vm_compute; split; congruence)
                ltac:(lia) ltac:(vm_compute; reflexivity)) as H.
  split; [ | exact (proj1 (proj2 H)) ]. reflexivity.
Defined.

(** C3 as stated fails: on an empty 10-byte buffer a consume of 25 bytes moves
    the read cursor past the end of the data area, and the counters computed
    from it no longer add up to the size. *)
Lemma consume_breaks_counters :
  let b := buffer_example 100 100 0 10 in
  geometry_ok b /\ cursors_in_range b /\ counters_ok b /\ is_u32 25 /\
  avail (consume b 25) = 2 ^ 32 - 5 /\
  free (consume b 25) = 15 /\
  avail (consume b 25) + free (consume b 25) <> size (consume b 25).
Proof. vm_compute. repeat split; congruence. Qed.

(** C3 (amended). For a buffer whose cursors lie in the data area and whose
    counters add up to the size, [avail + free == size] (both non-negative)
    holds again after produce of any number of bytes, and after consume of any
    number of bytes up to the size of the buffer, which covers every request
    within [avail]. *)
Theorem transfer_keeps_counters (b : comp_buffer) (n : Z) :
  geometry_ok b -> cursors_in_range b -> counters_ok b -> is_u32 n ->
  counters_ok (produce b n) /\
  (n <= size b -> counters_ok (consume b n)).
Proof.
  intros Hg Hc Hn Hu. split.
  - apply produce_counters_ok; assumption.
  - intros Hle. apply consume_counters_ok; assumption.
Qed.

Lemma transfer_keeps_counters_witness :
  avail (produce (buffer_example 106 100 6 4) 3)
  + free (produce (buffer_example 106 100 6 4) 3) = 10.
Proof.
  pose proof (transfer_keeps_counters (buffer_example 106 100 6 4) 3
                ltac:(vm_compute; repeat split; congruence)
                ltac:(vm_compute; repeat split; congruence)
                ltac:(vm_compute; repeat split; congruence)
                ltac:(vm_compute; split; congruence)) as [H _].
  exact (proj2 (proj2 H)).
Defined.

(** C4. The equal-cursor case is resolved by direction: a produce of exactly
    [free] bytes brings the write cursor onto the read cursor and reports the
    buffer full; a consume of exactly [avail] bytes brings the read cursor
    onto the write cursor and reports it empty. *)
Theorem exact_fill_and_drain (b : comp_buffer) :
  ring_buffer_ok b ->
  (w_ptr (produce b (free b)) = r_ptr (produce b (free b)) /\
   avail (produce b (free b)) = size b) /\
  (r_ptr (consume b (avail b)) = w_ptr (consume b (avail b)) /\
   avail (consume b (avail b)) = 0).
Proof.
  intros Hok.
  destruct (ring_buffer_offsets b Hok) as (Hav & Hfr & Hoff).
  destruct Hok as ((Hsz & Ha & He) & (Hr & Hw) & (_ & _ & Hsum) & _).
  rewrite two_p32 in *. unfold_transfer. split.
  - destruct (Z.eqb_spec (free b) 0) as [Hz | Hnz]; proj_buffer.
    + revert Hoff. zbool; lia.
    + proj_buffer.
      rewrite ?Z.geb_leb, ?Z.gtb_ltb, Z.ltb_irrefl.
      revert Hoff. zbool; rewrite ?u32_small by lia; lia.
  - destruct (Z.eqb_spec (avail b) 0) as [Hz | Hnz]; proj_buffer.
    + revert Hoff. zbool; lia.
    + proj_buffer.
      rewrite ?Z.geb_leb, ?Z.gtb_ltb.
      revert Hoff. zbool; rewrite ?u32_small by lia; lia.
Qed.

Lemma exact_fill_and_drain_witness :
  avail (produce (buffer_example 106 100 6 4) 4) = 10 /\
  avail (consume (buffer_example 106 100 6 4) 6) = 0.
Proof.
  pose proof (exact_fill_and_drain (buffer_example 106 100 6 4)
                buffer_example_ok_6) as [[_ H1] [_ H2]].
  split; [exact H1 | exact H2].
Defined.

(** ** Stepping through the execution monad *)

Lemma with_prefix_nil {A} (o : outcome A) : with_prefix [] o = o.
Proof. destruct o; reflexivity. Qed.

Lemma with_prefix_app {A} (t1 t2 : list event) (o : outcome A) :
  with_prefix t1 (with_prefix t2 o) = with_prefix (t1 ++ t2) o.
Proof. destruct o; cbn; rewrite ?app_assoc; reflexivity. Qed.

Lemma bind_ok {A B} (m : M A) (k : A -> M B) s a s1 t1 :
  m s = Ok a s1 t1 -> bind m k s = with_prefix t1 (k a s1).
Proof. intros H. unfold bind. rewrite H. reflexivity. Qed.

Lemma bind_ret {A B} (a : A) (k : A -> M B) s : bind (ret a) k s = k a s.
Proof. unfold bind, ret. apply with_prefix_nil. Qed.

Lemma bind_emit {B} (e : event) (k : unit -> M B) s :
  bind (emit e) k s = with_prefix [e] (k tt s).
Proof. reflexivity. Qed.

Lemma bind_deref {A B} (a : A) (k : A -> M B) s :
  bind (deref (Some a)) k s = k a s.
Proof. unfold bind, deref. apply with_prefix_nil. Qed.

Lemma bind_deref_none {A B} (k : A -> M B) s :
  bind (deref None) k s = Fault.
Proof. reflexivity. Qed.

Lemma bind_get_comp {B} c d (k : comp_dev -> M B) s :
  comps s !! c = Some d -> bind (get_comp c) k s = k d s.
Proof.
  intros H. unfold bind, get_comp. rewrite H. apply with_prefix_nil.
Qed.

Lemma bind_get_buf {B} b bd (k : comp_buffer -> M B) s :
  bufs s !! b = Some bd -> bind (get_buf b) k s = k bd s.
Proof.
  intros H. unfold bind, get_buf. rewrite H. apply with_prefix_nil.
Qed.

Lemma bind_get_ppl {B} p pl (k : pipeline -> M B) s :
  ppls s !! p = Some pl -> bind (get_ppl p) k s = k pl s.
Proof.
  intros H. unfold bind, get_ppl. rewrite H. apply with_prefix_nil.
Qed.

Lemma bind_put_comp {B} c d (k : unit -> M B) s :
  bind (put_comp c d) k s
  = k tt (upd_comp s c d).
Proof. unfold bind, put_comp. apply with_prefix_nil. Qed.

Lemma bind_put_buf {B} b bd (k : unit -> M B) s :
  bind (put_buf b bd) k s
  = k tt (upd_buf s b bd).
Proof. unfold bind, put_buf. apply with_prefix_nil. Qed.

Lemma bind_put_ppl {B} p pl (k : unit -> M B) s :
  bind (put_ppl p pl) k s
  = k tt (upd_ppl s p pl).
Proof. unfold bind, put_ppl. apply with_prefix_nil. Qed.

Lemma bind_ret_r {A} (m : M A) s : bind m ret s = m s.
Proof.
  unfold bind, ret. destruct (m s); cbn; rewrite ?app_nil_r; reflexivity.
Qed.

Lemma bind_assoc {A B C} (m : M A) (k : A -> M B) (h : B -> M C) s :
  bind (bind m k) h s = bind m (fun a => bind (k a) h) s.
Proof.
  unfold bind. destruct (m s) as [a s1 t1 | |]; try reflexivity.
  destruct (k a s1) as [b s2 t2 | |]; cbn; try reflexivity.
  rewrite with_prefix_app. reflexivity.
Qed.

(** What a successful bind is made of. *)
Lemma bind_inv {A B} (m : M A) (k : A -> M B) s b s2 t :
  bind m k s = Ok b s2 t ->
  exists a s1 t1 t2,
    m s = Ok a s1 t1 /\ k a s1 = Ok b s2 t2 /\ t = t1 ++ t2.
Proof.
  unfold bind. destruct (m s) as [a s1 t1 | |]; try discriminate.
  destruct (k a s1) as [b' s2' t2 | |] eqn:Hk; cbn; try discriminate.
  intros [= -> -> <-]. exists a, s1, t1, t2. auto.
Qed.

(** A bind runs out of fuel only if one of its two parts does. *)
Lemma bind_fuel {A B} (m : M A) (k : A -> M B) s :
  m s <> OutOfFuel ->
  (forall a s1 t1, m s = Ok a s1 t1 -> k a s1 <> OutOfFuel) ->
  bind m k s <> OutOfFuel.
Proof.
  intros Hm Hk. unfold bind. destruct (m s) as [a s1 t1 | |] eqn:E.
  - specialize (Hk a s1 t1 eq_refl).
    destruct (k a s1); cbn; congruence.
  - discriminate.
  - congruence.
Qed.

Ltac mstep :=
  first
    [ rewrite bind_ret
    | rewrite bind_emit
    | rewrite bind_deref
    | rewrite bind_put_comp
    | rewrite bind_put_ppl
    | erewrite bind_get_comp by eassumption
    | erewrite bind_get_buf by eassumption
    | erewrite bind_get_ppl by eassumption ].

(** ** Pipeline: XRUN entry, trigger in pending XRUN, free *)

(** C10. An XRUN reported while a recovery is already pending, or by a
    component that is not ACTIVE, does nothing at all: the arena is returned
    as it was (so [xrun_bytes] and [status] keep their values) and no external
    call is made (no trigger reaches a component, no host is notified, the
    task is not cancelled). *)
Theorem pipeline_xrun_noop (drv : nat -> comp_ops) (tk : nat -> bool)
    (fuel : nat) (s : sys) (p dev : nat) (bytes : Z) (pl : pipeline) :
  ppls s !! p = Some pl ->
  (xrun_bytes pl <> 0 \/
   exists d, comps s !! dev = Some d /\ state d <> COMP_STATE_ACTIVE) ->
  pipeline_xrun drv tk fuel p dev bytes s = Ok tt s [].
Proof.
  intros Hp Hcase. unfold pipeline_xrun. mstep.
  destruct (Z.eqb_spec (xrun_bytes pl) 0) as [Hz | Hnz]; cbn [negb].
  - destruct Hcase as [Hx | (d & Hd & Hst)]; [contradiction |].
    mstep.
    destruct (Z.eqb_spec (state d) COMP_STATE_ACTIVE) as [Ha | Hna];
      cbn [negb]; [contradiction | reflexivity].
  - reflexivity.
Qed.

Lemma pipeline_xrun_noop_witness :
  pipeline_xrun (fun _ => fsm_driver 0) (fun _ => true) 5 0 2 (-512)
    (chain_sys COMP_STATE_ACTIVE COMP_STATE_PAUSED COMP_STATE_ACTIVE
       COMP_STATE_ACTIVE 0)
  = Ok tt (chain_sys COMP_STATE_ACTIVE COMP_STATE_PAUSED COMP_STATE_ACTIVE
             COMP_STATE_ACTIVE 0) [].
Proof.
  apply (pipeline_xrun_noop _ _ _ _ _ _ _ (chain_ppl COMP_STATE_ACTIVE 0)).
  - reflexivity.
  - right. exists (chain_volume COMP_STATE_PAUSED). split.
    + reflexivity.
    + vm_compute. congruence.
Defined.

(** C9 as stated fails: only the source component is examined.  With the
    Host READY while Volume and DAI are ACTIVE, [pipeline_free] succeeds,
    detaches the components and frees the pipeline. *)
Lemma pipeline_free_ignores_active_components :
  let s := chain_sys COMP_STATE_READY COMP_STATE_ACTIVE COMP_STATE_ACTIVE
             COMP_STATE_ACTIVE 0 in
  let o := pipeline_free 5 0 s in
  comp_state s 3 = Some COMP_STATE_ACTIVE /\
  result o = Some 0 /\
  match final o with
  | Some s' =>
      ppls s' !! 0%nat = None /\
      (dev_pipeline <$> comps s' !! 3%nat) = Some None /\
      (bsink_list <$> comps s' !! 2%nat) = Some []
  | None => False
  end.
Proof. vm_compute. repeat split; reflexivity. Qed.

(** C9 (amended). A pipeline whose source component is beyond READY is not
    freed: [pipeline_free] logs the error, returns -EBUSY and leaves the
    pipeline, the components and their connections as they were.  The states
    of the other components are not consulted. *)
Theorem pipeline_free_busy (fuel : nat) (s : sys) (p src : nat)
    (pl : pipeline) (d : comp_dev) :
  ppls s !! p = Some pl ->
  source_comp pl = Some src ->
  comps s !! src = Some d ->
  state d > COMP_STATE_READY ->
  pipeline_free fuel p s = Ok (- EBUSY) s [EvTraceError (- EBUSY)].
Proof.
  intros Hp Hsrc Hd Hst. unfold pipeline_free. mstep. rewrite Hsrc.
  erewrite bind_ok; cycle 1.
  { mstep. rewrite Z.gtb_ltb.
    destruct (Z.ltb_spec COMP_STATE_READY (state d)); [| lia].
    mstep. cbn. reflexivity. }
  reflexivity.
Qed.

Lemma pipeline_free_busy_witness :
  pipeline_free 5 0
    (chain_sys COMP_STATE_PREPARE COMP_STATE_READY COMP_STATE_READY
       COMP_STATE_PREPARE 0)
  = Ok (- EBUSY)
      (chain_sys COMP_STATE_PREPARE COMP_STATE_READY COMP_STATE_READY
         COMP_STATE_PREPARE 0) [EvTraceError (- EBUSY)].
Proof.
  apply (pipeline_free_busy 5 _ 0 1 (chain_ppl COMP_STATE_PREPARE 0)
           (chain_host COMP_STATE_PREPARE)).
  - reflexivity.
  - reflexivity.
  - reflexivity.
  - vm_compute. reflexivity.
Defined.

(** STOP while an XRUN is pending: success, nothing propagated, nothing
    changed. *)
Lemma pipeline_trigger_pending_stop (drv : nat -> comp_ops)
    (tk : nat -> bool) (fuel : nat) (s : sys) (p host : nat)
    (pl : pipeline) :
  ppls s !! p = Some pl -> xrun_pending pl ->
  pipeline_trigger drv tk fuel p host COMP_TRIGGER_STOP s = Ok 0 s [].
Proof.
  intros Hp [Hx Hst]. unfold pipeline_trigger, pipeline_xrun_handle_trigger.
  mstep.
  destruct (Z.eqb_spec (xrun_bytes pl) 0) as [Hz | _]; [contradiction |].
  rewrite !bind_assoc. mstep.
  destruct (Z.eqb_spec (xrun_bytes pl) 0) as [Hz | _]; [contradiction |].
  rewrite Hst. reflexivity.
Qed.

(** START while an XRUN is pending, in full.  The pipeline is prepared from
    its source component first.  A negative status of the prepare is returned
    and nothing is triggered.  Otherwise [xrun_bytes] is cleared; the START
    is then propagated from the arena so obtained, unless the prepare walk
    ended with the stop-walk status: that status is taken for "no further
    trigger needed" and the call returns 0 without triggering anything. *)
Lemma pipeline_trigger_pending_start (drv : nat -> comp_ops)
    (tk : nat -> bool) (fuel : nat) (s : sys) (p host src : nat)
    (pl : pipeline) :
  ppls s !! p = Some pl -> xrun_pending pl -> source_comp pl = Some src ->
  pipeline_trigger drv tk fuel p host COMP_TRIGGER_START s =
  match pipeline_prepare drv tk fuel p src s with
  | Ok r s1 t1 =>
      if r <? 0 then Ok r s1 (t1 ++ [EvTraceError r; EvTraceError r])
      else
        match ppls s1 !! p with
        | None => Fault
        | Some pl1 =>
            let s2 := upd_ppl s1 p (set_xrun_bytes pl1 0) in
            if r =? PPL_STATUS_PATH_STOP then Ok 0 s2 t1
            else
              with_prefix t1
                ((h <- get_comp host ;;
                  r' <- pipeline_comp_trigger drv fuel
                          {| start := host; posn := dummy_posn; data_p := p;
                             cmd := COMP_TRIGGER_START |} host (direction h) ;;
                  (if r' <? 0 then emit (EvTraceError r') else ret tt) ;;;
                  ret r') s2)
        end
  | Fault => Fault
  | OutOfFuel => OutOfFuel
  end.
Proof.
  intros Hp [Hx Hst] Hsrc.
  unfold pipeline_trigger, pipeline_xrun_handle_trigger.
  mstep.
  destruct (Z.eqb_spec (xrun_bytes pl) 0) as [Hz | _]; [contradiction |].
  rewrite !bind_assoc. mstep.
  destruct (Z.eqb_spec (xrun_bytes pl) 0) as [Hz | _]; [contradiction |].
  rewrite Hst. cbn [orb negb].
  change (COMP_STATE_PAUSED =? COMP_STATE_PAUSED) with true.
  change (COMP_TRIGGER_START =? COMP_TRIGGER_START) with true.
  cbn [negb]. cbv iota.
  rewrite Hsrc. rewrite bind_assoc. mstep. rewrite bind_assoc.
  unfold bind at 1.
  destruct (pipeline_prepare drv tk fuel p src s) as [r s1 t1 | |];
    [| reflexivity | reflexivity].
  destruct (Z.ltb_spec r 0) as [Hneg | Hpos].
  - rewrite bind_assoc, bind_emit. cbv beta. rewrite bind_ret.
    destruct (Z.ltb_spec r 0); [| lia].
    rewrite bind_assoc, bind_emit. cbv beta. rewrite !bind_ret.
    reflexivity.
  - rewrite bind_assoc. unfold bind at 1. unfold get_ppl, deref.
    destruct (ppls s1 !! p) as [pl1 |]; [| reflexivity].
    rewrite with_prefix_nil, bind_assoc, bind_put_ppl. cbv beta.
    rewrite bind_ret.
    destruct (Z.ltb_spec r 0); [lia |].
    destruct (Z.eqb_spec r PPL_STATUS_PATH_STOP) as [Hstop | Hgo].
    + rewrite bind_ret. cbn. rewrite app_nil_r. reflexivity.
    + rewrite bind_ret. reflexivity.
Qed.

(** C7 at the failing input.  Pipeline 1 (component 1) feeds pipeline 2
    (components 2 and 3) and all components use the hooks of [fsm_driver],
    which run the component state machine as the drivers' hooks do.  After
    prepare, START and an underrun of 512 bytes, pipeline 1 has an XRUN
    pending while component 2, which START never reached, is still in
    PREPARE.  A START in that state prepares component 1, is told "stop walk"
    by component 2, clears [xrun_bytes] and returns 0: no component is
    triggered, component 1 stays in PREPARE and the pipeline is not ACTIVE.
    The recovery run by the periodic task from the same state does trigger
    START after the same prepare. *)
Theorem pending_start_lost_on_path_stop :
  let drv := fun _ : nat => fsm_driver 0 in
  let tk := fun _ : nat => true in
  let pending := joined_sys COMP_STATE_READY COMP_STATE_PREPARE
                   COMP_STATE_PREPARE COMP_STATE_PAUSED (-512)
                   COMP_STATE_READY in
  final (and_then
           (and_then
              (pipeline_prepare drv tk 5 1 1
                 (joined_sys COMP_STATE_READY COMP_STATE_READY
                    COMP_STATE_READY COMP_STATE_READY 0 COMP_STATE_READY))
              (pipeline_trigger drv tk 5 1 1 COMP_TRIGGER_START))
           (pipeline_xrun drv tk 5 1 1 (-512)))
  = Some pending /\
  let o := pipeline_trigger drv tk 5 1 1 COMP_TRIGGER_START pending in
  result o = Some 0 /\
  trace_of o = [EvPrepare 1 0; EvBufferResetPos 10;
                EvPrepare 2 PPL_STATUS_PATH_STOP] /\
  triggered (trace_of o) = [] /\
  final_comp_state o 1 = Some COMP_STATE_PREPARE /\
  match final o with
  | Some s' =>
      (status <$> ppls s' !! 1%nat) = Some COMP_STATE_PREPARE /\
      (xrun_bytes <$> ppls s' !! 1%nat) = Some 0
  | None => False
  end /\
  let o' := pipeline_xrun_recover drv tk 5 1 pending in
  result o' = Some 0 /\
  triggered (trace_of o') = [1%nat] /\
  final_comp_state o' 1 = Some COMP_STATE_ACTIVE.
Proof. vm_compute. repeat split; reflexivity. Qed.

(** ** Copy walk *)

Lemma run_hook_eq (c : nat) (d : comp_dev) (r : Z * Z) (ev : Z -> event) s :
  run_hook c d r ev s = Ok (fst r) (upd_comp s c (set_state d (snd r)))
                          [ev (fst r)].
Proof. reflexivity. Qed.

Lemma comp_copy_eq (drv : nat -> comp_ops) (c : nat) (d : comp_dev) s :
  comps s !! c = Some d ->
  comp_copy drv c s
  = Ok (fst (op_copy (drv c) d))
       (upd_comp s c (set_state d (snd (op_copy (drv c) d))))
       [EvCopy c (fst (op_copy (drv c) d))].
Proof. intros H. unfold comp_copy. mstep. apply run_hook_eq. Qed.

(** A component without buffers in the walk direction ends the walk. *)
Lemma for_each_comp_leaf (current : nat) (d : comp_dev) func bf dir s :
  comps s !! current = Some d -> comp_buffer_list d dir = [] ->
  pipeline_for_each_comp current func bf dir s = Ok 0 s [].
Proof.
  intros Hd Hl. unfold pipeline_for_each_comp. mstep. rewrite Hl. reflexivity.
Qed.

(** With a single linked buffer the walk is the call on the component at the
    other end of it. *)
Lemma for_each_comp_single (current b c' : nat) (d : comp_dev)
    (bd : comp_buffer) (func : nat -> Z -> M Z) dir s :
  comps s !! current = Some d -> comp_buffer_list d dir = [b] ->
  bufs s !! b = Some bd -> buffer_get_comp bd dir = Some c' ->
  pipeline_for_each_comp current (Some func) None dir s = func c' dir s.
Proof.
  intros Hd Hl Hb Hc. unfold pipeline_for_each_comp. mstep. rewrite Hl.
  cbn [for_each_buffer]. mstep. mstep. rewrite Hc.
  unfold bind. destruct (func c' dir s) as [err s1 t1 | |]; try reflexivity.
  destruct (err <? 0); cbn; rewrite app_nil_r; reflexivity.
Qed.

(** UPSTREAM: the neighbours first, then the component itself, unless the
    neighbours ended the walk. *)
Lemma pipeline_comp_copy_upstream (drv : nat -> comp_ops) (fuel : nat)
    (data : pipeline_data) (current : nat) (d st : comp_dev) s :
  comps s !! current = Some d -> comps s !! start data = Some st ->
  comp_is_single_pipeline d st = true -> comp_is_active d = true ->
  pipeline_comp_copy drv (S fuel) data current PPL_DIR_UPSTREAM s =
  match pipeline_for_each_comp current
          (Some (pipeline_comp_copy drv fuel data)) None PPL_DIR_UPSTREAM s
  with
  | Ok err s1 t1 =>
      if walk_ends err then Ok err s1 t1
      else with_prefix t1 (comp_copy drv current s1)
  | Fault => Fault
  | OutOfFuel => OutOfFuel
  end.
Proof.
  intros Hd Hst Hsingle Hactive. cbn [pipeline_comp_copy].
  mstep. mstep. rewrite Hsingle, Hactive. cbn [negb].
  change (PPL_DIR_UPSTREAM =? PPL_DIR_DOWNSTREAM) with false.
  change (PPL_DIR_UPSTREAM =? PPL_DIR_UPSTREAM) with true.
  cbn [andb]. rewrite bind_ret. unfold bind at 1.
  destruct (pipeline_for_each_comp _ _ _ _ s) as [err s1 t1 | |];
    try reflexivity.
  destruct (walk_ends err); [| reflexivity].
  cbn. rewrite app_nil_r. reflexivity.
Qed.

(** DOWNSTREAM: the component itself first, then its neighbours, unless its
    own copy ended the walk. *)
Lemma pipeline_comp_copy_downstream (drv : nat -> comp_ops) (fuel : nat)
    (data : pipeline_data) (current : nat) (d st : comp_dev) s :
  comps s !! current = Some d -> comps s !! start data = Some st ->
  comp_is_single_pipeline d st = true -> comp_is_active d = true ->
  pipeline_comp_copy drv (S fuel) data current PPL_DIR_DOWNSTREAM s =
  match comp_copy drv current s with
  | Ok err s1 t1 =>
      if walk_ends err then Ok err s1 t1
      else with_prefix t1
             (pipeline_for_each_comp current
                (Some (pipeline_comp_copy drv fuel data)) None
                PPL_DIR_DOWNSTREAM s1)
  | Fault => Fault
  | OutOfFuel => OutOfFuel
  end.
Proof.
  intros Hd Hst Hsingle Hactive. cbn [pipeline_comp_copy].
  mstep. mstep. rewrite Hsingle, Hactive. cbn [negb].
  change (PPL_DIR_DOWNSTREAM =? PPL_DIR_DOWNSTREAM) with true.
  change (PPL_DIR_DOWNSTREAM =? PPL_DIR_UPSTREAM) with false.
  cbn [andb]. unfold bind at 1.
  destruct (comp_copy drv current s) as [err s1 t1 | |]; try reflexivity.
  destruct (walk_ends err).
  - cbn. rewrite app_nil_r. reflexivity.
  - f_equal. unfold bind.
    destruct (pipeline_for_each_comp _ _ _ _ s1) as [e s2 t2 | |];
      try reflexivity.
    destruct (walk_ends e); cbn; rewrite app_nil_r; reflexivity.
Qed.

(** Where a copy cycle starts: at the sink, walking UPSTREAM, when the source
    component is a playback component; at the source, walking DOWNSTREAM,
    otherwise. *)
Lemma pipeline_copy_start (drv : nat -> comp_ops) (fuel : nat) (p : nat)
    (pl : pipeline) (src first : nat) (d : comp_dev) s :
  ppls s !! p = Some pl -> source_comp pl = Some src ->
  comps s !! src = Some d ->
  (if direction d =? SOF_IPC_STREAM_PLAYBACK then sink_comp pl
   else source_comp pl) = Some first ->
  pipeline_copy drv fuel p s =
  match pipeline_comp_copy drv fuel
          {| start := first; posn := dummy_posn; data_p := p; cmd := 0 |}
          first
          (if direction d =? SOF_IPC_STREAM_PLAYBACK then PPL_DIR_UPSTREAM
           else PPL_DIR_DOWNSTREAM) s
  with
  | Ok r s1 t1 => Ok r s1 (t1 ++ if r <? 0 then [EvTraceError r] else [])
  | Fault => Fault
  | OutOfFuel => OutOfFuel
  end.
Proof.
  intros Hp Hsrc Hd Hfirst. unfold pipeline_copy.
  mstep. rewrite Hsrc in Hfirst |- *. mstep. mstep. cbv zeta.
  rewrite Hfirst. mstep.
  unfold bind at 1.
  destruct (pipeline_comp_copy _ _ _ _ _ s) as [r s1 t1 | |]; try reflexivity.
  destruct (r <? 0); reflexivity.
Qed.

Lemma active_chain_copy (drv : nat -> comp_ops) (f : nat) :
  let r1 := fst (op_copy (drv 1%nat) (chain_host COMP_STATE_ACTIVE)) in
  let r2 := fst (op_copy (drv 2%nat) (chain_volume COMP_STATE_ACTIVE)) in
  let r3 := fst (op_copy (drv 3%nat) (chain_dai COMP_STATE_ACTIVE)) in
  let o := pipeline_copy drv (S (S (S f))) 0 active_chain in
  let r := if walk_ends r1 then r1 else if walk_ends r2 then r2 else r3 in
  result o = Some r /\
  trace_of o =
    (if walk_ends r1 then [EvCopy 1 r1]
     else if walk_ends r2 then [EvCopy 1 r1; EvCopy 2 r2]
     else [EvCopy 1 r1; EvCopy 2 r2; EvCopy 3 r3])
    ++ (if r <? 0 then [EvTraceError r] else []).
Proof.
  intros r1 r2 r3 o r. subst o.
  erewrite pipeline_copy_start
    with (src := 1%nat) (first := 3%nat) (d := chain_host COMP_STATE_ACTIVE);
    try reflexivity.
  change (direction (chain_host COMP_STATE_ACTIVE) =? SOF_IPC_STREAM_PLAYBACK)
    with true. cbv iota.
  (* DAI: walk to the Volume first *)
  erewrite pipeline_comp_copy_upstream
    with (d := chain_dai COMP_STATE_ACTIVE)
         (st := chain_dai COMP_STATE_ACTIVE); try reflexivity.
  erewrite for_each_comp_single
    with (d := chain_dai COMP_STATE_ACTIVE) (b := 11%nat) (c' := 2%nat);
    try reflexivity.
  (* Volume: walk to the Host first *)
  erewrite pipeline_comp_copy_upstream
    with (d := chain_volume COMP_STATE_ACTIVE)
         (st := chain_dai COMP_STATE_ACTIVE); try reflexivity.
  erewrite for_each_comp_single
    with (d := chain_volume COMP_STATE_ACTIVE) (b := 10%nat) (c' := 1%nat);
    try reflexivity.
  (* Host: nothing upstream, copy *)
  erewrite pipeline_comp_copy_upstream
    with (d := chain_host COMP_STATE_ACTIVE)
         (st := chain_dai COMP_STATE_ACTIVE); try reflexivity.
  erewrite for_each_comp_leaf
    with (d := chain_host COMP_STATE_ACTIVE); try reflexivity.
  change (walk_ends 0) with false. cbv iota.
  rewrite with_prefix_nil.
  erewrite comp_copy_eq with (d := chain_host COMP_STATE_ACTIVE);
    try reflexivity.
  fold r1. subst r. destruct (walk_ends r1) eqn:E1.
  { rewrite E1. split; reflexivity. }
  erewrite comp_copy_eq with (d := chain_volume COMP_STATE_ACTIVE);
    [| cbn; rewrite lookup_insert_ne by lia; reflexivity ].
  fold r2. cbn [with_prefix]. destruct (walk_ends r2) eqn:E2.
  { split; reflexivity. }
  erewrite comp_copy_eq with (d := chain_dai COMP_STATE_ACTIVE);
    [| cbn; rewrite !lookup_insert_ne by lia; reflexivity ].
  fold r3. split; reflexivity.
Qed.

Lemma copied_app (t1 t2 : list event) :
  copied (t1 ++ t2) = copied t1 ++ copied t2.
Proof. unfold copied. apply omap_app. Qed.

Lemma copied_trace_error (r : Z) :
  copied (if r <? 0 then [EvTraceError r] else []) = [].
Proof. destruct (r <? 0); reflexivity. Qed.

(** C5. Copy order.  A copy cycle starts at the sink and walks UPSTREAM when
    the pipeline's source component is a playback component, and starts at
    the source and walks DOWNSTREAM otherwise.  Walking UPSTREAM, an active
    component of the pipeline is copied after the walk over its upstream
    neighbours (and only if that walk did not end the cycle); walking
    DOWNSTREAM it is copied before the walk over its downstream neighbours.
    On the playback chain Host -> Volume -> DAI with all components active,
    whatever the copy hooks return, the copies made by one cycle are a prefix
    of Host, Volume, DAI, and are exactly Host, Volume, DAI when the copies
    of Host and Volume return neither an error nor the stop-walk status. *)
Theorem copy_cycle_order (drv : nat -> comp_ops) :
  (forall fuel p pl src first d s,
     ppls s !! p = Some pl -> source_comp pl = Some src ->
     comps s !! src = Some d ->
     (if direction d =? SOF_IPC_STREAM_PLAYBACK then sink_comp pl
      else source_comp pl) = Some first ->
     pipeline_copy drv fuel p s =
     match pipeline_comp_copy drv fuel
             {| start := first; posn := dummy_posn; data_p := p; cmd := 0 |}
             first
             (if direction d =? SOF_IPC_STREAM_PLAYBACK then PPL_DIR_UPSTREAM
              else PPL_DIR_DOWNSTREAM) s
     with
     | Ok r s1 t1 => Ok r s1 (t1 ++ if r <? 0 then [EvTraceError r] else [])
     | Fault => Fault
     | OutOfFuel => OutOfFuel
     end) /\
  (forall fuel data current d st s,
     comps s !! current = Some d -> comps s !! start data = Some st ->
     comp_is_single_pipeline d st = true -> comp_is_active d = true ->
     pipeline_comp_copy drv (S fuel) data current PPL_DIR_UPSTREAM s =
     match pipeline_for_each_comp current
             (Some (pipeline_comp_copy drv fuel data)) None PPL_DIR_UPSTREAM s
     with
     | Ok err s1 t1 =>
         if walk_ends err then Ok err s1 t1
         else with_prefix t1 (comp_copy drv current s1)
     | Fault => Fault
     | OutOfFuel => OutOfFuel
     end) /\
  (forall fuel data current d st s,
     comps s !! current = Some d -> comps s !! start data = Some st ->
     comp_is_single_pipeline d st = true -> comp_is_active d = true ->
     pipeline_comp_copy drv (S fuel) data current PPL_DIR_DOWNSTREAM s =
     match comp_copy drv current s with
     | Ok err s1 t1 =>
         if walk_ends err then Ok err s1 t1
         else with_prefix t1
                (pipeline_for_each_comp current
                   (Some (pipeline_comp_copy drv fuel data)) None
                   PPL_DIR_DOWNSTREAM s1)
     | Fault => Fault
     | OutOfFuel => OutOfFuel
     end) /\
  (forall f,
     let o := pipeline_copy drv (S (S (S f))) 0 active_chain in
     (exists r, result o = Some r) /\
     copied (trace_of o) `prefix_of` [1%nat; 2%nat; 3%nat] /\
     (walk_ends (fst (op_copy (drv 1%nat) (chain_host COMP_STATE_ACTIVE)))
      = false ->
      walk_ends (fst (op_copy (drv 2%nat) (chain_volume COMP_STATE_ACTIVE)))
      = false ->
      copied (trace_of o) = [1%nat; 2%nat; 3%nat])).
Proof.
  split; [| split; [| split]].
  - intros. eapply pipeline_copy_start; eassumption.
  - intros. eapply pipeline_comp_copy_upstream; eassumption.
  - intros. eapply pipeline_comp_copy_downstream; eassumption.
  - intros f o. destruct (active_chain_copy drv f) as [Hr Ht].
    fold o in Hr, Ht. cbv zeta in Hr, Ht.
    split; [eexists; exact Hr |].
    rewrite Ht, copied_app, copied_trace_error, app_nil_r.
    destruct (walk_ends (fst (op_copy (drv 1%nat) _))).
    { split; [exists [2%nat; 3%nat]; reflexivity | discriminate]. }
    destruct (walk_ends (fst (op_copy (drv 2%nat) _))).
    { split; [exists [3%nat]; reflexivity | intros _; discriminate]. }
    split; [exists []; reflexivity | reflexivity].
Qed.

Lemma copy_cycle_order_witness :
  copied (trace_of (pipeline_copy (fun _ => fsm_driver 0) 3 0 active_chain))
  = [1%nat; 2%nat; 3%nat].
Proof.
  apply (proj2 (proj2 (proj2 (proj2 (proj2
           (copy_cycle_order (fun _ => fsm_driver 0)))) 0%nat))).
  - reflexivity.
  - reflexivity.
Defined.

(** ** Taking a successful run apart *)

Lemma ret_inv {A} (a b : A) s s' t :
  ret a s = Ok b s' t -> b = a /\ s' = s /\ t = [].
Proof. unfold ret. intros [= <- <- <-]. auto. Qed.

Lemma emit_inv e u s s' t :
  emit e s = Ok u s' t -> s' = s /\ t = [e].
Proof. unfold emit. intros [= _ <- <-]. auto. Qed.

Lemma deref_inv {A} (o : option A) a s s' t :
  deref o s = Ok a s' t -> o = Some a /\ s' = s /\ t = [].
Proof. unfold deref. destruct o; [| discriminate]. intros [= <- <- <-]. auto. Qed.

Lemma get_comp_inv c d s s' t :
  get_comp c s = Ok d s' t -> comps s !! c = Some d /\ s' = s /\ t = [].
Proof. unfold get_comp. apply deref_inv. Qed.

Lemma get_buf_inv b bd s s' t :
  get_buf b s = Ok bd s' t -> bufs s !! b = Some bd /\ s' = s /\ t = [].
Proof. unfold get_buf. apply deref_inv. Qed.

Lemma get_ppl_inv p pl s s' t :
  get_ppl p s = Ok pl s' t -> ppls s !! p = Some pl /\ s' = s /\ t = [].
Proof. unfold get_ppl. apply deref_inv. Qed.

Lemma put_comp_inv c d u s s' t :
  put_comp c d s = Ok u s' t -> s' = upd_comp s c d /\ t = [].
Proof. unfold put_comp. intros [= _ <- <-]. auto. Qed.

Lemma put_buf_inv b bd u s s' t :
  put_buf b bd s = Ok u s' t -> s' = upd_buf s b bd /\ t = [].
Proof. unfold put_buf. intros [= _ <- <-]. auto. Qed.

Lemma put_ppl_inv p pl u s s' t :
  put_ppl p pl s = Ok u s' t -> s' = upd_ppl s p pl /\ t = [].
Proof. unfold put_ppl. intros [= _ <- <-]. auto. Qed.

Lemma run_hook_inv c d r ev a s s' t :
  run_hook c d r ev s = Ok a s' t ->
  a = fst r /\ s' = upd_comp s c (set_state d (snd r)) /\ t = [ev (fst r)].
Proof. rewrite run_hook_eq. intros [= <- <- <-]. auto. Qed.

(** One inversion step on a hypothesis about a successful run. *)
Ltac minv1 :=
  match goal with
  | H : bind _ _ _ = Ok _ _ _ |- _ =>
      apply bind_inv in H;
      let a := fresh "a" in let s := fresh "s" in
      let t1 := fresh "t" in let t2 := fresh "t" in
      let H1 := fresh "Hm" in let H2 := fresh "Hk" in let H3 := fresh "Ht" in
      destruct H as (a & s & t1 & t2 & H1 & H2 & H3)
  | H : ret _ _ = Ok _ _ _ |- _ =>
      apply ret_inv in H; destruct H as (? & ? & ?)
  | H : emit _ _ = Ok _ _ _ |- _ =>
      apply emit_inv in H; destruct H as (? & ?)
  | H : deref _ _ = Ok _ _ _ |- _ =>
      apply deref_inv in H; destruct H as (? & ? & ?)
  | H : get_comp _ _ = Ok _ _ _ |- _ =>
      apply get_comp_inv in H; destruct H as (? & ? & ?)
  | H : get_buf _ _ = Ok _ _ _ |- _ =>
      apply get_buf_inv in H; destruct H as (? & ? & ?)
  | H : get_ppl _ _ = Ok _ _ _ |- _ =>
      apply get_ppl_inv in H; destruct H as (? & ? & ?)
  | H : put_comp _ _ _ = Ok _ _ _ |- _ =>
      apply put_comp_inv in H; destruct H as (? & ?)
  | H : put_buf _ _ _ = Ok _ _ _ |- _ =>
      apply put_buf_inv in H; destruct H as (? & ?)
  | H : put_ppl _ _ _ = Ok _ _ _ |- _ =>
      apply put_ppl_inv in H; destruct H as (? & ?)
  | H : run_hook _ _ _ _ _ = Ok _ _ _ |- _ =>
      apply run_hook_inv in H; destruct H as (? & ? & ?)
  end.

Ltac minv := repeat (minv1; subst; cbn [app] in *).

(** Resetting the position of a buffer: the buffer is there, its cursors
    and counters are rewritten, the call is recorded. *)
Lemma buffer_reset_pos_inv b u s s' t :
  buffer_reset_pos b s = Ok u s' t ->
  exists bd, bufs s !! b = Some bd /\
    s' = upd_buf s b (set_cursors bd (addr bd) (addr bd) 0 (size bd)) /\
    t = [EvBufferResetPos b].
Proof. unfold buffer_reset_pos. intros H. minv. eauto. Qed.

(** The endpoint check reads the arena and calls nothing. *)
Lemma improper_endpoint_inv cur dir b s s' t :
  improper_endpoint cur dir s = Ok b s' t -> s' = s /\ t = [].
Proof. unfold improper_endpoint. intros H. minv. auto. Qed.

(** ** Reset walk *)

Lemma reset_statuses_app (t1 t2 : list event) :
  reset_statuses (t1 ++ t2) = reset_statuses t1 ++ reset_statuses t2.
Proof. unfold reset_statuses. apply omap_app. Qed.

Lemma stops_at_failure_nil (r : Z) : 0 <= r -> stops_at_failure r [].
Proof. intros H. split; [constructor | lia]. Qed.

Lemma stops_at_failure_app (r0 r : Z) (t1 t2 : list event) :
  0 <= r0 -> stops_at_failure r0 t1 -> stops_at_failure r t2 ->
  stops_at_failure r (t1 ++ t2).
Proof.
  intros H0 [H1 _] [H2 H3]. specialize (H1 H0).
  split; rewrite reset_statuses_app.
  - intros Hr. apply Forall_app. auto.
  - intros Hr. destruct (H3 Hr) as (pre & Heq & Hpre).
    exists (reset_statuses t1 ++ pre). rewrite Heq, app_assoc.
    split; [reflexivity | apply Forall_app; auto].
Qed.

Lemma comp_reset_stops (drv : nat -> comp_ops) c s r s' t :
  comp_reset drv c s = Ok r s' t -> stops_at_failure r t.
Proof.
  unfold comp_reset. intros H. minv.
  destruct (op_reset (drv c)) as [f |]; minv.
  - split; intros Hr; cbn.
    + repeat constructor. exact Hr.
    + exists []. split; [reflexivity | constructor].
  - apply stops_at_failure_nil. lia.
Qed.

Lemma walk_ends_false (err : Z) : walk_ends err = false -> 0 <= err.
Proof. unfold walk_ends. intros H. apply orb_false_elim in H as [H _]. lia. Qed.

(** The loop over the buffers stops at the first negative status. *)
Lemma for_each_buffer_stops (func : nat -> Z -> M Z) dir :
  (forall c s r s' t, func c dir s = Ok r s' t -> stops_at_failure r t) ->
  forall l err s r s' t,
    0 <= err ->
    for_each_buffer (Some func) None dir l err s = Ok r s' t ->
    stops_at_failure r t.
Proof.
  intros Hfunc. induction l as [| b rest IH]; intros err s r s' t Herr H.
  - cbn in H. minv. apply stops_at_failure_nil. exact Herr.
  - cbn [for_each_buffer] in H. minv.
    match goal with
    | Hc : match buffer_get_comp ?bd dir with _ => _ end _ = Ok _ _ _ |- _ =>
        destruct (buffer_get_comp bd dir) as [c |]
    end.
    + minv.
      match goal with
      | Hc : func _ _ _ = Ok ?e _ _ |- _ =>
          pose proof (Hfunc _ _ _ _ _ Hc) as Hcall;
          destruct (Z.ltb_spec e 0) as [Hneg | Hpos]
      end.
      * minv. rewrite app_nil_r. exact Hcall.
      * eapply stops_at_failure_app; [exact Hpos | exact Hcall |].
        eapply IH; [exact Hpos | eassumption].
    + eapply IH; eassumption.
Qed.

Lemma stop_check_inv (cur st : comp_dev) dir b s s' t :
  (if comp_is_single_pipeline cur st then ret false
   else improper_endpoint cur dir) s = Ok b s' t ->
  s' = s /\ t = [].
Proof.
  destruct (comp_is_single_pipeline cur st); intros H.
  - minv. auto.
  - eapply improper_endpoint_inv. eassumption.
Qed.

Lemma pipeline_comp_reset_stops (drv : nat -> comp_ops) (fuel : nat) :
  forall p current dir s r s' t,
    pipeline_comp_reset drv fuel p current dir s = Ok r s' t ->
    stops_at_failure r t.
Proof.
  induction fuel as [| fuel IH]; intros p current dir s r s' t H.
  - discriminate.
  - cbn [pipeline_comp_reset] in H. minv.
    match goal with
    | Hc : (if comp_is_single_pipeline _ _ then _ else _) _ = Ok _ _ _ |- _ =>
        apply stop_check_inv in Hc; destruct Hc as [-> ->]
    end.
    cbn [app].
    match goal with
    | Hc : (if ?stop then _ else _) _ = Ok _ _ _ |- _ =>
        destruct stop; [minv; apply stops_at_failure_nil; lia |]
    end.
    minv.
    match goal with
    | Hc : comp_reset _ _ _ = Ok ?err _ _ |- _ =>
        pose proof (comp_reset_stops _ _ _ _ _ _ Hc) as Hhook;
        destruct (walk_ends err) eqn:Hends
    end.
    + minv. rewrite app_nil_r. exact Hhook.
    + match goal with
      | Hc : pipeline_for_each_comp _ _ _ _ _ = Ok _ _ _ |- _ =>
          unfold pipeline_for_each_comp in Hc
      end.
      minv.
      eapply stops_at_failure_app.
      * apply walk_ends_false. exact Hends.
      * exact Hhook.
      * eapply for_each_buffer_stops; [| | eassumption]; [| lia].
        intros ? ? ? ? ? Hc. eapply IH. exact Hc.
Qed.

(** C6 as stated fails: on the chain, a Volume whose reset returns -EINVAL
    stops the walk; the DAI behind it is not reset and [pipeline_reset]
    returns the error. *)
Lemma pipeline_reset_aborts_on_chain :
  let o := pipeline_reset failing_reset_drv 5 0 1 prepared_chain in
  result o = Some (- EINVAL) /\
  was_reset (trace_of o) = [1%nat; 2%nat] /\
  final_comp_state o 3 = Some COMP_STATE_PREPARE.
Proof. vm_compute. repeat split; reflexivity. Qed.

(** C6 (amended). During a pipeline-wide RESET walk a failure returned by a
    component's reset hook aborts the walk: every hook called before it had
    succeeded, no hook is called after it, and [pipeline_reset] logs that
    status and returns it.  When [pipeline_reset] returns a non-negative
    status no reset hook has failed. *)
Theorem pipeline_reset_stops_at_failure (drv : nat -> comp_ops) (fuel : nat)
    (p host : nat) (s s' : sys) (r : Z) (tr : list event) :
  pipeline_reset drv fuel p host s = Ok r s' tr ->
  (0 <= r -> Forall (fun x => 0 <= x) (reset_statuses tr)) /\
  (r < 0 ->
   exists pre tw,
     reset_statuses tr = pre ++ [r] /\ Forall (fun x => 0 <= x) pre /\
     tr = tw ++ [EvTraceError r]).
Proof.
  unfold pipeline_reset. intros H. minv.
  match goal with
  | Hc : pipeline_comp_reset _ _ _ _ _ _ = Ok ?x _ ?tw |- _ =>
      apply pipeline_comp_reset_stops in Hc as [Hpos Hneg];
      destruct (Z.ltb_spec x 0) as [Hlt | Hge]; minv
  end.
  - split; [lia |]. intros _.
    destruct (Hneg Hlt) as (pre & Heq & Hpre).
    match goal with
    | |- context [reset_statuses (?tw ++ _)] => exists pre, tw
    end.
    rewrite reset_statuses_app. cbn. rewrite app_nil_r. auto.
  - split; [| lia]. intros _. rewrite app_nil_r. auto.
Qed.

Lemma pipeline_reset_stops_at_failure_witness :
  exists pre tw,
    reset_statuses
      [EvReset 1 0; EvReset 2 (- EINVAL); EvTraceError (- EINVAL)]
    = pre ++ [- EINVAL] /\
    Forall (fun x => 0 <= x) pre /\
    [EvReset 1 0; EvReset 2 (- EINVAL); EvTraceError (- EINVAL)]
    = tw ++ [EvTraceError (- EINVAL)].
Proof.
  refine (proj2 (pipeline_reset_stops_at_failure failing_reset_drv 5 0 1
                   prepared_chain _ (- EINVAL) _ _) _).
  - vm_compute. reflexivity.
  - vm_compute. reflexivity.
Defined.
(** ** Graph walk: termination and visits *)

Lemma same_graph_refl s : same_graph s s.
Proof. split; reflexivity. Qed.

Lemma links_lookup s c d :
  comps s !! c = Some d -> links s !! c = Some (bsource_list d, bsink_list d).
Proof. intros H. unfold links. rewrite lookup_fmap, H. reflexivity. Qed.

Lemma comp_buffer_list_links d dir :
  comp_buffer_list d dir = link_list (bsource_list d, bsink_list d) dir.
Proof. unfold comp_buffer_list, link_list. destruct (dir =? _); reflexivity. Qed.

(** In the same graph a buffer leads to the same component. *)
Lemma same_graph_buf s0 s b bd :
  same_graph s0 s -> bufs s !! b = Some bd ->
  exists bd0, bufs s0 !! b = Some bd0 /\
    forall dir, buffer_get_comp bd0 dir = buffer_get_comp bd dir.
Proof.
  intros [_ He] Hb.
  assert (H : buf_ends s0 !! b = Some (source bd, sink bd)).
  { rewrite <- He. unfold buf_ends. rewrite lookup_fmap, Hb. reflexivity. }
  unfold buf_ends in H. rewrite lookup_fmap in H.
  destruct (bufs s0 !! b) as [bd0 |]; [| discriminate].
  exists bd0. split; [reflexivity |]. intros dir.
  cbn in H. injection H as Hs Hk. unfold buffer_get_comp.
  rewrite Hs, Hk. reflexivity.
Qed.

Lemma same_graph_sym s0 s : same_graph s0 s -> same_graph s s0.
Proof. intros [H1 H2]. split; congruence. Qed.

Lemma same_graph_set_state s0 s c d st :
  same_graph s0 s -> comps s !! c = Some d ->
  same_graph s0 (upd_comp s c (set_state d st)).
Proof.
  intros [Hl Hb] Hd. split; [| exact Hb].
  rewrite <- Hl. unfold links, upd_comp. cbn [comps].
  rewrite fmap_insert. apply insert_id.
  rewrite lookup_fmap, Hd. reflexivity.
Qed.

Lemma same_graph_upd_ppl s0 s p pl :
  same_graph s0 s -> same_graph s0 (upd_ppl s p pl).
Proof. intros H. exact H. Qed.

(** Moving the cursors of a buffer leaves the graph alone. *)
Lemma same_graph_upd_buf s0 s b bd w r av fr :
  same_graph s0 s -> bufs s !! b = Some bd ->
  same_graph s0 (upd_buf s b (set_cursors bd w r av fr)).
Proof.
  intros [Hl He] Hb. split; [exact Hl |].
  rewrite <- He. unfold buf_ends, upd_buf. cbn [bufs].
  rewrite fmap_insert. apply insert_id.
  rewrite lookup_fmap, Hb. reflexivity.
Qed.

Lemma buffer_reset_pos_graph s0 b s u s' t :
  same_graph s0 s -> buffer_reset_pos b s = Ok u s' t -> same_graph s0 s'.
Proof.
  intros Hg H. apply buffer_reset_pos_inv in H.
  destruct H as (bd & Hb & -> & _). apply same_graph_upd_buf; assumption.
Qed.

Lemma triggered_app (t1 t2 : list event) :
  triggered (t1 ++ t2) = triggered t1 ++ triggered t2.
Proof. unfold triggered. apply omap_app. Qed.

Lemma prepared_app (t1 t2 : list event) :
  prepared (t1 ++ t2) = prepared t1 ++ prepared t2.
Proof. unfold prepared. apply omap_app. Qed.

Lemma was_reset_app (t1 t2 : list event) :
  was_reset (t1 ++ t2) = was_reset t1 ++ was_reset t2.
Proof. unfold was_reset. apply omap_app. Qed.

Lemma comp_trigger_inv (drv : nat -> comp_ops) c command s0 s r s' t :
  same_graph s0 s -> comp_trigger drv c command s = Ok r s' t ->
  same_graph s0 s' /\ triggered t = [c].
Proof.
  intros Hg H. unfold comp_trigger in H. minv.
  split; [| reflexivity]. apply same_graph_set_state; assumption.
Qed.

Lemma sched_comp_inv p c command s0 s u s' t :
  same_graph s0 s ->
  pipeline_comp_trigger_sched_comp p c command s = Ok u s' t ->
  same_graph s0 s' /\ triggered t = [].
Proof.
  intros Hg H. unfold pipeline_comp_trigger_sched_comp in H. minv.
  match goal with
  | Hc : (if Nat.eqb _ _ then _ else _) _ = Ok ?b ?s1 ?t1 |- _ =>
      assert (Hs : s1 = s /\ t1 = [])
        by (destruct (Nat.eqb (sched_comp a) c); minv; auto);
      destruct Hs as [-> ->]; clear Hc
  end.
  cbn [app].
  match goal with
  | Hc : (if ?b then _ else _) _ = Ok _ _ _ |- _ => destruct b
  end.
  { minv. split; [exact Hg | reflexivity]. }
  match goal with
  | Hc : (if ?b then _ else _) _ = Ok _ _ _ |- _ => destruct b
  end.
  { unfold pipeline_schedule_cancel in *. minv.
    split; [exact Hg | reflexivity]. }
  match goal with
  | Hc : (if ?b then _ else _) _ = Ok _ _ _ |- _ => destruct b
  end.
  { unfold pipeline_schedule_copy in *. minv.
    split; [exact Hg | reflexivity]. }
  minv. split; [exact Hg | reflexivity].
Qed.

Lemma routes_succ depth s0 dir c :
  routes (S depth) (links s0) (bufs s0) dir c
  = c :: match links s0 !! c with
         | None => []
         | Some l => flat_map (routes_via depth s0 dir) (link_list l dir)
         end.
Proof. reflexivity. Qed.

Section Walk.

Variable drv : nat -> comp_ops.
Variable data : pipeline_data.
Variable dir : Z.
Variable s0 : sys.

(** *** The generic walk *)

Section Visits.

(** The hooks counted, and how their calls compare with the routes: in
    order ([sublist]) or as a multiset ([submseteq]). *)
Variable R : list nat -> list nat -> Prop.
Variable called : list event -> list nat.
Hypothesis R_nil : forall l, R [] l.
Hypothesis R_app : forall a a' b b', R a a' -> R b b' -> R (a ++ b) (a' ++ b').
Hypothesis called_app :
  forall t1 t2, called (t1 ++ t2) = called t1 ++ called t2.
Hypothesis called_reset_pos : forall b, called [EvBufferResetPos b] = [].

Lemma R_inserts_r a b c : R a b -> R a (b ++ c).
Proof.
  intros H. rewrite <- (app_nil_r a). apply R_app; [exact H | apply R_nil].
Qed.

Lemma called_nil : called [] = [].
Proof.
  pose proof (called_app [] []) as H. cbn [app] in H.
  destruct (called []) as [| x l]; [reflexivity |].
  apply (f_equal length) in H. rewrite length_app in H. cbn in H. lia.
Qed.

(** The buffer-level action of a walk: none, or the position reset of the
    prepare walk. *)
Lemma buff_func_visits (bf : option (nat -> M unit)) b s u s' t :
  bf = None \/ bf = Some buffer_reset_pos ->
  same_graph s0 s ->
  (match bf with Some f => f b | None => ret tt end) s = Ok u s' t ->
  same_graph s0 s' /\ called t = [].
Proof.
  intros [-> | ->] Hg H.
  - minv. split; [assumption | apply called_nil].
  - split; [eapply buffer_reset_pos_graph; eassumption |].
    apply buffer_reset_pos_inv in H. destruct H as (bd & _ & _ & ->).
    apply called_reset_pos.
Qed.

(** The loop of [pipeline_for_each_comp] over the buffers of a component:
    the hooks called are those of the calls on the components behind the
    buffers, buffer after buffer. *)
Lemma for_each_buffer_visits (depth : nat) (func : nat -> Z -> M Z)
    (bf : option (nat -> M unit)) :
  visits_within R called s0 dir depth func ->
  bf = None \/ bf = Some buffer_reset_pos ->
  forall l err s r s' t,
    same_graph s0 s ->
    for_each_buffer (Some func) bf dir l err s = Ok r s' t ->
    same_graph s0 s' /\
    R (called t) (flat_map (routes_via depth s0 dir) l).
Proof.
  intros Hfunc Hbf. induction l as [| b rest IH]; intros err s r s' t Hg H.
  - cbn in H. minv. split; [assumption |]. rewrite called_nil. apply R_nil.
  - cbn [for_each_buffer] in H. apply bind_inv in H.
    destruct H as (u & s1 & t1 & t2 & Hbuf & H & ->).
    destruct (buff_func_visits bf b s u s1 t1 Hbf Hg Hbuf) as [Hg1 Ht1].
    rewrite called_app, Ht1. cbn [app flat_map]. clear Hbuf Ht1.
    apply bind_inv in H. destruct H as (bd & s2 & t3 & t4 & Hb & H & ->).
    apply get_buf_inv in Hb. destruct Hb as (Hb & -> & ->). cbn [app].
    destruct (same_graph_buf s0 s1 b bd Hg1 Hb) as (bd0 & Hb0 & Hends).
    unfold routes_via at 1. rewrite Hb0, Hends.
    destruct (buffer_get_comp bd dir) as [c |].
    + apply bind_inv in H. destruct H as (e & s3 & t5 & t6 & Hc & H & ->).
      destruct (Hfunc _ _ _ _ _ Hg1 Hc) as [Hg2 Hsub].
      destruct (e <? 0).
      * minv. rewrite app_nil_r. split; [assumption |].
        apply R_inserts_r. exact Hsub.
      * destruct (IH _ _ _ _ _ Hg2 H) as [Hg3 Hsub3].
        split; [assumption |]. rewrite called_app.
        apply R_app; assumption.
    + destruct (IH _ _ _ _ _ Hg1 H) as [Hg3 Hsub3].
      split; [assumption | exact Hsub3].
Qed.

Lemma for_each_comp_visits (depth : nat) (func : nat -> Z -> M Z)
    (bf : option (nat -> M unit)) c s r s' t :
  visits_within R called s0 dir depth func ->
  bf = None \/ bf = Some buffer_reset_pos ->
  same_graph s0 s ->
  pipeline_for_each_comp c (Some func) bf dir s = Ok r s' t ->
  same_graph s0 s' /\
  R (called t)
    match links s0 !! c with
    | None => []
    | Some l => flat_map (routes_via depth s0 dir) (link_list l dir)
    end.
Proof.
  intros Hfunc Hbf Hg H. unfold pipeline_for_each_comp in H.
  apply bind_inv in H. destruct H as (d & s1 & t1 & t2 & Hd & H & ->).
  apply get_comp_inv in Hd. destruct Hd as (Hd & -> & ->). cbn [app].
  destruct (for_each_buffer_visits depth func bf Hfunc Hbf _ _ _ _ _ _ Hg H)
    as [Hg1 Hsub].
  split; [assumption |].
  apply links_lookup in Hd. destruct Hg as [Hl _]. rewrite Hl in Hd.
  rewrite Hd, <- comp_buffer_list_links. exact Hsub.
Qed.

End Visits.

Ltac destruct_if :=
  match goal with
  | Hc : (if ?b then _ else _) _ = Ok _ _ _ |- _ => destruct b
  end.

(** *** The four walks *)

(** The trigger walk leaves the graph alone and calls the trigger hooks along
    the routes from its starting point, in order, possibly skipping some. *)
Lemma pipeline_comp_trigger_visits (fuel : nat) :
  visits_within sublist triggered s0 dir fuel
    (pipeline_comp_trigger drv fuel data).
Proof.
  induction fuel as [| fuel IH]; intros c s r s' t Hg H.
  - discriminate.
  - cbn [pipeline_comp_trigger] in H. minv. rewrite routes_succ.
    destruct_if.
    { minv. split; [assumption | apply sublist_nil_l]. }
    minv.
    match goal with
    | Hc : comp_trigger _ _ _ _ = Ok ?err _ _ |- _ =>
        destruct (comp_trigger_inv _ _ _ _ _ _ _ _ Hg Hc) as [Hg1 Htr];
        destruct (walk_ends err)
    end.
    + minv. rewrite app_nil_r, Htr. split; [assumption |].
      apply sublist_skip, sublist_nil_l.
    + minv.
      match goal with
      | Hc : pipeline_comp_trigger_sched_comp _ _ _ _ = Ok _ _ _ |- _ =>
          destruct (sched_comp_inv _ _ _ _ _ _ _ _ Hg1 Hc) as [Hg2 Hts]
      end.
      match goal with
      | Hc : pipeline_for_each_comp _ _ _ _ _ = Ok _ _ _ |- _ =>
          destruct (for_each_comp_visits sublist triggered sublist_nil_l
                      sublist_app triggered_app ltac:(reflexivity)
                      fuel _ None _ _ _ _ _ IH ltac:(left; reflexivity)
                      Hg2 Hc) as [Hg3 Hsub]
      end.
      split; [assumption |].
      rewrite !triggered_app, Htr, Hts. cbn [app].
      apply sublist_skip. exact Hsub.
Qed.

Lemma trigger_keeps_graph (fuel : nat) :
  keeps_graph s0 dir (pipeline_comp_trigger drv fuel data).
Proof.
  intros c s r s' t Hg H.
  eapply pipeline_comp_trigger_visits; eassumption.
Qed.

Lemma hook_keeps_graph c d r ev s a s' t :
  same_graph s0 s -> comps s !! c = Some d ->
  run_hook c d r ev s = Ok a s' t -> same_graph s0 s'.
Proof.
  intros Hg Hd H. minv. apply same_graph_set_state; assumption.
Qed.

(** A hook of a component, when there is one, is one call on it. *)
Lemma comp_prepare_inv c s r s' t :
  same_graph s0 s -> comp_prepare drv c s = Ok r s' t ->
  same_graph s0 s' /\ prepared t `sublist_of` [c].
Proof.
  intros Hg H. unfold comp_prepare in H. minv.
  destruct (op_prepare (drv c)); minv.
  - split; [apply same_graph_set_state; assumption | reflexivity].
  - split; [assumption | apply sublist_nil_l].
Qed.

Lemma comp_reset_inv c s r s' t :
  same_graph s0 s -> comp_reset drv c s = Ok r s' t ->
  same_graph s0 s' /\ was_reset t `sublist_of` [c].
Proof.
  intros Hg H. unfold comp_reset in H. minv.
  destruct (op_reset (drv c)); minv.
  - split; [apply same_graph_set_state; assumption | reflexivity].
  - split; [assumption | apply sublist_nil_l].
Qed.

Lemma comp_copy_inv c s r s' t :
  same_graph s0 s -> comp_copy drv c s = Ok r s' t ->
  same_graph s0 s' /\ copied t = [c].
Proof.
  intros Hg H. unfold comp_copy in H. minv.
  split; [apply same_graph_set_state; assumption | reflexivity].
Qed.

Lemma comp_prepare_keeps_graph c s r s' t :
  same_graph s0 s -> comp_prepare drv c s = Ok r s' t -> same_graph s0 s'.
Proof. intros Hg H. eapply comp_prepare_inv; eassumption. Qed.

Lemma comp_reset_keeps_graph c s r s' t :
  same_graph s0 s -> comp_reset drv c s = Ok r s' t -> same_graph s0 s'.
Proof. intros Hg H. eapply comp_reset_inv; eassumption. Qed.

Lemma comp_copy_keeps_graph c s r s' t :
  same_graph s0 s -> comp_copy drv c s = Ok r s' t -> same_graph s0 s'.
Proof. intros Hg H. eapply comp_copy_inv; eassumption. Qed.

Variable tk : nat -> bool.

Lemma task_init_inv p s r s' t :
  same_graph s0 s -> pipeline_comp_task_init tk p s = Ok r s' t ->
  same_graph s0 s' /\ prepared t = [].
Proof.
  intros Hg H. unfold pipeline_comp_task_init, pipeline_task_init in H.
  minv.
  match goal with
  | Hc : (if pipe_task ?pl then _ else _) _ = Ok _ _ _ |- _ =>
      destruct (pipe_task pl); [minv; split; [assumption | reflexivity] |]
  end.
  minv. destruct (tk p); minv; (split; [exact Hg | reflexivity]).
Qed.

Lemma task_init_keeps_graph p s r s' t :
  same_graph s0 s -> pipeline_comp_task_init tk p s = Ok r s' t ->
  same_graph s0 s'.
Proof. intros Hg H. eapply task_init_inv; eassumption. Qed.

(** The prepare walk calls the prepare hooks along the routes, in order. *)
Lemma pipeline_comp_prepare_visits (fuel : nat) :
  visits_within sublist prepared s0 dir fuel
    (pipeline_comp_prepare drv tk fuel data).
Proof.
  induction fuel as [| fuel IH]; intros c s r s' t Hg H.
  - discriminate.
  - cbn [pipeline_comp_prepare] in H. minv. rewrite routes_succ.
    match goal with
    | Hc : (if comp_is_single_pipeline _ _ then _ else _) _ = Ok _ _ _ |- _ =>
        apply stop_check_inv in Hc; destruct Hc as [-> ->]
    end.
    cbn [app] in *.
    destruct_if; [minv; split; [assumption | apply sublist_nil_l] |].
    minv.
    match goal with
    | Hc : pipeline_comp_task_init _ _ _ = Ok ?e _ _ |- _ =>
        destruct (task_init_inv _ _ _ _ _ Hg Hc) as [Hg1 Hti];
        destruct (e <? 0)
    end.
    { minv. rewrite app_nil_r, Hti. split; [assumption | apply sublist_nil_l]. }
    minv.
    match goal with
    | Hc : comp_prepare _ _ _ = Ok ?e _ _ |- _ =>
        destruct (comp_prepare_inv _ _ _ _ _ Hg1 Hc) as [Hg2 Hpr];
        destruct (walk_ends e)
    end.
    { minv. rewrite app_nil_r, prepared_app, Hti. cbn [app].
      split; [assumption |].
      exact (sublist_inserts_r _ _ [c] Hpr). }
    match goal with
    | Hc : pipeline_for_each_comp _ _ _ _ _ = Ok _ _ _ |- _ =>
        destruct (for_each_comp_visits sublist prepared sublist_nil_l
                    sublist_app prepared_app ltac:(reflexivity)
                    fuel _ (Some buffer_reset_pos) _ _ _ _ _ IH
                    ltac:(right; reflexivity) Hg2 Hc) as [Hg3 Hsub]
    end.
    split; [assumption |].
    rewrite !prepared_app, Hti. cbn [app].
    apply (sublist_app _ [c] _ _ Hpr Hsub).
Qed.

Lemma prepare_keeps_graph (fuel : nat) :
  keeps_graph s0 dir (pipeline_comp_prepare drv tk fuel data).
Proof.
  intros c s r s' t Hg H.
  eapply pipeline_comp_prepare_visits; eassumption.
Qed.

(** The reset walk calls the reset hooks along the routes, in order. *)
Lemma pipeline_comp_reset_visits (p : nat) (fuel : nat) :
  visits_within sublist was_reset s0 dir fuel
    (pipeline_comp_reset drv fuel p).
Proof.
  induction fuel as [| fuel IH]; intros c s r s' t Hg H.
  - discriminate.
  - cbn [pipeline_comp_reset] in H. minv. rewrite routes_succ.
    match goal with
    | Hc : (if comp_is_single_pipeline _ _ then _ else _) _ = Ok _ _ _ |- _ =>
        apply stop_check_inv in Hc; destruct Hc as [-> ->]
    end.
    cbn [app] in *.
    destruct_if; [minv; split; [assumption | apply sublist_nil_l] |].
    minv.
    match goal with
    | Hc : comp_reset _ _ _ = Ok ?e _ _ |- _ =>
        destruct (comp_reset_inv _ _ _ _ _ Hg Hc) as [Hg1 Hrs];
        destruct (walk_ends e)
    end.
    { minv. rewrite app_nil_r. split; [assumption |].
      exact (sublist_inserts_r _ _ [c] Hrs). }
    match goal with
    | Hc : pipeline_for_each_comp _ _ _ _ _ = Ok _ _ _ |- _ =>
        destruct (for_each_comp_visits sublist was_reset sublist_nil_l
                    sublist_app was_reset_app ltac:(reflexivity)
                    fuel _ None _ _ _ _ _ IH
                    ltac:(left; reflexivity) Hg1 Hc) as [Hg2 Hsub]
    end.
    split; [assumption |].
    rewrite was_reset_app.
    apply (sublist_app _ [c] _ _ Hrs Hsub).
Qed.

Lemma reset_keeps_graph (p : nat) (fuel : nat) :
  keeps_graph s0 dir (pipeline_comp_reset drv fuel p).
Proof.
  intros c s r s' t Hg H.
  eapply pipeline_comp_reset_visits; eassumption.
Qed.

(** The copy walk calls the copy hooks of the components along the routes,
    each before or after those behind it according to the direction: as a
    multiset the copies are within the routes. *)
Lemma pipeline_comp_copy_visits (fuel : nat) :
  visits_within submseteq copied s0 dir fuel
    (pipeline_comp_copy drv fuel data).
Proof.
  induction fuel as [| fuel IH]; intros c s r s' t Hg H.
  - discriminate.
  - cbn [pipeline_comp_copy] in H. minv. rewrite routes_succ.
    destruct_if; [minv; split; [assumption | apply submseteq_nil_l] |].
    destruct_if; [minv; split; [assumption | apply submseteq_nil_l] |].
    match goal with
    | Hc : bind _ _ _ = Ok _ _ _ |- _ =>
        apply bind_inv in Hc;
        destruct Hc as (e1 & s1 & ta & tb & Hfirst & Hrest & ->)
    end.
    assert (H1 : same_graph s0 s1 /\
                 copied ta = if dir =? PPL_DIR_DOWNSTREAM then [c] else []).
    { destruct (dir =? PPL_DIR_DOWNSTREAM).
      - eapply comp_copy_inv; eassumption.
      - minv. split; [assumption | reflexivity]. }
    destruct H1 as [Hg1 Hc1]. rewrite copied_app, Hc1.
    destruct ((dir =? PPL_DIR_DOWNSTREAM) && walk_ends e1).
    { minv. split; [assumption |]. rewrite app_nil_r.
      destruct (dir =? PPL_DIR_DOWNSTREAM);
        [apply submseteq_skip |]; apply submseteq_nil_l. }
    apply bind_inv in Hrest.
    destruct Hrest as (e2 & s2 & tc & td & Hwalk & Hlast & ->).
    destruct (for_each_comp_visits submseteq copied submseteq_nil_l
                submseteq_app copied_app ltac:(reflexivity)
                fuel _ None _ _ _ _ _ IH ltac:(left; reflexivity)
                Hg1 Hwalk) as [Hg2 Hsub].
    rewrite copied_app.
    assert (H2 : same_graph s0 s' /\
                 (copied td = [] \/
                  (copied td = [c] /\ (dir =? PPL_DIR_DOWNSTREAM) = false))).
    { destruct (walk_ends e2); [minv; auto |].
      destruct (Z.eqb_spec dir PPL_DIR_UPSTREAM) as [-> | _]; [| minv; auto].
      destruct (comp_copy_inv _ _ _ _ _ Hg2 Hlast) as [Hg3 Hc3].
      split; [assumption |]. right. split; [exact Hc3 | reflexivity]. }
    destruct H2 as [Hg3 [Hc4 | [Hc4 Hup]]]; rewrite Hc4.
    + split; [assumption |]. rewrite app_nil_r.
      destruct (dir =? PPL_DIR_DOWNSTREAM); cbn [app].
      * apply submseteq_skip. exact Hsub.
      * apply submseteq_cons. exact Hsub.
    + split; [assumption |]. rewrite Hup. cbn [app].
      rewrite <- Permutation_cons_append.
      apply submseteq_skip. exact Hsub.
Qed.

Lemma copy_keeps_graph (fuel : nat) :
  keeps_graph s0 dir (pipeline_comp_copy drv fuel data).
Proof.
  intros c s r s' t Hg H.
  eapply pipeline_comp_copy_visits; eassumption.
Qed.

(** *** The recursion budget *)

Variable rank : nat -> nat.
Hypothesis Hacyclic : acyclic_by s0 dir rank.

Ltac prim_fuel :=
  unfold get_comp, get_buf, get_ppl, deref, ret, emit, put_comp, put_buf,
    put_ppl;
  try match goal with |- context [match ?o with _ => _ end] => destruct o end;
  discriminate.

Ltac step_fuel := apply bind_fuel; [prim_fuel | intros; minv].

Lemma run_hook_fuel c d r ev s : run_hook c d r ev s <> OutOfFuel.
Proof. rewrite run_hook_eq. discriminate. Qed.

Lemma comp_trigger_fuel c command s :
  comp_trigger drv c command s <> OutOfFuel.
Proof. unfold comp_trigger. step_fuel. apply run_hook_fuel. Qed.

Lemma comp_prepare_fuel c s : comp_prepare drv c s <> OutOfFuel.
Proof.
  unfold comp_prepare. step_fuel.
  destruct (op_prepare (drv c)); [apply run_hook_fuel | prim_fuel].
Qed.

Lemma comp_reset_fuel c s : comp_reset drv c s <> OutOfFuel.
Proof.
  unfold comp_reset. step_fuel.
  destruct (op_reset (drv c)); [apply run_hook_fuel | prim_fuel].
Qed.

Lemma comp_copy_fuel c s : comp_copy drv c s <> OutOfFuel.
Proof. unfold comp_copy. step_fuel. apply run_hook_fuel. Qed.

Lemma buffer_reset_pos_fuel b s : buffer_reset_pos b s <> OutOfFuel.
Proof.
  unfold buffer_reset_pos. step_fuel.
  apply bind_fuel; [prim_fuel | intros; prim_fuel].
Qed.

Lemma improper_endpoint_fuel cur sd s :
  improper_endpoint cur sd s <> OutOfFuel.
Proof. unfold improper_endpoint. do 4 step_fuel. prim_fuel. Qed.

Lemma stop_check_fuel (cur st : comp_dev) sd s :
  (if comp_is_single_pipeline cur st then ret false
   else improper_endpoint cur sd) s <> OutOfFuel.
Proof.
  destruct (comp_is_single_pipeline cur st);
    [prim_fuel | apply improper_endpoint_fuel].
Qed.

Lemma task_init_fuel p s : pipeline_comp_task_init tk p s <> OutOfFuel.
Proof.
  unfold pipeline_comp_task_init, pipeline_task_init. step_fuel.
  destruct (pipe_task _); [prim_fuel |].
  apply bind_fuel.
  { step_fuel. destruct (tk p); [step_fuel |]; prim_fuel. }
  intros [] ? ? _; step_fuel; prim_fuel.
Qed.

Lemma sched_comp_fuel p c command s :
  pipeline_comp_trigger_sched_comp p c command s <> OutOfFuel.
Proof.
  unfold pipeline_comp_trigger_sched_comp. step_fuel.
  apply bind_fuel.
  { destruct (Nat.eqb _ _); [prim_fuel |]. step_fuel. prim_fuel. }
  intros [] ? ? _; [prim_fuel |].
  destruct (_ || _).
  { unfold pipeline_schedule_cancel. step_fuel. prim_fuel. }
  destruct (_ || _); [| prim_fuel].
  unfold pipeline_schedule_copy.
  apply bind_fuel; [| intros; prim_fuel]. step_fuel. prim_fuel.
Qed.

(** The loop over the buffers of a component needs no more than [depth]
    further levels of recursion when every component behind them has a rank
    below [depth]. *)
Lemma for_each_buffer_fuel (depth : nat) (func : nat -> Z -> M Z)
    (bf : option (nat -> M unit)) :
  keeps_graph s0 dir func ->
  bf = None \/ bf = Some buffer_reset_pos ->
  (forall c s, same_graph s0 s -> (rank c < depth)%nat ->
               func c dir s <> OutOfFuel) ->
  forall l err s,
    same_graph s0 s ->
    (forall b bd c', b ∈ l -> bufs s0 !! b = Some bd ->
                     buffer_get_comp bd dir = Some c' ->
                     (rank c' < depth)%nat) ->
    for_each_buffer (Some func) bf dir l err s <> OutOfFuel.
Proof.
  intros Hkeep Hbf Hfunc. induction l as [| b rest IH]; intros err s Hg Hl.
  - prim_fuel.
  - cbn [for_each_buffer].
    apply bind_fuel.
    { destruct Hbf as [-> | ->]; [prim_fuel | apply buffer_reset_pos_fuel]. }
    intros u s1 t1 Hbuf.
    assert (Hg1 : same_graph s0 s1).
    { destruct Hbf as [-> | ->]; [minv; assumption |].
      eapply buffer_reset_pos_graph; eassumption. }
    apply bind_fuel; [prim_fuel | intros bd ? ? Hb]. minv.
    assert (Hrest : forall b' bd' c', b' ∈ rest -> bufs s0 !! b' = Some bd' ->
                      buffer_get_comp bd' dir = Some c' ->
                      (rank c' < depth)%nat).
    { intros b' bd' c' Hin. apply Hl. right. exact Hin. }
    destruct (buffer_get_comp bd dir) as [c |] eqn:Hc.
    + assert (Hrk : (rank c < depth)%nat).
      { match goal with
        | Hb1 : bufs _ !! b = Some bd |- _ =>
            destruct (same_graph_buf s0 _ b bd Hg1 Hb1) as (bd0 & Hb0 & He)
        end.
        eapply Hl; [left | exact Hb0 |]. rewrite He. exact Hc. }
      apply bind_fuel; [apply Hfunc; assumption |].
      intros e s2 t2 Hcall.
      pose proof (Hkeep _ _ _ _ _ Hg1 Hcall) as Hg2.
      destruct (e <? 0); [prim_fuel |].
      apply IH; assumption.
    + apply IH; assumption.
Qed.

(** The walk over the buffers of a component whose rank is below the budget
    does not exhaust it, provided the calls on the neighbours do not. *)
Lemma for_each_comp_fuel (fuel : nat) (func : nat -> Z -> M Z)
    (bf : option (nat -> M unit)) c s :
  keeps_graph s0 dir func ->
  bf = None \/ bf = Some buffer_reset_pos ->
  (forall c' s', same_graph s0 s' -> (rank c' < fuel)%nat ->
                 func c' dir s' <> OutOfFuel) ->
  same_graph s0 s -> (rank c < S fuel)%nat ->
  pipeline_for_each_comp c (Some func) bf dir s <> OutOfFuel.
Proof.
  intros Hkeep Hbf Hfunc Hg Hrk. unfold pipeline_for_each_comp.
  apply bind_fuel; [prim_fuel | intros d ? ? Hd]. minv.
  apply (for_each_buffer_fuel fuel); try assumption.
  intros b bd c' Hin Hb Hc'.
  assert (Hedge : edge s0 dir c c').
  { exists (bsource_list d, bsink_list d), b, bd.
    destruct Hg as [Hl _]. rewrite <- Hl.
    rewrite <- comp_buffer_list_links.
    repeat split; try assumption. apply links_lookup. assumption. }
  apply Hacyclic in Hedge. lia.
Qed.

Lemma pipeline_comp_trigger_fuel (fuel : nat) :
  forall c s, same_graph s0 s -> (rank c < fuel)%nat ->
              pipeline_comp_trigger drv fuel data c dir s <> OutOfFuel.
Proof.
  induction fuel as [| fuel IH]; intros c s Hg Hrk; [lia |].
  cbn [pipeline_comp_trigger]. do 6 step_fuel. minv.
  destruct (_ && _); [prim_fuel |].
  apply bind_fuel; [apply comp_trigger_fuel | intros err sa ta Htrig].
  destruct (comp_trigger_inv _ _ _ _ _ _ _ _ Hg Htrig) as [Hg1 _].
  destruct (walk_ends err); [prim_fuel |].
  apply bind_fuel; [apply sched_comp_fuel | intros u sb tb Hsched].
  destruct (sched_comp_inv _ _ _ _ _ _ _ _ Hg1 Hsched) as [Hg2 _].
  apply (for_each_comp_fuel fuel); try assumption.
  - apply trigger_keeps_graph.
  - left. reflexivity.
Qed.

Lemma pipeline_comp_prepare_fuel (fuel : nat) :
  forall c s, same_graph s0 s -> (rank c < fuel)%nat ->
              pipeline_comp_prepare drv tk fuel data c dir s <> OutOfFuel.
Proof.
  induction fuel as [| fuel IH]; intros c s Hg Hrk; [lia |].
  cbn [pipeline_comp_prepare]. do 2 step_fuel. minv.
  apply bind_fuel; [apply stop_check_fuel | intros stop sc tc Hstop].
  apply stop_check_inv in Hstop as [-> ->].
  destruct stop; [prim_fuel |]. step_fuel.
  apply bind_fuel; [apply task_init_fuel | intros e sa ta Hinit].
  pose proof (task_init_keeps_graph _ _ _ _ _ Hg Hinit) as Hg1.
  destruct (e <? 0); [prim_fuel |].
  apply bind_fuel; [apply comp_prepare_fuel | intros e2 sb tb Hprep].
  pose proof (comp_prepare_keeps_graph _ _ _ _ _ Hg1 Hprep) as Hg2.
  destruct (walk_ends e2); [prim_fuel |].
  apply (for_each_comp_fuel fuel); try assumption.
  - apply prepare_keeps_graph.
  - right. reflexivity.
Qed.

Lemma pipeline_comp_reset_fuel (p : nat) (fuel : nat) :
  forall c s, same_graph s0 s -> (rank c < fuel)%nat ->
              pipeline_comp_reset drv fuel p c dir s <> OutOfFuel.
Proof.
  induction fuel as [| fuel IH]; intros c s Hg Hrk; [lia |].
  cbn [pipeline_comp_reset]. do 4 step_fuel. minv.
  apply bind_fuel; [apply stop_check_fuel | intros stop sc tc Hstop].
  apply stop_check_inv in Hstop as [-> ->].
  destruct stop; [prim_fuel |].
  apply bind_fuel; [apply comp_reset_fuel | intros e sa ta Hreset].
  pose proof (comp_reset_keeps_graph _ _ _ _ _ Hg Hreset) as Hg1.
  destruct (walk_ends e); [prim_fuel |].
  apply (for_each_comp_fuel fuel); try assumption.
  - apply reset_keeps_graph.
  - left. reflexivity.
Qed.

Lemma pipeline_comp_copy_fuel (fuel : nat) :
  forall c s, same_graph s0 s -> (rank c < fuel)%nat ->
              pipeline_comp_copy drv fuel data c dir s <> OutOfFuel.
Proof.
  induction fuel as [| fuel IH]; intros c s Hg Hrk; [lia |].
  cbn [pipeline_comp_copy]. do 2 step_fuel. minv.
  destruct (negb _); [prim_fuel |]. destruct (negb _); [prim_fuel |].
  apply bind_fuel.
  { destruct (dir =? PPL_DIR_DOWNSTREAM); [apply comp_copy_fuel | prim_fuel]. }
  intros e1 sa ta Hfirst.
  assert (Hg1 : same_graph s0 sa).
  { destruct (dir =? PPL_DIR_DOWNSTREAM).
    - eapply comp_copy_keeps_graph; eassumption.
    - minv. assumption. }
  destruct ((dir =? PPL_DIR_DOWNSTREAM) && walk_ends e1); [prim_fuel |].
  apply bind_fuel.
  { apply (for_each_comp_fuel fuel); try assumption.
    - apply copy_keeps_graph.
    - left. reflexivity. }
  intros e2 sb tb _. destruct (walk_ends e2); [prim_fuel |].
  destruct (dir =? PPL_DIR_UPSTREAM); [apply comp_copy_fuel | prim_fuel].
Qed.

End Walk.

(** The diamond is acyclic. *)
Lemma diamond_acyclic (st : Z) :
  acyclic_by (diamond_sys st) PPL_DIR_DOWNSTREAM diamond_rank.
Proof.
  intros c c' (l & b & bd & Hl & Hb & Hbd & Hc).
  assert (Hdom : c ∈ dom (links (diamond_sys st)))
    by (apply elem_of_dom; eauto).
  assert (Hkeys : dom (links (diamond_sys st))
                  = {[1%nat; 2%nat; 3%nat; 4%nat]}).
  { unfold links, diamond_sys. cbn [comps]. rewrite dom_fmap_L.
    rewrite !dom_insert_L, dom_singleton_L.
    rewrite <- !(assoc_L (∪)). reflexivity. }
  rewrite Hkeys in Hdom.
  assert (Hcases : c = 1%nat \/ c = 2%nat \/ c = 3%nat \/ c = 4%nat).
  { rewrite !elem_of_union, !elem_of_singleton in Hdom. tauto. }
  destruct Hcases as [-> | [-> | [-> | ->]]];
    vm_compute in Hl; injection Hl as <-; cbn in Hb;
    repeat match goal with
    | H : _ ∈ _ :: _ |- _ => apply elem_of_cons in H as [-> | H]
    | H : _ ∈ [] |- _ => apply elem_of_nil in H; contradiction
    end;
    vm_compute in Hbd; injection Hbd as <-;
    vm_compute in Hc; injection Hc as <-;
    cbn; lia.
Qed.

(** C8 as stated fails: the walk keeps no record of the components it has
    been to.  In the acyclic diamond the mixer (4) is reached through both of
    its source buffers and its trigger hook is called twice by one START. *)
Lemma diamond_visits_mixer_twice :
  let s := diamond_sys COMP_STATE_PREPARE in
  let o := pipeline_comp_trigger (fun _ => fsm_driver 0) 3 start_at_1 1
             PPL_DIR_DOWNSTREAM s in
  acyclic_by s PPL_DIR_DOWNSTREAM diamond_rank /\
  triggered (trace_of o) = [1%nat; 2%nat; 4%nat; 3%nat; 4%nat] /\
  ~ NoDup (triggered (trace_of o)).
Proof.
  intros s o. split; [apply diamond_acyclic |].
  assert (Ht : triggered (trace_of o) = [1%nat; 2%nat; 4%nat; 3%nat; 4%nat])
    by (vm_compute; reflexivity).
  split; [exact Ht |]. rewrite Ht. intros Hnd.
  apply NoDup_cons in Hnd as [_ Hnd]. apply NoDup_cons in Hnd as [_ Hnd].
  apply NoDup_cons in Hnd as [Hnotin _]. apply Hnotin.
  apply elem_of_cons. right. apply elem_of_cons. left. reflexivity.
Qed.

(** C8 (amended). On a finite component/buffer graph that is acyclic in the
    walk direction, the walks driven by [pipeline_for_each_comp] (trigger,
    prepare, reset, copy) terminate: a recursion budget above the rank of the
    starting component is never exhausted.  Each walk calls its hook on the
    components at the ends of the paths from the starting component, possibly
    skipping some: a component is visited at most once for every path leading
    to it, hence at most once when every component is reached by a single
    path.  The trigger, prepare and reset walks visit in path order; the copy
    walk visits a component before or after those behind it, depending on
    the direction. *)
Theorem walk_terminates_along_routes (drv : nat -> comp_ops)
    (tk : nat -> bool) (data : pipeline_data) (dir : Z) (s : sys)
    (rank : nat -> nat) (current p : nat) (fuel : nat) :
  acyclic_by s dir rank ->
  (rank current < fuel)%nat ->
  let paths := routes fuel (links s) (bufs s) dir current in
  let o := pipeline_comp_trigger drv fuel data current dir s in
  let o_prepare := pipeline_comp_prepare drv tk fuel data current dir s in
  let o_reset := pipeline_comp_reset drv fuel p current dir s in
  let o_copy := pipeline_comp_copy drv fuel data current dir s in
  (o <> OutOfFuel /\ o_prepare <> OutOfFuel /\ o_reset <> OutOfFuel /\
   o_copy <> OutOfFuel) /\
  (triggered (trace_of o) `sublist_of` paths /\
   prepared (trace_of o_prepare) `sublist_of` paths /\
   was_reset (trace_of o_reset) `sublist_of` paths /\
   copied (trace_of o_copy) ⊆+ paths) /\
  (NoDup paths ->
   NoDup (triggered (trace_of o)) /\ NoDup (prepared (trace_of o_prepare)) /\
   NoDup (was_reset (trace_of o_reset)) /\ NoDup (copied (trace_of o_copy))).
Proof.
  intros Hacyclic Hrk paths o o_prepare o_reset o_copy.
  assert (Hsub : triggered (trace_of o) `sublist_of` paths /\
                 prepared (trace_of o_prepare) `sublist_of` paths /\
                 was_reset (trace_of o_reset) `sublist_of` paths /\
                 copied (trace_of o_copy) ⊆+ paths).
  { subst o o_prepare o_reset o_copy paths. repeat split.
    - destruct (pipeline_comp_trigger drv fuel data current dir s)
        as [r s' t | |] eqn:E; cbn [trace_of]; try apply sublist_nil_l.
      eapply pipeline_comp_trigger_visits; [apply same_graph_refl | exact E].
    - destruct (pipeline_comp_prepare drv tk fuel data current dir s)
        as [r s' t | |] eqn:E; cbn [trace_of]; try apply sublist_nil_l.
      eapply pipeline_comp_prepare_visits; [apply same_graph_refl | exact E].
    - destruct (pipeline_comp_reset drv fuel p current dir s)
        as [r s' t | |] eqn:E; cbn [trace_of]; try apply sublist_nil_l.
      eapply pipeline_comp_reset_visits; [apply same_graph_refl | exact E].
    - destruct (pipeline_comp_copy drv fuel data current dir s)
        as [r s' t | |] eqn:E; cbn [trace_of]; try apply submseteq_nil_l.
      eapply pipeline_comp_copy_visits; [apply same_graph_refl | exact E]. }
  split; [| split; [exact Hsub |]].
  - repeat split.
    + eapply pipeline_comp_trigger_fuel;
        [exact Hacyclic | apply same_graph_refl | exact Hrk].
    + eapply pipeline_comp_prepare_fuel;
        [exact Hacyclic | apply same_graph_refl | exact Hrk].
    + eapply pipeline_comp_reset_fuel;
        [exact Hacyclic | apply same_graph_refl | exact Hrk].
    + eapply pipeline_comp_copy_fuel;
        [exact Hacyclic | apply same_graph_refl | exact Hrk].
  - intros Hnd. destruct Hsub as (H1 & H2 & H3 & H4).
    repeat split; try (eapply sublist_NoDup; eassumption).
    apply submseteq_Permutation in H4. destruct H4 as [k Hk].
    rewrite Hk in Hnd. apply NoDup_app in Hnd. tauto.
Qed.

Lemma walk_terminates_along_routes_witness :
  pipeline_comp_trigger (fun _ => fsm_driver 0) 3 start_at_1 1
    PPL_DIR_DOWNSTREAM (diamond_sys COMP_STATE_PREPARE) <> OutOfFuel.
Proof.
  exact (proj1 (proj1 (walk_terminates_along_routes (fun _ => fsm_driver 0)
                         (fun _ => true) start_at_1 PPL_DIR_DOWNSTREAM
                         (diamond_sys COMP_STATE_PREPARE) diamond_rank 1 0 3
                         (diamond_acyclic COMP_STATE_PREPARE)
                         ltac:(cbn; lia)))).
Defined.

(** * Further properties of the same code *)

(** ** Component state machine *)

Ltac split_cmds H :=
  unfold fsm_commands in H; cbn [In] in H;
  repeat match type of H with _ \/ _ => destruct H as [H | H] end;
  try contradiction.

(** X1. Idempotence of a trigger command: once one of the seven commands has
    been accepted (status 0), issuing it again returns the "already set"
    status and leaves the device as it is, whatever state the device was in
    at first. *)
Theorem comp_set_state_twice (dev : comp_dev) (command : Z) :
  In command fsm_commands ->
  fst (comp_set_state dev command) = 0 ->
  comp_set_state (snd (comp_set_state dev command)) command
  = (COMP_STATUS_STATE_ALREADY_SET, snd (comp_set_state dev command)).
Proof.
  intros Hc Hok. destruct dev as [st di pp ci ct cp bso bsi].
  split_cmds Hc; subst command; revert Hok;
    unfold comp_set_state, comp_get_requested_state; cbn;
    repeat match goal with
    | |- context [Z.eqb ?a ?b] =>
        destruct (Z.eqb_spec a b); cbn; try subst st; try lia
    end;
    intros; try discriminate; try reflexivity.
Qed.

Lemma comp_set_state_twice_witness :
  comp_set_state (snd (comp_set_state lone_dev COMP_TRIGGER_START))
    COMP_TRIGGER_START
  = (COMP_STATUS_STATE_ALREADY_SET,
     snd (comp_set_state lone_dev COMP_TRIGGER_START)).
Proof.
  apply (comp_set_state_twice lone_dev COMP_TRIGGER_START).
  - vm_compute. tauto.
  - reflexivity.
Defined.

Ltac unfold_consts :=
  cbv [COMP_TRIGGER_STOP COMP_TRIGGER_START COMP_TRIGGER_PAUSE
       COMP_TRIGGER_RELEASE COMP_TRIGGER_SUSPEND COMP_TRIGGER_RESUME
       COMP_TRIGGER_RESET COMP_TRIGGER_PREPARE COMP_TRIGGER_XRUN
       COMP_STATE_INIT COMP_STATE_READY COMP_STATE_SUSPEND
       COMP_STATE_PREPARE COMP_STATE_PAUSED COMP_STATE_ACTIVE] in *.

Ltac case_eqb :=
  repeat match goal with
  | |- context [Z.eqb ?a ?b] => destruct (Z.eqb_spec a b); cbn
  end.

(** X2. Whatever the command and the state, [comp_set_state] returns 0, the
    "already set" status or -EINVAL; it changes nothing but the state field;
    and unless it returns 0 the device is returned as it was. *)
Theorem comp_set_state_frame (dev : comp_dev) (command : Z) :
  let r := comp_set_state dev command in
  (fst r = 0 \/ fst r = COMP_STATUS_STATE_ALREADY_SET \/ fst r = - EINVAL) /\
  snd r = set_state dev (state (snd r)) /\
  (fst r <> 0 -> snd r = dev).
Proof.
  destruct dev as [st di pp ci ct cp bso bsi].
  unfold comp_set_state. cbn.
  case_eqb; cbn; repeat split; auto; try congruence; intros; try lia.
Qed.

(** X3. A state change made by [comp_set_state] always lands in the state
    the command requests, which is READY, PREPARE, PAUSED or ACTIVE: no
    command moves a component to INIT or to SUSPEND. *)
Theorem comp_set_state_target (dev : comp_dev) (command : Z) :
  state (snd (comp_set_state dev command)) <> state dev ->
  state (snd (comp_set_state dev command))
  = comp_get_requested_state command /\
  In (state (snd (comp_set_state dev command)))
     [COMP_STATE_READY; COMP_STATE_PREPARE; COMP_STATE_PAUSED;
      COMP_STATE_ACTIVE].
Proof.
  destruct dev as [st di pp ci ct cp bso bsi].
  unfold comp_set_state, comp_get_requested_state. cbn.
  case_eqb; cbn; intros H; try contradiction; try (exfalso; lia);
    try (split; [reflexivity | cbn; tauto]);
    exfalso; unfold_consts; lia.
Qed.

Lemma comp_set_state_target_witness :
  state (snd (comp_set_state lone_dev COMP_TRIGGER_START))
  = comp_get_requested_state COMP_TRIGGER_START.
Proof.
  exact (proj1 (comp_set_state_target lone_dev COMP_TRIGGER_START
                  ltac:(vm_compute; congruence))).
Defined.

(** X4. Command sequences.  From any state, RESET, PREPARE, START leaves the
    component ACTIVE.  From ACTIVE, PAUSE followed by RELEASE, and STOP
    followed by START, give back the very same device. *)
Theorem comp_lifecycle_round_trips (dev : comp_dev) :
  state (comp_set_states dev
           [COMP_TRIGGER_RESET; COMP_TRIGGER_PREPARE; COMP_TRIGGER_START])
  = COMP_STATE_ACTIVE /\
  (state dev = COMP_STATE_ACTIVE ->
   comp_set_states dev [COMP_TRIGGER_PAUSE; COMP_TRIGGER_RELEASE] = dev /\
   comp_set_states dev [COMP_TRIGGER_STOP; COMP_TRIGGER_START] = dev).
Proof.
  destruct dev as [st di pp ci ct cp bso bsi]. split.
  - unfold comp_set_states. cbn [fold_left].
    assert (Hr : snd (comp_set_state
                        (mk_comp_dev st di pp ci ct cp bso bsi)
                        COMP_TRIGGER_RESET)
                 = mk_comp_dev COMP_STATE_READY di pp ci ct cp bso bsi).
    { unfold comp_set_state. cbn.
      destruct (Z.eqb_spec st COMP_STATE_READY) as [-> |]; reflexivity. }
    rewrite Hr. reflexivity.
  - cbn [state]. intros ->. split; reflexivity.
Qed.

Lemma comp_lifecycle_round_trips_witness :
  comp_set_states (set_state lone_dev COMP_STATE_ACTIVE)
    [COMP_TRIGGER_PAUSE; COMP_TRIGGER_RELEASE]
  = set_state lone_dev COMP_STATE_ACTIVE.
Proof.
  exact (proj1 (proj2 (comp_lifecycle_round_trips
                         (set_state lone_dev COMP_STATE_ACTIVE))
                  ltac:(reflexivity))).
Defined.

(** ** Ring buffer accounting *)

Lemma produce_counters_and_cursors (b : comp_buffer) (n : Z) :
  ring_buffer_ok b -> 0 <= n <= free b ->
  avail (produce b n) = avail b + n /\
  free (produce b n) = free b - n /\
  r_ptr (produce b n) = r_ptr b /\
  w_ptr (produce b n) = addr b + ((w_ptr b - addr b) + n) mod size b.
Proof.
  intros Hok Hn.
  destruct (ring_buffer_offsets b Hok) as (Hav & Hfr & Hoff).
  destruct Hok as ((Hsz & Ha & He) & (Hr & Hw) & (_ & _ & Hsum) & _).
  rewrite two_p32 in *. rewrite mod_one_wrap by lia. unfold_transfer.
  destruct (Z.eqb_spec n 0) as [-> | Hn0]; proj_buffer.
  { zbool; lia. }
  rewrite ?Z.geb_leb, ?Z.gtb_ltb.
  destruct (Z.ltb_spec (free b) n); [lia |].
  revert Hoff. zbool; proj_buffer; rewrite ?u32_small by lia;
    rewrite ?u32_small by lia; lia.
Qed.

(** X5. A produce that fits the free space adds its bytes to [avail], takes
    them from [free], leaves the read cursor alone and moves the write cursor
    forward by that many bytes around the ring. *)
Theorem produce_within_free (b : comp_buffer) (n : Z) :
  ring_buffer_ok b -> 0 <= n <= free b ->
  avail (produce b n) = avail b + n /\
  free (produce b n) = free b - n /\
  r_ptr (produce b n) = r_ptr b /\
  w_ptr (produce b n) = addr b + ((w_ptr b - addr b) + n) mod size b.
Proof. exact (produce_counters_and_cursors b n). Qed.

Lemma produce_within_free_witness :
  avail (produce (buffer_example 106 100 6 4) 3) = 9.
Proof.
  exact (proj1 (produce_within_free (buffer_example 106 100 6 4) 3
                  buffer_example_ok_6 ltac:(vm_compute; split; congruence))).
Defined.

Lemma consume_counters_and_cursors (b : comp_buffer) (n : Z) :
  ring_buffer_ok b -> 0 <= n <= avail b ->
  avail (consume b n) = avail b - n /\
  free (consume b n) = free b + n /\
  w_ptr (consume b n) = w_ptr b /\
  r_ptr (consume b n) = addr b + ((r_ptr b - addr b) + n) mod size b.
Proof.
  intros Hok Hn.
  destruct (ring_buffer_offsets b Hok) as (Hav & Hfr & Hoff).
  destruct Hok as ((Hsz & Ha & He) & (Hr & Hw) & (_ & _ & Hsum) & _).
  rewrite two_p32 in *. rewrite mod_one_wrap by lia. unfold_transfer.
  destruct (Z.eqb_spec n 0) as [-> | Hn0]; proj_buffer.
  { zbool; lia. }
  rewrite ?Z.geb_leb, ?Z.gtb_ltb.
  revert Hoff. zbool; proj_buffer; rewrite ?u32_small by lia;
    rewrite ?u32_small by lia; lia.
Qed.

(** X6. A consume within [avail] takes its bytes from [avail], adds them to
    [free], leaves the write cursor alone and moves the read cursor forward
    by that many bytes around the ring. *)
Theorem consume_within_avail (b : comp_buffer) (n : Z) :
  ring_buffer_ok b -> 0 <= n <= avail b ->
  avail (consume b n) = avail b - n /\
  free (consume b n) = free b + n /\
  w_ptr (consume b n) = w_ptr b /\
  r_ptr (consume b n) = addr b + ((r_ptr b - addr b) + n) mod size b.
Proof. exact (consume_counters_and_cursors b n). Qed.

Lemma consume_within_avail_witness :
  avail (consume (buffer_example 106 100 6 4) 2) = 4.
Proof.
  exact (proj1 (consume_within_avail (buffer_example 106 100 6 4) 2
                  buffer_example_ok_6 ltac:(vm_compute; split; congruence))).
Defined.

Lemma transfer_keeps_geometry (b : comp_buffer) (n : Z) :
  (size (produce b n) = size b /\ addr (produce b n) = addr b /\
   end_addr (produce b n) = end_addr b) /\
  (size (consume b n) = size b /\ addr (consume b n) = addr b /\
   end_addr (consume b n) = end_addr b).
Proof.
  unfold_transfer.
  destruct (Z.eqb_spec n 0); proj_buffer; repeat split; reflexivity.
Qed.

(** X7. The ring-buffer invariant (cursors inside the data area, counters
    equal to the cursor distance, avail + free = size) survives any run of
    produce and consume calls whose byte counts do not exceed the buffer
    size; the data area itself never moves. *)
Theorem run_transfers_invariant (ts : list transfer) (b : comp_buffer) :
  ring_buffer_ok b ->
  Forall (fun t => is_u32 (transfer_bytes t) /\ transfer_bytes t <= size b)
         ts ->
  ring_buffer_ok (run_transfers b ts) /\
  size (run_transfers b ts) = size b /\
  addr (run_transfers b ts) = addr b.
Proof.
  revert b. induction ts as [| t ts IH]; intros b Hok Hall.
  - cbn. auto.
  - apply Forall_cons_1 in Hall. destruct Hall as [[Hu Hle] Hall].
    unfold run_transfers. cbn [fold_left]. fold (run_transfers (apply_transfer b t) ts).
    destruct (ring_buffer_ok_preserved b (transfer_bytes t) Hok Hu Hle)
      as [Hp Hc].
    destruct (transfer_keeps_geometry b (transfer_bytes t))
      as [(Hps & Hpa & _) (Hcs & Hca & _)].
    assert (Hok' : ring_buffer_ok (apply_transfer b t))
      by (destruct t; assumption).
    assert (Hs : size (apply_transfer b t) = size b)
      by (destruct t; assumption).
    assert (Ha : addr (apply_transfer b t) = addr b)
      by (destruct t; assumption).
    destruct (IH (apply_transfer b t) Hok') as (H1 & H2 & H3).
    { rewrite Hs. exact Hall. }
    rewrite H2, H3, Hs, Ha. auto.
Qed.

Lemma run_transfers_invariant_witness :
  ring_buffer_ok
    (run_transfers (buffer_example 106 100 6 4)
       [Produce 3; Consume 9; Produce 10; Consume 4]).
Proof.
  exact (proj1 (run_transfers_invariant
                  [Produce 3; Consume 9; Produce 10; Consume 4]
                  (buffer_example 106 100 6 4) buffer_example_ok_6
                  ltac:(repeat constructor; vm_compute; congruence))).
Defined.

(** X8. Round trip: producing n bytes that fit and then consuming n bytes
    restores both counters, and both cursors have moved forward by n around
    the ring. *)
Theorem produce_consume_round_trip (b : comp_buffer) (n : Z) :
  ring_buffer_ok b -> 0 <= n <= free b ->
  let b' := consume (produce b n) n in
  avail b' = avail b /\ free b' = free b /\
  w_ptr b' = addr b + ((w_ptr b - addr b) + n) mod size b /\
  r_ptr b' = addr b + ((r_ptr b - addr b) + n) mod size b.
Proof.
  intros Hok Hn b'.
  destruct (ring_buffer_offsets b Hok) as (Hav & Hfr & _).
  pose proof Hok as ((Hsz & Ha & He) & _ & (_ & _ & Hsum) & _).
  destruct (produce_counters_and_cursors b n Hok Hn) as (Ha1 & Hf1 & Hr1 & Hw1).
  assert (Hu : is_u32 n) by (unfold is_u32; rewrite two_p32 in *; lia).
  destruct (ring_buffer_ok_preserved b n Hok Hu ltac:(lia)) as [Hokp _].
  destruct (transfer_keeps_geometry b n) as [(Hps & Hpa & _) _].
  destruct (consume_counters_and_cursors (produce b n) n Hokp ltac:(lia))
    as (Ha2 & Hf2 & Hw2 & Hr2).
  subst b'. rewrite Ha2, Hf2, Hw2, Hr2, Ha1, Hf1, Hw1, Hr1, Hps, Hpa.
  repeat split; lia.
Qed.

Lemma produce_consume_round_trip_witness :
  avail (consume (produce (buffer_example 106 100 6 4) 3) 3) = 6.
Proof.
  exact (proj1 (produce_consume_round_trip (buffer_example 106 100 6 4) 3
                  buffer_example_ok_6 ltac:(vm_compute; split; congruence))).
Defined.

(** X9. Nothing in consume checks the request against [avail]: consuming
    more than is available (up to the buffer size) succeeds and leaves the
    buffer claiming size - (n - avail) readable bytes that were never
    written. *)
Theorem consume_beyond_avail (b : comp_buffer) (n : Z) :
  ring_buffer_ok b -> avail b < n <= size b -> n - avail b < size b ->
  avail (consume b n) = size b - (n - avail b) /\
  free (consume b n) = n - avail b /\
  w_ptr (consume b n) = w_ptr b.
Proof.
  intros Hok Hn Hlt.
  destruct (ring_buffer_offsets b Hok) as (Hav & Hfr & Hoff).
  destruct Hok as ((Hsz & Ha & He) & (Hr & Hw) & (_ & _ & Hsum) & _).
  rewrite two_p32 in *. unfold_transfer.
  destruct (Z.eqb_spec n 0) as [-> | Hn0]; proj_buffer; [lia |].
  rewrite ?Z.geb_leb, ?Z.gtb_ltb.
  destruct (Z.leb_spec (end_addr b) (r_ptr b + n));
  revert Hoff; zbool; proj_buffer; rewrite ?u32_small by lia;
    rewrite ?u32_small by lia; lia.
Qed.

Lemma consume_beyond_avail_witness :
  avail (consume (buffer_example 106 100 6 4) 9) = 7.
Proof.
  exact (proj1 (consume_beyond_avail (buffer_example 106 100 6 4) 9
                  buffer_example_ok_6 ltac:(vm_compute; split; congruence)
                  ltac:(vm_compute; reflexivity))).
Defined.

(** ** Buffer resize *)

(** X10. [buffer_set_size] returns 0, -EINVAL or -ENOMEM; -EINVAL exactly
    for a size of zero or above the heap limit; -ENOMEM only when the
    reallocation failed for a larger size, so shrinking never fails; and a
    failed call leaves the buffer as it was. *)
Theorem buffer_set_size_outcomes (HEAP_BUFFER_SIZE : Z)
    (buffer_init : comp_buffer -> Z -> comp_buffer)
    (rbrealloc : option Z) (buffer : comp_buffer) (new_size : Z) :
  let r := buffer_set_size HEAP_BUFFER_SIZE buffer_init rbrealloc buffer
             new_size in
  (fst r = 0 \/ fst r = - EINVAL \/ fst r = - ENOMEM) /\
  (fst r = - EINVAL <-> new_size = 0 \/ new_size > HEAP_BUFFER_SIZE) /\
  (fst r = - ENOMEM ->
   rbrealloc = None /\ size buffer < new_size <= HEAP_BUFFER_SIZE) /\
  (fst r <> 0 -> snd r = buffer).
Proof.
  unfold buffer_set_size. cbv zeta.
  rewrite !Z.gtb_ltb.
  destruct (Z.eqb_spec new_size 0); cbn [orb].
  { cbn. unfold EINVAL, ENOMEM. repeat split; intros; auto; lia. }
  destruct (Z.ltb_spec HEAP_BUFFER_SIZE new_size); cbn [orb].
  { cbn. unfold EINVAL, ENOMEM. repeat split; intros; auto; lia. }
  destruct (Z.eqb_spec new_size (size buffer)).
  { cbn. unfold EINVAL, ENOMEM. repeat split; intros; auto; lia. }
  destruct rbrealloc as [p |].
  { cbn. unfold EINVAL, ENOMEM. repeat split; intros; auto; try lia;
      congruence. }
  destruct (Z.ltb_spec (size buffer) new_size);
    cbn; unfold EINVAL, ENOMEM; repeat split; intros; auto; try lia;
      congruence.
Qed.

(** ** Sample rate converter *)

Lemma src_find_fs_loop_spec (fs : Z) (l : list Z) :
  forall (n : nat) (i : Z), 0 <= i -> (n <= length l)%nat ->
  (src_find_fs_loop l n i fs = - EINVAL /\
   forall j, (j < n)%nat -> l !! j <> Some fs) \/
  (exists k : nat,
     src_find_fs_loop l n i fs = i + Z.of_nat k /\ (k < n)%nat /\
     l !! k = Some fs /\ forall j, (j < k)%nat -> l !! j <> Some fs).
Proof.
  induction l as [| x rest IH]; intros n i Hi Hn.
  - cbn in Hn. assert (n = 0%nat) by lia. subst. left. split; [reflexivity |].
    intros j Hj. lia.
  - destruct n as [| n'].
    { left. split; [reflexivity |]. intros j Hj. lia. }
    cbn [src_find_fs_loop]. cbn in Hn.
    destruct (Z.eqb_spec x fs) as [-> | Hne].
    + right. exists 0%nat. repeat split; [lia | lia | intros j Hj; lia].
    + destruct (IH n' (i + 1) ltac:(lia) ltac:(lia)) as [[Hr Hno] | (k & Hr & Hk & Hat & Hno)].
      * left. split; [exact Hr |]. intros [| j] Hj; cbn.
        -- congruence.
        -- apply Hno. lia.
      * right. exists (S k). repeat split.
        -- rewrite Hr. lia.
        -- lia.
        -- exact Hat.
        -- intros [| j] Hj; cbn; [congruence | apply Hno; lia].
Qed.

(** X11. [src_find_fs] returns the index of the first entry of the rate list
    equal to the rate, an index within the list length; it returns -EINVAL
    exactly when none of the first [list_length] entries is equal to it. *)
Theorem src_find_fs_first_match (fs_list : list Z) (list_length fs : Z) :
  0 <= list_length <= Z.of_nat (length fs_list) ->
  let r := src_find_fs fs_list list_length fs in
  (r = - EINVAL /\
   forall j, (j < Z.to_nat list_length)%nat -> fs_list !! j <> Some fs) \/
  (0 <= r < list_length /\ fs_list !! Z.to_nat r = Some fs /\
   forall j, (j < Z.to_nat r)%nat -> fs_list !! j <> Some fs).
Proof.
  intros Hlen r. subst r. unfold src_find_fs.
  destruct (src_find_fs_loop_spec fs fs_list (Z.to_nat list_length) 0
              ltac:(lia) ltac:(lia)) as [H | (k & Hr & Hk & Hat & Hno)].
  - left. exact H.
  - right. rewrite Hr. rewrite Z.add_0_l, Nat2Z.id.
    repeat split; try lia; assumption.
Qed.

Lemma src_find_fs_first_match_witness :
  let r := src_find_fs [8000; 44100; 48000; 44100] 4 44100 in
  (r = - EINVAL /\
   forall j, (j < Z.to_nat 4)%nat ->
             [8000; 44100; 48000; 44100] !! j <> Some 44100) \/
  (0 <= r < 4 /\ [8000; 44100; 48000; 44100] !! Z.to_nat r = Some 44100 /\
   forall j, (j < Z.to_nat r)%nat ->
             [8000; 44100; 48000; 44100] !! j <> Some 44100).
Proof.
  exact (src_find_fs_first_match [8000; 44100; 48000; 44100] 4 44100
           ltac:(cbn; lia)).
Defined.
(** ** Sample rate converter: set-up and copy path *)

Lemma two_p31 : 2 ^ 31 = 2147483648.
Proof. reflexivity. Qed.

Lemma to_int32_small (x : Z) :
  - 2147483648 <= x < 2147483648 -> to_int32 x = x.
Proof.
  intros H. unfold to_int32. rewrite two_p31, two_p32.
  rewrite Z.mod_small by lia. lia.
Qed.

Lemma to_int32_u32 (x : Z) :
  - 2147483648 <= x < 2147483648 -> to_int32 (u32 x) = x.
Proof.
  intros H. unfold to_int32, u32. rewrite two_p31, two_p32.
  rewrite Zplus_mod_idemp_l.
  rewrite Z.mod_small by lia. lia.
Qed.

Lemma frames_of_bytes (x fb : Z) :
  0 <= x < 2147483648 -> 0 < fb ->
  to_int32 (u32 (x / fb)) = x / fb /\ 0 <= x / fb /\ x / fb * fb <= x /\
  x / fb <= x.
Proof.
  intros Hx Hfb.
  assert (H0 : 0 <= x / fb) by (apply Z.div_pos; lia).
  assert (H1 : x / fb * fb <= x)
    by (rewrite Z.mul_comm; apply Z.mul_div_le; lia).
  assert (H2 : x / fb <= x) by nia.
  rewrite to_int32_u32 by lia. auto.
Qed.

Lemma quot_blocks (a b : Z) :
  0 <= a -> 0 < b -> 0 <= Z.quot a b /\ Z.quot a b * b <= a.
Proof.
  intros Ha Hb. rewrite Z.quot_div_nonneg by lia.
  split; [apply Z.div_pos; lia |].
  rewrite Z.mul_comm. apply Z.mul_div_le. lia.
Qed.

Lemma MIN_le (a b : Z) : MIN a b <= a /\ MIN a b <= b.
Proof. unfold MIN. destruct (Z.ltb_spec a b); lia. Qed.

Lemma MIN_nonneg (a b : Z) : 0 <= a -> 0 <= b -> 0 <= MIN a b.
Proof. unfold MIN. destruct (Z.ltb_spec a b); lia. Qed.

Lemma blocks_fit (t t' blk frames frames' fb bytes : Z) :
  0 <= t <= t' -> 0 < blk -> t' * blk <= frames -> frames <= frames' ->
  0 < fb -> frames' * fb <= bytes -> t * blk * fb <= bytes.
Proof.
  intros Ht Hb H1 H2 Hf H3.
  assert (t * blk <= t' * blk) by nia.
  assert (t * blk * fb <= frames' * fb) by nia.
  lia.
Qed.

Lemma src_get_copy_limits_fits (sp : src_param) (s1 s2 : src_stage)
    (source_frames sink_frames avail_src fb_src free_snk fb_snk : Z) :
  0 <= avail_src < 2 ^ 31 -> 0 <= free_snk < 2 ^ 31 ->
  0 < fb_src -> 0 < fb_snk ->
  0 < blk_in s1 -> 0 < blk_out s1 -> 0 < blk_out s2 ->
  0 <= source_frames -> 0 <= sink_frames ->
  let r := src_get_copy_limits sp s1 s2 source_frames sink_frames
             avail_src fb_src free_snk fb_snk in
  (fst r = 0 \/ fst r = - EIO) /\
  (fst r = 0 ->
   0 < p_blk_in (snd r) /\ 0 < p_blk_out (snd r) /\
   p_blk_in (snd r) * fb_src <= avail_src /\
   p_blk_out (snd r) * fb_snk <= free_snk) /\
  0 <= p_stage1_times (snd r) /\
  p_blk_in (snd r) = p_stage1_times (snd r) * blk_in s1 /\
  (filter_length s2 > 1 ->
   0 <= p_stage2_times (snd r) /\
   p_blk_out (snd r) = p_stage2_times (snd r) * blk_out s2 /\
   p_blk_in (snd r) <= source_frames + blk_in s1 /\
   p_blk_out (snd r) <= sink_frames + blk_out s2) /\
  p_sbuf_length (snd r) = p_sbuf_length sp /\
  (filter_length s2 <= 1 ->
   p_blk_out (snd r) = p_stage1_times (snd r) * blk_out s1).
Proof.
  intros Hav Hfr Hfs Hfk Hbi Hbo Hbo2 Hsf Hkf.
  rewrite two_p31 in *.
  destruct (frames_of_bytes avail_src fb_src Hav Hfs) as (Es & Hs0 & Hs1 & _).
  destruct (frames_of_bytes free_snk fb_snk Hfr Hfk) as (Ek & Hk0 & Hk1 & _).
  unfold src_get_copy_limits. cbv zeta. rewrite Es, Ek.
  rewrite Z.gtb_ltb.
  destruct (Z.ltb_spec 1 (filter_length s2)) as [Htwo | Hone].
  - (* two filters *)
    cbn [p_blk_in p_blk_out p_stage1_times p_stage2_times p_sbuf_length].
    set (fk := MIN (free_snk / fb_snk) (sink_frames + blk_out s2)).
    set (fs := MIN (avail_src / fb_src) (source_frames + blk_in s1)).
    destruct (MIN_le (free_snk / fb_snk) (sink_frames + blk_out s2)).
    destruct (MIN_le (avail_src / fb_src) (source_frames + blk_in s1)).
    assert (0 <= fk) by (apply MIN_nonneg; lia).
    assert (0 <= fs) by (apply MIN_nonneg; lia).
    destruct (quot_blocks fk (blk_out s2)) as [Ht2 Hm2]; [lia | lia |].
    destruct (quot_blocks fs (blk_in s1)) as [Ht1 Hm1]; [lia | lia |].
    fold fk fs in H, H0, H1, H2.
    set (t1 := Z.quot fs (blk_in s1)) in *.
    set (t2 := Z.quot fk (blk_out s2)) in *.
    destruct (Z.eqb_spec (t1 * blk_in s1) 0) as [E1 | E1]; cbn [orb fst snd].
    { cbn [p_blk_in p_blk_out p_stage1_times p_stage2_times p_sbuf_length].
      unfold EIO. repeat split; auto; try lia; intros; try lia. }
    destruct (Z.eqb_spec (t2 * blk_out s2) 0) as [E2 | E2]; cbn [fst snd];
      cbn [p_blk_in p_blk_out p_stage1_times p_stage2_times p_sbuf_length].
    { unfold EIO. repeat split; auto; try lia; intros; try lia. }
    repeat split; auto; intros; try nia.
  - (* single filter *)
    set (fk := MIN (free_snk / fb_snk) (sink_frames + blk_out s1)).
    destruct (MIN_le (free_snk / fb_snk) (sink_frames + blk_out s1)).
    assert (0 <= fk) by (apply MIN_nonneg; lia).
    fold fk in H, H0.
    destruct (quot_blocks fk (blk_out s1)) as [Hta Hma]; [lia | lia |].
    destruct (quot_blocks (avail_src / fb_src) (blk_in s1))
      as [Htb Hmb]; [lia | lia |].
    set (ta := Z.quot fk (blk_out s1)) in *.
    set (tb := Z.quot (avail_src / fb_src) (blk_in s1)) in *.
    destruct (MIN_le ta tb).
    assert (0 <= MIN ta tb) by (apply MIN_nonneg; lia).
    set (t1 := MIN ta tb) in *.
    cbn [p_blk_in p_blk_out p_stage1_times p_stage2_times p_sbuf_length].
    destruct (Z.eqb_spec (t1 * blk_in s1) 0) as [E1 | E1]; cbn [orb fst snd].
    { cbn [p_blk_in p_blk_out p_stage1_times p_stage2_times p_sbuf_length].
      unfold EIO. repeat split; auto; try lia; intros; try lia. }
    destruct (Z.eqb_spec (t1 * blk_out s1) 0) as [E2 | E2]; cbn [fst snd];
      cbn [p_blk_in p_blk_out p_stage1_times p_stage2_times p_sbuf_length].
    { unfold EIO. repeat split; auto; try lia; intros; try lia. }
    repeat split; auto; intros; try nia; try lia.
    + apply (blocks_fit t1 tb (blk_in s1) (avail_src / fb_src)
               (avail_src / fb_src)); lia.
    + apply (blocks_fit t1 ta (blk_out s1) fk (free_snk / fb_snk)); lia.
Qed.



(** X13. [comp_avail_frames] is the largest frame count that both buffers
    can take: that many frames are available in the source and free in the
    sink, and one more frame would exceed one of the two. *)
Theorem comp_avail_frames_largest (avail_src fb_src free_snk fb_snk : Z) :
  0 <= avail_src -> 0 <= free_snk -> 0 < fb_src -> 0 < fb_snk ->
  let n := comp_avail_frames avail_src fb_src free_snk fb_snk in
  0 <= n /\ n * fb_src <= avail_src /\ n * fb_snk <= free_snk /\
  (avail_src < (n + 1) * fb_src \/ free_snk < (n + 1) * fb_snk).
Proof.
  intros Ha Hf Hs Hk. unfold comp_avail_frames. cbv zeta.
  assert (0 <= avail_src / fb_src) by (apply Z.div_pos; lia).
  assert (0 <= free_snk / fb_snk) by (apply Z.div_pos; lia).
  pose proof (Z.mul_div_le avail_src fb_src Hs).
  pose proof (Z.mul_div_le free_snk fb_snk Hk).
  pose proof (Z.mul_succ_div_gt avail_src fb_src Hs).
  pose proof (Z.mul_succ_div_gt free_snk fb_snk Hk).
  unfold MIN. destruct (Z.ltb_spec (avail_src / fb_src) (free_snk / fb_snk));
    repeat split; try lia; try nia.
Qed.

Lemma comp_avail_frames_largest_witness :
  let n := comp_avail_frames 100 8 52 4 in
  0 <= n /\ n * 8 <= 100 /\ n * 4 <= 52 /\
  (100 < (n + 1) * 8 \/ 52 < (n + 1) * 4).
Proof.
  exact (comp_avail_frames_largest 100 8 52 4
           ltac:(lia) ltac:(lia) ltac:(lia) ltac:(lia)).
Defined.

Lemma to_int32_mod (x : Z) : to_int32 (x mod 2 ^ 32) = to_int32 x.
Proof.
  unfold to_int32. rewrite Zplus_mod_idemp_l. reflexivity.
Qed.

Lemma to_int32_minus_l (a b : Z) : to_int32 (to_int32 a - b) = to_int32 (a - b).
Proof.
  unfold to_int32. f_equal.
  replace ((a + 2 ^ 31) mod 2 ^ 32 - 2 ^ 31 - b + 2 ^ 31)
    with ((a + 2 ^ 31) mod 2 ^ 32 + (- b)) by lia.
  rewrite Zplus_mod_idemp_l. f_equal. lia.
Qed.

Lemma to_int32_wrap_down (x : Z) :
  2147483648 <= x < 4294967296 -> to_int32 x = x - 4294967296.
Proof.
  intros H. unfold to_int32. rewrite two_p31, two_p32.
  replace (x + 2147483648) with ((x - 2147483648) + 1 * 4294967296) by lia.
  rewrite Z.mod_add by lia. rewrite Z.mod_small by lia. lia.
Qed.

Lemma to_int32_wrap_up (x : Z) :
  - 4294967296 <= x < - 2147483648 -> to_int32 x = x + 4294967296.
Proof.
  intros H. unfold to_int32. rewrite two_p31, two_p32.
  replace (x + 2147483648) with ((x + 6442450944) + (- 1) * 4294967296)
    by lia.
  rewrite Z.mod_add by lia. rewrite Z.mod_small by lia. lia.
Qed.

(** What the two reports amount to: the difference, wrapped into 32 signed
    bits. *)
Lemma xrun_bytes_wrap (level copy_bytes : Z) :
  underrun_bytes level copy_bytes = to_int32 (level - copy_bytes) /\
  overrun_bytes level copy_bytes = to_int32 (copy_bytes - level).
Proof.
  unfold underrun_bytes, overrun_bytes, u32.
  rewrite !to_int32_mod, !to_int32_minus_l. split; reflexivity.
Qed.

Lemma xrun_bytes_values (level copy_bytes : Z) :
  0 <= level < copy_bytes -> copy_bytes - level < 2 ^ 31 ->
  underrun_bytes level copy_bytes = level - copy_bytes /\
  overrun_bytes level copy_bytes = copy_bytes - level.
Proof.
  intros Hl Hc. rewrite two_p31 in Hc.
  destruct (xrun_bytes_wrap level copy_bytes) as [-> ->].
  rewrite !to_int32_small by lia. split; reflexivity.
Qed.

(** X14. The byte counts reported on an XRUN, for 32-bit unsigned levels
    and requests with [level < copy_bytes].  As long as the difference is
    below 2^31 the count carries the direction in its sign: an underrun
    (fewer bytes available than requested) is reported as the negative
    shortfall, an overrun (less free space than requested) as the positive
    excess, neither as zero.  From 2^31 on the conversion to [int32_t] wraps:
    an overrun of 2^31 bytes or more is reported negative and an underrun of
    more than 2^31 bytes positive, both off by 2^32. *)
Theorem xrun_bytes_sign (level copy_bytes : Z) :
  0 <= level < copy_bytes -> copy_bytes < 2 ^ 32 ->
  (copy_bytes - level < 2 ^ 31 ->
   underrun_bytes level copy_bytes = level - copy_bytes /\
   underrun_bytes level copy_bytes < 0 /\
   overrun_bytes level copy_bytes = copy_bytes - level /\
   0 < overrun_bytes level copy_bytes) /\
  (2 ^ 31 <= copy_bytes - level ->
   overrun_bytes level copy_bytes = copy_bytes - level - 2 ^ 32 /\
   overrun_bytes level copy_bytes < 0) /\
  (2 ^ 31 < copy_bytes - level ->
   underrun_bytes level copy_bytes = level - copy_bytes + 2 ^ 32 /\
   0 < underrun_bytes level copy_bytes).
Proof.
  intros Hl Hc. rewrite two_p31, two_p32 in *.
  destruct (xrun_bytes_wrap level copy_bytes) as [Eu Eo].
  split; [| split]; intros Hd.
  - destruct (xrun_bytes_values level copy_bytes Hl) as [-> ->];
      [rewrite two_p31; exact Hd | lia].
  - rewrite Eo, to_int32_wrap_down by lia. lia.
  - rewrite Eu, to_int32_wrap_up by lia. lia.
Qed.

Lemma xrun_bytes_sign_witness :
  underrun_bytes 128 512 = -384 /\ overrun_bytes 128 512 = 384 /\
  underrun_bytes 10 4294967295 = 11.
Proof.
  destruct (xrun_bytes_sign 128 512 ltac:(lia) ltac:(cbn; lia))
    as (H & _). destruct (H ltac:(cbn; lia)) as (H1 & _ & H2 & _).
  destruct (xrun_bytes_sign 10 4294967295 ltac:(lia) ltac:(cbn; lia))
    as (_ & _ & H'). destruct (H' ltac:(cbn; lia)) as (H3 & _).
  split; [exact H1 | split; [exact H2 | exact H3]].
Defined.

(** *** The copy path *)

Lemma consume_frames_ok (source : comp_buffer) (n fb : Z) :
  ring_buffer_ok source -> size source < 2 ^ 31 ->
  0 <= n -> 0 < fb -> n * fb <= avail source ->
  let source' := if n >? 0 then consume source (u32 (n * fb)) else source in
  ring_buffer_ok source' /\ avail source' = avail source - n * fb /\
  w_ptr source' = w_ptr source /\ size source' = size source.
Proof.
  intros Hok Hsz Hn Hfb Hle.
  destruct (ring_buffer_offsets source Hok) as (Hav & Hfr & _).
  rewrite two_p31 in Hsz.
  assert (0 <= n * fb) by nia.
  rewrite Z.gtb_ltb. destruct (Z.ltb_spec 0 n); cbv zeta.
  - rewrite u32_small by lia.
    assert (Hu : is_u32 (n * fb)) by (unfold is_u32; rewrite two_p32; lia).
    destruct (ring_buffer_ok_preserved source (n * fb) Hok Hu ltac:(lia))
      as [_ Hc].
    destruct (consume_counters_and_cursors source (n * fb) Hok ltac:(lia))
      as (H1 & _ & H3 & _).
    destruct (transfer_keeps_geometry source (n * fb)) as [_ (H4 & _)].
    auto.
  - assert (n = 0) by lia. subst. split; [assumption |]. repeat split; lia.
Qed.

Lemma produce_frames_ok (sink : comp_buffer) (n fb : Z) :
  ring_buffer_ok sink -> size sink < 2 ^ 31 ->
  0 <= n -> 0 < fb -> n * fb <= free sink ->
  let sink' := if n >? 0 then produce sink (u32 (n * fb)) else sink in
  ring_buffer_ok sink' /\ free sink' = free sink - n * fb /\
  r_ptr sink' = r_ptr sink /\ size sink' = size sink.
Proof.
  intros Hok Hsz Hn Hfb Hle.
  destruct (ring_buffer_offsets sink Hok) as (Hav & Hfr & _).
  rewrite two_p31 in Hsz.
  assert (0 <= n * fb) by nia.
  rewrite Z.gtb_ltb. destruct (Z.ltb_spec 0 n); cbv zeta.
  - rewrite u32_small by lia.
    assert (Hu : is_u32 (n * fb)) by (unfold is_u32; rewrite two_p32; lia).
    destruct (ring_buffer_ok_preserved sink (n * fb) Hok Hu ltac:(lia))
      as [Hp _].
    destruct (produce_counters_and_cursors sink (n * fb) Hok ltac:(lia))
      as (_ & H2 & H3 & _).
    destruct (transfer_keeps_geometry sink (n * fb)) as [(H4 & _) _].
    auto.
  - assert (n = 0) by lia. subst. split; [assumption |]. repeat split; lia.
Qed.

Lemma quot_lt_times (free t blk : Z) :
  0 <= free -> 0 < blk -> 0 <= t -> free < t * blk ->
  0 <= Z.quot free blk <= t /\ Z.quot free blk * blk <= free.
Proof.
  intros Hf Hb Ht Hlt.
  destruct (quot_blocks free blk Hf Hb) as [H0 H1].
  repeat split; try assumption. nia.
Qed.

Ltac no_if t :=
  lazymatch t with
  | context [if _ then _ else _] => fail
  | _ => idtac
  end.

Ltac split_cond :=
  match goal with
  | |- context [Z.ltb ?a ?b] => no_if a; no_if b; destruct (Z.ltb_spec a b)
  | |- context [Z.leb ?a ?b] => no_if a; no_if b; destruct (Z.leb_spec a b)
  end.

Ltac quot_fact :=
  match goal with
  | |- context [Z.quot ?a ?b] =>
      no_if a; no_if b;
      let q := fresh "q" in
      let Hq := fresh "Hq" in
      assert (Hq : 0 <= Z.quot a b /\ Z.quot a b * b <= a)
        by (apply quot_blocks; nia);
      set (q := Z.quot a b) in *; clearbody q
  end.

(** The frame counts of the two-stage function: never more than the limits
    computed for this cycle, and the stage buffer stays within its length. *)
Lemma src_2s_counts (polyphase_func : src_stage_prm -> src_stage_prm)
    (cd : comp_data) (source sink : comp_buffer) (channels : Z)
    (s1 s2 : src_stage) :
  stage1 (cd_src cd) = Some s1 -> stage2 (cd_src cd) = Some s2 ->
  stage_sane s1 -> stage_sane s2 -> 1 <= channels ->
  0 <= sbuf_avail cd <= p_sbuf_length (cd_param cd) ->
  0 <= p_stage1_times (cd_param cd) -> 0 <= p_stage2_times (cd_param cd) ->
  exists cd' n_read n_written,
    src_2s polyphase_func cd source sink channels
    = Some (cd', (n_read, n_written)) /\
    0 <= n_read <= p_stage1_times (cd_param cd) * blk_in s1 /\
    0 <= n_written <= p_stage2_times (cd_param cd) * blk_out s2 /\
    0 <= sbuf_avail cd' <= p_sbuf_length (cd_param cd') /\
    cd_param cd' = cd_param cd.
Proof.
  intros E1 E2 (_ & _ & _ & _ & Hbi1 & Hbo1) (_ & _ & _ & _ & Hbi2 & Hbo2)
    Hch Hsb Ht1 Ht2.
  unfold src_2s. rewrite E1, E2. cbv zeta.
  set (L := p_sbuf_length (cd_param cd)) in *.
  set (T1 := p_stage1_times (cd_param cd)) in *.
  set (T2 := p_stage2_times (cd_param cd)) in *.
  set (A := sbuf_avail cd) in *.
  rewrite !Z.gtb_ltb, !Z.geb_leb.
  assert (0 < blk_out s1 * channels) by nia.
  assert (0 < blk_in s2 * channels) by nia.
  repeat (first [quot_fact | split_cond];
          cbn [andb sbuf_avail set_sbuf set_src cd_param]);
    fold A L;
    (do 3 eexists; split; [reflexivity |]);
    cbn [sbuf_avail set_sbuf set_src cd_param]; fold A L T1 T2;
    (split; [nia |]); (split; [nia |]); (split; [nia | reflexivity]).
Qed.

Lemma call_src_func_counts (polyphase_func : src_stage_prm -> src_stage_prm)
    (cd : comp_data) (source sink : comp_buffer) (channels : Z)
    (s1 s2 : src_stage) :
  stage1 (cd_src cd) = Some s1 -> stage2 (cd_src cd) = Some s2 ->
  stage_sane s1 -> stage_sane s2 -> 1 <= channels ->
  0 <= sbuf_avail cd <= p_sbuf_length (cd_param cd) ->
  0 <= p_stage1_times (cd_param cd) ->
  p_blk_in (cd_param cd) = p_stage1_times (cd_param cd) * blk_in s1 ->
  0 <= p_blk_out (cd_param cd) ->
  (src_func cd = ptr_src_2s ->
   0 <= p_stage2_times (cd_param cd) /\
   p_blk_out (cd_param cd) = p_stage2_times (cd_param cd) * blk_out s2) ->
  (src_func cd = ptr_src_copy_s32 ->
   p_blk_in (cd_param cd) <= p_blk_out (cd_param cd)) ->
  exists cd' consumed produced,
    call_src_func polyphase_func (src_func cd) cd source sink channels
    = Some (cd', (consumed, produced)) /\
    0 <= consumed <= p_blk_in (cd_param cd) /\
    0 <= produced <= p_blk_out (cd_param cd) /\
    0 <= sbuf_avail cd' <= p_sbuf_length (cd_param cd') /\
    cd_param cd' = cd_param cd.
Proof.
  intros E1 E2 Hs1 Hs2 Hch Hsb Ht1 Hbi Hbo H2s Hcp.
  pose proof Hs1 as (_ & _ & _ & _ & Hbi1 & Hbo1).
  assert (0 <= p_blk_in (cd_param cd)) by (rewrite Hbi; nia).
  destruct (src_func cd) eqn:Ef; cbn [call_src_func].
  - exists cd, 0, 0. unfold src_fallback. repeat split; try lia.
  - exists cd, (p_blk_in (cd_param cd)), (p_blk_in (cd_param cd)).
    unfold src_copy_s32. specialize (Hcp eq_refl).
    repeat split; try lia.
  - unfold src_1s. rewrite E1. do 3 eexists. split; [reflexivity |].
    cbn [sbuf_avail set_src cd_param]. repeat split; try lia.
  - destruct (H2s eq_refl) as [Ht2 Hbo'].
    destruct (src_2s_counts polyphase_func cd source sink channels s1 s2
                E1 E2 Hs1 Hs2 Hch Hsb Ht1 Ht2)
      as (cd' & nr & nw & E & Hr & Hw & Hsb' & Hp).
    exists cd', nr, nw. rewrite Hbi, Hbo'. auto.
Qed.


Lemma src_source_example_ok : ring_buffer_ok src_source_example.
Proof. vm_compute. repeat split; congruence. Qed.

Lemma src_sink_example_ok : ring_buffer_ok src_sink_example.
Proof. vm_compute. repeat split; congruence. Qed.

Lemma stage_example_sane (bi bo fl : Z) :
  1 <= bi -> 1 <= bo -> stage_sane (stage_example bi bo fl).
Proof. intros. unfold stage_sane. cbn. lia. Qed.


(** *** Set-up *)

Section SetUp.

Variable src_in_fs src_out_fs : list Z.
Variable src_table1 src_table2 : Z -> Z -> src_stage.
Variable PLATFORM_MAX_CHANNELS : Z.
Variable MAX_FIR MAX_OUT : Z.

(** The lengths [src_buffer_lengths] computes add up to the total; they are
    non-negative when the entries of the two tables it selected are sane
    (the second only if it is used). *)
Lemma src_buffer_lengths_sizes (a : src_param)
    (fs_in fs_out nch source_frames : Z) (r : Z) (p : src_param) :
  src_buffer_lengths src_in_fs src_out_fs src_table1 src_table2
    PLATFORM_MAX_CHANNELS a fs_in fs_out nch source_frames = (r, p) ->
  0 <= r ->
  r = 0 /\ 0 <= p_idx_in p /\ 0 <= p_idx_out p /\
  p_total p
  = p_sbuf_length p + p_fir_s1 p + p_out_s1 p + p_fir_s2 p + p_out_s2 p /\
  (1 <= nch -> 0 <= source_frames ->
   stage_sane (src_table1 (p_idx_out p) (p_idx_in p)) ->
   (filter_length (src_table2 (p_idx_out p) (p_idx_in p)) <> 1 ->
    stage_sane (src_table2 (p_idx_out p) (p_idx_in p))) ->
   0 < p_fir_s1 p /\ 0 < p_out_s1 p /\ 0 <= p_fir_s2 p /\ 0 <= p_out_s2 p /\
   0 <= p_sbuf_length p).
Proof.
  intros H Hr. unfold src_buffer_lengths in H. cbv zeta in H.
  rewrite Z.gtb_ltb in H.
  destruct (Z.ltb_spec PLATFORM_MAX_CHANNELS nch).
  { inversion H; subst. unfold EINVAL in Hr. lia. }
  set (i := src_find_fs src_in_fs (NUM_IN_FS src_in_fs) fs_in) in *.
  set (o := src_find_fs src_out_fs (NUM_OUT_FS src_out_fs) fs_out) in *.
  destruct (Z.ltb_spec i 0); cbn [orb] in H.
  { inversion H; subst. unfold EINVAL in Hr. lia. }
  destruct (Z.ltb_spec o 0); cbn [orb] in H.
  { inversion H; subst. unfold EINVAL in Hr. lia. }
  destruct (Z.ltb_spec (filter_length (src_table1 o i)) 1).
  { inversion H; subst. unfold EINVAL in Hr. lia. }
  inversion H; subst; clear H. cbn [p_idx_in p_idx_out p_total p_sbuf_length
    p_fir_s1 p_out_s1 p_fir_s2 p_out_s2].
  split; [reflexivity |]. split; [assumption |]. split; [assumption |].
  split; [lia |].
  intros Hn Hsf (Hn1 & Hi1 & Ho1 & Hl1 & Hbi1 & Hbo1) Hsane2.
  assert (0 < src_fir_delay_length (src_table1 o i))
    by (unfold src_fir_delay_length; nia).
  assert (0 < src_out_delay_length (src_table1 o i))
    by (unfold src_out_delay_length; nia).
  destruct (quot_blocks source_frames (blk_in (src_table1 o i)))
    as [Hq _]; [lia | lia |].
  destruct (Z.eqb_spec (filter_length (src_table2 o i)) 1) as [E | E]; cbn.
  { repeat split; try lia; try nia. }
  destruct (Hsane2 E) as (Hn2 & Hi2 & Ho2 & Hl2 & Hbi2 & Hbo2).
  assert (0 < src_fir_delay_length (src_table2 o i))
    by (unfold src_fir_delay_length; nia).
  assert (0 < src_out_delay_length (src_table2 o i))
    by (unfold src_out_delay_length; nia).
  repeat split; try lia; try nia.
Qed.

Lemma src_polyphase_init_layout (src : polyphase_src) (p : src_param)
    (start n : Z) (src' : polyphase_src) :
  src_polyphase_init src_table1 src_table2 MAX_FIR MAX_OUT src p start
  = (n, src') ->
  0 <= n ->
  (n = 0 \/ n = 1 \/ n = 2) /\
  stage1 src' = Some (src_table1 (p_idx_out p) (p_idx_in p)) /\
  stage2 src' = Some (src_table2 (p_idx_out p) (p_idx_in p)) /\
  (n = 2 -> filter_length (src_table2 (p_idx_out p) (p_idx_in p)) <> 1) /\
  (n = 0 -> p_idx_in p = p_idx_out p) /\
  fir_delay_size (state1 src') = p_fir_s1 p /\
  out_delay_size (state1 src') = p_out_s1 p /\
  fir_delay_size (state2 src') = p_fir_s2 p /\
  out_delay_size (state2 src') = p_out_s2 p /\
  fir_delay (state1 src') = Some start /\
  out_delay (state1 src') = Some (start + p_fir_s1 p) /\
  fir_delay (state2 src') = Some (start + p_fir_s1 p + p_out_s1 p) /\
  out_delay (state2 src')
  = Some (start + p_fir_s1 p + p_out_s1 p + p_fir_s2 p) /\
  fir_wp (state1 src') = Some (start + p_fir_s1 p - 1) /\
  out_rp (state1 src') = out_delay (state1 src') /\
  out_rp (state2 src') = out_delay (state2 src').
Proof.
  intros H Hn. unfold src_polyphase_init in H. cbv zeta in H.
  destruct ((p_idx_in p <? 0) || (p_idx_out p <? 0)).
  { inversion H; subst. unfold EINVAL in Hn. lia. }
  set (s1 := src_table1 (p_idx_out p) (p_idx_in p)) in *.
  set (s2 := src_table2 (p_idx_out p) (p_idx_in p)) in *.
  destruct (init_stages MAX_FIR MAX_OUT s1 s2 src p 2 start) as [r i] eqn:Ei.
  cbn [fst snd] in H.
  destruct (Z.ltb_spec r 0).
  { inversion H; subst. unfold EINVAL in Hn. lia. }
  destruct (Z.eqb_spec (filter_length s1) 0).
  { inversion H; subst. unfold EINVAL in Hn. lia. }
  inversion H; subst n src'; clear H.
  unfold init_stages in Ei. cbv zeta in Ei.
  change (2 =? 1) with false in Ei. change (2 >? 1) with true in Ei.
  cbn [andb] in Ei.
  destruct (_ && _) in Ei.
  { inversion Ei; subst. unfold EINVAL in *. lia. }
  destruct (_ && _) in Ei.
  { inversion Ei; subst. unfold EINVAL in *. lia. }
  cbn [fir_delay_size out_delay_size] in Ei.
  destruct (_ || _) in Ei.
  { inversion Ei; subst. unfold EINVAL in *. lia. }
  inversion Ei; subst r i; clear Ei. cbn.
  split.
  { destruct (_ =? _); [tauto |]. destruct (_ =? _); tauto. }
  split; [reflexivity |]. split; [reflexivity |].
  split.
  { destruct (Z.eqb_spec (p_idx_in p) (p_idx_out p)); [lia |].
    destruct (Z.eqb_spec (filter_length s2) 1); [lia | auto]. }
  split.
  { destruct (Z.eqb_spec (p_idx_in p) (p_idx_out p)); [auto |].
    destruct (Z.eqb_spec (filter_length s2) 1); lia. }
  repeat split; try reflexivity; f_equal; lia.
Qed.

End SetUp.


(** ** What the walks change and call *)

Section Has.

Context {Q : sys -> sys -> list event -> Prop}.
Hypothesis HQ : run_property Q.

Lemma has_nil {A} (m : M A) :
  (forall s a s' t, m s = Ok a s' t -> s' = s /\ t = []) -> run_has Q m.
Proof.
  intros H s a s' t Hm. destruct (H _ _ _ _ Hm) as [-> ->]. apply HQ.
Qed.

Lemma has_ret {A} (a : A) : run_has Q (ret a).
Proof. apply has_nil. intros s b s' t H. minv. auto. Qed.

Lemma has_deref {A} (o : option A) : run_has Q (deref o).
Proof. apply has_nil. intros s b s' t H. minv. auto. Qed.

Lemma has_get_comp c : run_has Q (get_comp c).
Proof. apply has_nil. intros s b s' t H. minv. auto. Qed.

Lemma has_get_buf b : run_has Q (get_buf b).
Proof. apply has_nil. intros s a s' t H. minv. auto. Qed.

Lemma has_get_ppl p : run_has Q (get_ppl p).
Proof. apply has_nil. intros s a s' t H. minv. auto. Qed.

Lemma has_bind {A B} (m : M A) (k : A -> M B) :
  run_has Q m -> (forall a, run_has Q (k a)) -> run_has Q (bind m k).
Proof.
  intros Hm Hk s b s' t H. apply bind_inv in H.
  destruct H as (a & s1 & t1 & t2 & H1 & H2 & ->).
  destruct HQ as [_ Happ]. eapply Happ; [eapply Hm | eapply Hk]; eassumption.
Qed.

Lemma has_improper_endpoint cur dir : run_has Q (improper_endpoint cur dir).
Proof.
  apply has_nil. intros s a s' t H. eapply improper_endpoint_inv. exact H.
Qed.

Lemma has_for_each_buffer (func : nat -> Z -> M Z)
    (bf : option (nat -> M unit)) (dir : Z) :
  (forall c, run_has Q (func c dir)) ->
  (bf = None \/
   bf = Some buffer_reset_pos /\ forall b, run_has Q (buffer_reset_pos b)) ->
  forall l err, run_has Q (for_each_buffer (Some func) bf dir l err).
Proof.
  intros Hfunc Hbf. induction l as [| b rest IH]; intros err.
  - cbn. apply has_ret.
  - cbn [for_each_buffer]. apply has_bind.
    { destruct Hbf as [-> | [-> Hb]]; [apply has_ret | apply Hb]. }
    intros _. apply has_bind; [apply has_get_buf |]. intros buffer.
    destruct (buffer_get_comp buffer dir) as [c |]; [| apply IH].
    apply has_bind; [apply Hfunc |]. intros e.
    destruct (e <? 0); [apply has_ret | apply IH].
Qed.

Lemma has_for_each_comp (func : nat -> Z -> M Z)
    (bf : option (nat -> M unit)) (dir : Z) (current : nat) :
  (forall c, run_has Q (func c dir)) ->
  (bf = None \/
   bf = Some buffer_reset_pos /\ forall b, run_has Q (buffer_reset_pos b)) ->
  run_has Q (pipeline_for_each_comp current (Some func) bf dir).
Proof.
  intros Hfunc Hbf. unfold pipeline_for_each_comp.
  apply has_bind; [apply has_get_comp |]. intros cur.
  apply has_for_each_buffer; assumption.
Qed.

End Has.

Ltac same_lookup :=
  repeat match goal with
  | H1 : ?m !! ?k = Some ?x, H2 : ?m !! ?k = Some ?y |- _ =>
      assert (y = x) by congruence; subst y; clear H2
  end.

Ltac case_if :=
  match goal with
  | |- run_has _ (if ?b then _ else _) => destruct b
  end.

Ltac has_prim :=
  first
    [ apply has_ret; assumption
    | apply has_deref; assumption
    | apply has_get_comp; assumption
    | apply has_get_buf; assumption
    | apply has_get_ppl; assumption
    | apply has_improper_endpoint; assumption ].

Ltac has_step :=
  first [ has_prim | apply has_bind; [assumption | has_prim | intros ?] ].

Lemma run_has_weaken {A} (Q Q' : sys -> sys -> list event -> Prop)
    (m : M A) :
  (forall s s' t, Q s s' t -> Q' s s' t) -> run_has Q m -> run_has Q' m.
Proof. intros H Hm s a s' t E. apply H. eapply Hm. exact E. Qed.

(** *** The frames *)

Lemma same_but_state_refl d : same_but_state d d.
Proof. destruct d. reflexivity. Qed.

Lemma same_but_state_trans d1 d2 d3 :
  same_but_state d1 d2 -> same_but_state d2 d3 -> same_but_state d1 d3.
Proof.
  unfold same_but_state. intros H1 H2. rewrite H2, H1. reflexivity.
Qed.

Lemma same_but_state_set d st : same_but_state d (set_state d st).
Proof. reflexivity. Qed.

Lemma option_Forall2_refl' {A} (R : A -> A -> Prop) (o : option A) :
  (forall a, R a a) -> option_Forall2 R o o.
Proof. intros H. destruct o; constructor. apply H. Qed.

Lemma option_Forall2_trans' {A} (R : A -> A -> Prop) (o1 o2 o3 : option A) :
  (forall a b c, R a b -> R b c -> R a c) ->
  option_Forall2 R o1 o2 -> option_Forall2 R o2 o3 -> option_Forall2 R o1 o3.
Proof.
  intros H H1 H2. destruct H1; inversion H2; subst; constructor.
  eapply H; eassumption.
Qed.

Lemma option_Forall2_weaken {A} (R R' : A -> A -> Prop) (o1 o2 : option A) :
  (forall a b, R a b -> R' a b) ->
  option_Forall2 R o1 o2 -> option_Forall2 R' o1 o2.
Proof. intros H H1. destruct H1; constructor. apply H. assumption. Qed.

Lemma same_but_position_refl b : same_but_position b b.
Proof. destruct b. reflexivity. Qed.

Lemma same_but_position_trans b1 b2 b3 :
  same_but_position b1 b2 -> same_but_position b2 b3 ->
  same_but_position b1 b3.
Proof.
  unfold same_but_position. intros H1 H2. rewrite H2, H1. reflexivity.
Qed.

Lemma same_but_position_set b w r av fr :
  same_but_position b (set_cursors b w r av fr).
Proof. reflexivity. Qed.

Section Frames.

Variable Rb : comp_buffer -> comp_buffer -> Prop.
Variable Rp : pipeline -> pipeline -> Prop.
Hypothesis R_refl : (forall b, Rb b b) /\ (forall pl, Rp pl pl).
Hypothesis R_trans :
  (forall a b c, Rb a b -> Rb b c -> Rb a c) /\
  (forall a b c, Rp a b -> Rp b c -> Rp a c).

Lemma only_states_refl s : only_states Rb Rp s s.
Proof.
  destruct R_refl as [Hb Hp].
  split; [| split]; intros x; apply option_Forall2_refl';
    [apply Hb | apply same_but_state_refl | apply Hp].
Qed.

Lemma only_states_trans s1 s2 s3 :
  only_states Rb Rp s1 s2 -> only_states Rb Rp s2 s3 ->
  only_states Rb Rp s1 s3.
Proof.
  destruct R_trans as [Hb Hp].
  intros (Hb1 & Hc1 & Hp1) (Hb2 & Hc2 & Hp2).
  split; [| split]; intros x.
  - eapply option_Forall2_trans'; [apply Hb | apply Hb1 | apply Hb2].
  - eapply option_Forall2_trans';
      [apply same_but_state_trans | apply Hc1 | apply Hc2].
  - eapply option_Forall2_trans'; [apply Hp | apply Hp1 | apply Hp2].
Qed.

Lemma walk_frame_property (P : event -> Prop) :
  run_property (walk_frame Rb Rp P).
Proof.
  split.
  - intros s. split; [apply only_states_refl | constructor].
  - intros s s1 s2 t1 t2 [H1 F1] [H2 F2]. split.
    + eapply only_states_trans; eassumption.
    + apply Forall_app. auto.
Qed.

Lemma only_states_set_state s c d st :
  comps s !! c = Some d ->
  only_states Rb Rp s (upd_comp s c (set_state d st)).
Proof.
  destruct R_refl as [Hb Hp].
  intros Hd. split; [| split]; intros x.
  - cbn. apply option_Forall2_refl'. apply Hb.
  - unfold upd_comp. cbn [comps].
    destruct (decide (x = c)) as [-> | Hne].
    + rewrite lookup_insert_eq, Hd. constructor. apply same_but_state_set.
    + rewrite lookup_insert_ne by congruence.
      apply option_Forall2_refl'. apply same_but_state_refl.
  - cbn. apply option_Forall2_refl'. apply Hp.
Qed.

Lemma only_states_upd_ppl s p pl pl' :
  ppls s !! p = Some pl -> Rp pl pl' ->
  only_states Rb Rp s (upd_ppl s p pl').
Proof.
  destruct R_refl as [Hb Hp0].
  intros Hp HR. split; [| split]; intros x.
  - cbn. apply option_Forall2_refl'. apply Hb.
  - cbn. apply option_Forall2_refl'. apply same_but_state_refl.
  - unfold upd_ppl. cbn [ppls].
    destruct (decide (x = p)) as [-> | Hne].
    + rewrite lookup_insert_eq, Hp. constructor. exact HR.
    + rewrite lookup_insert_ne by congruence.
      apply option_Forall2_refl'. apply Hp0.
Qed.

Lemma only_states_upd_buf s b bd bd' :
  bufs s !! b = Some bd -> Rb bd bd' ->
  only_states Rb Rp s (upd_buf s b bd').
Proof.
  destruct R_refl as [Hb0 Hp].
  intros Hb HR. split; [| split]; intros x.
  - unfold upd_buf. cbn [bufs].
    destruct (decide (x = b)) as [-> | Hne].
    + rewrite lookup_insert_eq, Hb. constructor. exact HR.
    + rewrite lookup_insert_ne by congruence.
      apply option_Forall2_refl'. apply Hb0.
  - cbn. apply option_Forall2_refl'. apply same_but_state_refl.
  - cbn. apply option_Forall2_refl'. apply Hp.
Qed.

Lemma has_hook (P : event -> Prop) (c : nat) (d : comp_dev) (r : Z * Z)
    (ev : Z -> event) s a s' t :
  comps s !! c = Some d -> P (ev (fst r)) ->
  run_hook c d r ev s = Ok a s' t -> walk_frame Rb Rp P s s' t.
Proof.
  intros Hd HP H. minv. split.
  - apply only_states_set_state. exact Hd.
  - repeat constructor. exact HP.
Qed.

Lemma has_emit (P : event -> Prop) (e : event) :
  P e -> run_has (walk_frame Rb Rp P) (emit e).
Proof.
  intros HP s a s' t H. minv. split; [apply only_states_refl |].
  repeat constructor. exact HP.
Qed.

End Frames.

Lemma same_wiring_refl pl : same_wiring pl pl.
Proof. repeat split. Qed.

Lemma same_wiring_trans a b c :
  same_wiring a b -> same_wiring b c -> same_wiring a c.
Proof.
  intros (H1 & H2 & H3 & H4) (G1 & G2 & G3 & G4).
  repeat split; congruence.
Qed.

Lemma same_but_health_refl pl : same_but_health pl pl.
Proof. split; [apply same_wiring_refl |]. auto. Qed.

Lemma same_but_health_trans a b c :
  same_but_health a b -> same_but_health b c -> same_but_health a c.
Proof.
  intros (W1 & T1 & X1) (W2 & T2 & X2).
  split; [eapply same_wiring_trans; eassumption |].
  split; [congruence |].
  destruct X2 as [X2 | X2]; [| right; exact X2].
  destruct X1 as [X1 | X1]; [left | right]; congruence.
Qed.

Lemma same_but_task_refl pl : same_but_task pl pl.
Proof. destruct pl. reflexivity. Qed.

Lemma same_but_task_trans a b c :
  same_but_task a b -> same_but_task b c -> same_but_task a c.
Proof. unfold same_but_task. intros H1 H2. rewrite H2, H1. reflexivity. Qed.

Lemma eq_pipeline_trans (a b c : pipeline) : a = b -> b = c -> a = c.
Proof. congruence. Qed.

Lemma eq_buffer_trans (a b c : comp_buffer) : a = b -> b = c -> a = c.
Proof. congruence. Qed.

Create HintDb frames.

#[export] Hint Resolve same_wiring_refl same_wiring_trans
  same_but_health_refl same_but_health_trans
  same_but_task_refl same_but_task_trans eq_pipeline_trans
  same_but_position_refl same_but_position_trans eq_buffer_trans : frames.

Ltac frame_property :=
  apply walk_frame_property; eauto with frames.

(** *** Trigger *)

Section TriggerFrame.

Variable drv : nat -> comp_ops.
Variable command : Z.

Let Q := walk_frame eq same_but_health (trigger_call command).

Lemma Q_trigger_property : run_property Q.
Proof. frame_property. Qed.

Lemma has_comp_trigger c : run_has Q (comp_trigger drv c command).
Proof.
  intros s a s' t H. unfold comp_trigger in H.
  apply bind_inv in H. destruct H as (d & s1 & t1 & t2 & H1 & H2 & ->).
  apply get_comp_inv in H1. destruct H1 as (Hd & -> & ->). cbn [app].
  eapply has_hook; [eauto with frames | exact Hd | | exact H2].
  reflexivity.
Qed.

Lemma has_sched_comp p c :
  run_has Q (pipeline_comp_trigger_sched_comp p c command).
Proof.
  intros s u s' t H. unfold pipeline_comp_trigger_sched_comp in H. minv.
  match goal with
  | Hc : (if Nat.eqb _ _ then _ else _) _ = Ok ?b ?s1 ?t1 |- _ =>
      assert (Hs : s1 = s /\ t1 = [])
        by (destruct (Nat.eqb (sched_comp a) c); minv; auto);
      destruct Hs as [-> ->]; clear Hc
  end.
  cbn [app].
  match goal with
  | Hc : (if ?b then _ else _) _ = Ok _ _ _ |- _ => destruct b
  end.
  { minv. apply Q_trigger_property. }
  match goal with
  | Hc : (if ?b then _ else _) _ = Ok _ _ _ |- _ => destruct b eqn:Ec
  end.
  { unfold pipeline_schedule_cancel in *. minv. split.
    - eapply only_states_upd_ppl; [eauto with frames | eassumption |].
      split; [repeat split |].
      cbn; split; [reflexivity |].
      first [left; reflexivity | right; reflexivity].
    - constructor; [| constructor]. cbn.
      apply orb_prop in Ec. destruct Ec as [Ec | Ec];
        [apply orb_prop in Ec; destruct Ec as [Ec | Ec] |];
        apply Z.eqb_eq in Ec; auto. }
  match goal with
  | Hc : (if ?b then _ else _) _ = Ok _ _ _ |- _ => destruct b eqn:Ec'
  end.
  { unfold pipeline_schedule_copy in *. minv.
    match goal with
    | H1 : ppls ?s !! ?p = Some ?x, H2 : ppls ?s !! ?p = Some ?y |- _ =>
        assert (y = x) by congruence; subst y
    end.
    split.
    - eapply only_states_upd_ppl; [eauto with frames | eassumption |].
      split; [repeat split |].
      cbn; split; [reflexivity |].
      first [left; reflexivity | right; reflexivity].
    - constructor; [| constructor]. cbn.
      apply orb_prop in Ec'. destruct Ec' as [Ec' | Ec'];
        apply Z.eqb_eq in Ec'; auto. }
  minv. apply Q_trigger_property.
Qed.

Lemma has_pipeline_comp_trigger (fuel : nat) (data : pipeline_data) :
  cmd data = command ->
  forall c dir, run_has Q (pipeline_comp_trigger drv fuel data c dir).
Proof.
  intros Hcmd. pose proof Q_trigger_property as HQ.
  induction fuel as [| fuel IH]; intros c dir.
  - intros s a s' t H. discriminate.
  - cbn [pipeline_comp_trigger]. rewrite Hcmd.
    repeat has_step.
    destruct (_ && _); [has_step |].
    apply has_bind; [exact HQ | apply has_comp_trigger |]. intros e.
    destruct (walk_ends e); [has_step |].
    apply has_bind; [exact HQ | apply has_sched_comp |]. intros _.
    apply has_for_each_comp; [exact HQ | | left; reflexivity].
    intros c'. apply IH.
Qed.

End TriggerFrame.

(** *** Prepare *)

Section PrepareFrame.

Variable drv : nat -> comp_ops.
Variable tk : nat -> bool.

Let Q := walk_frame same_but_position same_but_task prepare_call.

Lemma Q_prepare_property : run_property Q.
Proof. frame_property. Qed.

Lemma has_comp_prepare c : run_has Q (comp_prepare drv c).
Proof.
  intros s a s' t H. unfold comp_prepare in H.
  apply bind_inv in H. destruct H as (d & s1 & t1 & t2 & H1 & H2 & ->).
  apply get_comp_inv in H1. destruct H1 as (Hd & -> & ->). cbn [app].
  destruct (op_prepare (drv c)).
  - eapply has_hook; [eauto with frames | exact Hd | | exact H2]. exact I.
  - minv. apply Q_prepare_property.
Qed.

Lemma has_task_init p : run_has Q (pipeline_comp_task_init tk p).
Proof.
  intros s a s' t H. unfold pipeline_comp_task_init, pipeline_task_init in H.
  minv.
  match goal with
  | Hc : (if pipe_task ?pl then _ else _) _ = Ok _ _ _ |- _ =>
      destruct (pipe_task pl); [minv; apply Q_prepare_property |]
  end.
  minv. destruct (tk p); minv; same_lookup.
  - split; [| constructor].
    eapply only_states_upd_ppl; [eauto with frames | eassumption |].
    reflexivity.
  - split; [apply only_states_refl; eauto with frames |].
    constructor; [exact I | constructor].
Qed.

Lemma has_buffer_reset_pos b : run_has Q (buffer_reset_pos b).
Proof.
  intros s u s' t H. apply buffer_reset_pos_inv in H.
  destruct H as (bd & Hb & -> & ->). split.
  - eapply only_states_upd_buf; [eauto with frames | exact Hb |].
    apply same_but_position_set.
  - constructor; [exact I | constructor].
Qed.

Lemma has_pipeline_comp_prepare (fuel : nat) (data : pipeline_data) :
  forall c dir, run_has Q (pipeline_comp_prepare drv tk fuel data c dir).
Proof.
  pose proof Q_prepare_property as HQ.
  induction fuel as [| fuel IH]; intros c dir.
  - intros s a s' t H. discriminate.
  - cbn [pipeline_comp_prepare].
    has_step. has_step.
    apply has_bind; [exact HQ | |].
    { case_if; has_step. }
    intros stop. destruct stop; [has_step |].
    has_step.
    apply has_bind; [exact HQ | apply has_task_init |]. intros e.
    destruct (e <? 0); [has_step |].
    apply has_bind; [exact HQ | apply has_comp_prepare |]. intros e'.
    destruct (walk_ends e'); [has_step |].
    apply has_for_each_comp; [exact HQ | |].
    + intros c'. apply IH.
    + right. split; [reflexivity | apply has_buffer_reset_pos].
Qed.

Lemma has_pipeline_prepare_walk (fuel : nat) (p dev : nat) s r s' t :
  pipeline_prepare drv tk fuel p dev s = Ok r s' t ->
  exists s1 t1,
    Q s s1 t1 /\
    (r < 0 /\ s' = s1 /\ t = t1 ++ [EvTraceError r] \/
     0 <= r /\ t = t1 /\
     exists pl, ppls s1 !! p = Some pl /\
                s' = upd_ppl s1 p (set_status pl COMP_STATE_PREPARE)).
Proof.
  intros H. unfold pipeline_prepare in H.
  apply bind_inv in H. destruct H as (d & s0 & t0 & t2 & H1 & H & ->).
  apply get_comp_inv in H1. destruct H1 as (_ & -> & ->). cbn [app].
  apply bind_inv in H. destruct H as (e & s1 & t1 & t3 & Hw & H & ->).
  exists s1, t1. split; [eapply has_pipeline_comp_prepare; exact Hw |].
  destruct (Z.ltb_spec e 0).
  - minv. left. auto.
  - minv. right. rewrite app_nil_r. repeat split; try assumption.
    eexists. split; [eassumption | reflexivity].
Qed.

End PrepareFrame.

(** *** Reset and copy *)

Section ResetCopyFrame.

Variable drv : nat -> comp_ops.

Lemma Q_eq_property (P : event -> Prop) :
  run_property (walk_frame eq eq P).
Proof. frame_property. Qed.

Lemma has_comp_reset c : run_has (walk_frame eq eq reset_call) (comp_reset drv c).
Proof.
  intros s a s' t H. unfold comp_reset in H.
  apply bind_inv in H. destruct H as (d & s1 & t1 & t2 & H1 & H2 & ->).
  apply get_comp_inv in H1. destruct H1 as (Hd & -> & ->). cbn [app].
  destruct (op_reset (drv c)).
  - eapply has_hook; [eauto with frames | exact Hd | | exact H2]. exact I.
  - minv. apply Q_eq_property.
Qed.

Lemma has_comp_copy c : run_has (walk_frame eq eq copy_call) (comp_copy drv c).
Proof.
  intros s a s' t H. unfold comp_copy in H.
  apply bind_inv in H. destruct H as (d & s1 & t1 & t2 & H1 & H2 & ->).
  apply get_comp_inv in H1. destruct H1 as (Hd & -> & ->). cbn [app].
  eapply has_hook; [eauto with frames | exact Hd | | exact H2]. exact I.
Qed.

Lemma has_pipeline_comp_reset (fuel : nat) (p : nat) :
  forall c dir,
    run_has (walk_frame eq eq reset_call) (pipeline_comp_reset drv fuel p c dir).
Proof.
  pose proof (Q_eq_property reset_call) as HQ.
  induction fuel as [| fuel IH]; intros c dir.
  - intros s a s' t H. discriminate.
  - cbn [pipeline_comp_reset].
    repeat has_step.
    apply has_bind; [exact HQ | |].
    { case_if; has_step. }
    intros stop. destruct stop; [has_step |].
    apply has_bind; [exact HQ | apply has_comp_reset |]. intros e'.
    destruct (walk_ends e'); [has_step |].
    apply has_for_each_comp; [exact HQ | | left; reflexivity].
    intros c'. apply IH.
Qed.

Lemma has_pipeline_comp_copy (fuel : nat) (data : pipeline_data) :
  forall c dir,
    run_has (walk_frame eq eq copy_call) (pipeline_comp_copy drv fuel data c dir).
Proof.
  pose proof (Q_eq_property copy_call) as HQ.
  induction fuel as [| fuel IH]; intros c dir.
  - intros s a s' t H. discriminate.
  - cbn [pipeline_comp_copy].
    repeat has_step.
    case_if; [has_step |].
    case_if; [has_step |].
    apply has_bind; [exact HQ | |].
    { case_if; [apply has_comp_copy | has_step]. }
    intros e. case_if; [has_step |].
    apply has_bind; [exact HQ | |].
    { apply has_for_each_comp; [exact HQ | | left; reflexivity].
      intros c'. apply IH. }
    intros e'. destruct (walk_ends e'); [has_step |].
    case_if; [apply has_comp_copy | has_step].
Qed.

Lemma has_trace_error (P : event -> Prop) (r : Z) :
  P (EvTraceError r) ->
  run_has (walk_frame eq eq P)
    (if r <? 0 then emit (EvTraceError r) else ret tt).
Proof.
  intros HP. destruct (r <? 0).
  - apply has_emit; [eauto with frames | exact HP].
  - apply has_ret. apply Q_eq_property.
Qed.

Lemma has_pipeline_reset (fuel : nat) (p host : nat) :
  run_has (walk_frame eq eq reset_call) (pipeline_reset drv fuel p host).
Proof.
  pose proof (Q_eq_property reset_call) as HQ.
  unfold pipeline_reset. has_step.
  apply has_bind; [exact HQ | apply has_pipeline_comp_reset |]. intros r.
  apply has_bind; [exact HQ | apply has_trace_error; exact I |]. intros _.
  has_step.
Qed.

Lemma has_pipeline_copy (fuel : nat) (p : nat) :
  run_has (walk_frame eq eq copy_call) (pipeline_copy drv fuel p).
Proof.
  pose proof (Q_eq_property copy_call) as HQ.
  unfold pipeline_copy. repeat has_step.
  apply has_bind; [exact HQ | apply has_pipeline_comp_copy |]. intros r.
  apply has_bind; [exact HQ | apply has_trace_error; exact I |]. intros _.
  has_step.
Qed.

End ResetCopyFrame.

(** *** XRUN notification walk *)

Lemma reads_only_property (P : event -> Prop) : run_property (reads_only P).
Proof.
  split.
  - intros s. split; [reflexivity | constructor].
  - intros s s1 s2 t1 t2 [-> F1] [-> F2]. split; [reflexivity |].
    apply Forall_app. auto.
Qed.

Lemma has_pipeline_comp_xrun (fuel : nat) (data : pipeline_data) :
  forall c dir,
    run_has (reads_only (xrun_call (posn data)))
      (pipeline_comp_xrun fuel data c dir).
Proof.
  pose proof (reads_only_property (xrun_call (posn data))) as HQ.
  induction fuel as [| fuel IH]; intros c dir.
  - intros s a s' t H. discriminate.
  - cbn [pipeline_comp_xrun]. has_step.
    apply has_bind; [exact HQ | |].
    { case_if; [| has_step].
      intros s u s' t H. minv. split; [reflexivity |].
      repeat constructor. }
    intros _. apply has_for_each_comp; [exact HQ | | left; reflexivity].
    intros c'. apply IH.
Qed.

(** *** The top-level calls *)

Lemma walk_frame_weaken (Rb Rb' : comp_buffer -> comp_buffer -> Prop)
    (Rp Rp' : pipeline -> pipeline -> Prop)
    (P P' : event -> Prop) s s' t :
  (forall a b, Rb a b -> Rb' a b) ->
  (forall a b, Rp a b -> Rp' a b) -> (forall e, P e -> P' e) ->
  walk_frame Rb Rp P s s' t -> walk_frame Rb' Rp' P' s s' t.
Proof.
  intros HB HR HP [(Hb & Hc & Hp) HF]. split.
  - split; [| split; [exact Hc |]].
    + intros b. eapply option_Forall2_weaken; [exact HB | apply Hb].
    + intros p. eapply option_Forall2_weaken; [exact HR | apply Hp].
  - eapply Forall_impl; [exact HF | exact HP].
Qed.

Lemma eq_position (a b : comp_buffer) : a = b -> same_but_position a b.
Proof. intros ->. apply same_but_position_refl. Qed.

Lemma same_but_task_wiring a b : same_but_task a b -> same_wiring a b.
Proof. unfold same_but_task. intros ->. repeat split. Qed.

Lemma same_but_health_wiring a b : same_but_health a b -> same_wiring a b.
Proof. intros [H _]. exact H. Qed.

Lemma eq_wiring (a b : pipeline) : a = b -> same_wiring a b.
Proof. intros ->. apply same_wiring_refl. Qed.

Section TopLevel.

Variable drv : nat -> comp_ops.
Variable tk : nat -> bool.

Lemma Q_top_property (P : event -> Prop) :
  run_property (walk_frame same_but_position same_wiring P).
Proof. frame_property. Qed.

Lemma has_pipeline_prepare (P : event -> Prop) (fuel : nat) (p dev : nat) :
  (forall e, prepare_call e -> P e) ->
  run_has (walk_frame same_but_position same_wiring P) (pipeline_prepare drv tk fuel p dev).
Proof.
  intros HP s r s' t H.
  destruct (has_pipeline_prepare_walk drv tk fuel p dev s r s' t H)
    as (s1 & t1 & HQ & Hcase).
  apply (walk_frame_weaken _ same_but_position _ same_wiring _ P) in HQ;
    [| auto | apply same_but_task_wiring | exact HP].
  destruct Hcase as [(Hr & -> & ->) | (Hr & -> & pl & Hpl & ->)].
  - destruct (Q_top_property P) as [_ Happ].
    eapply Happ; [exact HQ |]. split; [apply only_states_refl; eauto with frames |].
    repeat constructor. apply HP. exact I.
  - destruct (Q_top_property P) as [_ Happ].
    rewrite <- (app_nil_r t1). eapply Happ; [exact HQ |].
    split; [| constructor].
    eapply only_states_upd_ppl; [eauto with frames | exact Hpl |].
    repeat split.
Qed.

Lemma has_get_put_ppl {A} (P : event -> Prop) (p : nat)
    (f : pipeline -> pipeline) (k : M A) :
  (forall pl, same_wiring pl (f pl)) ->
  run_has (walk_frame same_but_position same_wiring P) k ->
  run_has (walk_frame same_but_position same_wiring P)
    (pl' <- get_ppl p ;; put_ppl p (f pl') ;;; k).
Proof.
  intros Hf Hk s u s' t H.
  apply bind_inv in H. destruct H as (pl & s1 & t1 & t2 & H1 & H & ->).
  apply get_ppl_inv in H1. destruct H1 as (Hpl & -> & ->).
  apply bind_inv in H. destruct H as (u1 & s2 & t3 & t4 & H2 & H & ->).
  apply put_ppl_inv in H2. destruct H2 as (-> & ->). cbn [app].
  destruct (Q_top_property P) as [_ Happ].
  change t4 with ([] ++ t4). eapply Happ; [| eapply Hk; exact H].
  split; [| constructor].
  eapply only_states_upd_ppl; [eauto with frames | exact Hpl | apply Hf].
Qed.

Lemma has_emit_top (P : event -> Prop) (e : event) :
  P e -> run_has (walk_frame same_but_position same_wiring P) (emit e).
Proof. intros HP. apply has_emit; [eauto with frames | exact HP]. Qed.

Lemma has_xrun_handle_trigger (fuel : nat) (p : nat) (command : Z) :
  run_has (walk_frame same_but_position same_wiring (trigger_or_prepare_call command))
    (pipeline_xrun_handle_trigger drv tk fuel p command).
Proof.
  pose proof (Q_top_property (trigger_or_prepare_call command)) as HQ.
  unfold pipeline_xrun_handle_trigger. has_step.
  case_if; [has_step |]. case_if; [| case_if; has_step].
  has_step.
  apply has_bind; [exact HQ | |].
  { apply has_pipeline_prepare. intros e He. right. exact He. }
  intros r. case_if.
  - apply has_bind; [exact HQ | | intros _; has_step].
    apply has_emit_top. right. exact I.
  - apply has_get_put_ppl; [intros pl; repeat split | has_step].
Qed.

End TopLevel.

Section TopLevel2.

Variable drv : nat -> comp_ops.
Variable tk : nat -> bool.

(** The walk part of [pipeline_trigger]. *)
Lemma has_trigger_walk (fuel : nat) (p host : nat) (command : Z) :
  run_has (walk_frame eq same_but_health (trigger_call command))
    (h <- get_comp host ;;
     r <- pipeline_comp_trigger drv fuel
            {| start := host; posn := dummy_posn; data_p := p;
               cmd := command |} host (direction h) ;;
     (if r <? 0 then emit (EvTraceError r) else ret tt) ;;;
     ret r).
Proof.
  pose proof (Q_trigger_property command) as HQ.
  has_step.
  apply has_bind; [exact HQ | |].
  { apply has_pipeline_comp_trigger. reflexivity. }
  intros r. apply has_bind; [exact HQ | | intros _; has_step].
  case_if; [| has_step].
  apply has_emit; [eauto with frames | exact I].
Qed.

Lemma has_pipeline_trigger (fuel : nat) (p host : nat) (command : Z) :
  run_has (walk_frame same_but_position same_wiring (trigger_or_prepare_call command))
    (pipeline_trigger drv tk fuel p host command).
Proof.
  pose proof (Q_top_property (trigger_or_prepare_call command)) as HQ.
  unfold pipeline_trigger. has_step.
  apply has_bind; [exact HQ | |].
  { case_if; [has_step |].
    apply has_bind; [exact HQ | apply has_xrun_handle_trigger |].
    intros r. case_if.
    - apply has_bind; [exact HQ | | intros _; has_step].
      apply has_emit_top. right. exact I.
    - case_if; has_step. }
  intros [r |]; [has_step |].
  eapply run_has_weaken; [| apply has_trigger_walk].
  intros s s' t. apply walk_frame_weaken.
  - apply eq_position.
  - apply same_but_health_wiring.
  - intros e He. left. exact He.
Qed.

(** On a pipeline without a pending XRUN a trigger is the walk alone. *)
Lemma pipeline_trigger_healthy (fuel : nat) (p host : nat) (command : Z)
    s pl r s' t :
  ppls s !! p = Some pl -> xrun_bytes pl = 0 ->
  pipeline_trigger drv tk fuel p host command s = Ok r s' t ->
  walk_frame eq same_but_health (trigger_call command) s s' t.
Proof.
  intros Hpl Hx H. unfold pipeline_trigger in H.
  erewrite bind_get_ppl in H by exact Hpl. rewrite Hx in H.
  change (0 =? 0) with true in H. cbv iota in H. rewrite bind_ret in H.
  eapply has_trigger_walk. exact H.
Qed.

Lemma has_pipeline_xrun (fuel : nat) (p dev : nat) (bytes : Z) :
  run_has (walk_frame same_but_position same_wiring (fun _ => True))
    (pipeline_xrun drv tk fuel p dev bytes).
Proof.
  pose proof (Q_top_property (fun _ => True)) as HQ.
  unfold pipeline_xrun. has_step. case_if; [has_step |].
  has_step. case_if; [has_step |]. has_step.
  apply has_bind; [exact HQ | |].
  { eapply run_has_weaken; [| apply has_pipeline_trigger].
    intros s s' t. apply walk_frame_weaken; auto. }
  intros r. apply has_bind; [exact HQ | |].
  { case_if; [| has_step]. apply has_emit_top. exact I. }
  intros _. apply has_get_put_ppl; [intros pl; repeat split |].
  has_step. apply has_bind; [exact HQ | | intros _; has_step].
  eapply run_has_weaken; [| apply has_pipeline_comp_xrun].
  intros s s' t [-> HF]. split; [apply only_states_refl; eauto with frames |].
  eapply Forall_impl; [exact HF | auto].
Qed.

Lemma has_pipeline_xrun_recover (fuel : nat) (p : nat) :
  run_has (walk_frame same_but_position same_wiring
             (trigger_or_prepare_call COMP_TRIGGER_START))
    (pipeline_xrun_recover drv tk fuel p).
Proof.
  pose proof (Q_top_property (trigger_or_prepare_call COMP_TRIGGER_START))
    as HQ.
  unfold pipeline_xrun_recover.
  apply has_bind; [exact HQ | | intros _].
  { apply has_emit_top. right. exact I. }
  has_step. has_step.
  apply has_bind; [exact HQ | |].
  { apply has_pipeline_prepare. intros e He. right. exact He. }
  intros r. case_if.
  { apply has_bind; [exact HQ | | intros _; has_step].
    apply has_emit_top. right. exact I. }
  apply has_get_put_ppl; [intros pl; repeat split |].
  apply has_bind; [exact HQ | apply has_pipeline_trigger |].
  intros r'. case_if; [| has_step].
  apply has_bind; [exact HQ | | intros _; has_step].
  apply has_emit_top. right. exact I.
Qed.

Lemma has_any {A} (P : event -> Prop)
    (Rb : comp_buffer -> comp_buffer -> Prop)
    (Rp : pipeline -> pipeline -> Prop) (m : M A) :
  (forall a b, Rb a b -> same_but_position a b) ->
  (forall a b, Rp a b -> same_wiring a b) ->
  run_has (walk_frame Rb Rp P) m ->
  run_has (walk_frame same_but_position same_wiring any_call) m.
Proof.
  intros HB HR. apply run_has_weaken. intros s s' t.
  apply walk_frame_weaken; [exact HB | exact HR | intros; exact I].
Qed.

Lemma has_pipeline_task (fuel : nat) (p : nat) :
  run_has (walk_frame same_but_position same_wiring any_call) (pipeline_task drv tk fuel p).
Proof.
  pose proof (Q_top_property any_call) as HQ.
  unfold pipeline_task. has_step.
  apply has_bind; [exact HQ | |].
  { case_if; [| has_step].
    apply has_bind; [exact HQ | | intros e; has_step].
    eapply has_any; [| | apply has_pipeline_xrun_recover]; auto. }
  intros skip. destruct skip; [has_step |].
  apply has_bind; [exact HQ | |].
  { eapply has_any; [| | apply has_pipeline_copy];
      [apply eq_position | apply eq_wiring]. }
  intros e. case_if; [| has_step].
  apply has_bind; [exact HQ | |].
  { eapply has_any; [| | apply has_pipeline_xrun_recover]; auto. }
  intros e'. case_if; [| has_step].
  apply has_bind; [exact HQ | | intros _; has_step].
  apply has_emit_top. exact I.
Qed.

Lemma has_run_op (fuel : nat) (o : lifecycle_op) :
  run_has (walk_frame same_but_position same_wiring any_call) (run_op drv tk fuel o).
Proof.
  pose proof (Q_top_property any_call) as HQ.
  destruct o; cbn [run_op].
  - apply has_bind; [exact HQ | | intros _; has_step].
    apply has_pipeline_prepare. intros; exact I.
  - apply has_bind; [exact HQ | | intros _; has_step].
    eapply has_any; [| | apply has_pipeline_trigger]; auto.
  - apply has_bind; [exact HQ | | intros _; has_step].
    eapply has_any; [| | apply has_pipeline_reset];
      [apply eq_position | apply eq_wiring].
  - apply has_bind; [exact HQ | | intros _; has_step].
    eapply has_any; [| | apply has_pipeline_copy];
      [apply eq_position | apply eq_wiring].
  - apply has_pipeline_xrun.
  - apply has_bind; [exact HQ | | intros _; has_step].
    apply has_pipeline_task.
Qed.

Lemma has_run_ops (fuel : nat) (ops : list lifecycle_op) :
  run_has (walk_frame same_but_position same_wiring any_call) (run_ops drv tk fuel ops).
Proof.
  pose proof (Q_top_property any_call) as HQ.
  induction ops as [| o rest IH]; cbn [run_ops].
  - has_step.
  - apply has_bind; [exact HQ | apply has_run_op | intros _; exact IH].
Qed.

End TopLevel2.
(** ** Runs that return *)

Lemma links_of_same_but_state (s s' : sys) :
  (forall c, option_Forall2 same_but_state (comps s !! c) (comps s' !! c)) ->
  links s' = links s.
Proof.
  intros H. unfold links. apply map_eq. intros c. rewrite !lookup_fmap.
  destruct (H c) as [d d' Hd |]; [| reflexivity].
  cbn. rewrite Hd. reflexivity.
Qed.

Lemma option_Forall2_eq {A} (o o' : option A) :
  option_Forall2 eq o o' -> o' = o.
Proof. intros H. destruct H; congruence. Qed.

Lemma returns_prefix {A} (t : list event) (o : outcome A) :
  (exists a s' t', o = Ok a s' t') ->
  exists a s' t', with_prefix t o = Ok a s' t'.
Proof. intros (a & s' & t' & ->). eexists _, _, _. reflexivity. Qed.

Lemma returns_bind {A B} (m : M A) (k : A -> M B) s :
  returns m s ->
  (forall a s1 t1, m s = Ok a s1 t1 -> returns (k a) s1) ->
  returns (bind m k) s.
Proof.
  intros (a & s1 & t1 & Hm) Hk. unfold returns.
  rewrite (bind_ok _ _ _ _ _ _ Hm). apply returns_prefix.
  eapply Hk. exact Hm.
Qed.

Lemma returns_ret {A} (a : A) s : returns (ret a) s.
Proof. eexists _, _, _. reflexivity. Qed.

Lemma returns_emit e s : returns (emit e) s.
Proof. eexists _, _, _. reflexivity. Qed.

Lemma returns_put_ppl p pl s : returns (put_ppl p pl) s.
Proof. eexists _, _, _. reflexivity. Qed.

Lemma returns_put_comp c d s : returns (put_comp c d) s.
Proof. eexists _, _, _. reflexivity. Qed.

Lemma returns_get_comp c s : is_Some (comps s !! c) -> returns (get_comp c) s.
Proof.
  intros [d Hd]. unfold returns, get_comp. rewrite Hd.
  eexists _, _, _. reflexivity.
Qed.

Lemma returns_get_ppl p s : is_Some (ppls s !! p) -> returns (get_ppl p) s.
Proof.
  intros [d Hd]. unfold returns, get_ppl. rewrite Hd.
  eexists _, _, _. reflexivity.
Qed.

Lemma returns_run_hook c d r ev s : returns (run_hook c d r ev) s.
Proof. unfold returns. rewrite run_hook_eq. eexists _, _, _. reflexivity. Qed.

Lemma buffer_reset_pos_returns b s :
  is_Some (bufs s !! b) -> returns (buffer_reset_pos b) s.
Proof.
  intros [bd Hb]. unfold returns, buffer_reset_pos.
  erewrite bind_get_buf by exact Hb. rewrite bind_put_buf.
  eexists _, _, _. reflexivity.
Qed.

Lemma forallb_map_to_list {A} (m : gmap nat A) (f : nat * A -> bool) k a :
  forallb f (map_to_list m) = true -> m !! k = Some a -> f (k, a) = true.
Proof.
  intros H Hk. rewrite forallb_forall in H. apply H.
  apply list_elem_of_In. apply elem_of_map_to_list. exact Hk.
Qed.

(** On a graph that passes the check the walks find every buffer and every
    component they look for, and every link leads to a lower rank. *)
Lemma graph_ok_spec (s : sys) (dir : Z) (rank : nat -> nat) :
  graph_ok s dir rank = true -> well_linked s dir /\ acyclic_by s dir rank.
Proof.
  unfold graph_ok. intros H. apply andb_prop in H as [Hc Hb].
  assert (Hlist : forall c d b,
            comps s !! c = Some d -> b ∈ comp_buffer_list d dir ->
            exists bd, bufs s !! b = Some bd /\
              forall c', buffer_get_comp bd dir = Some c' ->
                         (rank c' < rank c)%nat).
  { intros c d b Hd Hin.
    pose proof (forallb_map_to_list _ _ c d Hc Hd) as HF. cbn [fst snd] in HF.
    rewrite forallb_forall in HF. apply list_elem_of_In in Hin.
    specialize (HF b Hin). destruct (bufs s !! b) as [bd |]; [| discriminate].
    exists bd. split; [reflexivity |]. intros c' Hget. rewrite Hget in HF.
    apply Nat.ltb_lt in HF. exact HF. }
  split; [split |].
  - intros c l b Hl Hin. unfold links in Hl. rewrite lookup_fmap in Hl.
    destruct (comps s !! c) as [d |] eqn:Hd; [| discriminate].
    injection Hl as <-. rewrite <- comp_buffer_list_links in Hin.
    destruct (Hlist c d b Hd Hin) as (bd & Hbd & _). eauto.
  - intros b bd c' Hbd Hget.
    pose proof (forallb_map_to_list _ _ b bd Hb Hbd) as HF. cbn [snd] in HF.
    rewrite Hget in HF. apply bool_decide_eq_true in HF.
    unfold links. rewrite lookup_fmap. destruct HF as [d ->].
    eexists. reflexivity.
  - intros c c' (l & b & bd & Hl & Hin & Hbd & Hget).
    unfold links in Hl. rewrite lookup_fmap in Hl.
    destruct (comps s !! c) as [d |] eqn:Hd; [| discriminate].
    injection Hl as <-. rewrite <- comp_buffer_list_links in Hin.
    destruct (Hlist c d b Hd Hin) as (bd' & Hbd' & Hrk).
    apply Hrk. congruence.
Qed.

Lemma sound_ok_spec (s : sys) : sound_ok s = true -> sound s.
Proof.
  unfold sound_ok. intros H. apply andb_prop in H as [Hc Hp]. split.
  - intros c d Hd.
    pose proof (forallb_map_to_list _ _ c d Hc Hd) as HF. cbn [snd] in HF.
    destruct (dev_pipeline d) as [p |]; [| discriminate].
    apply bool_decide_eq_true in HF. eauto.
  - intros p pl Hpl.
    pose proof (forallb_map_to_list _ _ p pl Hp Hpl) as HF. cbn [snd] in HF.
    apply andb_prop in HF as [Hs He]. apply bool_decide_eq_true in Hs.
    split; [exact Hs |].
    destruct (source_comp pl) as [src |]; [| discriminate].
    destruct (sink_comp pl) as [snk |]; [| discriminate].
    apply andb_prop in He as [H1 H2].
    apply bool_decide_eq_true in H1, H2. split; eauto.
Qed.

Lemma same_graph_sub_graph s0 s dir : same_graph s0 s -> sub_graph s0 s dir.
Proof.
  intros [Hl He]. split; [exact He |]. intros c. rewrite Hl.
  apply option_Forall2_refl'. intros l b Hb. exact Hb.
Qed.

(** *** The generic walk *)

Section Returns.

Variable s0 : sys.
Variable dir : Z.
Variable rank : nat -> nat.
Hypothesis Hacyclic : acyclic_by s0 dir rank.
Hypothesis Hlinked : well_linked s0 dir.

(** What is known of the arena during the walk. *)
Variable Inv : sys -> Prop.
Hypothesis Inv_graph : forall s, Inv s -> sub_graph s0 s dir.
Hypothesis Inv_reset_pos :
  forall s b u s' t, Inv s -> buffer_reset_pos b s = Ok u s' t -> Inv s'.

Lemma comp_of_link s c :
  Inv s -> is_Some (links s0 !! c) ->
  exists d l0, comps s !! c = Some d /\ links s0 !! c = Some l0 /\
               comp_buffer_list d dir ⊆ link_list l0 dir.
Proof.
  intros HI [l0 Hc]. destruct (Inv_graph s HI) as [_ Hl].
  specialize (Hl c). rewrite Hc in Hl.
  inversion Hl as [a l Hsub Ea El |]. subst a. symmetry in El.
  unfold links in El. rewrite lookup_fmap in El.
  destruct (comps s !! c) as [d |]; [| discriminate].
  injection El as <-. exists d, l0. split; [reflexivity |].
  split; [exact Hc |]. rewrite comp_buffer_list_links. exact Hsub.
Qed.

Lemma buf_of_link s b bd0 :
  Inv s -> bufs s0 !! b = Some bd0 ->
  exists bd, bufs s !! b = Some bd /\
             buffer_get_comp bd dir = buffer_get_comp bd0 dir.
Proof.
  intros HI Hb. destruct (Inv_graph s HI) as [He _].
  assert (H : buf_ends s !! b = Some (source bd0, sink bd0)).
  { rewrite He. unfold buf_ends. rewrite lookup_fmap, Hb. reflexivity. }
  unfold buf_ends in H. rewrite lookup_fmap in H.
  destruct (bufs s !! b) as [bd |]; [| discriminate].
  exists bd. split; [reflexivity |].
  cbn in H. injection H as Hs Hk. unfold buffer_get_comp.
  rewrite Hs, Hk. reflexivity.
Qed.

(** The loop over the buffers of a component returns when the calls on the
    components behind them do. *)
Lemma for_each_buffer_returns (depth : nat) (func : nat -> Z -> M Z)
    (bf : option (nat -> M unit)) :
  bf = None \/ bf = Some buffer_reset_pos ->
  (forall c s r s' t, Inv s -> func c dir s = Ok r s' t -> Inv s') ->
  (forall c s, Inv s -> is_Some (links s0 !! c) ->
               (rank c < depth)%nat -> returns (func c dir) s) ->
  forall l err s,
    Inv s ->
    (forall b, b ∈ l ->
       exists bd, bufs s0 !! b = Some bd /\
         forall c', buffer_get_comp bd dir = Some c' ->
                    is_Some (links s0 !! c') /\ (rank c' < depth)%nat) ->
    returns (for_each_buffer (Some func) bf dir l err) s.
Proof.
  intros Hbf Hkeep Hfunc.
  induction l as [| b rest IH]; intros err s HI Hl.
  - apply returns_ret.
  - cbn [for_each_buffer].
    destruct (Hl b ltac:(left)) as (bd0 & Hb0 & Hc).
    assert (Hrest : forall b', b' ∈ rest ->
              exists bd', bufs s0 !! b' = Some bd' /\
                forall c', buffer_get_comp bd' dir = Some c' ->
                           is_Some (links s0 !! c') /\ (rank c' < depth)%nat).
    { intros b' Hin. apply Hl. right. exact Hin. }
    apply returns_bind.
    { destruct Hbf as [-> | ->]; [apply returns_ret |].
      apply buffer_reset_pos_returns.
      destruct (buf_of_link s b bd0 HI Hb0) as (bd & Hb & _). eauto. }
    intros u s1 t1 Hbuf.
    assert (HI1 : Inv s1).
    { destruct Hbf as [-> | ->].
      - apply ret_inv in Hbuf. destruct Hbuf as (_ & -> & _). exact HI.
      - eapply Inv_reset_pos; eassumption. }
    destruct (buf_of_link s1 b bd0 HI1 Hb0) as (bd & Hb & Hends).
    unfold returns. erewrite bind_get_buf by exact Hb. rewrite Hends.
    destruct (buffer_get_comp bd0 dir) as [c |] eqn:Ec;
      [| apply IH; assumption].
    destruct (Hc c eq_refl) as [Hex Hrk].
    apply returns_bind; [apply Hfunc; assumption |].
    intros e s2 t2 Hcall.
    pose proof (Hkeep _ _ _ _ _ HI1 Hcall) as HI2.
    destruct (e <? 0); [apply returns_ret | apply IH; assumption].
Qed.

Lemma for_each_comp_returns (fuel : nat) (func : nat -> Z -> M Z)
    (bf : option (nat -> M unit)) c s :
  bf = None \/ bf = Some buffer_reset_pos ->
  (forall c' s' r s'' t, Inv s' -> func c' dir s' = Ok r s'' t -> Inv s'') ->
  (forall c' s', Inv s' -> is_Some (links s0 !! c') ->
                 (rank c' < fuel)%nat -> returns (func c' dir) s') ->
  Inv s -> is_Some (links s0 !! c) -> (rank c < S fuel)%nat ->
  returns (pipeline_for_each_comp c (Some func) bf dir) s.
Proof.
  intros Hbf Hkeep Hfunc HI Hex Hrk. unfold pipeline_for_each_comp.
  destruct (comp_of_link s c HI Hex) as (d & l0 & Hd & Hl0 & Hsub).
  unfold returns. erewrite bind_get_comp by exact Hd.
  apply (for_each_buffer_returns fuel); try assumption.
  intros b Hin. apply Hsub in Hin.
  destruct Hlinked as [Hl1 Hl2].
  destruct (Hl1 c _ b Hl0 Hin) as [bd Hb].
  exists bd. split; [exact Hb |]. intros c' Hc'.
  split; [eapply Hl2; eassumption |].
  assert (Hedge : edge s0 dir c c').
  { exists l0, b, bd. auto. }
  apply Hacyclic in Hedge. lia.
Qed.

End Returns.

(** *** The walks of the lifecycle calls *)

Section WalkReturns.

Variable drv : nat -> comp_ops.
Variable tk : nat -> bool.
Variable s0 : sys.
Hypothesis Hsound : sound s0.

(** During these walks the arena is the initial one up to the states of the
    components, the positions of the buffers and the status, XRUN count and
    task of the pipelines. *)
Let Inv : sys -> Prop := only_states same_but_position same_wiring s0.

Lemma inv_refl : Inv s0.
Proof. apply only_states_refl. eauto with frames. Qed.

Lemma inv_step (Rb : comp_buffer -> comp_buffer -> Prop)
    (Rp : pipeline -> pipeline -> Prop) (P : event -> Prop) s s' t :
  (forall a b, Rb a b -> same_but_position a b) ->
  (forall a b, Rp a b -> same_wiring a b) ->
  Inv s -> walk_frame Rb Rp P s s' t -> Inv s'.
Proof.
  intros HB HR HI HW.
  apply (walk_frame_weaken _ same_but_position _ same_wiring _ P) in HW;
    [| exact HB | exact HR | auto].
  destruct HW as [HW _].
  eapply only_states_trans; [| exact HI | exact HW]. eauto with frames.
Qed.

Lemma inv_comp s c d0 :
  Inv s -> comps s0 !! c = Some d0 ->
  exists d, comps s !! c = Some d /\ same_but_state d0 d.
Proof.
  intros (_ & Hc & _) Hd. specialize (Hc c). rewrite Hd in Hc.
  inversion Hc as [a d Hs Ea Ed |]. subst a. eauto.
Qed.

Lemma inv_comp_back s c d :
  Inv s -> comps s !! c = Some d ->
  exists d0, comps s0 !! c = Some d0 /\ same_but_state d0 d.
Proof.
  intros (_ & Hc & _) Hd. specialize (Hc c). rewrite Hd in Hc.
  inversion Hc as [d0 a Hs Ed Ea |]. subst a. eauto.
Qed.

Lemma inv_ppl s p pl0 :
  Inv s -> ppls s0 !! p = Some pl0 ->
  exists pl, ppls s !! p = Some pl /\ same_wiring pl0 pl.
Proof.
  intros (_ & _ & Hp) Hpl. specialize (Hp p). rewrite Hpl in Hp.
  inversion Hp as [a pl Hs Ea Ed |]. subst a. eauto.
Qed.

Lemma inv_ppl_back s p pl :
  Inv s -> ppls s !! p = Some pl ->
  exists pl0, ppls s0 !! p = Some pl0 /\ same_wiring pl0 pl.
Proof.
  intros (_ & _ & Hp) Hpl. specialize (Hp p). rewrite Hpl in Hp.
  inversion Hp as [pl0 a Hs Ed Ea |]. subst a. eauto.
Qed.

Lemma inv_is_comp s c : Inv s -> is_Some (comps s0 !! c) -> is_Some (comps s !! c).
Proof.
  intros HI [d0 Hd]. destruct (inv_comp s c d0 HI Hd) as (d & -> & _). eauto.
Qed.

Lemma inv_is_ppl s p : Inv s -> is_Some (ppls s0 !! p) -> is_Some (ppls s !! p).
Proof.
  intros HI [d0 Hd]. destruct (inv_ppl s p d0 HI Hd) as (d & -> & _). eauto.
Qed.

Lemma inv_same_graph s : Inv s -> same_graph s0 s.
Proof.
  intros (Hb & Hc & _). split.
  - apply links_of_same_but_state. exact Hc.
  - unfold buf_ends. apply map_eq. intros b. rewrite !lookup_fmap.
    destruct (Hb b) as [bd bd' Hbd |]; [| reflexivity].
    cbn. rewrite Hbd. reflexivity.
Qed.

Lemma inv_sound s : Inv s -> sound s.
Proof.
  intros HI. destruct Hsound as [H1 H2]. split.
  - intros c d Hd. destruct (inv_comp_back s c d HI Hd) as (d0 & Hd0 & Hs).
    destruct (H1 c d0 Hd0) as (p & Hp & Hpl).
    exists p. split; [rewrite Hs; exact Hp |].
    apply inv_is_ppl; assumption.
  - intros p pl Hpl.
    destruct (inv_ppl_back s p pl HI Hpl) as (pl0 & Hpl0 & W1 & W2 & W3 & _).
    destruct (H2 p pl0 Hpl0) as (Hs & (src & Hsrc & Hes) & (snk & Hsnk & Hek)).
    split; [rewrite W1; apply inv_is_comp; assumption |].
    split.
    + exists src. split; [congruence | apply inv_is_comp; assumption].
    + exists snk. split; [congruence | apply inv_is_comp; assumption].
Qed.

Lemma inv_link s c : Inv s -> is_Some (links s0 !! c) -> is_Some (comps s !! c).
Proof.
  intros HI [l Hl]. apply inv_is_comp; [exact HI |].
  unfold links in Hl. rewrite lookup_fmap in Hl.
  destruct (comps s0 !! c); [eauto | discriminate].
Qed.

Lemma link_of_comp (s : sys) c : is_Some (comps s !! c) -> is_Some (links s !! c).
Proof.
  intros [d Hd]. unfold links. rewrite lookup_fmap, Hd. eexists. reflexivity.
Qed.

Lemma inv_reset_pos s b u s' t :
  Inv s -> buffer_reset_pos b s = Ok u s' t -> Inv s'.
Proof.
  intros HI H. eapply inv_step; [| | exact HI | eapply has_buffer_reset_pos; exact H].
  - auto.
  - apply same_but_task_wiring.
Qed.

Lemma inv_upd_ppl s p pl pl' :
  Inv s -> ppls s !! p = Some pl -> same_wiring pl pl' ->
  Inv (upd_ppl s p pl').
Proof.
  intros HI Hpl Hw.
  eapply only_states_trans; [eauto with frames | exact HI |].
  eapply only_states_upd_ppl; [eauto with frames | exact Hpl | exact Hw].
Qed.

Lemma inv_sub_graph dir s : Inv s -> sub_graph s0 s dir.
Proof. intros HI. apply same_graph_sub_graph, inv_same_graph, HI. Qed.

(** The hooks and the per-component steps return on a sound arena. *)
Lemma comp_trigger_returns c command s :
  is_Some (comps s !! c) -> returns (comp_trigger drv c command) s.
Proof.
  intros [d Hd]. unfold returns, comp_trigger.
  erewrite bind_get_comp by exact Hd. apply returns_run_hook.
Qed.

Lemma comp_prepare_returns c s :
  is_Some (comps s !! c) -> returns (comp_prepare drv c) s.
Proof.
  intros [d Hd]. unfold returns, comp_prepare.
  erewrite bind_get_comp by exact Hd.
  destruct (op_prepare (drv c)); [apply returns_run_hook | apply returns_ret].
Qed.

Lemma sched_comp_returns p c command s :
  sound s -> is_Some (ppls s !! p) ->
  returns (pipeline_comp_trigger_sched_comp p c command) s.
Proof.
  intros [_ Hs] [pl Hpl]. unfold returns, pipeline_comp_trigger_sched_comp.
  erewrite bind_get_ppl by exact Hpl.
  destruct (Hs p pl Hpl) as ([sc Hsc] & _).
  apply returns_bind.
  { destruct (Nat.eqb _ _); [apply returns_ret |].
    unfold returns. erewrite bind_get_comp by exact Hsc. apply returns_ret. }
  intros skip s1 t1 Hskip.
  assert (s1 = s) as ->.
  { destruct (Nat.eqb _ _); minv; reflexivity. }
  destruct skip; [apply returns_ret |].
  destruct (_ || _).
  { unfold pipeline_schedule_cancel. apply returns_bind;
      [apply returns_emit | intros; apply returns_put_ppl]. }
  destruct (_ || _); [| apply returns_ret].
  unfold pipeline_schedule_copy. apply returns_bind.
  - unfold returns. erewrite bind_get_ppl by exact Hpl. apply returns_emit.
  - intros; apply returns_put_ppl.
Qed.

Lemma improper_endpoint_returns cur sd s c :
  sound s -> comps s !! c = Some cur ->
  returns (improper_endpoint cur sd) s.
Proof.
  intros [H1 H2] Hc. unfold returns, improper_endpoint.
  destruct (H1 c cur Hc) as (p & -> & [pl Hpl]).
  rewrite bind_deref. erewrite bind_get_ppl by exact Hpl.
  destruct (H2 p pl Hpl) as (_ & _ & (snk & -> & [d Hd])).
  rewrite bind_deref. erewrite bind_get_comp by exact Hd.
  apply returns_ret.
Qed.

Lemma task_init_returns p s :
  sound s -> is_Some (ppls s !! p) ->
  returns (pipeline_comp_task_init tk p) s.
Proof.
  intros [_ Hs] [pl Hpl]. unfold returns, pipeline_comp_task_init.
  erewrite bind_get_ppl by exact Hpl.
  destruct (pipe_task pl); [apply returns_ret |].
  unfold pipeline_task_init.
  destruct (Hs p pl Hpl) as ([sc Hsc] & _).
  rewrite bind_assoc. erewrite bind_get_ppl by exact Hpl.
  destruct (tk p).
  - rewrite bind_assoc. erewrite bind_get_comp by exact Hsc.
    rewrite bind_ret. rewrite bind_put_ppl. apply returns_ret.
  - rewrite bind_ret. rewrite bind_emit. apply returns_prefix.
    apply returns_ret.
Qed.

Section OneDirection.

Variable dir : Z.
Variable rank : nat -> nat.
Hypothesis Hacyclic : acyclic_by s0 dir rank.
Hypothesis Hlinked : well_linked s0 dir.

Lemma pipeline_comp_trigger_returns (data : pipeline_data) (fuel : nat) :
  is_Some (comps s0 !! start data) ->
  forall c s, Inv s -> is_Some (links s0 !! c) -> (rank c < fuel)%nat ->
              returns (pipeline_comp_trigger drv fuel data c dir) s.
Proof.
  intros Hst. induction fuel as [| fuel IH]; intros c s HI Hex Hrk; [lia |].
  cbn [pipeline_comp_trigger]. unfold returns.
  destruct (inv_link s c HI Hex) as [cur Hcur].
  destruct (inv_is_comp s _ HI Hst) as [st Hstart].
  pose proof (inv_sound s HI) as Hs. destruct Hs as [Hs1 Hs2].
  destruct (Hs1 c cur Hcur) as (cp & Hcp & [cpl Hcpl]).
  destruct (Hs1 _ st Hstart) as (sp & Hsp & [spl Hspl]).
  erewrite bind_get_comp by exact Hcur.
  erewrite bind_get_comp by exact Hstart.
  rewrite Hcp, bind_deref. erewrite bind_get_ppl by exact Hcpl.
  rewrite Hsp, bind_deref. erewrite bind_get_ppl by exact Hspl.
  destruct (_ && _); [apply returns_ret |].
  apply returns_bind; [apply comp_trigger_returns; eauto |].
  intros err s1 t1 Htrig.
  assert (HI1 : Inv s1).
  { eapply inv_step; [| | exact HI | eapply has_comp_trigger; exact Htrig].
    - apply eq_position.
    - apply same_but_health_wiring. }
  destruct (walk_ends err); [apply returns_ret |].
  apply returns_bind.
  { apply sched_comp_returns; [apply inv_sound; exact HI1 |].
    destruct (inv_ppl_back s cp cpl HI Hcpl) as (pl0 & Hpl0 & _).
    apply inv_is_ppl; eauto. }
  intros u s2 t2 Hsched.
  assert (HI2 : Inv s2).
  { eapply inv_step; [| | exact HI1 | eapply has_sched_comp; exact Hsched].
    - apply eq_position.
    - apply same_but_health_wiring. }
  apply (for_each_comp_returns s0 dir rank Hacyclic Hlinked Inv
           (inv_sub_graph dir) inv_reset_pos fuel); try assumption.
  - left. reflexivity.
  - intros c' s' r s'' t HI' Hcall.
    eapply inv_step; [| | exact HI' |
      eapply (has_pipeline_comp_trigger drv (cmd data) fuel data eq_refl);
      exact Hcall].
    + apply eq_position.
    + apply same_but_health_wiring.
Qed.

Lemma pipeline_comp_prepare_returns (data : pipeline_data) (fuel : nat) :
  is_Some (comps s0 !! start data) ->
  forall c s, Inv s -> is_Some (links s0 !! c) -> (rank c < fuel)%nat ->
              returns (pipeline_comp_prepare drv tk fuel data c dir) s.
Proof.
  intros Hst. induction fuel as [| fuel IH]; intros c s HI Hex Hrk; [lia |].
  cbn [pipeline_comp_prepare]. unfold returns.
  destruct (inv_link s c HI Hex) as [cur Hcur].
  destruct (inv_is_comp s _ HI Hst) as [st Hstart].
  pose proof (inv_sound s HI) as Hs.
  erewrite bind_get_comp by exact Hcur.
  erewrite bind_get_comp by exact Hstart.
  apply returns_bind.
  { destruct (comp_is_single_pipeline cur st); [apply returns_ret |].
    eapply improper_endpoint_returns; eassumption. }
  intros stop s1 t1 Hstop.
  apply stop_check_inv in Hstop. destruct Hstop as [-> ->].
  destruct stop; [apply returns_ret |].
  destruct Hs as [Hs1 Hs2].
  destruct (Hs1 c cur Hcur) as (cp & Hcp & Hcpl).
  unfold returns. rewrite Hcp, bind_deref.
  apply returns_bind.
  { apply task_init_returns; [apply inv_sound; exact HI | exact Hcpl]. }
  intros e s2 t2 Hinit.
  assert (HI2 : Inv s2).
  { eapply inv_step; [| | exact HI | eapply has_task_init; exact Hinit].
    - auto.
    - apply same_but_task_wiring. }
  destruct (e <? 0); [apply returns_ret |].
  apply returns_bind.
  { apply comp_prepare_returns. eapply inv_link; eassumption. }
  intros e' s3 t3 Hprep.
  assert (HI3 : Inv s3).
  { eapply inv_step; [| | exact HI2 | eapply has_comp_prepare; exact Hprep].
    - auto.
    - apply same_but_task_wiring. }
  destruct (walk_ends e'); [apply returns_ret |].
  apply (for_each_comp_returns s0 dir rank Hacyclic Hlinked Inv
           (inv_sub_graph dir) inv_reset_pos fuel); try assumption.
  - right. reflexivity.
  - intros c' s' r s'' t HI' Hcall.
    eapply inv_step; [| | exact HI' |
      eapply has_pipeline_comp_prepare; exact Hcall].
    + auto.
    + apply same_but_task_wiring.
Qed.

Lemma pipeline_comp_xrun_returns (data : pipeline_data) (fuel : nat) :
  forall c s, Inv s -> is_Some (links s0 !! c) -> (rank c < fuel)%nat ->
              returns (pipeline_comp_xrun fuel data c dir) s.
Proof.
  induction fuel as [| fuel IH]; intros c s HI Hex Hrk; [lia |].
  cbn [pipeline_comp_xrun]. unfold returns.
  destruct (inv_link s c HI Hex) as [cur Hcur].
  erewrite bind_get_comp by exact Hcur.
  apply returns_bind.
  { destruct (_ =? _); [| apply returns_ret].
    apply returns_bind; [apply returns_emit | intros; apply returns_emit]. }
  intros u s1 t1 Hhost.
  assert (s1 = s) as ->.
  { destruct (_ =? _); minv; reflexivity. }
  apply (for_each_comp_returns s0 dir rank Hacyclic Hlinked Inv
           (inv_sub_graph dir) inv_reset_pos fuel); try assumption.
  - left. reflexivity.
  - intros c' s' r s'' t HI' Hcall.
    apply has_pipeline_comp_xrun in Hcall. destruct Hcall as [-> _].
    exact HI'.
Qed.

End OneDirection.

End WalkReturns.

(** *** The lifecycle calls *)

Section TopReturns.

Variable drv : nat -> comp_ops.
Variable tk : nat -> bool.
Variable s0 : sys.
Hypothesis Hsound : sound s0.

Let Inv : sys -> Prop := only_states same_but_position same_wiring s0.

Lemma same_but_state_direction d0 d :
  same_but_state d0 d -> direction d = direction d0.
Proof. intros ->. reflexivity. Qed.

(** [pipeline_prepare] returns, and leaves the arena as the walks do. *)
Lemma pipeline_prepare_returns (fuel : nat) (p dev : nat) (d0 : comp_dev)
    (rank : nat -> nat) s :
  Inv s -> comps s0 !! dev = Some d0 -> is_Some (ppls s0 !! p) ->
  well_linked s0 (direction d0) -> acyclic_by s0 (direction d0) rank ->
  (rank dev < fuel)%nat ->
  exists r s' t, pipeline_prepare drv tk fuel p dev s = Ok r s' t /\ Inv s'.
Proof.
  intros HI Hd0 Hp Hlinked Hacyclic Hrk.
  destruct (inv_comp s0 s dev d0 HI Hd0) as (d & Hd & Hsame).
  apply same_but_state_direction in Hsame.
  assert (Hret : returns (pipeline_prepare drv tk fuel p dev) s).
  { unfold returns, pipeline_prepare. erewrite bind_get_comp by exact Hd.
    rewrite Hsame. apply returns_bind.
    { apply (pipeline_comp_prepare_returns drv tk s0 Hsound (direction d0)
               rank Hacyclic Hlinked); cbn [start]; eauto.
      apply link_of_comp. eauto. }
    intros r s1 t1 Hwalk.
    destruct (r <? 0).
    { apply returns_bind; [apply returns_emit | intros; apply returns_ret]. }
    assert (HI1 : Inv s1).
    { eapply inv_step; [| | exact HI |
        eapply has_pipeline_comp_prepare; exact Hwalk].
      - auto.
      - apply same_but_task_wiring. }
    destruct (inv_is_ppl s0 s1 p HI1 Hp) as [pl Hpl].
    unfold returns. erewrite bind_get_ppl by exact Hpl.
    rewrite bind_put_ppl. apply returns_ret. }
  destruct Hret as (r & s' & t & Hr). exists r, s', t.
  split; [exact Hr |].
  eapply inv_step; [| | exact HI |
    eapply (has_pipeline_prepare drv tk (fun _ => True)); [| exact Hr]];
    auto.
Qed.

(** [pipeline_trigger] on a pipeline without a pending XRUN returns. *)
Lemma pipeline_trigger_returns (fuel : nat) (p host : nat) (command : Z)
    (h0 : comp_dev) (pl : pipeline) (rank : nat -> nat) s :
  Inv s -> ppls s !! p = Some pl -> xrun_bytes pl = 0 ->
  comps s0 !! host = Some h0 ->
  well_linked s0 (direction h0) -> acyclic_by s0 (direction h0) rank ->
  (rank host < fuel)%nat ->
  exists r s' t,
    pipeline_trigger drv tk fuel p host command s = Ok r s' t /\ Inv s'.
Proof.
  intros HI Hpl Hx Hh0 Hlinked Hacyclic Hrk.
  destruct (inv_comp s0 s host h0 HI Hh0) as (h & Hh & Hsame).
  apply same_but_state_direction in Hsame.
  assert (Hret : returns (pipeline_trigger drv tk fuel p host command) s).
  { unfold returns, pipeline_trigger. erewrite bind_get_ppl by exact Hpl.
    rewrite Hx. change (0 =? 0) with true. cbv iota. rewrite bind_ret.
    erewrite bind_get_comp by exact Hh. rewrite Hsame.
    apply returns_bind.
    { apply (pipeline_comp_trigger_returns drv s0 Hsound (direction h0)
               rank Hacyclic Hlinked); cbn [start]; eauto.
      apply link_of_comp. eauto. }
    intros r s1 t1 Hwalk. apply returns_bind; [| intros; apply returns_ret].
    destruct (r <? 0); [apply returns_emit | apply returns_ret]. }
  destruct Hret as (r & s' & t & Hr). exists r, s', t.
  split; [exact Hr |].
  eapply inv_step; [| | exact HI | eapply has_pipeline_trigger; exact Hr];
    auto.
Qed.

(** [pipeline_xrun] returns. *)
Lemma pipeline_xrun_returns (fuel : nat) (p dev : nat) (bytes : Z)
    (pl : pipeline) (d src : comp_dev) (src_id : nat)
    (rank_t rank_x : nat -> nat) :
  ppls s0 !! p = Some pl -> comps s0 !! dev = Some d ->
  source_comp pl = Some src_id -> comps s0 !! src_id = Some src ->
  well_linked s0 (direction src) -> acyclic_by s0 (direction src) rank_t ->
  (rank_t src_id < fuel)%nat ->
  well_linked s0 (direction d) -> acyclic_by s0 (direction d) rank_x ->
  (rank_x dev < fuel)%nat ->
  returns (pipeline_xrun drv tk fuel p dev bytes) s0.
Proof.
  intros Hpl Hd Hsrc Hsrc0 Hlt Hat Hrt Hlx Hax Hrx.
  unfold returns, pipeline_xrun. erewrite bind_get_ppl by exact Hpl.
  destruct (Z.eqb_spec (xrun_bytes pl) 0) as [Hx | Hx];
    [| apply returns_ret].
  cbn [negb]. erewrite bind_get_comp by exact Hd.
  destruct (negb _); [apply returns_ret |].
  rewrite Hsrc, bind_deref.
  destruct (pipeline_trigger_returns fuel p src_id COMP_TRIGGER_XRUN src pl
              rank_t s0 (inv_refl s0) Hpl Hx Hsrc0 Hlt Hat Hrt)
    as (r & s1 & t1 & Htr & HI1).
  rewrite (bind_ok _ _ _ _ _ _ Htr). apply returns_prefix.
  change (returns
            ((if r <? 0 then emit (EvTraceError r) else ret tt) ;;;
             pl' <- get_ppl p ;;
             put_ppl p (set_xrun_bytes pl' bytes) ;;;
             d' <- get_comp dev ;;
             pipeline_comp_xrun fuel
               {| start := 0%nat;
                  posn := {| xrun_comp_id := comp_id d';
                             xrun_size := bytes |};
                  data_p := p; cmd := 0 |} dev (direction d') ;;;
             ret tt) s1).
  apply returns_bind.
  { destruct (r <? 0); [apply returns_emit | apply returns_ret]. }
  intros u s2 t2 Herr.
  assert (s2 = s1) as -> by (destruct (r <? 0); minv; reflexivity).
  destruct (inv_ppl s0 s1 p pl HI1 Hpl) as (pl1 & Hpl1 & _).
  unfold returns. erewrite bind_get_ppl by exact Hpl1.
  rewrite bind_put_ppl.
  assert (HI2 : Inv (upd_ppl s1 p (set_xrun_bytes pl1 bytes))).
  { eapply inv_upd_ppl; [exact HI1 | exact Hpl1 | repeat split]. }
  destruct (inv_comp s0 _ dev d HI2 Hd) as (d' & Hd' & Hsame).
  apply same_but_state_direction in Hsame.
  erewrite bind_get_comp by exact Hd'. rewrite Hsame.
  apply returns_bind; [| intros; apply returns_ret].
  apply (pipeline_comp_xrun_returns s0 (direction d) rank_x Hax Hlx);
    [exact HI2 | apply link_of_comp; eauto | exact Hrx].
Qed.

(** [pipeline_xrun_recover] returns. *)
Lemma pipeline_xrun_recover_returns (fuel : nat) (p : nat) (pl : pipeline)
    (src : comp_dev) (src_id : nat) (rank : nat -> nat) :
  ppls s0 !! p = Some pl ->
  source_comp pl = Some src_id -> comps s0 !! src_id = Some src ->
  well_linked s0 (direction src) -> acyclic_by s0 (direction src) rank ->
  (rank src_id < fuel)%nat ->
  returns (pipeline_xrun_recover drv tk fuel p) s0.
Proof.
  intros Hpl Hsrc Hsrc0 Hl Ha Hrk.
  unfold returns, pipeline_xrun_recover. rewrite bind_emit.
  apply returns_prefix. erewrite bind_get_ppl by exact Hpl.
  rewrite Hsrc, bind_deref.
  destruct (pipeline_prepare_returns fuel p src_id src rank s0
              (inv_refl s0) Hsrc0 ltac:(eauto) Hl Ha Hrk)
    as (r & s1 & t1 & Hprep & HI1).
  rewrite (bind_ok _ _ _ _ _ _ Hprep). apply returns_prefix.
  destruct (r <? 0).
  { apply returns_bind; [apply returns_emit | intros; apply returns_ret]. }
  destruct (inv_ppl s0 s1 p pl HI1 Hpl) as (pl1 & Hpl1 & _).
  change (returns
            (pl' <- get_ppl p ;;
             put_ppl p (set_xrun_bytes pl' 0) ;;;
             r' <- pipeline_trigger drv tk fuel p src_id COMP_TRIGGER_START ;;
             if r' <? 0 then emit (EvTraceError r') ;;; ret r'
             else ret 0) s1).
  unfold returns. erewrite bind_get_ppl by exact Hpl1. rewrite bind_put_ppl.
  assert (HI2 : Inv (upd_ppl s1 p (set_xrun_bytes pl1 0))).
  { eapply inv_upd_ppl; [exact HI1 | exact Hpl1 | repeat split]. }
  destruct (pipeline_trigger_returns fuel p src_id COMP_TRIGGER_START src
              (set_xrun_bytes pl1 0) rank _ HI2
              ltac:(unfold upd_ppl; cbn [ppls]; apply lookup_insert_eq)
              eq_refl Hsrc0 Hl Ha Hrk)
    as (r2 & s3 & t3 & Htr & _).
  rewrite (bind_ok _ _ _ _ _ _ Htr). apply returns_prefix.
  destruct (r2 <? 0); [| apply returns_ret].
  apply returns_bind; [apply returns_emit | intros; apply returns_ret].
Qed.

End TopReturns.
(** ** Properties of the lifecycle calls *)

(** X17. What a trigger may call.  During [pipeline_trigger] with a command
    every trigger hook is called with that command; the task is scheduled
    only on START and RELEASE and cancelled only on PAUSE, STOP and XRUN;
    prepare hooks run only for the START that recovers a pending XRUN; no
    copy or reset hook runs, no task is freed and no host is notified. *)
Theorem pipeline_trigger_calls (drv : nat -> comp_ops) (tk : nat -> bool)
    (fuel : nat) (p host : nat) (command : Z) (s s' : sys) (r : Z)
    (t : list event) :
  pipeline_trigger drv tk fuel p host command s = Ok r s' t ->
  forall e, In e t ->
    match e with
    | EvTrigger _ c _ => c = command
    | EvScheduleTask _ _ _ =>
        command = COMP_TRIGGER_START \/ command = COMP_TRIGGER_RELEASE
    | EvScheduleCancel _ =>
        command = COMP_TRIGGER_PAUSE \/ command = COMP_TRIGGER_STOP \/
        command = COMP_TRIGGER_XRUN
    | EvPrepare _ _ | EvBufferResetPos _ =>
        command = COMP_TRIGGER_START /\
        exists pl, ppls s !! p = Some pl /\ xrun_bytes pl <> 0
    | EvTraceError _ => True
    | EvCopy _ _ | EvReset _ _ | EvTaskFree _ | EvHostTimestamp _
    | EvSendXrun _ _ => False
    end.
Proof.
  intros H e He.
  assert (Hall : Forall (trigger_or_prepare_call command) t).
  { pose proof (has_pipeline_trigger drv tk fuel p host command _ _ _ _ H)
      as [_ HF]. exact HF. }
  rewrite List.Forall_forall in Hall. specialize (Hall e He).
  assert (Hprep : prepare_call e -> ~ trigger_call command e ->
                  command = COMP_TRIGGER_START /\
                  exists pl, ppls s !! p = Some pl /\ xrun_bytes pl <> 0).
  { intros Hp Hnt.
    unfold pipeline_trigger in H.
    apply bind_inv in H. destruct H as (pl & s1 & t1 & t2 & H1 & H & ->).
    apply get_ppl_inv in H1. destruct H1 as (Hpl & -> & ->).
    cbn [app] in He.
    destruct (Z.eqb_spec (xrun_bytes pl) 0) as [Hx | Hx].
    { exfalso. apply Hnt.
      assert (Hh : pipeline_trigger drv tk fuel p host command s
                   = Ok r s' t2).
      { unfold pipeline_trigger. erewrite bind_get_ppl by exact Hpl.
        rewrite Hx. exact H. }
      pose proof (pipeline_trigger_healthy drv tk fuel p host command
                    s pl r s' t2 Hpl Hx Hh) as [_ HF].
      rewrite List.Forall_forall in HF. apply HF. exact He. }
    split; [| exists pl; auto].
    destruct (Z.eqb_spec command COMP_TRIGGER_START) as [Hc | Hc]; [exact Hc |].
    exfalso. apply Hnt.
    apply bind_inv in H. destruct H as (hd & s2 & t3 & t4 & H1 & H & ->).
    assert (Hhandle : s2 = s /\ Forall (trigger_call command) t3).
    { apply bind_inv in H1.
      destruct H1 as (r1 & s3 & t5 & t6 & H1 & H2 & ->).
      assert (Hx' : s3 = s /\ t5 = []).
      { unfold pipeline_xrun_handle_trigger in H1.
        erewrite bind_get_ppl in H1 by exact Hpl.
        destruct (_ || _); [minv; auto |].
        destruct (Z.eqb_spec command COMP_TRIGGER_START); [contradiction |].
        destruct (command =? COMP_TRIGGER_STOP); minv; auto. }
      destruct Hx' as [-> ->]. cbn [app].
      destruct (r1 <? 0).
      - minv. split; [reflexivity |]. repeat constructor.
      - destruct (r1 =? PPL_STATUS_PATH_STOP); minv; split; auto. }
    destruct Hhandle as [-> Hf3].
    apply in_app_or in He. destruct He as [He | He].
    { rewrite List.Forall_forall in Hf3. apply Hf3. exact He. }
    destruct hd as [r0 |].
    { minv. destruct He. }
    pose proof (has_trigger_walk drv fuel p host command _ _ _ _ H)
      as [_ HF].
    rewrite List.Forall_forall in HF. apply HF. exact He. }
  destruct e; cbn in *;
    try (destruct Hall as [Ht | Hp]; [exact Ht | contradiction]);
    try (destruct Hall as [Ht | Hp]; [contradiction | apply Hprep; tauto]);
    try tauto.
Qed.

Lemma pipeline_trigger_calls_witness :
  ~ In (EvScheduleTask 0 0 1000)
       (trace_of (pipeline_trigger (fun _ => fsm_driver 0) (fun _ => true) 5
                    0 1 COMP_TRIGGER_STOP active_chain)).
Proof.
  destruct (pipeline_trigger (fun _ => fsm_driver 0) (fun _ => true) 5
              0 1 COMP_TRIGGER_STOP active_chain) as [r s' t | |] eqn:E;
    [| vm_compute in E; discriminate E | vm_compute in E; discriminate E].
  intros Hin.
  pose proof (pipeline_trigger_calls _ _ _ _ _ _ _ _ _ _ E _ Hin) as Hc.
  cbn in Hc. destruct Hc as [Hc | Hc]; discriminate Hc.
Defined.

(** X18. No lifecycle call rewires the graph.  After any sequence of
    prepare, trigger, reset, copy, XRUN report and task runs, every buffer
    is still there with the same data area and the same two components (its
    position may have been reset), every component is still there and
    differs at most in its state, so that the links are the same, and every
    pipeline is still there with the same scheduling component, endpoints
    and period; nothing is created or destroyed.  Driver hooks are what
    [comp_ops] makes them: they return a status and set the state of their
    own component. *)
Theorem lifecycle_keeps_topology (drv : nat -> comp_ops) (tk : nat -> bool)
    (fuel : nat) (ops : list lifecycle_op) (s s' : sys) (t : list event) :
  run_ops drv tk fuel ops s = Ok tt s' t ->
  (forall b, option_Forall2 same_but_position (bufs s !! b) (bufs s' !! b)) /\
  (forall c, option_Forall2 same_but_state (comps s !! c) (comps s' !! c)) /\
  (forall p, option_Forall2 same_wiring (ppls s !! p) (ppls s' !! p)) /\
  links s' = links s /\ buf_ends s' = buf_ends s.
Proof.
  intros H.
  destruct (has_run_ops drv tk fuel ops _ _ _ _ H) as [Hs _].
  pose proof (inv_same_graph s s' Hs) as [Hl He].
  destruct Hs as (Hb & Hc & Hp). repeat split; assumption.
Qed.

Lemma lifecycle_keeps_topology_witness :
  option_map links
    (final (run_ops (fun _ => fsm_driver 0) (fun _ => true) 5
              [OpPrepare 0 1; OpTrigger 0 1 COMP_TRIGGER_START; OpCopy 0;
               OpXrun 0 2 (-64); OpTask 0; OpReset 0 1]
              (chain_sys COMP_STATE_READY COMP_STATE_READY COMP_STATE_READY
                 COMP_STATE_READY 0)))
  = Some (links (chain_sys COMP_STATE_READY COMP_STATE_READY
                   COMP_STATE_READY COMP_STATE_READY 0)).
Proof.
  destruct (run_ops (fun _ => fsm_driver 0) (fun _ => true) 5
              [OpPrepare 0 1; OpTrigger 0 1 COMP_TRIGGER_START; OpCopy 0;
               OpXrun 0 2 (-64); OpTask 0; OpReset 0 1]
              (chain_sys COMP_STATE_READY COMP_STATE_READY COMP_STATE_READY
                 COMP_STATE_READY 0)) as [[] s' t | |] eqn:E;
    [| vm_compute in E; discriminate E | vm_compute in E; discriminate E].
  cbn [final option_map]. f_equal.
  exact (proj1 (proj2 (proj2 (proj2
           (lifecycle_keeps_topology _ _ _ _ _ _ _ E))))).
Defined.

(** X19. [pipeline_prepare] sets the status of its pipeline to PREPARE
    exactly when it succeeds (status not negative).  It changes the status of
    no other pipeline and the XRUN count of none; all it may change besides
    is the allocation of pipeline tasks. *)
Theorem pipeline_prepare_status (drv : nat -> comp_ops) (tk : nat -> bool)
    (fuel : nat) (p dev : nat) (s s' : sys) (r : Z) (t : list event) :
  pipeline_prepare drv tk fuel p dev s = Ok r s' t ->
  forall q pl, ppls s !! q = Some pl ->
    exists pl',
      ppls s' !! q = Some pl' /\
      xrun_bytes pl' = xrun_bytes pl /\
      same_wiring pl pl' /\
      status pl' = if (0 <=? r) && Nat.eqb q p then COMP_STATE_PREPARE
                   else status pl.
Proof.
  intros H q pl Hq.
  destruct (has_pipeline_prepare_walk drv tk fuel p dev s r s' t H)
    as (s1 & t1 & [(_ & _ & Hp) _] & Hcase).
  specialize (Hp q). rewrite Hq in Hp. inversion Hp as [a pl1 Hst Ea Eb |].
  symmetry in Eb. unfold same_but_task in Hst.
  destruct Hcase as [(Hr & -> & ->) | (Hr & -> & pl0 & Hpl0 & ->)].
  - exists pl1. split; [exact Eb |]. rewrite Hst.
    destruct (Z.leb_spec 0 r); [lia |]. cbn. repeat split.
  - destruct (Z.leb_spec 0 r); [| lia]. cbn [andb].
    destruct (Nat.eqb_spec q p) as [-> | Hne].
    + exists (set_status pl0 COMP_STATE_PREPARE).
      unfold upd_ppl. cbn [ppls]. rewrite lookup_insert_eq.
      assert (pl0 = pl1) by congruence. subst pl0. rewrite Hst.
      repeat split.
    + exists pl1. unfold upd_ppl. cbn [ppls].
      rewrite lookup_insert_ne by congruence.
      split; [exact Eb |]. rewrite Hst. repeat split.
Qed.

Lemma pipeline_prepare_status_witness :
  exists pl',
    ppls <$> final (pipeline_prepare (fun _ => fsm_driver 0) (fun _ => true) 5
                      0 1
                      (chain_sys COMP_STATE_READY COMP_STATE_READY
                         COMP_STATE_READY COMP_STATE_READY 0))
    = Some (<[0%nat := pl']> ∅) /\
    status pl' = COMP_STATE_PREPARE.
Proof.
  destruct (pipeline_prepare (fun _ => fsm_driver 0) (fun _ => true) 5 0 1
              (chain_sys COMP_STATE_READY COMP_STATE_READY
                 COMP_STATE_READY COMP_STATE_READY 0))
    as [r s' t | |] eqn:E;
    [| vm_compute in E; discriminate E | vm_compute in E; discriminate E].
  destruct (pipeline_prepare_status _ _ _ _ _ _ _ _ _ E 0%nat
              (chain_ppl COMP_STATE_READY 0) ltac:(reflexivity))
    as (pl' & H1 & _ & _ & H2).
  exists pl'. split.
  - cbn [final fmap option_fmap option_map]. f_equal.
    vm_compute in E. injection E as _ <- _. vm_compute in H1.
    injection H1 as <-. vm_compute. reflexivity.
  - rewrite H2. vm_compute in E. injection E as <- _ _. reflexivity.
Defined.

Lemma walk_frame_eq_ppls (P : event -> Prop) s s' t :
  walk_frame eq eq P s s' t -> ppls s' = ppls s.
Proof.
  intros [(_ & _ & Hp) _].
  apply map_eq. intros p. apply option_Forall2_eq. apply Hp.
Qed.

(** X20. A reset acts on components only.  After [pipeline_reset] every
    pipeline is exactly as before: the status of the pipeline is not moved
    back to READY, and a pending XRUN stays pending.  The walk calls reset
    hooks and nothing else, but for the trace of an error: it resets no
    buffer position, triggers, prepares and copies nothing, and leaves the
    task alone. *)
Theorem pipeline_reset_keeps_pipelines (drv : nat -> comp_ops) (fuel : nat)
    (p host : nat) (s s' : sys) (r : Z) (t : list event) :
  pipeline_reset drv fuel p host s = Ok r s' t ->
  ppls s' = ppls s /\
  forall e, In e t ->
    match e with
    | EvReset _ _ | EvTraceError _ => True
    | _ => False
    end.
Proof.
  intros H. pose proof (has_pipeline_reset drv fuel p host _ _ _ _ H) as HW.
  split; [eapply walk_frame_eq_ppls; exact HW |].
  destruct HW as [_ HF]. rewrite List.Forall_forall in HF.
  intros e He. exact (HF e He).
Qed.

Lemma pipeline_reset_keeps_pipelines_witness :
  ppls <$> final (pipeline_reset (fun _ => fsm_driver 0) 5 0 1
                    (chain_sys COMP_STATE_PREPARE COMP_STATE_PREPARE
                       COMP_STATE_PREPARE COMP_STATE_PAUSED (-64)))
  = Some (ppls (chain_sys COMP_STATE_PREPARE COMP_STATE_PREPARE
                  COMP_STATE_PREPARE COMP_STATE_PAUSED (-64))).
Proof.
  destruct (pipeline_reset (fun _ => fsm_driver 0) 5 0 1
              (chain_sys COMP_STATE_PREPARE COMP_STATE_PREPARE
                 COMP_STATE_PREPARE COMP_STATE_PAUSED (-64)))
    as [r s' t | |] eqn:E;
    [| vm_compute in E; discriminate E | vm_compute in E; discriminate E].
  cbn [final fmap option_fmap option_map]. f_equal.
  exact (proj1 (pipeline_reset_keeps_pipelines _ _ _ _ _ _ _ _ E)).
Defined.

Lemma pipeline_xrun_sets_bytes (drv : nat -> comp_ops) (tk : nat -> bool)
    (fuel : nat) (p dev : nat) (bytes : Z) (s s' : sys) (pl : pipeline)
    (d : comp_dev) (t : list event) :
  ppls s !! p = Some pl -> xrun_bytes pl = 0 ->
  comps s !! dev = Some d -> state d = COMP_STATE_ACTIVE ->
  pipeline_xrun drv tk fuel p dev bytes s = Ok tt s' t ->
  (exists pl', ppls s' !! p = Some pl' /\ xrun_bytes pl' = bytes /\
               same_wiring pl pl') /\
  (forall host po, In (EvSendXrun host po) t ->
     po = {| xrun_comp_id := comp_id d; xrun_size := bytes |}).
Proof.
  intros Hpl Hx Hd Hst H. unfold pipeline_xrun in H.
  erewrite bind_get_ppl in H by exact Hpl. rewrite Hx in H.
  change (negb (0 =? 0)) with false in H. cbv iota in H.
  erewrite bind_get_comp in H by exact Hd. rewrite Hst in H.
  change (negb (COMP_STATE_ACTIVE =? COMP_STATE_ACTIVE)) with false in H.
  cbv iota in H.
  apply bind_inv in H. destruct H as (src & s0 & t0 & t1 & H0 & H & ->).
  apply deref_inv in H0. destruct H0 as (Hsrc & -> & ->). cbn [app].
  apply bind_inv in H. destruct H as (r & s1 & t2 & t3 & Htr & H & ->).
  pose proof (pipeline_trigger_healthy drv tk fuel p src COMP_TRIGGER_XRUN
                s pl r s1 t2 Hpl Hx Htr) as [(Hb & Hc & Hp) HF].
  apply bind_inv in H. destruct H as (u & s2 & t4 & t5 & Herr & H & ->).
  assert (He : s2 = s1 /\ Forall (trigger_call COMP_TRIGGER_XRUN) t4).
  { destruct (r <? 0); minv; split; auto. repeat constructor. }
  destruct He as [-> HF4].
  apply bind_inv in H. destruct H as (pl1 & s3 & t6 & t7 & H1 & H & ->).
  apply get_ppl_inv in H1. destruct H1 as (Hpl1 & -> & ->).
  apply bind_inv in H. destruct H as (u1 & s4 & t8 & t9 & H1 & H & ->).
  apply put_ppl_inv in H1. destruct H1 as (-> & ->).
  apply bind_inv in H. destruct H as (d' & s5 & t10 & t11 & H1 & H & ->).
  apply get_comp_inv in H1. destruct H1 as (Hd' & -> & ->).
  apply bind_inv in H. destruct H as (e & s6 & t12 & t13 & Hw & H & ->).
  minv. cbn [app]. rewrite ?app_nil_r.
  apply has_pipeline_comp_xrun in Hw. destruct Hw as [-> HFw].
  cbn [posn] in HFw.
  assert (Hid : comp_id d' = comp_id d).
  { cbn [upd_ppl comps] in Hd'. specialize (Hc dev).
    rewrite Hd, Hd' in Hc. inversion Hc as [a b Hs |]. subst.
    rewrite Hs. reflexivity. }
  split.
  - exists (set_xrun_bytes pl1 bytes). unfold upd_ppl. cbn [ppls].
    rewrite lookup_insert_eq. split; [reflexivity |].
    split; [reflexivity |].
    specialize (Hp p). rewrite Hpl, Hpl1 in Hp.
    inversion Hp as [a b (Hw & _) |]. subst.
    destruct Hw as (W1 & W2 & W3 & W4). repeat split; assumption.
  - intros host po Hin. rewrite Hid in HFw.
    apply in_app_or in Hin. destruct Hin as [Hin | Hin].
    { rewrite List.Forall_forall in HF. destruct (HF _ Hin). }
    apply in_app_or in Hin. destruct Hin as [Hin | Hin].
    { rewrite List.Forall_forall in HF4. destruct (HF4 _ Hin). }
    rewrite List.Forall_forall in HFw. exact (HFw _ Hin).
Qed.

(** X21. An XRUN reported by an ACTIVE component on a pipeline without a
    pending XRUN is recorded.  On a sound arena whose graph is well linked
    and acyclic in the direction of the source component of the pipeline
    (the XRUN trigger starts there) and in that of the reporting component
    (the notification walk starts there), with a budget above the ranks of
    both, [pipeline_xrun] returns; afterwards [xrun_bytes] of the pipeline
    is the reported byte count, and every notification sent to a host
    carries that count and the id of the reporting component. *)
Theorem pipeline_xrun_records (drv : nat -> comp_ops) (tk : nat -> bool)
    (fuel : nat) (p dev src_id : nat) (bytes : Z) (s : sys) (pl : pipeline)
    (d src : comp_dev) (rank_t rank_x : nat -> nat) :
  sound s ->
  ppls s !! p = Some pl -> xrun_bytes pl = 0 ->
  comps s !! dev = Some d -> state d = COMP_STATE_ACTIVE ->
  source_comp pl = Some src_id -> comps s !! src_id = Some src ->
  well_linked s (direction src) -> acyclic_by s (direction src) rank_t ->
  (rank_t src_id < fuel)%nat ->
  well_linked s (direction d) -> acyclic_by s (direction d) rank_x ->
  (rank_x dev < fuel)%nat ->
  exists s' t,
    pipeline_xrun drv tk fuel p dev bytes s = Ok tt s' t /\
    (exists pl', ppls s' !! p = Some pl' /\ xrun_bytes pl' = bytes /\
                 same_wiring pl pl') /\
    (forall host po, In (EvSendXrun host po) t ->
       po = {| xrun_comp_id := comp_id d; xrun_size := bytes |}).
Proof.
  intros Hs Hpl Hx Hd Hst Hsrc Hsrc0 Hlt Hat Hrt Hlx Hax Hrx.
  destruct (pipeline_xrun_returns drv tk s Hs fuel p dev bytes pl d src
              src_id rank_t rank_x Hpl Hd Hsrc Hsrc0 Hlt Hat Hrt Hlx Hax Hrx)
    as ([] & s' & t & H).
  exists s', t. split; [exact H |].
  eapply pipeline_xrun_sets_bytes; eassumption.
Qed.

Lemma active_chain_sound : sound active_chain.
Proof. apply sound_ok_spec. vm_compute. reflexivity. Qed.

Lemma active_chain_graph :
  well_linked active_chain PPL_DIR_DOWNSTREAM /\
  acyclic_by active_chain PPL_DIR_DOWNSTREAM chain_rank.
Proof. apply graph_ok_spec. vm_compute. reflexivity. Qed.

Lemma pipeline_xrun_records_witness :
  exists s' t pl',
    pipeline_xrun (fun _ => fsm_driver 0) (fun _ => true) 5 0 2 (-64)
      active_chain = Ok tt s' t /\
    ppls s' !! 0%nat = Some pl' /\ xrun_bytes pl' = -64.
Proof.
  destruct (pipeline_xrun_records (fun _ => fsm_driver 0) (fun _ => true) 5
              0 2 1 (-64) active_chain
              (chain_ppl COMP_STATE_ACTIVE 0)
              (chain_volume COMP_STATE_ACTIVE)
              (chain_host COMP_STATE_ACTIVE) chain_rank chain_rank
              active_chain_sound
              ltac:(reflexivity) ltac:(reflexivity) ltac:(reflexivity)
              ltac:(reflexivity) ltac:(reflexivity) ltac:(reflexivity)
              (proj1 active_chain_graph) (proj2 active_chain_graph)
              ltac:(cbn; lia)
              (proj1 active_chain_graph) (proj2 active_chain_graph)
              ltac:(cbn; lia))
    as (s' & t & H & (pl' & H1 & H2 & _) & _).
  exists s', t, pl'. auto.
Defined.

Lemma pipeline_xrun_recover_result (drv : nat -> comp_ops)
    (tk : nat -> bool) (fuel : nat) (p : nat) (s s' : sys) (r : Z)
    (t : list event) :
  pipeline_xrun_recover drv tk fuel p s = Ok r s' t ->
  r <= 0 /\
  (r = 0 -> exists pl', ppls s' !! p = Some pl' /\ xrun_bytes pl' = 0) /\
  copied t = [] /\ was_reset t = [].
Proof.
  intros H.
  assert (Hcalls : copied t = [] /\ was_reset t = []).
  { destruct (has_pipeline_xrun_recover drv tk fuel p _ _ _ _ H) as [_ HF].
    clear H. induction HF as [| e l He _ IH]; [split; reflexivity |].
    destruct IH as [IH1 IH2].
    destruct e; cbn in *; try (split; assumption);
      destruct He as [He | He]; cbn in He; contradiction. }
  split; [| split; [| exact Hcalls]].
  - unfold pipeline_xrun_recover in H. minv.
    match goal with
    | Hc : (if ?x <? 0 then _ else _) _ = Ok _ _ _ |- _ =>
        destruct (Z.ltb_spec x 0); [minv; lia |]
    end.
    minv.
    match goal with
    | Hc : (if ?x <? 0 then _ else _) _ = Ok _ _ _ |- _ =>
        destruct (Z.ltb_spec x 0); minv; lia
    end.
  - intros ->. unfold pipeline_xrun_recover in H.
    apply bind_inv in H. destruct H as (u & s0 & t0 & t1 & H0 & H & ->).
    apply emit_inv in H0. destruct H0 as [-> ->].
    apply bind_inv in H. destruct H as (pl & s0 & t0 & t2 & H0 & H & ->).
    apply get_ppl_inv in H0. destruct H0 as (Hpl & -> & ->).
    apply bind_inv in H. destruct H as (src & s0 & t0 & t3 & H0 & H & ->).
    apply deref_inv in H0. destruct H0 as (Hsrc & -> & ->).
    apply bind_inv in H. destruct H as (r1 & s1 & t4 & t5 & Hprep & H & ->).
    destruct (Z.ltb_spec r1 0) as [Hlt | Hge]; [minv; lia |].
    apply bind_inv in H. destruct H as (pl1 & s2 & t6 & t7 & H0 & H & ->).
    apply get_ppl_inv in H0. destruct H0 as (Hpl1 & -> & ->).
    apply bind_inv in H. destruct H as (u1 & s3 & t8 & t9 & H0 & H & ->).
    apply put_ppl_inv in H0. destruct H0 as (-> & ->).
    apply bind_inv in H. destruct H as (r2 & s4 & t10 & t11 & Htr & H & ->).
    assert (Hs : s' = s4) by (destruct (r2 <? 0); minv; reflexivity).
    subst s4.
    pose proof (pipeline_trigger_healthy drv tk fuel p src COMP_TRIGGER_START
                  (upd_ppl s1 p (set_xrun_bytes pl1 0))
                  (set_xrun_bytes pl1 0) r2 s' t10
                  ltac:(unfold upd_ppl; cbn [ppls];
                        apply lookup_insert_eq)
                  ltac:(reflexivity) Htr) as [(_ & _ & Hp) _].
    specialize (Hp p). unfold upd_ppl in Hp. cbn [ppls] in Hp.
    rewrite lookup_insert_eq in Hp.
    inversion Hp as [a pl' (_ & _ & Hxr) Ea Eb |]. subst a.
    exists pl'. split; [reflexivity |]. cbn in Hxr. tauto.
Qed.

(** X22. On a sound arena whose graph is well linked and acyclic in the
    direction of the source component of the pipeline, with a budget above
    the rank of that component, [pipeline_xrun_recover] returns, and what it
    returns is 0 or a negative status.  When it returns 0 the pipeline has
    no pending XRUN any more (no hook of [comp_ops] reports a new one on the
    way).  It never runs a copy or reset hook. *)
Theorem pipeline_xrun_recover_clears (drv : nat -> comp_ops)
    (tk : nat -> bool) (fuel : nat) (p src_id : nat) (s : sys)
    (pl : pipeline) (src : comp_dev) (rank : nat -> nat) :
  sound s ->
  ppls s !! p = Some pl ->
  source_comp pl = Some src_id -> comps s !! src_id = Some src ->
  well_linked s (direction src) -> acyclic_by s (direction src) rank ->
  (rank src_id < fuel)%nat ->
  exists r s' t,
    pipeline_xrun_recover drv tk fuel p s = Ok r s' t /\
    r <= 0 /\
    (r = 0 -> exists pl', ppls s' !! p = Some pl' /\ xrun_bytes pl' = 0) /\
    copied t = [] /\ was_reset t = [].
Proof.
  intros Hs Hpl Hsrc Hsrc0 Hl Ha Hrk.
  destruct (pipeline_xrun_recover_returns drv tk s Hs fuel p pl src src_id
              rank Hpl Hsrc Hsrc0 Hl Ha Hrk) as (r & s' & t & H).
  exists r, s', t. split; [exact H |].
  eapply pipeline_xrun_recover_result. exact H.
Qed.

Lemma xrun_chain_sound : sound xrun_chain.
Proof. apply sound_ok_spec. vm_compute. reflexivity. Qed.

Lemma xrun_chain_graph :
  well_linked xrun_chain PPL_DIR_DOWNSTREAM /\
  acyclic_by xrun_chain PPL_DIR_DOWNSTREAM chain_rank.
Proof. apply graph_ok_spec. vm_compute. reflexivity. Qed.

Lemma pipeline_xrun_recover_clears_witness :
  exists s' t pl',
    pipeline_xrun_recover (fun _ => fsm_driver 0) (fun _ => true) 5 0
      xrun_chain = Ok 0 s' t /\
    ppls s' !! 0%nat = Some pl' /\ xrun_bytes pl' = 0 /\ copied t = [].
Proof.
  destruct (pipeline_xrun_recover_clears (fun _ => fsm_driver 0)
              (fun _ => true) 5 0 1 xrun_chain
              (chain_ppl COMP_STATE_PAUSED (-64))
              (chain_host COMP_STATE_READY) chain_rank
              xrun_chain_sound
              ltac:(reflexivity) ltac:(reflexivity) ltac:(reflexivity)
              (proj1 xrun_chain_graph) (proj2 xrun_chain_graph)
              ltac:(cbn; lia))
    as (r & s' & t & H & _ & H0 & Hc & _).
  assert (Hr : r = 0).
  { pose proof H as E. vm_compute in E. injection E as <- _ _. reflexivity. }
  subst r. destruct (H0 eq_refl) as (pl' & H1 & H2).
  exists s', t, pl'. auto.
Defined.

(** X23. A pipeline task that finds an XRUN pending and cannot recover ends
    the task: it returns COMPLETED with exactly the arena and the calls of
    the failed recovery, and no copy hook is called in that cycle. *)
Theorem pipeline_task_skips_copy (drv : nat -> comp_ops) (tk : nat -> bool)
    (fuel : nat) (p : nat) (s s1 : sys) (pl : pipeline) (r : Z)
    (t1 : list event) :
  ppls s !! p = Some pl -> xrun_bytes pl <> 0 ->
  pipeline_xrun_recover drv tk fuel p s = Ok r s1 t1 -> r < 0 ->
  pipeline_task drv tk fuel p s = Ok SOF_TASK_STATE_COMPLETED s1 t1 /\
  copied t1 = [].
Proof.
  intros Hpl Hx Hrec Hr. split.
  - unfold pipeline_task. erewrite bind_get_ppl by exact Hpl.
    destruct (Z.eqb_spec (xrun_bytes pl) 0); [contradiction |].
    cbn [negb]. unfold bind at 1. unfold bind at 1. rewrite Hrec.
    unfold ret at 1. cbn [with_prefix].
    destruct (Z.ltb_spec r 0); [| lia].
    unfold ret. cbn. rewrite !app_nil_r. reflexivity.
  - destruct (has_pipeline_xrun_recover drv tk fuel p _ _ _ _ Hrec)
      as [_ HF].
    clear Hrec. induction HF as [| e l He _ IH]; [reflexivity |].
    destruct e; cbn in *; try assumption.
    destruct He as [He | He]; cbn in He; contradiction.
Qed.

Lemma pipeline_task_skips_copy_witness :
  result (pipeline_task failing_prepare_drv (fun _ => true) 5 0 xrun_chain)
  = Some SOF_TASK_STATE_COMPLETED.
Proof.
  destruct (pipeline_xrun_recover failing_prepare_drv (fun _ => true) 5 0
              xrun_chain) as [r s1 t1 | |] eqn:E;
    [| vm_compute in E; discriminate E | vm_compute in E; discriminate E].
  assert (Hr : r < 0).
  { pose proof E as E'. vm_compute in E'. injection E' as <- _ _. lia. }
  rewrite (proj1 (pipeline_task_skips_copy failing_prepare_drv
                    (fun _ => true) 5 0 xrun_chain s1
                    (chain_ppl COMP_STATE_PAUSED (-64)) r t1
                    ltac:(reflexivity) ltac:(vm_compute; congruence) E Hr)).
  reflexivity.
Defined.

(** X24. A component that finds fewer bytes than it needs reports an
    underrun, one that finds less room than it needs an overrun, the level
    and the request being 32-bit unsigned values less than 2^31 apart.
    Reported by an ACTIVE component on a pipeline without a pending XRUN, on
    a sound arena whose graph is well linked and acyclic in the directions
    of the source component of the pipeline and of the reporting component
    with a budget above the ranks of both, either call returns and leaves
    the pipeline with a pending XRUN whose count is the negative shortfall
    for an underrun and the positive excess for an overrun. *)
Theorem comp_xrun_reports (drv : nat -> comp_ops) (tk : nat -> bool)
    (fuel : nat) (dev p src_id : nat) (level copy_bytes : Z) (s : sys)
    (d src : comp_dev) (pl : pipeline) (rank_t rank_x : nat -> nat) :
  sound s ->
  comps s !! dev = Some d -> dev_pipeline d = Some p ->
  ppls s !! p = Some pl -> xrun_bytes pl = 0 ->
  state d = COMP_STATE_ACTIVE ->
  source_comp pl = Some src_id -> comps s !! src_id = Some src ->
  well_linked s (direction src) -> acyclic_by s (direction src) rank_t ->
  (rank_t src_id < fuel)%nat ->
  well_linked s (direction d) -> acyclic_by s (direction d) rank_x ->
  (rank_x dev < fuel)%nat ->
  0 <= level < copy_bytes -> copy_bytes - level < 2 ^ 31 ->
  (exists s' t pl',
     comp_underrun drv tk fuel dev level copy_bytes s = Ok tt s' t /\
     ppls s' !! p = Some pl' /\
     xrun_bytes pl' = level - copy_bytes /\ xrun_bytes pl' < 0) /\
  (exists s' t pl',
     comp_overrun drv tk fuel dev level copy_bytes s = Ok tt s' t /\
     ppls s' !! p = Some pl' /\
     xrun_bytes pl' = copy_bytes - level /\ 0 < xrun_bytes pl').
Proof.
  intros Hs Hd Hp Hpl Hx Hst Hsrc Hsrc0 Hlt Hat Hrt Hlx Hax Hrx Hl Hc.
  destruct (xrun_bytes_values level copy_bytes Hl Hc) as [Eu Eo].
  assert (Hrun : forall bytes,
            exists s' t pl',
              pipeline_xrun drv tk fuel p dev bytes s = Ok tt s' t /\
              ppls s' !! p = Some pl' /\ xrun_bytes pl' = bytes).
  { intros bytes.
    destruct (pipeline_xrun_returns drv tk s Hs fuel p dev bytes pl d src
                src_id rank_t rank_x Hpl Hd Hsrc Hsrc0 Hlt Hat Hrt Hlx Hax
                Hrx) as ([] & s' & t & H).
    destruct (pipeline_xrun_sets_bytes drv tk fuel p dev bytes s s' pl d t
                Hpl Hx Hd Hst H) as [(pl' & H1 & H2 & _) _].
    exists s', t, pl'. auto. }
  split.
  - destruct (Hrun (underrun_bytes level copy_bytes))
      as (s' & t & pl' & H & H1 & H2).
    exists s', (EvTraceError 0 :: t), pl'.
    split; [| split; [exact H1 | rewrite H2, Eu; lia]].
    unfold comp_underrun. erewrite bind_get_comp by exact Hd.
    rewrite bind_emit, Hp, bind_deref, H. reflexivity.
  - destruct (Hrun (overrun_bytes level copy_bytes))
      as (s' & t & pl' & H & H1 & H2).
    exists s', (EvTraceError 0 :: t), pl'.
    split; [| split; [exact H1 | rewrite H2, Eo; lia]].
    unfold comp_overrun. erewrite bind_get_comp by exact Hd.
    rewrite bind_emit, Hp, bind_deref, H. reflexivity.
Qed.

Lemma comp_xrun_reports_witness :
  exists s' t pl',
    comp_underrun (fun _ => fsm_driver 0) (fun _ => true) 5 2 128 512
      active_chain = Ok tt s' t /\
    ppls s' !! 0%nat = Some pl' /\ xrun_bytes pl' = -384.
Proof.
  destruct (proj1 (comp_xrun_reports (fun _ => fsm_driver 0) (fun _ => true)
                     5 2 0 1 128 512 active_chain
                     (chain_volume COMP_STATE_ACTIVE)
                     (chain_host COMP_STATE_ACTIVE)
                     (chain_ppl COMP_STATE_ACTIVE 0) chain_rank chain_rank
                     active_chain_sound
                     ltac:(reflexivity) ltac:(reflexivity)
                     ltac:(reflexivity) ltac:(reflexivity)
                     ltac:(reflexivity) ltac:(reflexivity)
                     ltac:(reflexivity)
                     (proj1 active_chain_graph) (proj2 active_chain_graph)
                     ltac:(cbn; lia)
                     (proj1 active_chain_graph) (proj2 active_chain_graph)
                     ltac:(cbn; lia) ltac:(lia) ltac:(cbn; lia)))
    as (s' & t & pl' & H & H1 & H2 & _).
  exists s', t, pl'. auto.
Defined.
(** ** Pipeline completion *)

Lemma same_graph_set_dev_pipeline s0 s c d p :
  same_graph s0 s -> comps s !! c = Some d ->
  same_graph s0 (upd_comp s c (set_dev_pipeline d p)).
Proof.
  intros [Hl Hb] Hd. split; [| exact Hb].
  rewrite <- Hl. unfold links, upd_comp. cbn [comps].
  rewrite fmap_insert. apply insert_id.
  rewrite lookup_fmap, Hd. reflexivity.
Qed.

Lemma same_graph_trans s0 s1 s2 :
  same_graph s0 s1 -> same_graph s1 s2 -> same_graph s0 s2.
Proof. intros [H1 H2] [H3 H4]. split; congruence. Qed.

Section Complete.

Variable p : nat.
Variable start_c : nat.
Variable k : Z.

(** What a completion walk does to the arena, given that the starting
    component has pipeline id [k]. *)
Let Q : sys -> sys -> list event -> Prop :=
  fun s s' t =>
    (forall st, comps s !! start_c = Some st -> comp_pipeline_id st = k) ->
    t = [] /\ bufs s' = bufs s /\ ppls s' = ppls s /\ links s' = links s /\
    forall c, option_Forall2 (claimed_by p k) (comps s !! c) (comps s' !! c).

Lemma claimed_by_refl d : claimed_by p k d d.
Proof. left. reflexivity. Qed.

Lemma claimed_by_trans d1 d2 d3 :
  claimed_by p k d1 d2 -> claimed_by p k d2 d3 -> claimed_by p k d1 d3.
Proof.
  intros [-> | [-> H1]] [-> | [-> H2]].
  - left. reflexivity.
  - right. auto.
  - right. auto.
  - right. split; [destruct d1; reflexivity | exact H1].
Qed.

Lemma claimed_by_id d d' :
  claimed_by p k d d' -> comp_pipeline_id d' = comp_pipeline_id d.
Proof. intros [-> | [-> _]]; reflexivity. Qed.

Lemma Q_complete_property : run_property Q.
Proof.
  split.
  - intros s _. repeat split; try reflexivity.
    intros c. apply option_Forall2_refl'. apply claimed_by_refl.
  - intros s s1 s2 t1 t2 H1 H2 Hk.
    destruct (H1 Hk) as (-> & Hb1 & Hp1 & Hl1 & Hc1).
    assert (Hk1 : forall st, comps s1 !! start_c = Some st ->
                             comp_pipeline_id st = k).
    { intros st1 Hst1. specialize (Hc1 start_c). rewrite Hst1 in Hc1.
      inversion Hc1 as [a b Hab Ea Eb |]. subst.
      rewrite (claimed_by_id _ _ Hab). apply Hk. congruence. }
    destruct (H2 Hk1) as (-> & Hb2 & Hp2 & Hl2 & Hc2).
    repeat split; try congruence.
    intros c. eapply option_Forall2_trans';
      [apply claimed_by_trans | apply Hc1 | apply Hc2].
Qed.

Lemma has_pipeline_comp_complete (fuel : nat) (data : pipeline_data) :
  start data = start_c -> data_p data = p ->
  forall c dir, run_has Q (pipeline_comp_complete fuel data c dir).
Proof.
  intros Hstart Hp. pose proof Q_complete_property as HQ.
  induction fuel as [| fuel IH]; intros c dir.
  - intros s a s' t H. discriminate.
  - intros s a s' t H. cbn [pipeline_comp_complete] in H.
    rewrite Hstart, Hp in H.
    apply bind_inv in H. destruct H as (cur & s0 & t0 & t1 & H0 & H & ->).
    apply get_comp_inv in H0. destruct H0 as (Hcur & -> & ->).
    apply bind_inv in H. destruct H as (st & s0 & t0 & t2 & H0 & H & ->).
    apply get_comp_inv in H0. destruct H0 as (Hst & -> & ->).
    cbn [app].
    destruct (comp_is_single_pipeline cur st) eqn:Es; cbn [negb] in H.
    2: { minv. apply HQ. }
    apply bind_inv in H. destruct H as (u & s1 & t3 & t4 & H0 & H & ->).
    apply put_comp_inv in H0. destruct H0 as (-> & ->). cbn [app].
    destruct HQ as [_ Happ].
    change t4 with ([] ++ t4).
    eapply (Happ s (upd_comp s c (set_dev_pipeline cur (Some p))) s').
    + intros Hk. split; [reflexivity |]. split; [reflexivity |].
      split; [reflexivity |]. split.
      * eapply (proj1 (same_graph_set_dev_pipeline s s c cur (Some p)
                         (same_graph_refl s) Hcur)).
      * intros x. unfold upd_comp. cbn [comps].
        destruct (decide (x = c)) as [-> | Hne].
        -- rewrite lookup_insert_eq, Hcur. constructor. right.
           split; [reflexivity |].
           unfold comp_is_single_pipeline in Es. apply Z.eqb_eq in Es.
           rewrite Es. apply Hk. exact Hst.
        -- rewrite lookup_insert_ne by congruence.
           apply option_Forall2_refl'. apply claimed_by_refl.
    + assert (Hrun : run_has Q
                (pipeline_for_each_comp c
                   (Some (pipeline_comp_complete fuel data)) None dir ;;;
                 ret 0)).
      { apply has_bind; [apply Q_complete_property | |].
        - apply has_for_each_comp;
            [apply Q_complete_property | | left; reflexivity].
          intros c'. apply IH.
        - intros _. apply has_ret. apply Q_complete_property. }
      exact (Hrun _ _ _ _ H).
Qed.

End Complete.

Section CompleteReturns.

Variable s0 : sys.
Variable dir : Z.
Variable rank : nat -> nat.
Hypothesis Hacyclic : acyclic_by s0 dir rank.
Hypothesis Hlinked : well_linked s0 dir.

Lemma complete_keeps_graph (fuel : nat) (data : pipeline_data) :
  keeps_graph s0 dir (pipeline_comp_complete fuel data).
Proof.
  intros c s r s' t Hg H.
  pose proof (has_pipeline_comp_complete (data_p data) (start data)
                (match comps s !! start data with
                 | Some st => comp_pipeline_id st
                 | None => 0
                 end) fuel data eq_refl eq_refl c dir s r s' t H) as HQ.
  destruct HQ as (_ & Hb & _ & Hl & _).
  { intros st ->. reflexivity. }
  destruct Hg as [Hl0 Hb0]. split; [congruence |].
  unfold buf_ends in *. rewrite Hb. exact Hb0.
Qed.

Lemma pipeline_comp_complete_returns (data : pipeline_data) (fuel : nat) :
  is_Some (links s0 !! start data) ->
  forall c s, same_graph s0 s -> is_Some (links s0 !! c) ->
              (rank c < fuel)%nat ->
              returns (pipeline_comp_complete fuel data c dir) s.
Proof.
  pose proof (fun s => same_graph_sub_graph s0 s dir) as Hsub.
  pose proof (buffer_reset_pos_graph s0) as Hreset.
  intros Hst. induction fuel as [| fuel IH]; intros c s Hg Hex Hrk; [lia |].
  cbn [pipeline_comp_complete]. unfold returns.
  destruct (comp_of_link s0 dir (same_graph s0) Hsub s c Hg Hex)
    as (d & l0 & Hd & _).
  destruct (comp_of_link s0 dir (same_graph s0) Hsub s _ Hg Hst)
    as (st & l1 & Hs & _).
  erewrite bind_get_comp by exact Hd.
  erewrite bind_get_comp by exact Hs.
  destruct (negb _); [apply returns_ret |].
  rewrite bind_put_comp. cbv beta.
  assert (Hg1 : same_graph s0
                  (upd_comp s c
                     (set_dev_pipeline d (Some (data_p data))))).
  { apply same_graph_set_dev_pipeline; assumption. }
  apply returns_bind; [| intros; apply returns_ret].
  apply (for_each_comp_returns s0 dir rank Hacyclic Hlinked (same_graph s0)
           Hsub (fun s b => Hreset b s) fuel); try assumption.
  - left. reflexivity.
  - apply complete_keeps_graph.
Qed.

End CompleteReturns.

(** X25. [pipeline_complete].  On a pipeline that is not in INIT it fails
    with -EINVAL and changes nothing.  On a pipeline in INIT, over a
    well-linked acyclic graph, it returns 0: the pipeline is READY with the
    given source and sink, the source component belongs to it, every
    component is either untouched or now belongs to it, and only components
    with the pipeline id of the source are claimed; states, links and buffers
    are unchanged and no external call is made. *)
Theorem pipeline_complete_assigns (fuel : nat) (p source sink : nat)
    (s : sys) (pl : pipeline) (src : comp_dev) (rank : nat -> nat) :
  ppls s !! p = Some pl -> comps s !! source = Some src ->
  (status pl <> COMP_STATE_INIT ->
   pipeline_complete fuel p source sink s
   = Ok (- EINVAL) s [EvTraceError (- EINVAL)]) /\
  (status pl = COMP_STATE_INIT ->
   well_linked s PPL_DIR_DOWNSTREAM ->
   acyclic_by s PPL_DIR_DOWNSTREAM rank -> (rank source < fuel)%nat ->
   exists s',
     pipeline_complete fuel p source sink s = Ok 0 s' [] /\
     bufs s' = bufs s /\ links s' = links s /\
     ppls s'
     = <[p := set_endpoints pl source sink COMP_STATE_READY]> (ppls s) /\
     comps s' !! source = Some (set_dev_pipeline src (Some p)) /\
     forall c d, comps s !! c = Some d ->
       comps s' !! c = Some d \/
       (comps s' !! c = Some (set_dev_pipeline d (Some p)) /\
        comp_pipeline_id d = comp_pipeline_id src)).
Proof.
  intros Hpl Hsrc. split.
  - intros Hst. unfold pipeline_complete.
    erewrite bind_get_ppl by exact Hpl.
    destruct (Z.eqb_spec (status pl) COMP_STATE_INIT); [contradiction |].
    cbn [negb]. rewrite bind_emit. reflexivity.
  - intros Hst Hlinked Hacyclic Hrk. unfold pipeline_complete.
    erewrite bind_get_ppl by exact Hpl. rewrite Hst.
    change (negb (COMP_STATE_INIT =? COMP_STATE_INIT)) with false.
    cbv iota.
    set (data := {| start := source; posn := dummy_posn; data_p := p;
                    cmd := 0 |}).
    assert (Hex : is_Some (links s !! source)).
    { unfold links. rewrite lookup_fmap, Hsrc. eexists. reflexivity. }
    destruct (pipeline_comp_complete_returns s PPL_DIR_DOWNSTREAM rank
                Hacyclic Hlinked data fuel Hex source s
                (same_graph_refl s) Hex Hrk) as (e & s1 & t1 & Hw).
    pose proof (has_pipeline_comp_complete p source (comp_pipeline_id src)
                  fuel data eq_refl eq_refl source PPL_DIR_DOWNSTREAM
                  s e s1 t1 Hw) as HQ.
    destruct HQ as (-> & Hb & Hp & Hl & Hc).
    { intros st Hst'. congruence. }
    rewrite (bind_ok _ _ _ _ _ _ Hw). cbn [with_prefix].
    assert (Hpl1 : ppls s1 !! p = Some pl) by (rewrite Hp; exact Hpl).
    erewrite bind_get_ppl by exact Hpl1.
    rewrite bind_put_ppl. cbv beta. unfold ret. cbn [with_prefix app].
    eexists. split; [reflexivity |].
    unfold upd_ppl. cbn [bufs ppls comps].
    split; [exact Hb |]. split; [exact Hl |].
    split; [rewrite Hp; reflexivity |].
    assert (Hall : forall c d, comps s !! c = Some d ->
              comps s1 !! c = Some d \/
              (comps s1 !! c = Some (set_dev_pipeline d (Some p)) /\
               comp_pipeline_id d = comp_pipeline_id src)).
    { intros c d Hd. specialize (Hc c). rewrite Hd in Hc.
      inversion Hc as [a b Hab Ea Eb |]. subst a.
      destruct Hab as [-> | [-> Hid]]; [left | right]; auto. }
    split; [| exact Hall].
    (* the source is claimed first and stays so *)
    clear Hall Hc.
    unfold data in Hw. destruct fuel as [| fuel']; [lia |].
    cbn [pipeline_comp_complete start data_p] in Hw.
    erewrite bind_get_comp in Hw by exact Hsrc.
    erewrite bind_get_comp in Hw by exact Hsrc.
    unfold comp_is_single_pipeline in Hw. rewrite Z.eqb_refl in Hw.
    cbn [negb] in Hw. rewrite bind_put_comp in Hw. cbv beta in Hw.
    apply bind_inv in Hw. destruct Hw as (e1 & s2 & t2 & t3 & Hw & Hr & _).
    apply ret_inv in Hr. destruct Hr as (_ & -> & _).
    assert (Hrun : run_has
                     (fun s s' t =>
                        (forall st, comps s !! source = Some st ->
                                    comp_pipeline_id st
                                    = comp_pipeline_id src) ->
                        t = [] /\ bufs s' = bufs s /\ ppls s' = ppls s /\
                        links s' = links s /\
                        forall c, option_Forall2
                                    (claimed_by p (comp_pipeline_id src))
                                    (comps s !! c) (comps s' !! c))
                     (pipeline_for_each_comp source
                        (Some (pipeline_comp_complete fuel'
                                 {| start := source; posn := dummy_posn;
                                    data_p := p; cmd := 0 |}))
                        None PPL_DIR_DOWNSTREAM)).
    { apply has_for_each_comp;
        [apply Q_complete_property | | left; reflexivity].
      intros c'. apply has_pipeline_comp_complete; reflexivity. }
    destruct (Hrun _ _ _ _ Hw) as (_ & _ & _ & _ & Hc).
    { intros st. unfold upd_comp. cbn [comps]. rewrite lookup_insert_eq.
      intros [= <-]. reflexivity. }
    specialize (Hc source). unfold upd_comp in Hc. cbn [comps] in Hc.
    rewrite lookup_insert_eq in Hc.
    inversion Hc as [a b Hab Ea Eb |]. subst a.
    destruct Hab as [-> | [-> _]]; [reflexivity |].
    destruct src; reflexivity.
Qed.

Ltac list_cases :=
  repeat match goal with
  | H : _ ∈ _ :: _ |- _ => apply elem_of_cons in H as [-> | H]
  | H : _ ∈ [] |- _ => apply elem_of_nil in H; contradiction
  end.

Lemma new_chain_comp_keys c l :
  links new_chain !! c = Some l -> c = 1%nat \/ c = 2%nat \/ c = 3%nat.
Proof.
  intros Hl.
  assert (Hdom : c ∈ dom (links new_chain)) by (apply elem_of_dom; eauto).
  assert (Hkeys : dom (links new_chain) = {[1%nat; 2%nat; 3%nat]}).
  { unfold links, new_chain. cbn [comps]. rewrite dom_fmap_L.
    rewrite !dom_insert_L, dom_singleton_L.
    rewrite <- !(assoc_L (∪)). reflexivity. }
  rewrite Hkeys in Hdom.
  rewrite !elem_of_union, !elem_of_singleton in Hdom. tauto.
Qed.

Lemma new_chain_buf_keys b bd :
  bufs new_chain !! b = Some bd -> b = 10%nat \/ b = 11%nat.
Proof.
  intros Hb.
  assert (Hdom : b ∈ dom (bufs new_chain)) by (apply elem_of_dom; eauto).
  assert (Hkeys : dom (bufs new_chain) = {[10%nat; 11%nat]}).
  { unfold new_chain, active_chain, chain_sys. cbn [bufs].
    rewrite !dom_insert_L, dom_singleton_L. reflexivity. }
  rewrite Hkeys in Hdom.
  rewrite !elem_of_union, !elem_of_singleton in Hdom. tauto.
Qed.

Lemma new_chain_acyclic :
  acyclic_by new_chain PPL_DIR_DOWNSTREAM chain_rank.
Proof.
  intros c c' (l & b & bd & Hl & Hb & Hbd & Hc).
  destruct (new_chain_comp_keys c l Hl) as [-> | [-> | ->]];
    vm_compute in Hl; injection Hl as <-; cbn in Hb; list_cases;
    vm_compute in Hbd; injection Hbd as <-;
    vm_compute in Hc; injection Hc as <-;
    cbn; lia.
Qed.

Lemma new_chain_linked : well_linked new_chain PPL_DIR_DOWNSTREAM.
Proof.
  split.
  - intros c l b Hl Hb.
    destruct (new_chain_comp_keys c l Hl) as [-> | [-> | ->]];
      vm_compute in Hl; injection Hl as <-; cbn in Hb; list_cases;
      eexists; vm_compute; reflexivity.
  - intros b bd c' Hb Hc.
    destruct (new_chain_buf_keys b bd Hb) as [-> | ->];
      vm_compute in Hb; injection Hb as <-;
      vm_compute in Hc; injection Hc as <-;
      eexists; vm_compute; reflexivity.
Qed.

Lemma pipeline_complete_assigns_witness :
  exists s',
    pipeline_complete 3 0 1 3 new_chain = Ok 0 s' [] /\
    comps s' !! 1%nat
    = Some (set_dev_pipeline (unclaimed (chain_host COMP_STATE_READY))
              (Some 0%nat)).
Proof.
  destruct (proj2 (pipeline_complete_assigns 3 0 1 3 new_chain
                     {| sched_comp := 3%nat; source_comp := None;
                        sink_comp := None; status := COMP_STATE_INIT;
                        xrun_bytes := 0; pipe_task := false;
                        period := 1000 |}
                     (unclaimed (chain_host COMP_STATE_READY)) chain_rank
                     ltac:(reflexivity) ltac:(reflexivity))
              ltac:(reflexivity) new_chain_linked new_chain_acyclic
              ltac:(cbn; lia))
    as (s' & H1 & _ & _ & _ & H2 & _).
  exists s'. split; assumption.
Defined.

(** ** Pipeline free *)

Section Free.

Variable start_c : nat.
Variable k : Z.

Let Q : sys -> sys -> list event -> Prop :=
  fun s s' t =>
    (forall st, comps s !! start_c = Some st -> comp_pipeline_id st = k) ->
    t = [] /\ bufs s' = bufs s /\ ppls s' = ppls s /\
    forall c, option_Forall2 (released k) (comps s !! c) (comps s' !! c).

Lemma freed_idem d : freed (freed d) = freed d.
Proof. destruct d. reflexivity. Qed.

Lemma freed_unclaimed d : freed (set_dev_pipeline d None) = freed d.
Proof. destruct d. reflexivity. Qed.

Lemma released_refl d : released k d d.
Proof. left. reflexivity. Qed.

Lemma released_trans d1 d2 d3 :
  released k d1 d2 -> released k d2 d3 -> released k d1 d3.
Proof.
  intros [-> | [-> H1]] [-> | [-> H2]].
  - left. reflexivity.
  - right. auto.
  - right. auto.
  - right. split; [apply freed_idem | exact H1].
Qed.

Lemma released_id d d' :
  released k d d' -> comp_pipeline_id d' = comp_pipeline_id d.
Proof. intros [-> | [-> _]]; reflexivity. Qed.

Lemma Q_free_property : run_property Q.
Proof.
  split.
  - intros s _. repeat split; try reflexivity.
    intros c. apply option_Forall2_refl'. apply released_refl.
  - intros s s1 s2 t1 t2 H1 H2 Hk.
    destruct (H1 Hk) as (-> & Hb1 & Hp1 & Hc1).
    assert (Hk1 : forall st, comps s1 !! start_c = Some st ->
                             comp_pipeline_id st = k).
    { intros st1 Hst1. specialize (Hc1 start_c). rewrite Hst1 in Hc1.
      inversion Hc1 as [a b Hab Ea Eb |]. subst.
      rewrite (released_id _ _ Hab). apply Hk. congruence. }
    destruct (H2 Hk1) as (-> & Hb2 & Hp2 & Hc2).
    repeat split; try congruence.
    intros c. eapply option_Forall2_trans';
      [apply released_trans | apply Hc1 | apply Hc2].
Qed.

Lemma has_pipeline_comp_free (fuel : nat) (data : pipeline_data) :
  start data = start_c ->
  forall c, run_has Q (pipeline_comp_free fuel data c PPL_DIR_DOWNSTREAM).
Proof.
  intros Hstart. pose proof Q_free_property as HQ.
  induction fuel as [| fuel IH]; intros c.
  - intros s a s' t H. discriminate.
  - intros s a s' t H. cbn [pipeline_comp_free] in H.
    rewrite Hstart in H.
    apply bind_inv in H. destruct H as (cur & s0 & t0 & t1 & H0 & H & ->).
    apply get_comp_inv in H0. destruct H0 as (Hcur & -> & ->).
    apply bind_inv in H. destruct H as (st & s0 & t0 & t2 & H0 & H & ->).
    apply get_comp_inv in H0. destruct H0 as (Hst & -> & ->).
    cbn [app].
    destruct (comp_is_single_pipeline cur st) eqn:Es; cbn [negb] in H.
    2: { minv. apply HQ. }
    apply bind_inv in H. destruct H as (u & s1 & t3 & t4 & H0 & H & ->).
    apply put_comp_inv in H0. destruct H0 as (-> & ->). cbn [app].
    apply bind_inv in H. destruct H as (e & s2 & t5 & t6 & Hw & H & ->).
    apply bind_inv in H. destruct H as (cur' & s3 & t7 & t8 & H0 & H & ->).
    apply get_comp_inv in H0. destruct H0 as (Hcur' & -> & ->).
    apply bind_inv in H. destruct H as (u' & s4 & t9 & t10 & H0 & H & ->).
    apply put_comp_inv in H0. destruct H0 as (-> & ->).
    apply ret_inv in H. destruct H as (-> & -> & ->).
    cbn [app]. rewrite app_nil_r.
    intros Hk.
    assert (Hid : comp_pipeline_id cur = k).
    { unfold comp_is_single_pipeline in Es. apply Z.eqb_eq in Es.
      rewrite Es. apply Hk. exact Hst. }
    assert (Hrun : run_has Q
                (pipeline_for_each_comp c
                   (Some (pipeline_comp_free fuel data)) None
                   PPL_DIR_DOWNSTREAM)).
    { apply has_for_each_comp;
        [apply Q_free_property | | left; reflexivity].
      intros c'. apply IH. }
    destruct (Hrun _ _ _ _ Hw) as (-> & Hb & Hp & Hc).
    { intros st1. unfold upd_comp. cbn [comps].
      destruct (decide (start_c = c)) as [-> | Hne].
      - rewrite lookup_insert_eq. intros [= <-]. exact Hid.
      - rewrite lookup_insert_ne by congruence. apply Hk. }
    split; [reflexivity |]. split; [exact Hb |]. split; [exact Hp |].
    intros x. unfold upd_comp in *. cbn [comps] in *.
    destruct (decide (x = c)) as [-> | Hne].
    + rewrite lookup_insert_eq, Hcur. constructor. right.
      split; [| exact Hid].
      specialize (Hc c). rewrite lookup_insert_eq, Hcur' in Hc.
      inversion Hc as [a b Hab Ea Eb |]. subst a b.
      destruct Hab as [-> | [-> _]].
      * reflexivity.
      * destruct cur. reflexivity.
    + rewrite lookup_insert_ne by congruence.
      specialize (Hc x). rewrite lookup_insert_ne in Hc by congruence.
      exact Hc.
Qed.

End Free.

(** What [pipeline_free] has done when it returns. *)
Lemma pipeline_free_result (fuel : nat) (p : nat) (s s' : sys)
    (pl : pipeline) (r : Z) (t : list event) :
  ppls s !! p = Some pl ->
  pipeline_free fuel p s = Ok r s' t ->
  (r = 0 \/ r = - EBUSY) /\
  (r = 0 ->
   ppls s' = delete p (ppls s) /\ bufs s' = bufs s /\
   t = (if pipe_task pl then [EvTaskFree p] else []) /\
   forall c d, comps s !! c = Some d ->
     comps s' !! c = Some d \/
     (comps s' !! c = Some (freed d) /\
      exists src_id src, source_comp pl = Some src_id /\
                         comps s !! src_id = Some src /\
                         comp_pipeline_id d = comp_pipeline_id src)).
Proof.
  intros Hpl H. unfold pipeline_free in H.
  erewrite bind_get_ppl in H by exact Hpl.
  apply bind_inv in H. destruct H as (busy & s1 & t1 & t2 & Hb & H & ->).
  destruct (source_comp pl) as [src_id |] eqn:Esrc.
  - apply bind_inv in Hb. destruct Hb as (src & s0 & t0 & t3 & H0 & Hb & ->).
    apply get_comp_inv in H0. destruct H0 as (Hsrc & -> & ->).
    cbn [app] in *.
    destruct (state src >? COMP_STATE_READY).
    + minv. unfold EBUSY. split; [right; reflexivity |]. intros; lia.
    + apply bind_inv in Hb.
      destruct Hb as (e & s2 & t4 & t5 & Hw & Hb & ->).
      apply ret_inv in Hb. destruct Hb as (-> & -> & ->).
      pose proof (has_pipeline_comp_free src_id (comp_pipeline_id src)
                    fuel
                    {| start := src_id; posn := dummy_posn; data_p := p;
                       cmd := 0 |} eq_refl src_id _ _ _ _ Hw) as HQ.
      destruct HQ as (-> & Hbf & Hpp & Hc).
      { intros st Hst. congruence. }
      apply bind_inv in H. destruct H as (u & s3 & t6 & t7 & Ht & H & ->).
      assert (Htask : s3 = s2 /\
                      t6 = if pipe_task pl then [EvTaskFree p] else []).
      { destruct (pipe_task pl); minv; auto. }
      destruct Htask as [-> ->].
      unfold free_ppl in H. unfold bind, ret in H. cbn in H.
      injection H as <- <- <-.
      split; [left; reflexivity |]. intros _.
      unfold del_ppl. cbn [ppls bufs comps].
      split; [rewrite Hpp; reflexivity |]. split; [exact Hbf |].
      split; [rewrite !app_nil_r; reflexivity |].
      intros c d Hd. specialize (Hc c). rewrite Hd in Hc.
      inversion Hc as [a b Hab Ea Eb |]. subst a.
      destruct Hab as [-> | [-> Hid]]; [left; reflexivity |].
      right. split; [reflexivity |]. exists src_id, src. auto.
  - apply ret_inv in Hb. destruct Hb as (-> & -> & ->).
    apply bind_inv in H. destruct H as (u & s3 & t6 & t7 & Ht & H & ->).
    assert (Htask : s3 = s /\
                    t6 = if pipe_task pl then [EvTaskFree p] else []).
    { destruct (pipe_task pl); minv; auto. }
    destruct Htask as [-> ->].
    unfold free_ppl in H. unfold bind, ret in H. cbn in H.
    injection H as <- <- <-.
    split; [left; reflexivity |]. intros _.
    unfold del_ppl. cbn [ppls bufs comps].
    split; [reflexivity |]. split; [reflexivity |].
    split; [rewrite !app_nil_r; reflexivity |].
    intros c d Hd. left. exact Hd.
Qed.

(** The free walk only removes links. *)
Lemma sub_graph_refl s dir : sub_graph s s dir.
Proof. apply same_graph_sub_graph, same_graph_refl. Qed.

Lemma sub_graph_trans s0 s1 s2 dir :
  sub_graph s0 s1 dir -> sub_graph s1 s2 dir -> sub_graph s0 s2 dir.
Proof.
  intros [He1 Hl1] [He2 Hl2]. split; [congruence |]. intros c.
  eapply option_Forall2_trans'; [| apply Hl1 | apply Hl2].
  intros a b c' Hab Hbc x Hx. apply Hab, Hbc, Hx.
Qed.

Lemma sub_graph_upd_comp s c d d' dir :
  comps s !! c = Some d ->
  comp_buffer_list d' dir ⊆ comp_buffer_list d dir ->
  sub_graph s (upd_comp s c d') dir.
Proof.
  intros Hd Hsub. split; [reflexivity |]. intros x.
  unfold links, upd_comp. cbn [comps]. rewrite !lookup_fmap.
  destruct (decide (x = c)) as [-> | Hne].
  - rewrite lookup_insert_eq, Hd. constructor.
    rewrite <- !comp_buffer_list_links. exact Hsub.
  - rewrite lookup_insert_ne by congruence.
    apply option_Forall2_refl'. intros l b Hb. exact Hb.
Qed.

Lemma sub_graph_reset_pos s0 dir s b u s' t :
  sub_graph s0 s dir -> buffer_reset_pos b s = Ok u s' t ->
  sub_graph s0 s' dir.
Proof.
  intros HI H. eapply sub_graph_trans; [exact HI |].
  apply same_graph_sub_graph.
  eapply buffer_reset_pos_graph; [apply same_graph_refl | exact H].
Qed.

Lemma free_keeps_sub_graph (fuel : nat) (data : pipeline_data) c s r s' t :
  pipeline_comp_free fuel data c PPL_DIR_DOWNSTREAM s = Ok r s' t ->
  sub_graph s s' PPL_DIR_DOWNSTREAM.
Proof.
  intros H.
  pose proof (has_pipeline_comp_free (start data)
                (match comps s !! start data with
                 | Some st => comp_pipeline_id st
                 | None => 0
                 end) fuel data eq_refl c s r s' t H) as HQ.
  destruct HQ as (_ & Hb & _ & Hc).
  { intros st ->. reflexivity. }
  split; [unfold buf_ends; rewrite Hb; reflexivity |].
  intros x. unfold links. rewrite !lookup_fmap.
  destruct (Hc x) as [d d' Hrel |]; [| constructor].
  constructor. destruct Hrel as [-> | [-> _]].
  - intros b Hb'. exact Hb'.
  - intros b Hb'. destruct d. cbn in Hb'. inversion Hb'.
Qed.

Section FreeReturns.

Variable s0 : sys.
Variable rank : nat -> nat.
Hypothesis Hacyclic : acyclic_by s0 PPL_DIR_DOWNSTREAM rank.
Hypothesis Hlinked : well_linked s0 PPL_DIR_DOWNSTREAM.

Let Inv : sys -> Prop := fun s => sub_graph s0 s PPL_DIR_DOWNSTREAM.

Lemma pipeline_comp_free_returns (data : pipeline_data) (fuel : nat) :
  is_Some (links s0 !! start data) ->
  forall c s, Inv s -> is_Some (links s0 !! c) -> (rank c < fuel)%nat ->
              returns (pipeline_comp_free fuel data c PPL_DIR_DOWNSTREAM) s.
Proof.
  pose proof (fun s (H : Inv s) => H) as Hsub.
  pose proof (sub_graph_reset_pos s0 PPL_DIR_DOWNSTREAM) as Hreset.
  intros Hst. induction fuel as [| fuel IH]; intros c s HI Hex Hrk; [lia |].
  cbn [pipeline_comp_free]. unfold returns.
  destruct (comp_of_link s0 PPL_DIR_DOWNSTREAM Inv Hsub s c HI Hex)
    as (d & l0 & Hd & _).
  destruct (comp_of_link s0 PPL_DIR_DOWNSTREAM Inv Hsub s _ HI Hst)
    as (st & l1 & Hs & _).
  erewrite bind_get_comp by exact Hd.
  erewrite bind_get_comp by exact Hs.
  destruct (negb _); [apply returns_ret |].
  rewrite bind_put_comp. cbv beta.
  assert (HI1 : Inv (upd_comp s c (set_dev_pipeline d None))).
  { eapply sub_graph_trans; [exact HI |].
    eapply sub_graph_upd_comp; [exact Hd |]. intros b Hb. exact Hb. }
  apply returns_bind.
  { apply (for_each_comp_returns s0 PPL_DIR_DOWNSTREAM rank Hacyclic Hlinked
             Inv Hsub Hreset fuel); try assumption.
    - left. reflexivity.
    - intros c' s' r s'' t HI' Hcall.
      eapply sub_graph_trans; [exact HI' |].
      eapply free_keeps_sub_graph. exact Hcall. }
  intros e s2 t2 Hwalk.
  assert (HI2 : Inv s2).
  { eapply sub_graph_trans; [exact HI1 |].
    assert (Hrun : run_has
                     (fun s s' _ => sub_graph s s' PPL_DIR_DOWNSTREAM)
                     (pipeline_for_each_comp c
                        (Some (pipeline_comp_free fuel data)) None
                        PPL_DIR_DOWNSTREAM)).
    { apply has_for_each_comp; [| | left; reflexivity].
      - split; [intros; apply sub_graph_refl |].
        intros; eapply sub_graph_trans; eassumption.
      - intros c' sa a sb tb Hcall.
        eapply free_keeps_sub_graph. exact Hcall. }
    exact (Hrun _ _ _ _ Hwalk). }
  destruct (comp_of_link s0 PPL_DIR_DOWNSTREAM Inv Hsub s2 c HI2 Hex)
    as (d2 & l2 & Hd2 & _).
  unfold returns. erewrite bind_get_comp by exact Hd2.
  rewrite bind_put_comp. apply returns_ret.
Qed.

End FreeReturns.

(** X26. [pipeline_free] on a graph that is well linked and acyclic
    DOWNSTREAM, with the source component of the pipeline, if it has one, in
    the arena and a budget above its rank: the call returns, and what it
    returns is 0 or -EBUSY.  When it returns 0 the pipeline is gone from the
    arena and its task was released exactly if it had one; the other
    pipelines and all buffers are untouched; every component is either
    untouched or freed (no pipeline, sink buffers unlinked, state and source
    buffers as before), and only components with the pipeline id of the
    source component are freed. *)
Theorem pipeline_free_releases (fuel : nat) (p : nat) (s : sys)
    (pl : pipeline) (rank : nat -> nat) :
  ppls s !! p = Some pl ->
  (forall src_id, source_comp pl = Some src_id ->
     is_Some (comps s !! src_id) /\ (rank src_id < fuel)%nat) ->
  well_linked s PPL_DIR_DOWNSTREAM ->
  acyclic_by s PPL_DIR_DOWNSTREAM rank ->
  exists r s' t,
    pipeline_free fuel p s = Ok r s' t /\
    (r = 0 \/ r = - EBUSY) /\
    (r = 0 ->
     ppls s' = delete p (ppls s) /\ bufs s' = bufs s /\
     t = (if pipe_task pl then [EvTaskFree p] else []) /\
     forall c d, comps s !! c = Some d ->
       comps s' !! c = Some d \/
       (comps s' !! c = Some (freed d) /\
        exists src_id src, source_comp pl = Some src_id /\
                           comps s !! src_id = Some src /\
                           comp_pipeline_id d = comp_pipeline_id src)).
Proof.
  intros Hpl Hsrc Hlinked Hacyclic.
  assert (Hret : returns (pipeline_free fuel p) s).
  { unfold returns, pipeline_free. erewrite bind_get_ppl by exact Hpl.
    apply returns_bind.
    - destruct (source_comp pl) as [src_id |]; [| apply returns_ret].
      destruct (Hsrc src_id eq_refl) as [[src Hs] Hrk].
      unfold returns. erewrite bind_get_comp by exact Hs.
      destruct (state src >? COMP_STATE_READY).
      + apply returns_bind; [apply returns_emit | intros; apply returns_ret].
      + apply returns_bind; [| intros; apply returns_ret].
        apply (pipeline_comp_free_returns s rank Hacyclic Hlinked);
          cbn [start];
          [apply link_of_comp; eauto | apply sub_graph_refl
          | apply link_of_comp; eauto | exact Hrk].
    - intros busy s1 t1 _. destruct busy; [apply returns_ret |].
      apply returns_bind.
      { destruct (pipe_task pl); [apply returns_emit | apply returns_ret]. }
      intros u s2 t2 _. apply returns_bind; [| intros; apply returns_ret].
      eexists _, _, _. reflexivity. }
  destruct Hret as (r & s' & t & H). exists r, s', t.
  split; [exact H |]. eapply pipeline_free_result; eassumption.
Qed.

Lemma ready_chain_graph :
  well_linked (chain_sys COMP_STATE_READY COMP_STATE_READY COMP_STATE_READY
                 COMP_STATE_READY 0) PPL_DIR_DOWNSTREAM /\
  acyclic_by (chain_sys COMP_STATE_READY COMP_STATE_READY COMP_STATE_READY
                COMP_STATE_READY 0) PPL_DIR_DOWNSTREAM chain_rank.
Proof. apply graph_ok_spec. vm_compute. reflexivity. Qed.

Lemma pipeline_free_releases_witness :
  exists s' t,
    pipeline_free 5 0 (chain_sys COMP_STATE_READY COMP_STATE_READY
                         COMP_STATE_READY COMP_STATE_READY 0) = Ok 0 s' t /\
    ppls s' = ∅.
Proof.
  destruct (pipeline_free_releases 5 0
              (chain_sys COMP_STATE_READY COMP_STATE_READY COMP_STATE_READY
                 COMP_STATE_READY 0)
              (chain_ppl COMP_STATE_READY 0) chain_rank
              ltac:(reflexivity)
              ltac:(intros src_id [= <-];
                    split; [eexists; reflexivity | cbn; lia])
              (proj1 ready_chain_graph) (proj2 ready_chain_graph))
    as (r & s' & t & H & _ & H0).
  assert (Hr : r = 0).
  { pose proof H as E. vm_compute in E. injection E as <- _ _. reflexivity. }
  subst r. destruct (H0 eq_refl) as (Hp & _).
  exists s', t. split; [exact H |]. rewrite Hp. vm_compute. reflexivity.
Defined.
(** ** The copy cycle stays inside its pipeline *)

Section CopyWithin.

Variable drv : nat -> comp_ops.
Variable start_c : nat.

Let Q : sys -> sys -> list event -> Prop :=
  fun s s' t =>
    forall k,
      (forall st, comps s !! start_c = Some st -> comp_pipeline_id st = k) ->
      only_states eq eq s s' /\ Forall (copies_within s k) t.

Lemma same_but_state_id d d' :
  same_but_state d d' -> comp_pipeline_id d' = comp_pipeline_id d.
Proof. unfold same_but_state. intros ->. reflexivity. Qed.

Lemma copies_within_back s s1 k e :
  only_states eq eq s s1 -> copies_within s1 k e -> copies_within s k e.
Proof.
  intros (_ & Hc & _) He. destruct e; cbn in *; auto.
  destruct He as (d1 & Hd1 & Hid). specialize (Hc c). rewrite Hd1 in Hc.
  inversion Hc as [d b Hs Ea Eb |]. subst b.
  exists d. split; [congruence |].
  rewrite <- (same_but_state_id _ _ Hs). exact Hid.
Qed.

Lemma start_id_kept s s1 k :
  only_states eq eq s s1 ->
  (forall st, comps s !! start_c = Some st -> comp_pipeline_id st = k) ->
  forall st, comps s1 !! start_c = Some st -> comp_pipeline_id st = k.
Proof.
  intros (_ & Hc & _) Hk st1 Hst1. specialize (Hc start_c).
  rewrite Hst1 in Hc. inversion Hc as [d b Hs Ea Eb |]. subst b.
  rewrite (same_but_state_id _ _ Hs). apply Hk. congruence.
Qed.

Lemma Q_within_property : run_property Q.
Proof.
  split.
  - intros s k _. split; [| constructor].
    apply only_states_refl. split; reflexivity.
  - intros s s1 s2 t1 t2 H1 H2 k Hk.
    destruct (H1 k Hk) as [Ho1 F1].
    destruct (H2 k (start_id_kept s s1 k Ho1 Hk)) as [Ho2 F2].
    split.
    + eapply only_states_trans; [| exact Ho1 | exact Ho2].
      split; intros a b c; congruence.
    + apply Forall_app. split; [exact F1 |].
      eapply Forall_impl; [exact F2 |].
      intros e. apply copies_within_back. exact Ho1.
Qed.

Lemma comp_copy_within c d s r s' t :
  comps s !! c = Some d ->
  (forall k,
     (forall st, comps s !! start_c = Some st -> comp_pipeline_id st = k) ->
     comp_pipeline_id d = k) ->
  comp_copy drv c s = Ok r s' t -> Q s s' t.
Proof.
  intros Hd Hid H k Hk.
  destruct (has_comp_copy drv c _ _ _ _ H) as [Ho _]. split; [exact Ho |].
  unfold comp_copy in H. erewrite bind_get_comp in H by exact Hd.
  apply run_hook_inv in H. destruct H as (_ & _ & ->).
  constructor; [| constructor]. cbn. exists d. split; [exact Hd |].
  apply Hid. exact Hk.
Qed.

Lemma has_copy_within (fuel : nat) (data : pipeline_data) :
  start data = start_c ->
  forall c dir, run_has Q (pipeline_comp_copy drv fuel data c dir).
Proof.
  intros Hstart. pose proof Q_within_property as HQ.
  induction fuel as [| fuel IH]; intros c dir.
  - intros s a s' t H. discriminate.
  - intros s a s' t H. cbn [pipeline_comp_copy] in H. rewrite Hstart in H.
    apply bind_inv in H. destruct H as (cur & s0 & t0 & t1 & H0 & H & ->).
    apply get_comp_inv in H0. destruct H0 as (Hcur & -> & ->).
    apply bind_inv in H. destruct H as (st & s0 & t0 & t2 & H0 & H & ->).
    apply get_comp_inv in H0. destruct H0 as (Hst & -> & ->).
    cbn [app].
    destruct (comp_is_single_pipeline cur st) eqn:Es; cbn [negb] in H.
    2: { minv. apply HQ. }
    destruct (negb (comp_is_active cur)); [minv; apply HQ |].
    assert (Hid : forall k,
              (forall st', comps s !! start_c = Some st' ->
                           comp_pipeline_id st' = k) ->
              comp_pipeline_id cur = k).
    { intros k Hk. unfold comp_is_single_pipeline in Es.
      apply Z.eqb_eq in Es. rewrite Es. apply Hk. exact Hst. }
    destruct HQ as [Hnil Happ].
    apply bind_inv in H. destruct H as (e1 & s1 & t3 & t4 & H1 & H & ->).
    assert (Q1 : Q s s1 t3).
    { destruct (dir =? PPL_DIR_DOWNSTREAM).
      - eapply (comp_copy_within c cur); eassumption.
      - minv. apply Hnil. }
    eapply Happ; [exact Q1 |].
    destruct (_ && _); [minv; apply Hnil |].
    apply bind_inv in H. destruct H as (e2 & s2 & t5 & t6 & H2 & H & ->).
    assert (Q2 : Q s1 s2 t5).
    { revert H2. apply has_for_each_comp;
        [apply Q_within_property | | left; reflexivity].
      intros c'. apply IH. }
    eapply Happ; [exact Q2 |].
    destruct (walk_ends e2); [minv; apply Hnil |].
    destruct (dir =? PPL_DIR_UPSTREAM); [| minv; apply Hnil].
    (* the hook of the component itself, after its sources *)
    assert (Q02 : Q s s2 (t3 ++ t5)) by (eapply Happ; eassumption).
    destruct (comps s2 !! c) as [cur2 |] eqn:Hcur2.
    2: { unfold comp_copy in H.
         unfold bind at 1 in H. unfold get_comp, deref in H.
         rewrite Hcur2 in H. discriminate H. }
    eapply (comp_copy_within c cur2); [exact Hcur2 | | exact H].
    intros k Hk2.
    (* ids are those of the arena the walk started in *)
    assert (Hcur_id : comp_pipeline_id cur2 = comp_pipeline_id cur).
    { destruct (Q02 (comp_pipeline_id st)) as [(_ & Hc & _) _].
      { intros st' Hst'. congruence. }
      specialize (Hc c). rewrite Hcur, Hcur2 in Hc.
      inversion Hc as [x y Hs Ea Eb |]. subst.
      apply same_but_state_id. exact Hs. }
    assert (Hst_id : exists st2, comps s2 !! start_c = Some st2 /\
                                 comp_pipeline_id st2 = comp_pipeline_id st).
    { destruct (Q02 (comp_pipeline_id st)) as [(_ & Hc & _) _].
      { intros st' Hst'. congruence. }
      specialize (Hc start_c). rewrite Hst in Hc.
      inversion Hc as [x y Hs Ea Eb |]. subst.
      eexists. split; [reflexivity |]. apply same_but_state_id. exact Hs. }
    destruct Hst_id as (st2 & Hst2 & Hid2).
    rewrite Hcur_id. unfold comp_is_single_pipeline in Es.
    apply Z.eqb_eq in Es. rewrite Es, <- Hid2. apply Hk2. exact Hst2.
Qed.

End CopyWithin.

(** X27. A copy cycle stays inside its pipeline: every component whose copy
    hook [pipeline_copy] runs has the pipeline id of the component the cycle
    starts at (the sink of a playback pipeline, the source of a capture
    pipeline). *)
Theorem pipeline_copy_within_pipeline (drv : nat -> comp_ops) (fuel : nat)
    (p : nat) (s s' : sys) (r : Z) (t : list event) :
  pipeline_copy drv fuel p s = Ok r s' t ->
  exists pl src first d0,
    ppls s !! p = Some pl /\
    source_comp pl = Some src /\
    (exists sd, comps s !! src = Some sd /\
       (if direction sd =? SOF_IPC_STREAM_PLAYBACK then sink_comp pl
        else source_comp pl) = Some first) /\
    comps s !! first = Some d0 /\
    forall c, c ∈ copied t ->
      exists d, comps s !! c = Some d /\
                comp_pipeline_id d = comp_pipeline_id d0.
Proof.
  intros H. unfold pipeline_copy in H.
  apply bind_inv in H. destruct H as (pl & s0 & t0 & t1 & H0 & H & ->).
  apply get_ppl_inv in H0. destruct H0 as (Hpl & -> & ->).
  apply bind_inv in H. destruct H as (src & s0 & t0 & t2 & H0 & H & ->).
  apply deref_inv in H0. destruct H0 as (Hsrc & -> & ->).
  apply bind_inv in H. destruct H as (sd & s0 & t0 & t3 & H0 & H & ->).
  apply get_comp_inv in H0. destruct H0 as (Hsd & -> & ->).
  apply bind_inv in H. destruct H as (first & s0 & t0 & t4 & H0 & H & ->).
  apply deref_inv in H0. destruct H0 as (Hfirst & -> & ->).
  apply bind_inv in H. destruct H as (e & s1 & t5 & t6 & Hw & H & ->).
  cbn [app].
  assert (Ht6 : copied t6 = []).
  { apply bind_inv in H. destruct H as (u & s2 & t7 & t8 & H1 & H2 & ->).
    minv. rewrite app_nil_r. destruct (e <? 0); minv; reflexivity. }
  rewrite copied_app, Ht6, app_nil_r.
  destruct (comps s !! first) as [d0 |] eqn:Hd0.
  2: { destruct fuel; [discriminate |].
       cbn [pipeline_comp_copy] in Hw. unfold bind at 1 in Hw.
       unfold get_comp, deref in Hw. rewrite Hd0 in Hw. discriminate Hw. }
  exists pl, src, first, d0. repeat split; try assumption.
  { exists sd. split; assumption. }
  intros c Hc.
  pose proof (has_copy_within drv first fuel
                {| start := first; posn := dummy_posn; data_p := p;
                   cmd := 0 |} eq_refl _ _ _ _ _ _ Hw
                (comp_pipeline_id d0)) as [_ HF].
  { intros st Hst. congruence. }
  unfold copied in Hc. apply list_elem_of_omap in Hc.
  destruct Hc as (ev & Hin & Hev).
  rewrite Forall_forall in HF. specialize (HF ev Hin).
  destruct ev; try discriminate. injection Hev as ->. exact HF.
Qed.

Lemma pipeline_copy_within_pipeline_witness :
  exists d,
    comps (joined_sys COMP_STATE_ACTIVE COMP_STATE_ACTIVE COMP_STATE_ACTIVE
             COMP_STATE_ACTIVE 0 COMP_STATE_ACTIVE) !! 1%nat = Some d /\
    comp_pipeline_id d = 1.
Proof.
  destruct (pipeline_copy (fun _ => fsm_driver 0) 5 1
              (joined_sys COMP_STATE_ACTIVE COMP_STATE_ACTIVE
                 COMP_STATE_ACTIVE COMP_STATE_ACTIVE 0 COMP_STATE_ACTIVE))
    as [r s' t | |] eqn:E;
    [| vm_compute in E; discriminate E | vm_compute in E; discriminate E].
  destruct (pipeline_copy_within_pipeline _ _ _ _ _ _ _ E)
    as (pl & src & first & d0 & Hpl & Hsrc & (sd & Hsd & Hfirst) & Hd0
        & Hall).
  vm_compute in Hpl. injection Hpl as <-.
  cbn in Hsrc. injection Hsrc as <-.
  vm_compute in Hsd. injection Hsd as <-.
  vm_compute in Hfirst. injection Hfirst as <-.
  vm_compute in Hd0. injection Hd0 as <-.
  destruct (Hall 1%nat) as (d & Hd & Hid).
  { vm_compute in E. injection E as _ _ <-.
    apply list_elem_of_singleton. reflexivity. }
  exists d. split; [exact Hd | exact Hid].
Defined.
(** ** Registry look-ups *)

Section RegistryProps.

Variable me : Z.
Variable s : sys.
Variable pipeline_id dir : Z.

Lemma local_component_dec (icd : ipc_comp_dev) :
  (negb (icd_type icd =? COMP_TYPE_COMPONENT) = false /\
   negb (cpu_is_me me (icd_core icd)) = false /\ local_component me icd) \/
  ((negb (icd_type icd =? COMP_TYPE_COMPONENT) = true \/
    negb (icd_type icd =? COMP_TYPE_COMPONENT) = false /\
    negb (cpu_is_me me (icd_core icd)) = true) /\
   ~ local_component me icd).
Proof.
  unfold local_component, cpu_is_me.
  destruct (Z.eqb_spec (icd_type icd) COMP_TYPE_COMPONENT);
    destruct (Z.eqb_spec (icd_core icd) me); cbn; intuition congruence.
Qed.

(** The first loop returns the first local component of the pipeline without
    a buffer in the direction, and [None] when there is none. *)
Lemma ipc_get_ppl_comp_module_spec (comp_list : list ipc_comp_dev) :
  registry_ok me comp_list s dir ->
  exists r,
    ipc_get_ppl_comp_module me comp_list pipeline_id dir s = Ok r s [] /\
    match r with
    | Some icd =>
        icd ∈ comp_list /\ local_component me icd /\
        exists cd, comps s !! icd_ref icd = Some cd /\
                   comp_pipeline_id cd = pipeline_id /\
                   comp_buffer_list cd dir = []
    | None =>
        forall icd cd, icd ∈ comp_list -> local_component me icd ->
          comps s !! icd_ref icd = Some cd ->
          comp_pipeline_id cd = pipeline_id ->
          comp_buffer_list cd dir <> []
    end.
Proof.
  induction comp_list as [| icd rest IH]; intros Hok.
  - exists None. split; [reflexivity |]. intros icd cd Hin.
    apply elem_of_nil in Hin. contradiction.
  - assert (Hrest : registry_ok me rest s dir).
    { intros x Hx. apply Hok. right. exact Hx. }
    destruct (IH Hrest) as (r & Hr & Hspec).
    assert (Hskip : ~ local_component me icd \/
              (exists cd, comps s !! icd_ref icd = Some cd /\
                 (comp_pipeline_id cd =? pipeline_id) &&
                 match comp_buffer_list cd dir with
                 | [] => true | _ => false end = false) ->
              exists r',
                match r' with
                | Some x => x ∈ icd :: rest /\ local_component me x /\
                    exists cd, comps s !! icd_ref x = Some cd /\
                               comp_pipeline_id cd = pipeline_id /\
                               comp_buffer_list cd dir = []
                | None =>
                    forall x cd, x ∈ icd :: rest -> local_component me x ->
                      comps s !! icd_ref x = Some cd ->
                      comp_pipeline_id cd = pipeline_id ->
                      comp_buffer_list cd dir <> []
                end /\ r' = r).
    { intros Hcase. exists r. split; [| reflexivity].
      destruct r as [x |].
      - destruct Hspec as (Hin & Hrest'). split; [right; exact Hin | exact Hrest'].
      - intros x cd Hin Hloc Hcd Hid.
        apply elem_of_cons in Hin. destruct Hin as [-> | Hin];
          [| eapply Hspec; eassumption].
        destruct Hcase as [Hn | (cd' & Hcd' & Hb)]; [contradiction |].
        assert (cd' = cd) by congruence. subst cd'.
        rewrite <- Hid, Z.eqb_refl in Hb. cbn [andb] in Hb.
        intros E. rewrite E in Hb. discriminate Hb. }
    cbn [ipc_get_ppl_comp_module].
    destruct (local_component_dec icd) as [(E1 & E2 & Hloc) | ([E1 | [E1 E2]] & Hn)].
    + rewrite E1, E2.
      destruct (Hok icd ltac:(left) Hloc) as (cd & Hcd & _).
      erewrite bind_get_comp by exact Hcd.
      destruct ((comp_pipeline_id cd =? pipeline_id) &&
                match comp_buffer_list cd dir with
                | [] => true | _ => false end) eqn:Eb.
      * exists (Some icd). split; [reflexivity |].
        apply andb_prop in Eb. destruct Eb as [Eb1 Eb2].
        apply Z.eqb_eq in Eb1.
        split; [left |]. split; [exact Hloc |].
        exists cd. repeat split; try assumption.
        destruct (comp_buffer_list cd dir); [reflexivity | discriminate].
      * destruct Hskip as (r' & Hr' & ->); [right; eauto |].
        exists r. split; assumption.
    + rewrite E1. destruct Hskip as (r' & Hr' & ->); [left; exact Hn |].
      exists r. split; assumption.
    + rewrite E1, E2. destruct Hskip as (r' & Hr' & ->); [left; exact Hn |].
      exists r. split; assumption.
Qed.

(** The second loop, when no local component of the pipeline is without a
    buffer in the direction: it never takes the head of an empty list for a
    buffer. *)
Lemma ipc_get_ppl_comp_connected_spec (comp_list : list ipc_comp_dev) :
  registry_ok me comp_list s dir ->
  (forall icd cd, icd ∈ comp_list -> local_component me icd ->
     comps s !! icd_ref icd = Some cd ->
     comp_pipeline_id cd = pipeline_id ->
     comp_buffer_list cd dir <> []) ->
  exists r,
    ipc_get_ppl_comp_connected me comp_list pipeline_id dir s = Ok r s [] /\
    forall icd, r = Some icd ->
      icd ∈ comp_list /\ local_component me icd /\
      exists cd, comps s !! icd_ref icd = Some cd /\
                 pipeline_end s pipeline_id dir cd.
Proof.
  induction comp_list as [| icd rest IH]; intros Hok Hne.
  - exists None. split; [reflexivity |]. intros icd [=].
  - assert (Hrest : registry_ok me rest s dir).
    { intros x Hx. apply Hok. right. exact Hx. }
    assert (Hne' : forall x cd, x ∈ rest -> local_component me x ->
              comps s !! icd_ref x = Some cd ->
              comp_pipeline_id cd = pipeline_id ->
              comp_buffer_list cd dir <> []).
    { intros x cd Hx. apply Hne. right. exact Hx. }
    destruct (IH Hrest Hne') as (r & Hr & Hspec).
    assert (Hskip : exists r',
              ipc_get_ppl_comp_connected me rest pipeline_id dir s
              = Ok r' s [] /\
              forall x, r' = Some x ->
                x ∈ icd :: rest /\ local_component me x /\
                exists cd, comps s !! icd_ref x = Some cd /\
                           pipeline_end s pipeline_id dir cd).
    { exists r. split; [exact Hr |]. intros x Hx.
      destruct (Hspec x Hx) as (Hin & Hrest'). split; [right; exact Hin |].
      exact Hrest'. }
    cbn [ipc_get_ppl_comp_connected].
    destruct (local_component_dec icd)
      as [(E1 & E2 & Hloc) | ([E1 | [E1 E2]] & Hn)];
      [| rewrite E1; exact Hskip | rewrite E1, E2; exact Hskip].
    rewrite E1, E2.
    destruct (Hok icd ltac:(left) Hloc) as (cd & Hcd & Hbuf).
    erewrite bind_get_comp by exact Hcd.
    destruct (Z.eqb_spec (comp_pipeline_id cd) pipeline_id) as [Hid | Hid];
      [| exact Hskip].
    destruct (comp_buffer_list cd dir) as [| b bl] eqn:El.
    { exfalso. eapply (Hne icd cd); try eassumption. left. }
    cbn [head]. rewrite bind_deref.
    destruct (Hbuf b eq_refl) as (bd & Hbd & Hc).
    erewrite bind_get_buf by exact Hbd.
    destruct (buffer_get_comp bd dir) as [c' |] eqn:Ec; [| exact Hskip].
    destruct (Hc c' eq_refl) as [d' Hd'].
    erewrite bind_get_comp by exact Hd'.
    destruct (Z.eqb_spec (comp_pipeline_id d') pipeline_id) as [Hid' | Hid'];
      cbn [negb]; [exact Hskip |].
    exists (Some icd). split; [reflexivity |].
    intros x [= <-]. split; [left |]. split; [exact Hloc |].
    exists cd. split; [exact Hcd |]. split; [exact Hid |].
    right. exists b, bd, c', d'. rewrite El. auto.
Qed.

End RegistryProps.

(** X28. [ipc_get_ppl_comp], which finds the source and the sink component
    handed to [pipeline_complete].  Over a registry whose local component
    entries point into the arena it always returns, reading only (it never
    takes the head of an empty buffer list for a buffer); what it returns is
    an entry of the registry for a component on this core that is an end of
    the pipeline in the given direction: a component of the pipeline with no
    buffer in that direction, or whose first buffer there leads to a
    component of another pipeline. *)
Theorem ipc_get_ppl_comp_finds_end (me : Z) (comp_list : list ipc_comp_dev)
    (pipeline_id dir : Z) (s : sys) :
  registry_ok me comp_list s dir ->
  exists r,
    ipc_get_ppl_comp me comp_list pipeline_id dir s = Ok r s [] /\
    forall icd, r = Some icd ->
      icd ∈ comp_list /\ local_component me icd /\
      exists cd, comps s !! icd_ref icd = Some cd /\
                 pipeline_end s pipeline_id dir cd.
Proof.
  intros Hok. unfold ipc_get_ppl_comp.
  destruct (ipc_get_ppl_comp_module_spec me s pipeline_id dir comp_list Hok)
    as (r1 & Hr1 & Hspec1).
  rewrite (bind_ok _ _ _ _ _ _ Hr1). cbn [with_prefix].
  destruct r1 as [icd |].
  - exists (Some icd). split; [reflexivity |].
    intros x [= <-]. destruct Hspec1 as (Hin & Hloc & cd & Hcd & Hid & Hl).
    split; [exact Hin |]. split; [exact Hloc |].
    exists cd. split; [exact Hcd |]. split; [exact Hid | left; exact Hl].
  - destruct (ipc_get_ppl_comp_connected_spec me s pipeline_id dir comp_list
                Hok Hspec1) as (r & Hr & Hspec).
    exists r. rewrite Hr. split; [reflexivity | exact Hspec].
Qed.

Lemma joined_registry_ok :
  registry_ok 0 joined_registry
    (joined_sys COMP_STATE_READY COMP_STATE_READY COMP_STATE_READY
       COMP_STATE_READY 0 COMP_STATE_READY) PPL_DIR_DOWNSTREAM.
Proof.
  intros icd Hin [Hty _]. unfold joined_registry in Hin.
  repeat match goal with
  | H : _ ∈ _ :: _ |- _ => apply elem_of_cons in H as [-> | H]
  | H : _ ∈ [] |- _ => apply elem_of_nil in H; contradiction
  end; try discriminate Hty;
    (eexists; split; [vm_compute; reflexivity |]);
    intros b Hb; vm_compute in Hb; try discriminate Hb;
    injection Hb as <-;
    (eexists; split; [vm_compute; reflexivity |]);
    intros c' Hc; vm_compute in Hc; injection Hc as <-;
    eexists; vm_compute; reflexivity.
Qed.

Lemma ipc_get_ppl_comp_finds_end_witness :
  exists r,
    ipc_get_ppl_sink_comp 0 joined_registry 1
      (joined_sys COMP_STATE_READY COMP_STATE_READY COMP_STATE_READY
         COMP_STATE_READY 0 COMP_STATE_READY)
    = Ok r (joined_sys COMP_STATE_READY COMP_STATE_READY COMP_STATE_READY
              COMP_STATE_READY 0 COMP_STATE_READY) [] /\
    forall icd, r = Some icd ->
      icd ∈ joined_registry /\ local_component 0 icd /\
      exists cd,
        comps (joined_sys COMP_STATE_READY COMP_STATE_READY
                 COMP_STATE_READY COMP_STATE_READY 0 COMP_STATE_READY)
          !! icd_ref icd = Some cd /\
        pipeline_end (joined_sys COMP_STATE_READY COMP_STATE_READY
                        COMP_STATE_READY COMP_STATE_READY 0
                        COMP_STATE_READY) 1 PPL_DIR_DOWNSTREAM cd.
Proof.
  exact (ipc_get_ppl_comp_finds_end 0 joined_registry 1 PPL_DIR_DOWNSTREAM
           _ joined_registry_ok).
Defined.
